(** * A segregated free-list allocator (mm.c), embedded and verified

    The allocator of [mm.c] keeps every piece of state in the heap it
    manages: a table of 20 list heads, a prologue, boundary-tagged blocks
    and an epilogue.  The embedding below follows the C text macro by macro
    and function by function.

    - Memory is byte addressed; a word is four bytes, little endian.
    - The lab is built for ILP32: [size_t], [unsigned int] and pointers are
      32 bits wide (the link slots at [bp] and [bp + WSIZE] hold one pointer
      each).  Unsigned arithmetic wraps modulo [2^32] and is written out.
    - Pointer arithmetic is the arithmetic of the C abstract machine and is
      done in [Z]; a pointer stored in memory occupies one word.
    - Every function threads the program state [heap] explicitly.

    The cache simulator of the same repository ([csim.c]) is embedded in
    the module [Csim], after the definitions for the allocator. *)

From Stdlib Require Import ZArith List Lia Bool.
Import ListNotations.
Local Open Scope Z_scope.

(** ** Bytes and words *)

Definition mem_t := Z -> Z.

Definition load8 (m : mem_t) (a : Z) : Z := m a mod 256.

Definition store8 (m : mem_t) (a v : Z) : mem_t :=
  fun x => if x =? a then v mod 256 else m x.

Definition load32 (m : mem_t) (a : Z) : Z :=
  load8 m a + 256 * load8 m (a + 1) + 65536 * load8 m (a + 2)
  + 16777216 * load8 m (a + 3).

Definition store32 (m : mem_t) (a v : Z) : mem_t :=
  store8 (store8 (store8 (store8 m a v) (a + 1) (v / 256))
                 (a + 2) (v / 65536)) (a + 3) (v / 16777216).

(** [memcpy(dst, src, n)]: the [n] bytes at [src] are copied to [dst]. *)
Definition memcpy (m : mem_t) (dst src n : Z) : mem_t :=
  fun x => if (dst <=? x) && (x <? dst + n) then m (src + (x - dst)) else m x.

(** ** 32-bit unsigned arithmetic *)

Definition wrap (x : Z) : Z := x mod 4294967296.
Definition add32 (a b : Z) : Z := wrap (a + b).
Definition sub32 (a b : Z) : Z := wrap (a - b).
Definition mul32 (a b : Z) : Z := wrap (a * b).
Definition SIZE_MAX : Z := 4294967295.

(** [(void* )-1], also what [(long)p == -1] tests for. *)
Definition MINUS_ONE : Z := 4294967295.

(** ** Program state *)

Record heap : Type := mkHeap {
  mem : mem_t;          (* the bytes *)
  seg_list : Z;         (* the global [void** seg_list] *)
  mem_start : Z;        (* provider: first byte of the heap *)
  mem_brk : Z;          (* provider: current break *)
  mem_max_addr : Z      (* provider: the break may not pass this address *)
}.

Definition set_mem (h : heap) (m : mem_t) : heap :=
  mkHeap m (seg_list h) (mem_start h) (mem_brk h) (mem_max_addr h).

Definition set_seg_list (h : heap) (p : Z) : heap :=
  mkHeap (mem h) p (mem_start h) (mem_brk h) (mem_max_addr h).

(** ** The heap provider (memlib) *)

(** Modelled from the spec: [memlib.c] is not part of the sources.  The heap
    provider's [extend(n)] grows the heap by exactly [n] bytes at the tail
    and returns the address of the first added byte; on failure it returns
    the sentinel [(void* )-1] and changes nothing.  It refuses when the break
    would pass its limit. *)
Definition mem_sbrk (h : heap) (incr : Z) : Z * heap :=
  if mem_brk h + incr <=? mem_max_addr h
  then (mem_brk h,
        mkHeap (mem h) (seg_list h) (mem_start h) (mem_brk h + incr)
               (mem_max_addr h))
  else (MINUS_ONE, h).

(** Modelled from the spec: the provider's [lo()], the fixed low address. *)
Definition mem_heap_lo (h : heap) : Z := mem_start h.

(** Modelled from the spec: the provider's [hi()], the current exclusive
    high address. *)
Definition mem_heap_hi (h : heap) : Z := mem_brk h.

(** ** Constants and macros *)

Definition NULL : Z := 0.
Definition WSIZE : Z := 4.
Definition DSIZE : Z := 8.
Definition CHUNKSIZE : Z := 4096.
Definition LIST_LIMIT : Z := 20.
Definition PTR_SIZE : Z := 4.     (* sizeof(void* ) *)

Definition MAX (x y : Z) : Z := if x >? y then x else y.

Definition PACK (size alloc : Z) : Z := Z.lor size alloc.

Definition GET (h : heap) (p : Z) : Z := load32 (mem h) p.
Definition PUT (h : heap) (p val : Z) : heap :=
  set_mem h (store32 (mem h) p val).

Definition GET_SIZE (h : heap) (p : Z) : Z := Z.land (GET h p) (Z.lnot 7).
Definition GET_ALLOC (h : heap) (p : Z) : Z := Z.land (GET h p) 1.

Definition HDRP (bp : Z) : Z := bp - WSIZE.
Definition FTRP (h : heap) (bp : Z) : Z := bp + GET_SIZE h (HDRP bp) - DSIZE.

Definition NEXT_BLKP (h : heap) (bp : Z) : Z := bp + GET_SIZE h (bp - WSIZE).
Definition PREV_BLKP (h : heap) (bp : Z) : Z := bp - GET_SIZE h (bp - DSIZE).

Definition PRED_PTR (bp : Z) : Z := bp.
Definition SUCC_PTR (bp : Z) : Z := bp + WSIZE.

Definition GET_PRED (h : heap) (bp : Z) : Z := load32 (mem h) (PRED_PTR bp).
Definition SET_PRED (h : heap) (bp ptr : Z) : heap :=
  set_mem h (store32 (mem h) (PRED_PTR bp) ptr).
Definition GET_SUCC (h : heap) (bp : Z) : Z := load32 (mem h) (SUCC_PTR bp).
Definition SET_SUCC (h : heap) (bp ptr : Z) : heap :=
  set_mem h (store32 (mem h) (SUCC_PTR bp) ptr).

(** [seg_list[i]] as an rvalue and as an lvalue. *)
Definition seg_slot (h : heap) (i : Z) : Z := seg_list h + PTR_SIZE * i.
Definition seg_get (h : heap) (i : Z) : Z := load32 (mem h) (seg_slot h i).
Definition seg_set (h : heap) (i p : Z) : heap :=
  set_mem h (store32 (mem h) (seg_slot h i) p).

(** ** Size classes *)

Definition get_list_index (size : Z) : Z :=
  if size <=? 16 then 0 else
  if size <=? 24 then 1 else
  if size <=? 32 then 2 else
  if size <=? 40 then 3 else
  if size <=? 48 then 4 else
  if size <=? 56 then 5 else
  if size <=? 64 then 6 else
  if size <=? 72 then 7 else
  if size <=? 80 then 8 else
  if size <=? 88 then 9 else
  if size <=? 96 then 10 else
  if size <=? 104 then 11 else
  if size <=? 112 then 12 else
  if size <=? 128 then 13 else
  if size <=? 256 then 14 else
  if size <=? 512 then 15 else
  if size <=? 1024 then 16 else
  if size <=? 2048 then 17 else
  if size <=? 4096 then 18 else 19.

(** ** Free-list maintenance *)

Definition insert_node (h : heap) (bp size : Z) : heap :=
  let index := get_list_index size in
  let root := seg_get h index in
  let h := SET_SUCC h bp root in
  let h := SET_PRED h bp NULL in
  let h := if negb (root =? NULL) then SET_PRED h root bp else h in
  seg_set h index bp.

Definition delete_node (h : heap) (bp : Z) : heap :=
  let size := GET_SIZE h (HDRP bp) in
  let index := get_list_index size in
  let h :=
    if negb (GET_PRED h bp =? NULL)
    then SET_SUCC h (GET_PRED h bp) (GET_SUCC h bp)
    else seg_set h index (GET_SUCC h bp) in
  if negb (GET_SUCC h bp =? NULL)
  then SET_PRED h (GET_SUCC h bp) (GET_PRED h bp)
  else h.

(** ** Coalescing *)

Definition coalesce (h : heap) (bp : Z) : Z * heap :=
  let prev_alloc := GET_ALLOC h (FTRP h (PREV_BLKP h bp)) in
  let next_alloc := GET_ALLOC h (HDRP (NEXT_BLKP h bp)) in
  let size := GET_SIZE h (HDRP bp) in
  if negb (prev_alloc =? 0) && negb (next_alloc =? 0) then
    (* case 1 *)
    (bp, insert_node h bp size)
  else if negb (prev_alloc =? 0) && (next_alloc =? 0) then
    (* case 2 *)
    let h := delete_node h (NEXT_BLKP h bp) in
    let size := add32 size (GET_SIZE h (HDRP (NEXT_BLKP h bp))) in
    let h := PUT h (HDRP bp) (PACK size 0) in
    let h := PUT h (FTRP h bp) (PACK size 0) in
    (bp, insert_node h bp size)
  else if (prev_alloc =? 0) && negb (next_alloc =? 0) then
    (* case 3 *)
    let h := delete_node h (PREV_BLKP h bp) in
    let size := add32 size (GET_SIZE h (HDRP (PREV_BLKP h bp))) in
    let h := PUT h (FTRP h bp) (PACK size 0) in
    let h := PUT h (HDRP (PREV_BLKP h bp)) (PACK size 0) in
    let bp := PREV_BLKP h bp in
    (bp, insert_node h bp size)
  else
    (* case 4 *)
    let h := delete_node h (PREV_BLKP h bp) in
    let h := delete_node h (NEXT_BLKP h bp) in
    let size :=
      add32 size (add32 (GET_SIZE h (HDRP (PREV_BLKP h bp)))
                        (GET_SIZE h (FTRP h (NEXT_BLKP h bp)))) in
    let h := PUT h (HDRP (PREV_BLKP h bp)) (PACK size 0) in
    let h := PUT h (FTRP h (NEXT_BLKP h bp)) (PACK size 0) in
    let bp := PREV_BLKP h bp in
    (bp, insert_node h bp size).

(** ** Heap extension *)

Definition extend_heap (h : heap) (words : Z) : Z * heap :=
  let size :=
    if negb (words mod 2 =? 0) then mul32 (add32 words 1) WSIZE
    else mul32 words WSIZE in
  let (bp, h) := mem_sbrk h size in
  if bp =? MINUS_ONE then (NULL, h)
  else
    let h := PUT h (HDRP bp) (PACK size 0) in
    let h := PUT h (FTRP h bp) (PACK size 0) in
    let h := PUT h (HDRP (NEXT_BLKP h bp)) (PACK 0 1) in
    coalesce h bp.

(** ** Placement *)

Definition place (h : heap) (bp asize : Z) : heap :=
  let csize := GET_SIZE h (HDRP bp) in
  let h := delete_node h bp in
  if 2 * DSIZE <=? sub32 csize asize then
    let h := PUT h (HDRP bp) (PACK asize 1) in
    let h := PUT h (FTRP h bp) (PACK asize 1) in
    let bp := NEXT_BLKP h bp in
    let h := PUT h (HDRP bp) (PACK (sub32 csize asize) 0) in
    let h := PUT h (FTRP h bp) (PACK (sub32 csize asize) 0) in
    insert_node h bp (sub32 csize asize)
  else
    let h := PUT h (HDRP bp) (PACK csize 1) in
    PUT h (FTRP h bp) (PACK csize 1).

(** The inner [for] of [find_fit] walks one class list.  It either returns
    from [find_fit] at once ([Found]) or falls out of the loop with the
    running [best_bp] and [min_diff] ([Best]).  A list in memory need not
    end, so the walk takes fuel; [None] means the fuel ran out. *)
Inductive scan : Type :=
| Found (bp : Z)
| Best (best_bp min_diff : Z).

Fixpoint scan_list (fuel : nat) (h : heap) (asize bp best_bp min_diff : Z)
  : option scan :=
  match fuel with
  | O => None
  | S fuel' =>
    if bp =? NULL then Some (Best best_bp min_diff)
    else
      let curr_size := GET_SIZE h (HDRP bp) in
      if asize <=? curr_size then
        let diff := sub32 curr_size asize in
        if diff =? 0 then Some (Found bp)
        else if diff <? min_diff
             then scan_list fuel' h asize (GET_SUCC h bp) bp diff
             else scan_list fuel' h asize (GET_SUCC h bp) best_bp min_diff
      else scan_list fuel' h asize (GET_SUCC h bp) best_bp min_diff
  end.

(** The outer [for (i = index; i < LIST_LIMIT; i++)]; [n] counts the
    classes still to visit. *)
Fixpoint find_fit_from (n fuel : nat) (h : heap) (asize i best_bp min_diff : Z)
  : option Z :=
  match n with
  | O => Some best_bp
  | S n' =>
    match scan_list fuel h asize (seg_get h i) best_bp min_diff with
    | None => None
    | Some (Found bp) => Some bp
    | Some (Best best_bp min_diff) =>
      if negb (best_bp =? NULL) then Some best_bp
      else find_fit_from n' fuel h asize (i + 1) best_bp min_diff
    end
  end.

Definition find_fit (fuel : nat) (h : heap) (asize : Z) : option Z :=
  let index := get_list_index asize in
  find_fit_from (Z.to_nat (LIST_LIMIT - index)) fuel h asize index
                NULL SIZE_MAX.

(** ** Public interface *)

(** The rounding shared by [mm_malloc] and [mm_realloc]. *)
Definition adjust_size (size : Z) : Z :=
  if size <=? DSIZE then 2 * DSIZE
  else mul32 DSIZE (add32 (add32 size DSIZE) (DSIZE - 1) / DSIZE).

Fixpoint clear_seg_list (n : nat) (h : heap) (i : Z) : heap :=
  match n with
  | O => h
  | S n' => clear_seg_list n' (seg_set h i NULL) (i + 1)
  end.

Definition mm_init (h : heap) : Z * heap :=
  let (p, h) := mem_sbrk h (LIST_LIMIT * PTR_SIZE + 4 * WSIZE) in
  let h := set_seg_list h p in
  if p =? MINUS_ONE then (-1, h)
  else
    let h := clear_seg_list (Z.to_nat LIST_LIMIT) h 0 in
    let prologue_ptr := seg_list h + LIST_LIMIT * PTR_SIZE in
    let h := PUT h prologue_ptr 0 in
    let h := PUT h (prologue_ptr + 1 * WSIZE) (PACK DSIZE 1) in
    let h := PUT h (prologue_ptr + 2 * WSIZE) (PACK DSIZE 1) in
    let h := PUT h (prologue_ptr + 3 * WSIZE) (PACK 0 1) in
    let (bp, h) := extend_heap h (CHUNKSIZE / WSIZE) in
    if bp =? NULL then (-1, h) else (0, h).

Definition mm_malloc (fuel : nat) (h : heap) (size : Z) : option (Z * heap) :=
  if size =? 0 then Some (NULL, h)
  else
    let asize := adjust_size size in
    match find_fit fuel h asize with
    | None => None
    | Some bp =>
      if negb (bp =? NULL) then Some (bp, place h bp asize)
      else
        let extendsize := MAX asize CHUNKSIZE in
        let (bp, h) := extend_heap h (extendsize / WSIZE) in
        if bp =? NULL then Some (NULL, h)
        else Some (bp, place h bp asize)
    end.

Definition mm_free (h : heap) (ptr : Z) : heap :=
  if ptr =? NULL then h
  else
    let size := GET_SIZE h (HDRP ptr) in
    let h := PUT h (HDRP ptr) (PACK size 0) in
    let h := PUT h (FTRP h ptr) (PACK size 0) in
    snd (coalesce h ptr).

Definition mm_realloc (fuel : nat) (h : heap) (ptr size : Z)
  : option (Z * heap) :=
  if ptr =? NULL then mm_malloc fuel h size
  else if size =? 0 then Some (NULL, mm_free h ptr)
  else
    let old_size := GET_SIZE h (HDRP ptr) in
    let new_size := adjust_size size in
    (* policy 1 *)
    if new_size <=? old_size then Some (ptr, h)
    else
      let next_bp := NEXT_BLKP h ptr in
      let next_alloc := GET_ALLOC h (HDRP next_bp) in
      let next_size := GET_SIZE h (HDRP next_bp) in
      (* policy 2 *)
      let combine_size := add32 old_size next_size in
      if (next_alloc =? 0) && (new_size <=? combine_size) then
        let h := delete_node h next_bp in
        let h := PUT h (HDRP ptr) (PACK combine_size 1) in
        let h := PUT h (FTRP h ptr) (PACK combine_size 1) in
        Some (ptr, h)
      (* policy 3 *)
      else if next_size =? 0 then
        let extend_needed := sub32 new_size old_size in
        let (p, h) := mem_sbrk h extend_needed in
        if p =? MINUS_ONE then Some (NULL, h)
        else
          let h := PUT h (HDRP ptr) (PACK new_size 1) in
          let h := PUT h (FTRP h ptr) (PACK new_size 1) in
          let h := PUT h (HDRP (NEXT_BLKP h ptr)) (PACK 0 1) in
          Some (ptr, h)
      else
        (* fallback *)
        match mm_malloc fuel h size with
        | None => None
        | Some (newptr, h) =>
          if newptr =? NULL then Some (NULL, h)
          else
            let h := set_mem h (memcpy (mem h) newptr ptr
                                       (sub32 old_size DSIZE)) in
            Some (newptr, mm_free h ptr)
        end.

(** ** The consistency checker *)

(** [mm_check] leaves through [exit(1)] at the first violation. *)
Inductive check_error : Type :=
| BadPrologue
| NotAligned (bp : Z)
| HeaderFooterMismatch (bp : Z)
| NotCoalesced (bp : Z)
| BadEpilogue
| OutOfBounds (curr i : Z)
| AllocatedInList (curr i : Z)
| PredInconsistent (curr : Z)
| CountMismatch (by_heap by_list : Z).

Inductive outcome (A : Type) : Type :=
| Return (a : A)
| Exit (e : check_error).
Arguments Return {A} a.
Arguments Exit {A} e.

Definition checkblock (h : heap) (bp : Z) : outcome unit :=
  if negb (bp mod 8 =? 0) then Exit (NotAligned bp)
  else if negb (GET h (HDRP bp) =? GET h (FTRP h bp))
       then Exit (HeaderFooterMismatch bp)
       else Return tt.

(** The walk over the blocks; it returns the block pointer at which the
    loop stopped and the number of free blocks met. *)
Fixpoint check_heap (fuel : nat) (h : heap) (bp free_count_by_heap : Z)
  : option (outcome (Z * Z)) :=
  match fuel with
  | O => None
  | S fuel' =>
    if GET_SIZE h (HDRP bp) >? 0 then
      match checkblock h bp with
      | Exit e => Some (Exit e)
      | Return _ =>
        if (GET_ALLOC h (HDRP bp) =? 0)
           && (GET_ALLOC h (HDRP (NEXT_BLKP h bp)) =? 0)
        then Some (Exit (NotCoalesced bp))
        else
          let free_count_by_heap :=
            if GET_ALLOC h (HDRP bp) =? 0 then free_count_by_heap + 1
            else free_count_by_heap in
          check_heap fuel' h (NEXT_BLKP h bp) free_count_by_heap
      end
    else Some (Return (bp, free_count_by_heap))
  end.

(** The [while (curr != NULL)] over one free list. *)
Fixpoint check_list (fuel : nat) (h : heap) (i curr prev free_count_by_list : Z)
  : option (outcome Z) :=
  match fuel with
  | O => None
  | S fuel' =>
    if curr =? NULL then Some (Return free_count_by_list)
    else if (curr <? mem_heap_lo h) || (curr >? mem_heap_hi h)
    then Some (Exit (OutOfBounds curr i))
    else if negb (GET_ALLOC h (HDRP curr) =? 0)
    then Some (Exit (AllocatedInList curr i))
    else if negb (prev =? NULL) && negb (GET_PRED h curr =? prev)
    then Some (Exit (PredInconsistent curr))
    else check_list fuel' h i (GET_SUCC h curr) curr (free_count_by_list + 1)
  end.

(** The [for (i = 0; i < LIST_LIMIT; i++)] over the table. *)
Fixpoint check_lists (n fuel : nat) (h : heap) (i free_count_by_list : Z)
  : option (outcome Z) :=
  match n with
  | O => Some (Return free_count_by_list)
  | S n' =>
    match check_list fuel h i (seg_get h i) NULL free_count_by_list with
    | None => None
    | Some (Exit e) => Some (Exit e)
    | Some (Return c) => check_lists n' fuel h (i + 1) c
    end
  end.

Definition mm_check (fuel : nat) (h : heap) : option (outcome Z) :=
  let heap_start := seg_list h + LIST_LIMIT * PTR_SIZE + 2 * WSIZE in
  if negb (GET_SIZE h (HDRP heap_start) =? DSIZE)
     || (GET_ALLOC h (HDRP heap_start) =? 0)
  then Some (Exit BadPrologue)
  else
    match check_heap fuel h heap_start 0 with
    | None => None
    | Some (Exit e) => Some (Exit e)
    | Some (Return (bp, free_count_by_heap)) =>
      if negb (GET_SIZE h (HDRP bp) =? 0) || (GET_ALLOC h (HDRP bp) =? 0)
      then Some (Exit BadEpilogue)
      else
        match check_lists (Z.to_nat LIST_LIMIT) fuel h 0 0 with
        | None => None
        | Some (Exit e) => Some (Exit e)
        | Some (Return free_count_by_list) =>
          if negb (free_count_by_heap =? free_count_by_list)
          then Some (Exit (CountMismatch free_count_by_heap
                                         free_count_by_list))
          else Some (Return 1)
        end
    end.

(** * Specification vocabulary *)

(** A block size as a tag can hold it: a multiple of 8 below [2^32]. *)
Definition valid_size (s : Z) : Prop := 0 <= s <= 4294967288 /\ s mod 8 = 0.

(** Rounding up to a multiple of 8 without wrap-around; the request rounding
    is [max(16, round_up8 (size + 8))] when nothing wraps. *)
Definition round_up8 (x : Z) : Z := 8 * ((x + 7) / 8).

(** ** Free lists as they lie in memory *)

(** [is_list h p l]: following the successor links from [p] visits exactly
    the nodes [l] and then reaches [NULL]. *)
Fixpoint is_list (h : heap) (p : Z) (l : list Z) : Prop :=
  match l with
  | [] => p = NULL
  | x :: l' => p = x /\ x <> NULL /\ is_list h (GET_SUCC h x) l'
  end.

(** [is_dll h prev p l]: the same, and each node's predecessor link holds
    the node before it ([prev] for the first). *)
Fixpoint is_dll (h : heap) (prev p : Z) (l : list Z) : Prop :=
  match l with
  | [] => p = NULL
  | x :: l' =>
    p = x /\ x <> NULL /\ GET_PRED h x = prev /\ is_dll h x (GET_SUCC h x) l'
  end.

(** The class indices [0 .. LIST_LIMIT - 1]. *)
Definition classes : list Z :=
  [0; 1; 2; 3; 4; 5; 6; 7; 8; 9; 10; 11; 12; 13; 14; 15; 16; 17; 18; 19].

(** The size of the block at [bp], read from its header. *)
Definition block_size (h : heap) (bp : Z) : Z := GET_SIZE h (HDRP bp).

(** ** [find_fit], as the design describes it *)

(** One class, from the design's words: an exact fit is returned at once;
    otherwise the candidate with the least surplus is tracked. *)
Fixpoint scan_spec (size_of : Z -> Z) (asize : Z) (l : list Z)
         (best_bp min_diff : Z) : scan :=
  match l with
  | [] => Best best_bp min_diff
  | bp :: l' =>
    if asize <=? size_of bp then
      let diff := size_of bp - asize in
      if diff =? 0 then Found bp
      else if diff <? min_diff then scan_spec size_of asize l' bp diff
           else scan_spec size_of asize l' best_bp min_diff
    else scan_spec size_of asize l' best_bp min_diff
  end.

(** [fits size_of asize l]: some block of [l] is large enough. *)
Definition fits (size_of : Z -> Z) (asize : Z) (l : list Z) : Prop :=
  exists b, In b l /\ asize <= size_of b.

(** [best_in size_of asize l r]: [r] is a block of [l] that is large enough
    and no large-enough block of [l] is smaller. *)
Definition best_in (size_of : Z -> Z) (asize : Z) (l : list Z) (r : Z) : Prop :=
  In r l /\ asize <= size_of r /\
  forall b, In b l -> asize <= size_of b -> size_of r <= size_of b.

(** [first_exact size_of asize l r]: [r] is the first block of [l], in list
    order, whose size is exactly [asize]. *)
Definition first_exact (size_of : Z -> Z) (asize : Z) (l : list Z) (r : Z) : Prop :=
  exists l1 l2, l = l1 ++ r :: l2 /\ size_of r = asize /\
                forall b, In b l1 -> size_of b <> asize.

(** What the running [best_bp] and [min_diff] of [find_fit] mean once the
    nodes [seen] of a class have been visited. *)
Definition scan_state (size_of : Z -> Z) (asize : Z) (seen : list Z)
           (best_bp min_diff : Z) : Prop :=
  (best_bp = NULL /\ min_diff = SIZE_MAX /\ ~ fits size_of asize seen) \/
  (best_bp <> NULL /\ best_in size_of asize seen best_bp /\
   min_diff = size_of best_bp - asize /\ 0 < min_diff).

(** ** The block layout *)

(** A block of the layout: its total size and its allocated bit. *)
Definition block : Type := (Z * bool)%type.

Definition tag (b : block) : Z := PACK (fst b) (if snd b then 1 else 0).

Fixpoint total (bl : list block) : Z :=
  match bl with
  | [] => 0
  | b :: bl' => fst b + total bl'
  end.

(** The payload pointer of every block when the blocks [bl] follow each
    other from payload pointer [bp]. *)
Fixpoint block_starts (bp : Z) (bl : list block) : list (Z * block) :=
  match bl with
  | [] => []
  | b :: bl' => (bp, b) :: block_starts (bp + fst b) bl'
  end.

(** Header and footer of the block at [x] both hold the block's tag. *)
Definition tagged (h : heap) (xb : Z * block) : Prop :=
  GET h (HDRP (fst xb)) = tag (snd xb) /\
  GET h (fst xb + fst (snd xb) - DSIZE) = tag (snd xb).

(** The prologue's payload pointer (what [mm_check] calls [heap_start]) and
    the payload pointer of the first real block. *)
Definition heap_start (h : heap) : Z :=
  seg_list h + LIST_LIMIT * PTR_SIZE + 2 * WSIZE.
Definition first_block (h : heap) : Z := heap_start h + DSIZE.

(** [layout h bl]: after the table come the prologue, the blocks [bl] in
    address order, and the epilogue header. *)
Definition layout (h : heap) (bl : list block) : Prop :=
  Forall (tagged h) (block_starts (heap_start h) ((DSIZE, true) :: bl)) /\
  GET h (HDRP (first_block h + total bl)) = PACK 0 1.

(** No two blocks that follow each other are both free. *)
Fixpoint no_adjacent_free (bl : list block) : Prop :=
  match bl with
  | [] => True
  | b1 :: bl' =>
    match bl' with
    | [] => True
    | b2 :: _ => ~ (snd b1 = false /\ snd b2 = false)
    end /\ no_adjacent_free bl'
  end.

(** The free lists, one list of payload pointers per class. *)
Definition lists_t : Type := Z -> list Z.

Definition upd (lists : lists_t) (i : Z) (l : list Z) : lists_t :=
  fun j => if j =? i then l else lists j.

Definition remove_node (x : Z) (l : list Z) : list Z :=
  filter (fun y => negb (y =? x)) l.

(** [x] leaves the list of class [i]. *)
Definition unlist (lists : lists_t) (i x : Z) : lists_t :=
  upd lists i (remove_node x (lists i)).

(** [x] becomes the head of the list of class [i] (LIFO). *)
Definition enlist (lists : lists_t) (i x : Z) : lists_t :=
  upd lists i (x :: lists i).

Definition sizes_ok (bl : list block) : Prop :=
  Forall (fun b : block => 16 <= fst b /\ fst b mod 8 = 0) bl.

(** Distinct nodes keep their two link words apart. *)
Definition nodes_sep (l : list Z) : Prop :=
  forall y z, In y l -> In z l -> y = z \/ y + 8 <= z \/ z + 8 <= y.

(** Two states of one provider and one table: only the bytes differ. *)
Definition same_provider (h h' : heap) : Prop :=
  seg_list h' = seg_list h /\ mem_start h' = mem_start h /\
  mem_brk h' = mem_brk h /\ mem_max_addr h' = mem_max_addr h.

(** The part of the design's invariants that also holds inside an
    operation, while a free block may be off the lists: for a heap whose
    blocks are [bl] and whose free lists are [lists]. *)
Record heap_pre (h : heap) (bl : list block) (lists : lists_t) : Prop := {
  (* the table sits at an aligned, non-null address *)
  pre_seg : 0 < seg_list h /\ seg_list h mod 8 = 0;
  (* the epilogue ends the heap, and addresses fit a pointer *)
  pre_brk : first_block h + total bl = mem_brk h /\ mem_brk h < MINUS_ONE;
  (* block sizes are at least 16 and multiples of 8 *)
  pre_sizes : sizes_ok bl;
  (* header equals footer, prologue and epilogue are in place *)
  pre_layout : layout h bl;
  (* every class is a doubly linked list whose head has no predecessor *)
  pre_dll : Forall (fun i => is_dll h NULL (seg_get h i) (lists i)) classes;
  (* a listed block is a free block of its list's class *)
  pre_listed :
    Forall (fun i =>
              Forall (fun x => exists s,
                          In (x, (s, false)) (block_starts (first_block h) bl)
                          /\ get_list_index s = i)
                     (lists i)) classes
}.

(** Every free block is on the list of its class. *)
Definition all_free_listed (bp : Z) (bl : list block) (lists : lists_t) : Prop :=
  Forall (fun xb : Z * block =>
            snd (snd xb) = false ->
            In (fst xb) (lists (get_list_index (fst (snd xb)))))
         (block_starts bp bl).

(** Inside an operation the free blocks at the addresses [X] are off the
    lists; every other free block is listed. *)
Definition free_listed_except (bp : Z) (bl : list block) (lists : lists_t)
           (X : list Z) : Prop :=
  forall y b, In (y, b) (block_starts bp bl) -> snd b = false -> ~ In y X ->
              In y (lists (get_list_index (fst b))).

Definition unlisted (lists : lists_t) (X : list Z) : Prop :=
  forall j y, 0 <= j < LIST_LIMIT -> In y (lists j) -> ~ In y X.

(** The design's invariants between calls. *)
Record heap_inv (h : heap) (bl : list block) (lists : lists_t) : Prop := {
  inv_pre : heap_pre h bl lists;
  inv_free : all_free_listed (first_block h) bl lists
}.

(** The bytes [extend_heap(words)] asks for: [words] rounded up to even,
    times the word size. *)
Definition extend_size (words : Z) : Z :=
  if words mod 2 =? 0 then 4 * words else 4 * (words + 1).

(** ** What [mm_malloc] promises *)

(** The block at [p] is allocated, lies in the heap, is 8-byte aligned and
    has at least [size] payload bytes. *)
Definition provides (h : heap) (p size : Z) : Prop :=
  p mod 8 = 0 /\
  GET_ALLOC h (HDRP p) = 1 /\
  size <= block_size h p - DSIZE /\
  first_block h <= p /\ p + block_size h p <= mem_brk h.

(** The provider refuses to grow the heap by [incr] bytes: [mem_sbrk(incr)]
    answers [(void* )-1]. *)
Definition provider_refuses (h : heap) (incr : Z) : Prop :=
  fst (mem_sbrk h incr) = MINUS_ONE.

(** No fit was found, and the provider refuses the [max(asize, CHUNKSIZE)]
    bytes that [mm_malloc] then asks it for. *)
Definition extension_fails (fuel : nat) (h : heap) (size : Z) : Prop :=
  find_fit fuel h (adjust_size size) = Some NULL /\
  provider_refuses h (MAX (adjust_size size) CHUNKSIZE).

(** [mm_malloc(size)] returns null or a pointer that provides [size] bytes,
    and null exactly when [size] is 0 or the extension fails. *)
Definition malloc_contract (fuel : nat) (h : heap) (size : Z) : Prop :=
  exists p h',
    mm_malloc fuel h size = Some (p, h') /\
    (p = NULL \/ provides h' p size) /\
    (p = NULL <-> size = 0 \/ extension_fails fuel h size).

(** ** Coalescing, on the layout *)

(** The neighbours of a block whose predecessors are [pre] and whose
    successors are [post]; the prologue and the epilogue stand in at the
    ends of the heap. *)
Definition prologue : block := (DSIZE, true).
Definition epilogue : block := (0, true).
Definition prev_block (pre : list block) : block := last pre prologue.
Definition next_block (post : list block) : block := hd epilogue post.

(** The bytes a free neighbour contributes to the merged block. *)
Definition absorb (b : block) : Z := if snd b then 0 else fst b.

Definition coalesced_size (pre : list block) (s : Z) (post : list block) : Z :=
  absorb (prev_block pre) + s + absorb (next_block post).

Definition coalesced_start (bp : Z) (pre : list block) : Z :=
  bp - absorb (prev_block pre).

(** The four cases: each free neighbour disappears into the merged block. *)
Definition coalesced_blocks (pre : list block) (s : Z) (post : list block)
  : list block :=
  (if snd (prev_block pre) then pre else removelast pre)
    ++ (coalesced_size pre s post, false)
    :: (if snd (next_block post) then post else tl post).

(** Each free neighbour leaves its list; the merged block becomes the head
    of the list of its size. *)
Definition coalesced_lists (lists : lists_t) (bp : Z) (pre : list block)
           (s : Z) (post : list block) : lists_t :=
  let prev := prev_block pre in
  let next := next_block post in
  let lists1 :=
    if snd prev then lists
    else unlist lists (get_list_index (fst prev)) (bp - fst prev) in
  let lists2 :=
    if snd next then lists1
    else unlist lists1 (get_list_index (fst next)) (bp + s) in
  enlist lists2 (get_list_index (coalesced_size pre s post))
         (coalesced_start bp pre).

(** ** Example heaps *)

(** A fresh provider: 20 MB of zeroed bytes from address 4096 on. *)
Definition heap_fresh : heap :=
  mkHeap (fun _ => 0) 0 4096 4096 (4096 + 20 * 1048576).

(** After [mm_init]: one free block of 4096 bytes at 4192. *)
Definition heap_init : heap := snd (mm_init heap_fresh).

Definition lists_init : lists_t := fun i => if i =? 18 then [4192] else [].

(** The state after a call of [mm_malloc] that does not run out of fuel. *)
Definition after_malloc (h : heap) (size : Z) : heap :=
  match mm_malloc 100 h size with
  | Some (_, h') => h'
  | None => h
  end.

(** After [mm_init] and [mm_malloc(24)]: an allocated block of 32 bytes at
    4192 and a free block of 4064 bytes at 4224. *)
Definition heap_one : heap := after_malloc heap_init 24.

Definition lists_one : lists_t := fun i => if i =? 18 then [4224] else [].

(** After [mm_init] and [mm_malloc(4088)]: the only block, 4096 bytes at
    4192, is allocated and ends the heap. *)
Definition heap_full : heap := after_malloc heap_init 4088.

Definition lists_none : lists_t := fun _ => [].

(** Three free blocks of one class (129..256 bytes) between allocated
    16-byte blocks: 200 bytes at 4192, 144 bytes at 4408 and 256 bytes at
    4568, freed in this order; the rest of the heap is a free block at
    4840. *)
Definition heap_three : heap :=
  let h := after_malloc heap_init 192 in
  let h := after_malloc h 8 in
  let h := after_malloc h 136 in
  let h := after_malloc h 8 in
  let h := after_malloc h 248 in
  let h := after_malloc h 8 in
  mm_free (mm_free (mm_free h 4192) 4408) 4568.

Definition lists_three : lists_t :=
  fun i => if i =? 14 then [4568; 4408; 4192]
           else if i =? 18 then [4840] else [].

(** ** What [mm_check] audits *)

(** The blocks [bps] that the walk of [mm_check] meets from [bp] on, and the
    block pointer [stop] of size 0 at which it ends. *)
Fixpoint heap_walk (h : heap) (bp : Z) (bps : list Z) (stop : Z) : Prop :=
  match bps with
  | [] => bp = stop /\ block_size h stop = 0
  | x :: bps' =>
    x = bp /\ 0 < block_size h x /\ heap_walk h (NEXT_BLKP h x) bps' stop
  end.

(** Each node after the first names the node before it as predecessor. *)
Fixpoint pred_chain (h : heap) (prev : Z) (l : list Z) : Prop :=
  match l with
  | [] => True
  | x :: l' => (prev <> NULL -> GET_PRED h x = prev) /\ pred_chain h x l'
  end.

Definition is_free (h : heap) (bp : Z) : bool := GET_ALLOC h (HDRP bp) =? 0.

Definition count_free (h : heap) (bps : list Z) : Z :=
  Z.of_nat (length (filter (is_free h) bps)).

(** The number of nodes in the lists of the [n] classes from [i] on. *)
Fixpoint listed_from (lists : lists_t) (i : Z) (n : nat) : Z :=
  match n with
  | O => 0
  | S n' => Z.of_nat (length (lists i)) + listed_from lists (i + 1) n'
  end.

(** The audits of [mm_check], for a heap whose walk meets [bps] and whose
    free lists are [lists]. *)
Record audits (h : heap) (bps : list Z) (stop : Z) (lists : lists_t) : Prop := {
  (* prologue and epilogue shape *)
  aud_prologue :
    block_size h (heap_start h) = DSIZE /\
    GET_ALLOC h (HDRP (heap_start h)) <> 0;
  aud_walk : heap_walk h (heap_start h) bps stop;
  aud_epilogue : GET_ALLOC h (HDRP stop) <> 0;
  (* alignment, header equals footer *)
  aud_blocks :
    Forall (fun x => x mod 8 = 0 /\ GET h (HDRP x) = GET h (FTRP h x)) bps;
  (* no two adjacent free blocks *)
  aud_coalesced :
    Forall (fun x => ~ (GET_ALLOC h (HDRP x) = 0 /\
                        GET_ALLOC h (HDRP (NEXT_BLKP h x)) = 0)) bps;
  (* the lists end; their pointers are in bounds and their blocks free *)
  aud_lists : Forall (fun i => is_list h (seg_get h i) (lists i)) classes;
  aud_listed :
    Forall (fun i =>
              Forall (fun x => mem_heap_lo h <= x <= mem_heap_hi h /\
                               GET_ALLOC h (HDRP x) = 0) (lists i)) classes;
  (* predecessor links are consistent *)
  aud_pred : Forall (fun i => pred_chain h NULL (lists i)) classes;
  (* both counts of free blocks agree *)
  aud_count : count_free h bps = listed_from lists 0 (Z.to_nat LIST_LIMIT)
}.

(** The heap after [mm_init] with its one free block of 4096 bytes (class
    18) linked into the list of class 3 instead. *)
Definition heap_misfiled : heap := seg_set (seg_set heap_init 18 NULL) 3 4192.

Definition lists_misfiled : lists_t := fun i => if i =? 3 then [4192] else [].


(** ** Counting free blocks *)

(** The payload pointers of the free blocks when the blocks [bl] follow each
    other from [bp]. *)
Fixpoint free_starts (bp : Z) (bl : list block) : list Z :=
  match bl with
  | [] => []
  | b :: bl' =>
    (if snd b then [] else [bp]) ++ free_starts (bp + fst b) bl'
  end.

(** The nodes in the lists of the [n] classes from [i] on. *)
Fixpoint listed_nodes (lists : lists_t) (i : Z) (n : nat) : list Z :=
  match n with
  | O => []
  | S n' => lists i ++ listed_nodes lists (i + 1) n'
  end.

(** ** [mm_init], step by step *)

(** The four words [mm_init] writes after the table. *)
Definition write_prologue (h : heap) : heap :=
  let prologue_ptr := seg_list h + LIST_LIMIT * PTR_SIZE in
  let h := PUT h prologue_ptr 0 in
  let h := PUT h (prologue_ptr + 1 * WSIZE) (PACK DSIZE 1) in
  let h := PUT h (prologue_ptr + 2 * WSIZE) (PACK DSIZE 1) in
  PUT h (prologue_ptr + 3 * WSIZE) (PACK 0 1).

(** The state of [mm_init] between writing the epilogue and extending the
    heap. *)
Definition mm_init_empty (h : heap) : heap :=
  write_prologue
    (clear_seg_list (Z.to_nat LIST_LIMIT)
       (set_seg_list (snd (mem_sbrk h (LIST_LIMIT * PTR_SIZE + 4 * WSIZE)))
                     (mem_brk h)) 0).

(** ** Live data *)

(** [a] is a payload byte of an allocated block when the blocks [bl] follow
    each other from [bp]. *)
Definition live (bp : Z) (bl : list block) (a : Z) : Prop :=
  exists y s, In (y, (s, true)) (block_starts bp bl) /\ y <= a < y + s - DSIZE.

(** The blocks [place] leaves where the free block of [csize] bytes was, and
    the free lists after it has run on the block at [bp]. *)
Definition placed (csize asize : Z) : list block :=
  if 16 <=? csize - asize
  then [(asize, true); (csize - asize, false)]
  else [(csize, true)].

Definition placed_lists (lists : lists_t) (bp csize asize : Z) : lists_t :=
  let lists' := unlist lists (get_list_index csize) bp in
  if 16 <=? csize - asize
  then enlist lists' (get_list_index (csize - asize)) (bp + asize)
  else lists'.

(** No free block of the heap is large enough. *)
Definition no_fit (h : heap) (bl : list block) (asize : Z) : Prop :=
  forall x s, In (x, (s, false)) (block_starts (first_block h) bl) -> s < asize.

(** ** Client traces *)

(** The states a client reaches with [mm_init], [mm_malloc], [mm_free] and
    [mm_realloc] when it keeps to the interface: [mm_init] on a provider
    with an aligned break and room for the first chunk, requests whose
    rounding does not wrap around, and [mm_free] and [mm_realloc] only of
    pointers that the allocator returned and that have not been given back
    since.  The list holds those pointers.  ([mm_realloc] of a null pointer
    is [mm_malloc], [mm_realloc] to size 0 is [mm_free].) *)
Inductive reachable : heap -> list Z -> Prop :=
| reach_init (h0 : heap) :
    0 < mem_brk h0 -> mem_brk h0 mod 8 = 0 ->
    mem_heap_lo h0 <= mem_brk h0 ->
    mem_brk h0 + 96 + 4096 <= mem_max_addr h0 ->
    mem_max_addr h0 < MINUS_ONE ->
    reachable (snd (mm_init h0)) []
| reach_malloc (h : heap) (ptrs : list Z) (fuel : nat) (size p : Z)
               (h' : heap) :
    reachable h ptrs ->
    0 <= size <= SIZE_MAX - 15 ->
    mm_malloc fuel h size = Some (p, h') ->
    reachable h' (if p =? NULL then ptrs else p :: ptrs)
| reach_free (h : heap) (ptrs : list Z) (p : Z) :
    reachable h ptrs -> In p ptrs ->
    reachable (mm_free h p) (remove_node p ptrs)
| reach_realloc (h : heap) (ptrs : list Z) (fuel : nat) (p size q : Z)
                (h' : heap) :
    reachable h ptrs -> In p ptrs ->
    0 < size <= SIZE_MAX - 15 ->
    mm_realloc fuel h p size = Some (q, h') ->
    reachable h' (if q =? NULL then ptrs else q :: remove_node p ptrs).

(** ** More example heaps *)

(** After [mm_init], [mm_malloc(24)] and [mm_malloc(24)]: allocated blocks
    of 32 bytes at 4192 and 4224 and a free block of 4032 bytes at 4256. *)
Definition heap_two : heap := after_malloc heap_one 24.

Definition lists_two : lists_t := fun i => if i =? 18 then [4256] else [].

(** [heap_one] with the tags of its first block rewritten to free, as
    [mm_free] leaves them before it coalesces: two free blocks in a row,
    the first on no list. *)
Definition heap_split : heap :=
  PUT (PUT heap_one (4192 - 4) (PACK 32 0)) (4192 + 32 - 8) (PACK 32 0).

(** [heap_full] with the tags of its only block rewritten to free: a free
    block that is on no list. *)
Definition heap_lost : heap :=
  PUT (PUT heap_full (4192 - 4) (PACK 4096 0)) (4192 + 4096 - 8) (PACK 4096 0).

(** Providers without room: for the table, and for the first chunk. *)
Definition heap_tiny : heap := mkHeap (fun _ => 0) 0 4096 4096 4100.
Definition heap_small : heap := mkHeap (fun _ => 0) 0 4096 4096 (4096 + 200).

(** [mm_init] on [heap_small]: the table, prologue and epilogue are in
    place, the first chunk was refused. *)
Definition heap_empty : heap := snd (mm_init heap_small).

(** * The cache simulator (csim.c)

    The second program of the repository simulates a set-associative cache
    with LRU replacement on a trace of memory accesses and counts hits,
    misses and evictions.  Its state is the global variables, threaded
    explicitly; [printf] appends to [output].

    - [int] variables are numbers in [Z]; signed overflow is undefined in C,
      and the counters stay below [2^31] on every trace of fewer than [2^31]
      accesses.
    - [unsigned int] arithmetic wraps modulo [2^32], [unsigned long long]
      values are below [2^64].
    - The shifts [1 << s], [address >> b] and [address >> (s + b)] are
      defined in C for [0 <= s <= 30], [0 <= b] and [s + b < 64]; the
      theorems are stated for these parameters.
    - [malloc] is taken to succeed; an access to [lines[i]] or [sets[i]]
      past the end of the array, undefined in C, reads a zeroed line and
      writes nothing.
    - [main] is taken up after the options are parsed ([getopt], [atoi] and
      [help] are not part of the embedding), the trace file is the list of
      records that [fscanf] reads, and [freeCache], which only releases
      memory, is left out. *)

Module Csim.

Record CacheLine : Type := mkLine {
  valid : Z;            (* int *)
  tag : Z;              (* unsigned long long *)
  last_access : Z       (* unsigned int *)
}.

Record CacheSet : Type := mkSet { lines : list CacheLine }.

Record Cache : Type := mkCache { sets : list CacheSet }.

(** What the program writes to standard output. *)
Inductive printed : Type :=
| hit_text                          (* " hit" *)
| miss_text                         (* " miss" *)
| eviction_text                     (* " eviction" *)
| access_text (op addr size : Z)    (* "%c %llx,%d" *)
| newline_text                      (* "\n" *)
| missing_arguments_text.           (* "Missing arguments\n" *)

Record state : Type := mkState {
  s : Z;
  E : Z;
  b : Z;
  verbose : Z;
  hit_count : Z;
  miss_count : Z;
  eviction_count : Z;
  global_timer : Z;
  cache : Cache;
  output : list printed
}.

Definition UINT_MAX : Z := 2 ^ 32 - 1.

Definition set_cache (st : state) (c : Cache) : state :=
  mkState (s st) (E st) (b st) (verbose st) (hit_count st) (miss_count st)
          (eviction_count st) (global_timer st) c (output st).

Definition set_hit_count (st : state) (n : Z) : state :=
  mkState (s st) (E st) (b st) (verbose st) n (miss_count st)
          (eviction_count st) (global_timer st) (cache st) (output st).

Definition set_miss_count (st : state) (n : Z) : state :=
  mkState (s st) (E st) (b st) (verbose st) (hit_count st) n
          (eviction_count st) (global_timer st) (cache st) (output st).

Definition set_eviction_count (st : state) (n : Z) : state :=
  mkState (s st) (E st) (b st) (verbose st) (hit_count st) (miss_count st)
          n (global_timer st) (cache st) (output st).

Definition set_global_timer (st : state) (n : Z) : state :=
  mkState (s st) (E st) (b st) (verbose st) (hit_count st) (miss_count st)
          (eviction_count st) n (cache st) (output st).

(** [if (verbose) printf(...)] and [printf(...)]. *)
Definition printf (st : state) (p : printed) : state :=
  mkState (s st) (E st) (b st) (verbose st) (hit_count st) (miss_count st)
          (eviction_count st) (global_timer st) (cache st) (output st ++ [p]).

Definition printf_verbose (st : state) (p : printed) : state :=
  if verbose st =? 0 then st else printf st p.

(** The state in which [main] starts: the initial values of the globals. *)
Definition initial : state :=
  mkState 0 0 0 0 0 0 0 0 (mkCache []) [].

(** ** Arrays *)

Definition zero_line : CacheLine := mkLine 0 0 0.

(** [a[i]] and [a[i] = f(a[i])]. *)
Definition line_at (ls : list CacheLine) (i : Z) : CacheLine :=
  nth (Z.to_nat i) ls zero_line.

Definition set_at (c : Cache) (i : Z) : CacheSet :=
  nth (Z.to_nat i) (sets c) (mkSet []).

Fixpoint update {A : Type} (l : list A) (n : nat) (f : A -> A) : list A :=
  match l, n with
  | [], _ => []
  | x :: l', O => f x :: l'
  | x :: l', S n' => x :: update l' n' f
  end.

(** [cache.sets[set_index].lines[i] = f(cache.sets[set_index].lines[i])]. *)
Definition update_line (c : Cache) (set_index i : Z)
           (f : CacheLine -> CacheLine) : Cache :=
  mkCache (update (sets c) (Z.to_nat set_index)
                  (fun set => mkSet (update (lines set) (Z.to_nat i) f))).

(** ** [allocateCache] *)

Definition allocateCache (st : state) : state :=
  let S := Z.shiftl 1 (s st) in
  set_cache st
    (mkCache (repeat (mkSet (repeat zero_line (Z.to_nat (E st))))
                     (Z.to_nat S))).

(** ** [accessCache] *)

(** [(address >> b) & ((1 << s) - 1)].  The mask is computed in [int]:
    the definition is the C expression for [0 <= s <= 30] and
    [0 <= b < 64], where the shifts are defined. *)
Definition set_index_of (st : state) (address : Z) : Z :=
  Z.land (Z.shiftr address (b st)) (Z.shiftl 1 (s st) - 1).

(** [address >> (s + b)] on a 64-bit [address]: the definition is the C
    expression for [0 <= s + b < 64]. *)
Definition tag_of (st : state) (address : Z) : Z :=
  Z.shiftr address (s st + b st).

(** How the [for] loop of [accessCache] ends: with a hit at line [i], or
    after [E] lines with the values of [empty] and [lru]. *)
Inductive found : Type :=
| hit_at (i : Z)
| no_hit (empty lru : Z).

(** The loop from [i] on, with [n] lines to go. *)
Fixpoint accessCache_loop (n : nat) (ls : list CacheLine) (tg : Z)
         (i empty lru min_time : Z) : found :=
  match n with
  | O => no_hit empty lru
  | S n' =>
    let l := line_at ls i in
    if negb (valid l =? 0) then
      if tag l =? tg then hit_at i
      else if last_access l <? min_time
           then accessCache_loop n' ls tg (i + 1) empty i (last_access l)
           else accessCache_loop n' ls tg (i + 1) empty lru min_time
    else if empty =? -1
         then accessCache_loop n' ls tg (i + 1) i lru min_time
         else accessCache_loop n' ls tg (i + 1) empty lru min_time
  end.

Definition accessCache (st : state) (address : Z) : state :=
  let set_index := set_index_of st address in
  let tg := tag_of st address in
  let set := set_at (cache st) set_index in
  let st := set_global_timer st ((global_timer st + 1) mod 2 ^ 32) in
  match accessCache_loop (Z.to_nat (E st)) (lines set) tg 0 (-1) 0 UINT_MAX with
  | hit_at i =>
    let st := set_hit_count st (hit_count st + 1) in
    let st :=
      set_cache st
        (update_line (cache st) set_index i
                     (fun l => mkLine (valid l) (tag l) (global_timer st))) in
    printf_verbose st hit_text
  | no_hit empty lru =>
    let st := set_miss_count st (miss_count st + 1) in
    let st := printf_verbose st miss_text in
    let target := if negb (empty =? -1) then empty else lru in
    let st :=
      if empty =? -1
      then printf_verbose (set_eviction_count st (eviction_count st + 1))
                          eviction_text
      else st in
    set_cache st
      (update_line (cache st) set_index target
                   (fun _ => mkLine 1 tg (global_timer st)))
  end.

(** ** [main] *)

(** One record of the trace file as [fscanf] leaves it in [op], [addr] and
    [size]. *)
Definition record : Type := (Z * Z * Z)%type.

Definition op_I : Z := 73.
Definition op_M : Z := 77.

(** One round of the [while] loop. *)
Definition main_step (st : state) (r : record) : state :=
  let '(op, addr, size) := r in
  if op =? op_I then st
  else
    let st := printf_verbose st (access_text op addr size) in
    let st := accessCache st addr in
    let st := if op =? op_M then accessCache st addr else st in
    printf_verbose st newline_text.

Definition main_loop (st : state) (trace : list record) : state :=
  fold_left main_step trace st.

(** How [main] ends: [exit(1)], [return 1], or [return 0] after
    [printSummary(hit_count, miss_count, eviction_count)]. *)
Inductive ending : Type :=
| exit_1
| return_1
| summary (hits misses evictions : Z).

(** [main] after the options are parsed into the state [st]: [trace_file]
    is [None] when no [-t] option was given, [Some None] when [fopen]
    fails and [Some (Some trace)] when the file holds [trace].  The
    definition describes the program for [0 < s <= 30], [0 < E], [0 < b],
    [s + b < 64] and fewer than [2^31] accesses; for other options the
    program runs into undefined behaviour (a negative [E], a shift out of
    range, a counter past [INT_MAX]) and nothing is claimed. *)
Definition main (st : state) (trace_file : option (option (list record)))
  : ending * state :=
  if (s st =? 0) || (E st =? 0) || (b st =? 0)
     || match trace_file with None => true | Some _ => false end
  then (exit_1, printf st missing_arguments_text)
  else
    let st := allocateCache st in
    match trace_file with
    | Some (Some trace) =>
      let st := main_loop st trace in
      (summary (hit_count st) (miss_count st) (eviction_count st), st)
    | _ => (return_1, st)
    end.

(** The number of calls of [accessCache] that a trace causes. *)
Definition accesses_of (r : record) : Z :=
  let '(op, _, _) := r in
  if op =? op_I then 0 else if op =? op_M then 2 else 1.

Fixpoint accesses (trace : list record) : Z :=
  match trace with
  | [] => 0
  | r :: trace' => accesses_of r + accesses trace'
  end.



(** ** What the simulator is to compute: LRU replacement

    The textbook policy, by set: the blocks that are resident, most recently
    used first.  An access to a resident block is a hit and moves the block
    to the front; any other access is a miss, which puts the block in front
    and, when the set already holds [E] blocks, evicts the last one. *)






(** ** Well-formed simulator states *)

(** The parameters for which the shifts are defined, and the cache as
    [allocateCache] lays it out. *)
Record shaped (st : state) : Prop := {
  shaped_s : 0 <= s st <= 30;
  shaped_E : 0 < E st;
  shaped_b : 0 <= b st;
  shaped_sb : s st + b st < 64;
  shaped_sets : Z.of_nat (length (sets (cache st))) = 2 ^ s st;
  shaped_lines :
    Forall (fun set => Z.of_nat (length (lines set)) = E st) (sets (cache st));
  (* [last_access] is an [unsigned int] *)
  shaped_stamps :
    Forall (fun set =>
              Forall (fun l => 0 <= last_access l <= UINT_MAX) (lines set))
           (sets (cache st))
}.

(** The line [i] of the set holds the block with tag [tg]. *)
Definition holds (ls : list CacheLine) (i : Z) (tg : Z) : Prop :=
  valid (line_at ls i) <> 0 /\ tag (line_at ls i) = tg.

(** Some line of the set that [address] maps to holds its block. *)
Definition cached (st : state) (address : Z) : Prop :=
  exists i, 0 <= i < E st /\
    holds (lines (set_at (cache st) (set_index_of st address))) i
          (tag_of st address).

(** Every line of the set is in use. *)
Definition full (st : state) (address : Z) : Prop :=
  forall i, 0 <= i < E st ->
    valid (line_at (lines (set_at (cache st) (set_index_of st address))) i) <> 0.

(** ** The simulator against the policy *)






(** ** Example runs *)

Definition op_L : Z := 76.
Definition op_S : Z := 83.

(** The globals after [./csim -s 4 -E 1 -b 4 -t <file>]: 16 sets of one
    line, blocks of 16 bytes. *)
Definition example_options : state :=
  mkState 4 1 4 0 0 0 0 0 (mkCache []) [].

(** Loads, stores and modifies at 0x10, 0x20, 0x22, 0x18, 0x110, 0x210 and
    0x12. *)
Definition example_trace : list record :=
  [(op_L, 16, 1); (op_M, 32, 1); (op_L, 34, 1); (op_S, 24, 1);
   (op_L, 272, 1); (op_L, 528, 1); (op_M, 18, 1)].

(** The allocated cache, empty and after an access to 0x10. *)
Definition example_cold : state := allocateCache example_options.
Definition example_warm : state := accessCache example_cold 16.

End Csim.
(** * Properties *)

(** ** Memory *)

Lemma load8_range (m : mem_t) (a : Z) : 0 <= load8 m a < 256.
Proof. unfold load8. apply Z.mod_pos_bound. lia. Qed.

Lemma load32_range (m : mem_t) (a : Z) : 0 <= load32 m a < 4294967296.
Proof.
  unfold load32.
  pose proof (load8_range m a). pose proof (load8_range m (a + 1)).
  pose proof (load8_range m (a + 2)). pose proof (load8_range m (a + 3)).
  lia.
Qed.

Lemma store32_byte_other (m : mem_t) (a v x : Z) :
  x < a \/ a + 4 <= x -> store32 m a v x = m x.
Proof.
  intros Hx. unfold store32, store8.
  repeat match goal with
         | |- context [if ?x =? ?y then _ else _] =>
           destruct (Z.eqb_spec x y); [lia|]
         end.
  reflexivity.
Qed.

Lemma load32_store32_other (m : mem_t) (a v b : Z) :
  b + 4 <= a \/ a + 4 <= b -> load32 (store32 m a v) b = load32 m b.
Proof.
  intros Hd. unfold load32, load8.
  rewrite !store32_byte_other by lia. reflexivity.
Qed.

Lemma load32_store32_same (m : mem_t) (a v : Z) :
  load32 (store32 m a v) a = wrap v.
Proof.
  unfold load32, load8, store32, store8, wrap.
  rewrite !Z.eqb_refl.
  repeat match goal with
         | |- context [if ?x =? ?y then _ else _] =>
           destruct (Z.eqb_spec x y); [lia|]
         end.
  rewrite !Z.mod_mod by lia.
  pose proof (Z.div_mod v 256 ltac:(lia)).
  pose proof (Z.div_mod (v / 256) 256 ltac:(lia)).
  pose proof (Z.div_mod (v / 65536) 256 ltac:(lia)).
  pose proof (Z.div_mod (v / 16777216) 256 ltac:(lia)).
  pose proof (Z.mod_pos_bound v 256 ltac:(lia)).
  pose proof (Z.mod_pos_bound (v / 256) 256 ltac:(lia)).
  pose proof (Z.mod_pos_bound (v / 65536) 256 ltac:(lia)).
  pose proof (Z.mod_pos_bound (v / 16777216) 256 ltac:(lia)).
  assert (E1 : v / 65536 = v / 256 / 256) by (rewrite Z.div_div by lia; reflexivity).
  assert (E2 : v / 16777216 = v / 65536 / 256) by (rewrite Z.div_div by lia; reflexivity).
  assert (E3 : v / 16777216 / 256 = v / 4294967296) by (rewrite Z.div_div by lia; reflexivity).
  pose proof (Z.div_mod v 4294967296 ltac:(lia)).
  lia.
Qed.

Lemma wrap_small (x : Z) : 0 <= x < 4294967296 -> wrap x = x.
Proof. intros. unfold wrap. apply Z.mod_small. lia. Qed.

Lemma wrap_range (x : Z) : 0 <= wrap x < 4294967296.
Proof. unfold wrap. apply Z.mod_pos_bound. lia. Qed.

(** ** Tags *)

Lemma land_lnot7 (x : Z) : 0 <= x -> Z.land x (Z.lnot 7) = x - x mod 8.
Proof.
  intros Hx.
  rewrite <- Z.ldiff_land.
  change 7 with (Z.ones 3).
  rewrite Z.ldiff_ones_r by lia.
  rewrite Z.shiftl_mul_pow2, Z.shiftr_div_pow2 by lia.
  change (2 ^ 3) with 8.
  pose proof (Z.div_mod x 8 ltac:(lia)). lia.
Qed.

Lemma land_1 (x : Z) : Z.land x 1 = x mod 2.
Proof. change 1 with (Z.ones 1) at 1. rewrite Z.land_ones by lia. reflexivity. Qed.

Lemma PACK_add (size alloc : Z) :
  0 <= size -> size mod 8 = 0 -> alloc = 0 \/ alloc = 1 ->
  PACK size alloc = size + alloc.
Proof.
  intros Hs Hm Ha. unfold PACK.
  assert (E : Z.land size alloc = 0).
  { destruct Ha as [->| ->]; [apply Z.land_0_r|].
    rewrite land_1.
    pose proof (Z.div_mod size 8 ltac:(lia)).
    pose proof (Z.div_mod size 2 ltac:(lia)).
    pose proof (Z.mod_pos_bound size 2 ltac:(lia)). lia. }
  rewrite <- Z.lxor_lor by exact E.
  symmetry. apply Z.add_nocarry_lxor. exact E.
Qed.

Lemma GET_range (h : heap) (p : Z) : 0 <= GET h p < 4294967296.
Proof. apply load32_range. Qed.

Lemma GET_SIZE_eq (h : heap) (p : Z) : GET_SIZE h p = GET h p - GET h p mod 8.
Proof. unfold GET_SIZE. apply land_lnot7. apply GET_range. Qed.

Lemma GET_SIZE_range (h : heap) (p : Z) : 0 <= GET_SIZE h p <= 4294967288.
Proof.
  rewrite GET_SIZE_eq. pose proof (GET_range h p).
  pose proof (Z.div_mod (GET h p) 8 ltac:(lia)).
  pose proof (Z.mod_pos_bound (GET h p) 8 ltac:(lia)). lia.
Qed.

Lemma GET_SIZE_mod8 (h : heap) (p : Z) : GET_SIZE h p mod 8 = 0.
Proof.
  rewrite GET_SIZE_eq.
  pose proof (Z.div_mod (GET h p) 8 ltac:(lia)).
  replace (GET h p - GET h p mod 8) with ((GET h p / 8) * 8) by lia.
  apply Z.mod_mul. lia.
Qed.

Lemma GET_ALLOC_eq (h : heap) (p : Z) : GET_ALLOC h p = GET h p mod 2.
Proof. unfold GET_ALLOC. apply land_1. Qed.


Lemma tag_decode (h : heap) (p s a : Z) :
  valid_size s -> a = 0 \/ a = 1 -> GET h p = PACK s a ->
  GET_SIZE h p = s /\ GET_ALLOC h p = a.
Proof.
  intros [Hr Hm] Ha E.
  rewrite GET_SIZE_eq, GET_ALLOC_eq, E, PACK_add by (auto; lia).
  pose proof (Z.div_mod s 8 ltac:(lia)).
  pose proof (Z.div_mod (s + a) 8 ltac:(lia)).
  pose proof (Z.mod_pos_bound (s + a) 8 ltac:(lia)).
  pose proof (Z.div_mod (s + a) 2 ltac:(lia)).
  pose proof (Z.mod_pos_bound (s + a) 2 ltac:(lia)).
  split; lia.
Qed.

Lemma PACK_range (s a : Z) :
  valid_size s -> a = 0 \/ a = 1 -> 0 <= PACK s a < 4294967296.
Proof. intros [Hr Hm] Ha. rewrite PACK_add by (auto; lia). lia. Qed.

Lemma GET_PUT_same (h : heap) (p v : Z) : GET (PUT h p v) p = wrap v.
Proof. unfold GET, PUT. simpl. apply load32_store32_same. Qed.

Lemma GET_PUT_other (h : heap) (p v q : Z) :
  q + 4 <= p \/ p + 4 <= q -> GET (PUT h p v) q = GET h q.
Proof. intros. unfold GET, PUT. simpl. apply load32_store32_other. lia. Qed.

(** ** The rounded request size *)

Lemma adjust_size_valid (size : Z) : valid_size (adjust_size size).
Proof.
  unfold adjust_size, valid_size, mul32, add32, DSIZE.
  destruct (Z.leb_spec size 8); [split; [lia|reflexivity]|].
  set (x := wrap (wrap (size + 8) + (8 - 1))).
  pose proof (wrap_range (wrap (size + 8) + (8 - 1))) as Hx. fold x in Hx.
  pose proof (Z.div_mod x 8 ltac:(lia)).
  pose proof (Z.mod_pos_bound x 8 ltac:(lia)).
  rewrite wrap_small by lia.
  split; [lia|]. rewrite Z.mul_comm. apply Z.mod_mul. lia.
Qed.


Lemma adjust_size_no_wrap (size : Z) :
  0 <= size <= SIZE_MAX - 15 ->
  adjust_size size = Z.max 16 (round_up8 (size + 8)).
Proof.
  unfold adjust_size, round_up8, mul32, add32, DSIZE, SIZE_MAX. intros Hs.
  pose proof (Z.div_mod (size + 8 + 7) 8 ltac:(lia)).
  pose proof (Z.mod_pos_bound (size + 8 + 7) 8 ltac:(lia)).
  destruct (Z.leb_spec size 8); [lia|].
  rewrite (wrap_small (size + 8)) by lia.
  rewrite (wrap_small (size + 8 + (8 - 1))) by lia.
  replace (size + 8 + (8 - 1)) with (size + 8 + 7) by lia.
  rewrite wrap_small by lia. lia.
Qed.

Lemma adjust_size_bounds (size : Z) :
  0 <= size <= SIZE_MAX - 15 ->
  16 <= adjust_size size /\ size + 8 <= adjust_size size.
Proof.
  intros Hs. rewrite adjust_size_no_wrap by assumption.
  unfold round_up8, SIZE_MAX in *.
  pose proof (Z.div_mod (size + 8 + 7) 8 ltac:(lia)).
  pose proof (Z.mod_pos_bound (size + 8 + 7) 8 ltac:(lia)). lia.
Qed.

(** ** The request rounding wraps around *)

Lemma adjust_size_wraps (size : Z) :
  SIZE_MAX - 14 <= size <= SIZE_MAX ->
  adjust_size size = Z.land (wrap (size + 15)) (Z.lnot 7) /\
  adjust_size size < 16 /\ adjust_size size < size.
Proof.
  unfold SIZE_MAX. intros Hs.
  unfold adjust_size, mul32, add32, DSIZE.
  destruct (Z.leb_spec size 8); [lia|].
  assert (E : wrap (wrap (size + 8) + (8 - 1)) = wrap (size + 15)).
  { unfold wrap. rewrite Z.add_mod_idemp_l by lia. f_equal. lia. }
  assert (E' : wrap (size + 15) = size + 15 - 4294967296).
  { unfold wrap. symmetry. apply Z.mod_unique with (q := 1); lia. }
  rewrite E, E'. set (x := size + 15 - 4294967296).
  assert (Hx : 0 <= x <= 14) by (unfold x; lia).
  rewrite land_lnot7 by lia.
  pose proof (Z.div_mod x 8 ltac:(lia)).
  pose proof (Z.mod_pos_bound x 8 ltac:(lia)).
  rewrite wrap_small by lia.
  repeat split; lia.
Qed.

(** ** [mm_realloc], policy 1 *)

(** C4: for a non-null [ptr] whose block has total size [old_size] and every
    [n > 0] with [n <= old_size - 8] (which says the same as
    [max(16, round-up-to-8(n + 8)) <= old_size]), [mm_realloc(ptr, n)]
    returns [ptr] and leaves the whole state, hence the block's header,
    footer, size and payload, as it was: nothing is split. *)
Theorem realloc_shrink_in_place (fuel : nat) (h : heap) (ptr n : Z) :
  ptr <> NULL -> 0 < n ->
  (n <= block_size h ptr - 8 <->
   Z.max 16 (round_up8 (n + 8)) <= block_size h ptr) /\
  (n <= block_size h ptr - 8 -> mm_realloc fuel h ptr n = Some (ptr, h)).
Proof.
  intros Hp Hn. unfold block_size.
  pose proof (GET_SIZE_range h (HDRP ptr)) as Hr.
  pose proof (GET_SIZE_mod8 h (HDRP ptr)) as Hm.
  set (old := GET_SIZE h (HDRP ptr)) in *.
  assert (Hiff : n <= old - 8 <-> Z.max 16 (round_up8 (n + 8)) <= old).
  { unfold round_up8.
    pose proof (Z.div_mod (n + 8 + 7) 8 ltac:(lia)).
    pose proof (Z.mod_pos_bound (n + 8 + 7) 8 ltac:(lia)).
    pose proof (Z.div_mod old 8 ltac:(lia)).
    split; intros; lia. }
  split; [exact Hiff|]. intros Hle.
  unfold mm_realloc.
  destruct (Z.eqb_spec ptr NULL); [contradiction|].
  destruct (Z.eqb_spec n 0); [lia|].
  fold old.
  rewrite adjust_size_no_wrap by (unfold SIZE_MAX; lia).
  apply Hiff in Hle.
  destruct (Z.leb_spec (Z.max 16 (round_up8 (n + 8))) old); [reflexivity|lia].
Qed.

(** ** [mm_realloc], policy 3 *)

Lemma PUT_brk (h : heap) (p v : Z) : mem_brk (PUT h p v) = mem_brk h.
Proof. reflexivity. Qed.

(** C6: when the block at [ptr] is followed by the epilogue (the next header
    has size 0) and the request does not fit in place (policy 1; policy 2
    cannot apply to a next block of size 0), [mm_realloc] asks the provider
    for exactly [new_size - old_size] bytes.  If the provider grants them,
    [ptr] is returned, header and footer of the block hold
    [(new_size, allocated)], a new epilogue [(0, allocated)] follows, and the
    old payload bytes are kept.  If the provider refuses, null is returned
    and the whole state is as it was. *)
Theorem realloc_extend_at_tail (fuel : nat) (h : heap) (ptr size : Z) :
  ptr <> NULL -> size <> 0 ->
  block_size h ptr < adjust_size size ->
  block_size h (NEXT_BLKP h ptr) = 0 ->
  let old_size := block_size h ptr in
  let new_size := adjust_size size in
  (mem_brk h + (new_size - old_size) <= mem_max_addr h ->
   mem_brk h <> MINUS_ONE ->
   exists h',
     mm_realloc fuel h ptr size = Some (ptr, h') /\
     mem_brk h' = mem_brk h + (new_size - old_size) /\
     GET h' (HDRP ptr) = PACK new_size 1 /\
     GET h' (ptr + new_size - DSIZE) = PACK new_size 1 /\
     GET h' (HDRP (ptr + new_size)) = PACK 0 1 /\
     (forall a, ptr <= a < ptr + old_size - DSIZE -> mem h' a = mem h a)) /\
  (mem_max_addr h < mem_brk h + (new_size - old_size) ->
   mm_realloc fuel h ptr size = Some (NULL, h)).
Proof.
  intros Hp Hs Hgrow Hnext old_size new_size.
  unfold block_size in *.
  pose proof (GET_SIZE_range h (HDRP ptr)) as Hr.
  pose proof (GET_SIZE_mod8 h (HDRP ptr)) as Hm.
  pose proof (adjust_size_valid size) as [Hnr Hnm].
  fold old_size in Hr, Hm, Hgrow. fold new_size in Hgrow, Hnr, Hnm.
  assert (Hstep : old_size + 8 <= new_size).
  { pose proof (Z.div_mod old_size 8 ltac:(lia)).
    pose proof (Z.div_mod new_size 8 ltac:(lia)). lia. }
  assert (Hcode :
    mm_realloc fuel h ptr size =
    (let (p, h0) := mem_sbrk h (sub32 new_size old_size) in
     if p =? MINUS_ONE then Some (NULL, h0)
     else
       let h1 := PUT h0 (HDRP ptr) (PACK new_size 1) in
       let h2 := PUT h1 (FTRP h1 ptr) (PACK new_size 1) in
       let h3 := PUT h2 (HDRP (NEXT_BLKP h2 ptr)) (PACK 0 1) in
       Some (ptr, h3))).
  { unfold mm_realloc.
    destruct (Z.eqb_spec ptr NULL); [contradiction|].
    destruct (Z.eqb_spec size 0); [contradiction|].
    fold old_size new_size.
    destruct (Z.leb_spec new_size old_size); [lia|].
    rewrite Hnext.
    assert (Ec : add32 old_size 0 = old_size).
    { unfold add32. rewrite Z.add_0_r. apply wrap_small. lia. }
    rewrite Ec.
    destruct (Z.leb_spec new_size old_size); [lia|].
    rewrite andb_false_r. simpl (0 =? 0). cbv iota. reflexivity. }
  assert (Esub : sub32 new_size old_size = new_size - old_size).
  { unfold sub32. apply wrap_small. lia. }
  rewrite Hcode, Esub. unfold mem_sbrk.
  split.
  - intros Hroom Hbrk.
    destruct (Z.leb_spec (mem_brk h + (new_size - old_size)) (mem_max_addr h)); [|lia].
    destruct (Z.eqb_spec (mem_brk h) MINUS_ONE); [contradiction|].
    cbv zeta.
    set (h0 := mkHeap _ _ _ _ _).
    set (h1 := PUT h0 (HDRP ptr) (PACK new_size 1)).
    assert (Ehdr : GET h1 (HDRP ptr) = PACK new_size 1).
    { unfold h1. rewrite GET_PUT_same. apply wrap_small.
      apply PACK_range; [split; assumption|auto]. }
    assert (Esz : GET_SIZE h1 (HDRP ptr) = new_size).
    { eapply tag_decode; [split; eassumption| |exact Ehdr]. auto. }
    assert (Eft : FTRP h1 ptr = ptr + new_size - DSIZE).
    { unfold FTRP. rewrite Esz. reflexivity. }
    rewrite Eft.
    set (h2 := PUT h1 (ptr + new_size - DSIZE) (PACK new_size 1)).
    assert (Ehdr2 : GET h2 (HDRP ptr) = PACK new_size 1).
    { unfold h2. rewrite GET_PUT_other by (unfold HDRP, WSIZE, DSIZE; lia). exact Ehdr. }
    assert (Enx : NEXT_BLKP h2 ptr = ptr + new_size).
    { unfold NEXT_BLKP. fold (HDRP ptr).
      replace (GET_SIZE h2 (HDRP ptr)) with new_size; [reflexivity|].
      symmetry. eapply tag_decode; [split; eassumption| |exact Ehdr2]. auto. }
    rewrite Enx.
    eexists. split; [reflexivity|].
    split; [reflexivity|].
    split.
    { rewrite GET_PUT_other by (unfold HDRP, WSIZE, DSIZE; lia). exact Ehdr2. }
    split.
    { rewrite GET_PUT_other by (unfold HDRP, WSIZE, DSIZE; lia).
      unfold h2. rewrite GET_PUT_same. apply wrap_small.
      apply PACK_range; [split; assumption|auto]. }
    split.
    { rewrite GET_PUT_same. reflexivity. }
    intros a Ha. unfold PUT, h2, h1, h0, PUT, HDRP, WSIZE, DSIZE in *. simpl.
    rewrite !store32_byte_other by lia. reflexivity.
  - intros Hfull.
    destruct (Z.leb_spec (mem_brk h + (new_size - old_size)) (mem_max_addr h)); [lia|].
    reflexivity.
Qed.

(** ** [find_fit] *)

Lemma block_size_range (h : heap) (bp : Z) : 0 <= block_size h bp <= 4294967288.
Proof. apply GET_SIZE_range. Qed.

Lemma is_list_nonnull (h : heap) (l : list Z) :
  forall p, is_list h p l -> forall x, In x l -> x <> NULL.
Proof.
  induction l as [|y l IH]; simpl; intros p Hl x Hx; [contradiction|].
  destruct Hl as (-> & Hy & Hl). destruct Hx as [<-|Hx]; [assumption|].
  eapply IH; eassumption.
Qed.

(** Walking the links in memory computes the scan of the list of nodes. *)
Lemma scan_list_spec (h : heap) (asize : Z) (l : list Z) :
  0 <= asize ->
  forall fuel p best_bp min_diff,
    is_list h p l -> (length l < fuel)%nat ->
    scan_list fuel h asize p best_bp min_diff =
    Some (scan_spec (block_size h) asize l best_bp min_diff).
Proof.
  intros Ha. induction l as [|x l IH]; intros fuel p best_bp min_diff Hl Hf;
    (destruct fuel as [|fuel]; [simpl in Hf; lia|]); simpl in *.
  - subst p. reflexivity.
  - destruct Hl as (-> & Hx & Hl).
    destruct (Z.eqb_spec x NULL); [contradiction|].
    fold (block_size h x).
    pose proof (block_size_range h x) as Hr.
    destruct (Z.leb_spec asize (block_size h x)).
    + assert (E : sub32 (block_size h x) asize = block_size h x - asize)
        by (apply wrap_small; lia).
      rewrite E.
      destruct (Z.eqb_spec (block_size h x - asize) 0); [reflexivity|].
      destruct (Z.ltb_spec (block_size h x - asize) min_diff);
        apply IH; (assumption || lia).
    + apply IH; (assumption || lia).
Qed.

Section ScanSpec.
Variable size_of : Z -> Z.
Variable asize : Z.
Hypothesis asize_nonneg : 0 <= asize.
Hypothesis size_of_range : forall x, 0 <= size_of x <= 4294967288.

Lemma scan_state_no_exact seen best_bp min_diff :
  scan_state size_of asize seen best_bp min_diff ->
  forall b, In b seen -> size_of b <> asize.
Proof.
  intros [(_ & _ & Hn)|(_ & (_ & _ & Hmin) & -> & Hpos)] b Hb E.
  - apply Hn. exists b. split; [assumption|lia].
  - specialize (Hmin b Hb). lia.
Qed.

Lemma scan_spec_inv (l : list Z) :
  forall seen best_bp min_diff,
    (forall x, In x l -> x <> NULL) ->
    scan_state size_of asize seen best_bp min_diff ->
    match scan_spec size_of asize l best_bp min_diff with
    | Found r =>
      r <> NULL /\ best_in size_of asize (seen ++ l) r /\
      first_exact size_of asize (seen ++ l) r
    | Best best_bp' min_diff' => scan_state size_of asize (seen ++ l) best_bp' min_diff'
    end.
Proof.
  induction l as [|x l IH]; intros seen best_bp min_diff Hnn Hst; simpl.
  - rewrite app_nil_r. exact Hst.
  - assert (Hx : x <> NULL) by (apply Hnn; left; reflexivity).
    assert (Hnn' : forall y, In y l -> y <> NULL)
      by (intros y Hy; apply Hnn; right; exact Hy).
    assert (Eapp : seen ++ x :: l = (seen ++ [x]) ++ l)
      by (rewrite <- app_assoc; reflexivity).
    pose proof (size_of_range x) as Hr.
    destruct (Z.leb_spec asize (size_of x)) as [Hle|Hlt].
    + destruct (Z.eqb_spec (size_of x - asize) 0) as [E0|N0].
      * (* exact fit *)
        split; [exact Hx|]. split.
        -- split; [apply in_or_app; right; left; reflexivity|].
           split; [lia|]. intros b _ Hb. lia.
        -- exists seen, l. split; [reflexivity|]. split; [lia|].
           apply (scan_state_no_exact _ _ _ Hst).
      * destruct (Z.ltb_spec (size_of x - asize) min_diff) as [Hlt|Hge].
        -- (* a new best *)
           rewrite Eapp. apply IH; [exact Hnn'|].
           right. split; [exact Hx|]. split; [|split; [reflexivity|lia]].
           split; [apply in_or_app; right; left; reflexivity|].
           split; [exact Hle|].
           intros b Hb Hbs. apply in_app_or in Hb.
           destruct Hb as [Hb|[<-|[]]]; [|lia].
           destruct Hst as [(_ & _ & Hn)|(_ & (_ & _ & Hmin) & -> & _)].
           ++ exfalso. apply Hn. exists b. split; assumption.
           ++ specialize (Hmin b Hb Hbs). lia.
        -- (* the old best stays *)
           rewrite Eapp. apply IH; [exact Hnn'|].
           destruct Hst as [(_ & -> & _)|(Hb & (Hin & Hbl & Hmin) & -> & Hpos)].
           ++ unfold SIZE_MAX in Hge. lia.
           ++ right. split; [exact Hb|]. split; [|split; [reflexivity|exact Hpos]].
              split; [apply in_or_app; left; exact Hin|].
              split; [exact Hbl|].
              intros b Hb' Hbs. apply in_app_or in Hb'.
              destruct Hb' as [Hb'|[<-|[]]]; [apply Hmin; assumption|lia].
    + (* too small *)
      rewrite Eapp. apply IH; [exact Hnn'|].
      destruct Hst as [(-> & -> & Hn)|(Hb & (Hin & Hbl & Hmin) & -> & Hpos)].
      * left. split; [reflexivity|]. split; [reflexivity|].
        intros (b & Hb & Hbs). apply in_app_or in Hb.
        destruct Hb as [Hb|[<-|[]]]; [|lia].
        apply Hn. exists b. split; assumption.
      * right. split; [exact Hb|]. split; [|split; [reflexivity|exact Hpos]].
        split; [apply in_or_app; left; exact Hin|].
        split; [exact Hbl|].
        intros b Hb' Hbs. apply in_app_or in Hb'.
        destruct Hb' as [Hb'|[<-|[]]]; [apply Hmin; assumption|lia].
Qed.
End ScanSpec.

(** The classes [i .. 19] are visited in order; the first class with a
    large-enough block decides. *)
Lemma find_fit_from_spec (fuel : nat) (h : heap) (asize : Z) (lists : lists_t) :
  0 <= asize ->
  forall n i,
    i + Z.of_nat n = LIST_LIMIT ->
    (forall j, i <= j < LIST_LIMIT -> is_list h (seg_get h j) (lists j)) ->
    (forall j, i <= j < LIST_LIMIT -> (length (lists j) < fuel)%nat) ->
    exists r,
      find_fit_from n fuel h asize i NULL SIZE_MAX = Some r /\
      ((r = NULL /\
        forall j, i <= j < LIST_LIMIT -> ~ fits (block_size h) asize (lists j))
       \/
       (r <> NULL /\
        exists c, i <= c < LIST_LIMIT /\
          (forall j, i <= j < c -> ~ fits (block_size h) asize (lists j)) /\
          best_in (block_size h) asize (lists c) r /\
          (forall b, In b (lists c) -> block_size h b = asize ->
                     first_exact (block_size h) asize (lists c) r))).
Proof.
  intros Ha. induction n as [|n IH]; intros i Hi Hl Hf.
  - exists NULL. split; [reflexivity|]. left. split; [reflexivity|].
    intros j Hj. lia.
  - cbn [find_fit_from].
    assert (Hin : i <= i < LIST_LIMIT) by lia.
    rewrite (scan_list_spec h asize (lists i) Ha fuel _ NULL SIZE_MAX
                            (Hl i Hin) (Hf i Hin)).
    pose proof (scan_spec_inv (block_size h) asize Ha (block_size_range h)
                              (lists i) [] NULL SIZE_MAX
                              (is_list_nonnull h _ _ (Hl i Hin))) as Hscan.
    simpl app in Hscan.
    assert (H0 : scan_state (block_size h) asize [] NULL SIZE_MAX).
    { left. split; [reflexivity|]. split; [reflexivity|].
      intros (b & [] & _). }
    specialize (Hscan H0).
    destruct (scan_spec (block_size h) asize (lists i) NULL SIZE_MAX)
      as [r|best_bp min_diff].
    + destruct Hscan as (Hr & Hbest & Hfirst).
      exists r. split; [reflexivity|]. right. split; [exact Hr|].
      exists i. split; [lia|]. split; [intros j Hj; lia|].
      split; [exact Hbest|]. intros _ _ _. exact Hfirst.
    + destruct (Z.eqb_spec best_bp NULL) as [->|Hb]; cbn [negb].
      * destruct Hscan as [(_ & -> & Hno)|(Hb & _)]; [|contradiction].
        destruct (IH (i + 1)) as (r & Er & Hr).
        { lia. }
        { intros j Hj. apply Hl. lia. }
        { intros j Hj. apply Hf. lia. }
        exists r. split; [exact Er|].
        destruct Hr as [(-> & Hnone)|(Hr & c & Hc & Hbefore & Hbest & Hfirst)].
        -- left. split; [reflexivity|]. intros j Hj.
           destruct (Z.eq_dec j i) as [->|Hji]; [exact Hno|apply Hnone; lia].
        -- right. split; [exact Hr|]. exists c. split; [lia|].
           split; [|split; assumption].
           intros j Hj.
           destruct (Z.eq_dec j i) as [->|Hji]; [exact Hno|apply Hbefore; lia].
      * exists best_bp. split; [reflexivity|]. right. split; [exact Hb|].
        exists i. split; [lia|]. split; [intros j Hj; lia|].
        destruct Hscan as [(E & _)|(_ & Hbest & Hmin & Hpos)]; [contradiction|].
        split; [exact Hbest|].
        intros b Hin' Eb. exfalso.
        destruct Hbest as (_ & _ & Hmin').
        specialize (Hmin' b Hin'). lia.
Qed.

Lemma get_list_index_range (size : Z) : 0 <= get_list_index size < LIST_LIMIT.
Proof.
  unfold get_list_index, LIST_LIMIT.
  repeat match goal with
         | |- context [if ?a <=? ?b then _ else _] => destruct (Z.leb_spec a b)
         end; lia.
Qed.

(** C2: [find_fit(asize)] visits the classes [class(asize), ..., 19] in order.
    The first class holding a block of size at least [asize] decides: the
    result is a block of that class with the least size that fits, and when
    that class holds a block of exactly [asize] bytes the result is the first
    such block in list order (it was returned at once).  Blocks of later
    classes are never considered.  The result is null exactly when no
    visited class holds a block that fits. *)
Theorem find_fit_first_class_best_fit
        (fuel : nat) (h : heap) (asize : Z) (lists : lists_t) :
  0 <= asize ->
  (forall i, get_list_index asize <= i < LIST_LIMIT ->
             is_list h (seg_get h i) (lists i)) ->
  (forall i, get_list_index asize <= i < LIST_LIMIT ->
             (length (lists i) < fuel)%nat) ->
  exists r,
    find_fit fuel h asize = Some r /\
    ((r = NULL /\
      forall i, get_list_index asize <= i < LIST_LIMIT ->
                ~ fits (block_size h) asize (lists i))
     \/
     (r <> NULL /\
      exists c, get_list_index asize <= c < LIST_LIMIT /\
        (forall j, get_list_index asize <= j < c ->
                   ~ fits (block_size h) asize (lists j)) /\
        best_in (block_size h) asize (lists c) r /\
        (forall b, In b (lists c) -> block_size h b = asize ->
                   first_exact (block_size h) asize (lists c) r))).
Proof.
  intros Ha Hl Hf. unfold find_fit.
  apply find_fit_from_spec; try assumption.
  pose proof (get_list_index_range asize). lia.
Qed.

(** ** [mm_check] *)

Lemma in_classes (i : Z) : In i classes <-> 0 <= i < LIST_LIMIT.
Proof.
  unfold classes, LIST_LIMIT. simpl. split.
  - intros H. repeat (destruct H as [<-|H]; [lia|]). contradiction.
  - intros H.
    assert (Hc : i = 0 \/ i = 1 \/ i = 2 \/ i = 3 \/ i = 4 \/ i = 5 \/ i = 6 \/
                 i = 7 \/ i = 8 \/ i = 9 \/ i = 10 \/ i = 11 \/ i = 12 \/
                 i = 13 \/ i = 14 \/ i = 15 \/ i = 16 \/ i = 17 \/ i = 18 \/
                 i = 19) by lia.
    repeat (destruct Hc as [->|Hc]; [tauto|]). subst. tauto.
Qed.

Lemma GET_ALLOC_cases (h : heap) (p : Z) : GET_ALLOC h p = 0 \/ GET_ALLOC h p = 1.
Proof.
  rewrite GET_ALLOC_eq. pose proof (Z.mod_pos_bound (GET h p) 2 ltac:(lia)). lia.
Qed.

Lemma check_heap_passes (h : heap) (bps : list Z) (stop : Z) :
  forall fuel bp count,
    heap_walk h bp bps stop ->
    Forall (fun x => x mod 8 = 0 /\ GET h (HDRP x) = GET h (FTRP h x)) bps ->
    Forall (fun x => ~ (GET_ALLOC h (HDRP x) = 0 /\
                        GET_ALLOC h (HDRP (NEXT_BLKP h x)) = 0)) bps ->
    (length bps < fuel)%nat ->
    check_heap fuel h bp count = Some (Return (stop, count + count_free h bps)).
Proof.
  induction bps as [|x bps IH]; intros fuel bp count Hw Hb Hc Hf;
    (destruct fuel as [|fuel]; [simpl in Hf; lia|]); cbn [check_heap heap_walk] in *.
  - destruct Hw as (-> & Hs). unfold block_size in Hs. rewrite Hs.
    simpl (0 >? 0). cbv iota. unfold count_free. simpl. rewrite Z.add_0_r.
    reflexivity.
  - destruct Hw as (<- & Hs & Hw). unfold block_size in Hs.
    inversion Hb as [|? ? (Hal & Hhf) Hb']; subst.
    inversion Hc as [|? ? Hnc Hc']; subst.
    destruct (Z.gtb_spec (GET_SIZE h (HDRP x)) 0); [|lia].
    unfold checkblock. rewrite Hal, Hhf. simpl (0 =? 0). cbn [negb].
    rewrite Z.eqb_refl. cbn [negb].
    assert (Ecf : count_free h (x :: bps) =
                  (if GET_ALLOC h (HDRP x) =? 0 then 1 else 0) + count_free h bps).
    { unfold count_free. cbn [filter]. unfold is_free at 1.
      destruct (GET_ALLOC h (HDRP x) =? 0); cbn [length]; lia. }
    rewrite Ecf.
    destruct (Z.eqb_spec (GET_ALLOC h (HDRP x)) 0) as [Ea|Ea].
    + destruct (Z.eqb_spec (GET_ALLOC h (HDRP (NEXT_BLKP h x))) 0) as [En|En].
      * exfalso. apply Hnc. split; assumption.
      * cbn [andb]. rewrite (IH fuel _ (count + 1) Hw Hb' Hc') by (simpl in Hf; lia).
        f_equal; f_equal; f_equal; lia.
    + cbn [andb]. rewrite (IH fuel _ count Hw Hb' Hc') by (simpl in Hf; lia).
      f_equal; f_equal; f_equal; lia.
Qed.

Lemma check_list_passes (h : heap) (i : Z) (l : list Z) :
  forall fuel curr prev count,
    is_list h curr l ->
    Forall (fun x => mem_heap_lo h <= x <= mem_heap_hi h /\
                     GET_ALLOC h (HDRP x) = 0) l ->
    pred_chain h prev l ->
    (length l < fuel)%nat ->
    check_list fuel h i curr prev count =
    Some (Return (count + Z.of_nat (length l))).
Proof.
  induction l as [|x l IH]; intros fuel curr prev count Hl Hb Hp Hf;
    (destruct fuel as [|fuel]; [simpl in Hf; lia|]);
    cbn [check_list is_list pred_chain] in *.
  - subst curr. simpl. rewrite Z.add_0_r. reflexivity.
  - destruct Hl as (-> & Hx & Hl). destruct Hp as (Hpx & Hp).
    inversion Hb as [|? ? ((Hlo & Hhi) & Hfree) Hb']; subst.
    destruct (Z.eqb_spec x NULL); [contradiction|].
    destruct (Z.ltb_spec x (mem_heap_lo h)); [lia|].
    destruct (Z.gtb_spec x (mem_heap_hi h)); [lia|].
    cbn [orb]. rewrite Hfree. simpl (0 =? 0). cbn [negb].
    assert (Epred : negb (prev =? NULL) && negb (GET_PRED h x =? prev) = false).
    { destruct (Z.eqb_spec prev NULL); [reflexivity|].
      rewrite Hpx by assumption. rewrite Z.eqb_refl. reflexivity. }
    rewrite Epred.
    rewrite (IH fuel _ x (count + 1) Hl Hb' Hp) by (simpl in Hf; lia).
    f_equal; f_equal; cbn [length]; lia.
Qed.

Lemma check_lists_passes (h : heap) (lists : lists_t) (fuel : nat) :
  forall n i count,
    0 <= i -> i + Z.of_nat n = LIST_LIMIT ->
    Forall (fun i => is_list h (seg_get h i) (lists i)) classes ->
    Forall (fun i =>
              Forall (fun x => mem_heap_lo h <= x <= mem_heap_hi h /\
                               GET_ALLOC h (HDRP x) = 0) (lists i)) classes ->
    Forall (fun i => pred_chain h NULL (lists i)) classes ->
    (forall j, 0 <= j < LIST_LIMIT -> (length (lists j) < fuel)%nat) ->
    check_lists n fuel h i count = Some (Return (count + listed_from lists i n)).
Proof.
  induction n as [|n IH]; intros i count Hi Hn Hl Hb Hp Hf;
    cbn [check_lists listed_from].
  - rewrite Z.add_0_r. reflexivity.
  - assert (Hin : In i classes) by (apply in_classes; lia).
    rewrite Forall_forall in Hl, Hb, Hp.
    rewrite (check_list_passes h i (lists i) fuel _ NULL count
               (Hl i Hin) (Hb i Hin) (Hp i Hin)) by (apply Hf; lia).
    rewrite IH; try (apply Forall_forall; assumption); try assumption; try lia.
    f_equal; f_equal; lia.
Qed.

(** C9: [mm_check] never compares the size class of a listed block with the
    index of its list.  For every heap that passes the audits it does make
    (prologue and epilogue shape, alignment, header equal to footer, no two
    adjacent free blocks, list pointers in bounds, listed blocks free,
    consistent predecessor links, equal counts of free blocks), a block [x]
    linked into a list [i] that is not the list of its size class changes
    nothing: [mm_check] returns 1. *)
Theorem mm_check_ignores_class
        (fuel : nat) (h : heap) (bps : list Z) (stop : Z) (lists : lists_t)
        (i x : Z) :
  audits h bps stop lists ->
  0 <= i < LIST_LIMIT -> In x (lists i) ->
  get_list_index (block_size h x) <> i ->
  (length bps < fuel)%nat ->
  (forall j, 0 <= j < LIST_LIMIT -> (length (lists j) < fuel)%nat) ->
  mm_check fuel h = Some (Return 1).
Proof.
  intros [(Hps & Hpa) Hw He Hb Hc Hl Hlb Hp Hn] _ _ _ Hf Hfl.
  unfold mm_check. fold (heap_start h).
  unfold block_size in Hps. rewrite Hps, Z.eqb_refl. cbn [negb orb].
  destruct (Z.eqb_spec (GET_ALLOC h (HDRP (heap_start h))) 0); [contradiction|].
  rewrite (check_heap_passes h bps stop fuel _ 0 Hw Hb Hc Hf).
  assert (Hs : GET_SIZE h (HDRP stop) = 0).
  { clear - Hw. revert Hw. generalize (heap_start h).
    induction bps as [|y bps IH]; simpl; intros bp Hw.
    - destruct Hw as (_ & Hs). exact Hs.
    - destruct Hw as (_ & _ & Hw). exact (IH _ Hw). }
  rewrite Hs. simpl (0 =? 0). cbn [negb orb].
  destruct (Z.eqb_spec (GET_ALLOC h (HDRP stop)) 0); [contradiction|].
  rewrite (check_lists_passes h lists fuel (Z.to_nat LIST_LIMIT) 0 0 (Z.le_refl 0)
                              eq_refl Hl Hlb Hp Hfl).
  rewrite Hn, Z.add_0_l, Z.eqb_refl. reflexivity.
Qed.

(** ** Geometry of a block layout *)

Lemma total_app (l1 l2 : list block) : total (l1 ++ l2) = total l1 + total l2.
Proof. induction l1 as [|b l1 IH]; simpl; lia. Qed.

Lemma total_nonneg (bl : list block) : sizes_ok bl -> 0 <= total bl.
Proof.
  induction 1 as [|b bl [Hb _] _ IH]; simpl; lia.
Qed.

Lemma total_mod8 (bl : list block) : sizes_ok bl -> total bl mod 8 = 0.
Proof.
  induction 1 as [|b bl [_ Hb] _ IH]; simpl; [reflexivity|].
  rewrite Z.add_mod, Hb, IH by lia. reflexivity.
Qed.

Lemma block_starts_app (l1 l2 : list block) :
  forall bp, block_starts bp (l1 ++ l2) =
             block_starts bp l1 ++ block_starts (bp + total l1) l2.
Proof.
  induction l1 as [|b l1 IH]; intros bp; simpl.
  - rewrite Z.add_0_r. reflexivity.
  - rewrite IH. do 3 f_equal. lia.
Qed.

Lemma in_block_starts_middle (bp : Z) (pre post : list block) (b : block) :
  In (bp + total pre, b) (block_starts bp (pre ++ b :: post)).
Proof.
  rewrite block_starts_app. apply in_or_app. right. left. reflexivity.
Qed.

Lemma in_block_starts_split (bl : list block) :
  forall bp x b,
    In (x, b) (block_starts bp bl) ->
    exists pre post, bl = pre ++ b :: post /\ x = bp + total pre.
Proof.
  induction bl as [|c bl IH]; intros bp x b Hin; simpl in Hin; [contradiction|].
  destruct Hin as [E|Hin].
  - inversion E; subst. exists [], bl. split; [reflexivity|simpl; lia].
  - destruct (IH _ _ _ Hin) as (pre & post & -> & ->).
    exists (c :: pre), post. split; [reflexivity|simpl; lia].
Qed.

Lemma in_block_starts_sizes (bl : list block) (bp x : Z) (b : block) :
  sizes_ok bl -> In (x, b) (block_starts bp bl) ->
  16 <= fst b /\ fst b mod 8 = 0.
Proof.
  intros Hs Hin. destruct (in_block_starts_split _ _ _ _ Hin) as (pre & post & -> & _).
  unfold sizes_ok in Hs. rewrite Forall_forall in Hs. apply Hs.
  apply in_or_app. right. left. reflexivity.
Qed.

Lemma in_block_starts_bounds (bl : list block) :
  sizes_ok bl ->
  forall bp x b,
    In (x, b) (block_starts bp bl) -> bp <= x /\ x + fst b <= bp + total bl.
Proof.
  induction 1 as [|c bl [Hc _] Hs IH]; intros bp x b Hin; simpl in *;
    [contradiction|].
  pose proof (total_nonneg bl Hs).
  destruct Hin as [E|Hin].
  - inversion E; subst. lia.
  - specialize (IH _ _ _ Hin). lia.
Qed.

(** Two blocks of a layout are the same block or do not overlap. *)
Lemma block_starts_disjoint (bl : list block) :
  sizes_ok bl ->
  forall bp x b y c,
    In (x, b) (block_starts bp bl) -> In (y, c) (block_starts bp bl) ->
    (x = y /\ b = c) \/ x + fst b <= y \/ y + fst c <= x.
Proof.
  induction 1 as [|d bl [Hd _] Hs IH]; intros bp x b y c Hx Hy; simpl in *;
    [contradiction|].
  destruct Hx as [Ex|Hx]; destruct Hy as [Ey|Hy].
  - inversion Ex; inversion Ey; subst. left. split; reflexivity.
  - inversion Ex; subst.
    pose proof (in_block_starts_bounds bl Hs _ _ _ Hy). right. left. lia.
  - inversion Ey; subst.
    pose proof (in_block_starts_bounds bl Hs _ _ _ Hx). right. right. lia.
  - eapply IH; eassumption.
Qed.

Lemma block_starts_mod8 (bl : list block) :
  sizes_ok bl ->
  forall bp x b,
    bp mod 8 = 0 -> In (x, b) (block_starts bp bl) -> x mod 8 = 0.
Proof.
  induction 1 as [|d bl [_ Hd] Hs IH]; intros bp x b Hbp Hin; simpl in *;
    [contradiction|].
  destruct Hin as [E|Hin].
  - inversion E; subst. exact Hbp.
  - apply (IH (bp + fst d) x b); [|exact Hin].
    rewrite Z.add_mod, Hbp, Hd by lia. reflexivity.
Qed.

(** ** Linked lists in memory *)

Lemma is_dll_is_list (h : heap) (l : list Z) :
  forall prev p, is_dll h prev p l -> is_list h p l.
Proof.
  induction l as [|x l IH]; simpl; intros prev p H; [exact H|].
  destruct H as (-> & Hx & _ & H). repeat split; try assumption.
  eapply IH; eassumption.
Qed.

Lemma is_list_det (h : heap) (l1 : list Z) :
  forall l2 p, is_list h p l1 -> is_list h p l2 -> l1 = l2.
Proof.
  induction l1 as [|x l1 IH]; intros [|y l2] p H1 H2; simpl in *.
  - reflexivity.
  - destruct H2 as (-> & Hy & _). subst. contradiction.
  - destruct H1 as (-> & Hx & _). subst. contradiction.
  - destruct H1 as (-> & Hx & H1). destruct H2 as (<- & _ & H2).
    f_equal. eapply IH; eassumption.
Qed.

Lemma is_list_suffix (h : heap) (l1 : list Z) :
  forall p x l2, is_list h p (l1 ++ x :: l2) -> is_list h x (x :: l2).
Proof.
  induction l1 as [|y l1 IH]; intros p x l2 H; simpl in *.
  - destruct H as (-> & Hx & H). repeat split; assumption.
  - destruct H as (_ & _ & H). eapply IH; eassumption.
Qed.

Lemma is_list_NoDup (h : heap) (l : list Z) :
  forall p, is_list h p l -> NoDup l.
Proof.
  induction l as [|x l IH]; intros p H; [constructor|].
  simpl in H. destruct H as (-> & Hx & H).
  constructor; [|eapply IH; eassumption].
  intros Hin. apply in_split in Hin. destruct Hin as (l1 & l2 & ->).
  pose proof (is_list_suffix h l1 _ x l2 H) as Hs. simpl in Hs.
  destruct Hs as (_ & _ & Hs).
  pose proof (is_list_det h _ _ _ H Hs) as E.
  apply (f_equal (@length Z)) in E. rewrite length_app in E. simpl in E. lia.
Qed.

Lemma is_dll_frame (h h' : heap) (l : list Z) :
  forall prev p,
    (forall y, In y l -> GET h' y = GET h y /\ GET h' (y + 4) = GET h (y + 4)) ->
    is_dll h prev p l -> is_dll h' prev p l.
Proof.
  induction l as [|x l IH]; simpl; intros prev p Hf H; [exact H|].
  destruct H as (-> & Hx & Hp & H).
  destruct (Hf x (or_introl eq_refl)) as (E1 & E2).
  unfold GET_PRED, GET_SUCC, PRED_PTR, SUCC_PTR, WSIZE in *.
  fold (GET h x) in Hp. fold (GET h (x + 4)) in H.
  fold (GET h' x). fold (GET h' (x + 4)).
  rewrite E1, E2. repeat split; try assumption.
  apply IH; [|exact H]. intros y Hy. apply Hf. right. exact Hy.
Qed.

Lemma is_dll_PUT (h : heap) (l : list Z) (w v prev p : Z) :
  (forall y, In y l -> w + 4 <= y \/ y + 8 <= w) ->
  is_dll h prev p l -> is_dll (PUT h w v) prev p l.
Proof.
  intros Hw. apply is_dll_frame. intros y Hy. specialize (Hw y Hy).
  split; apply GET_PUT_other; lia.
Qed.

Lemma GET_PRED_eq (h : heap) (x : Z) : GET_PRED h x = GET h x.
Proof. reflexivity. Qed.

Lemma GET_SUCC_eq (h : heap) (x : Z) : GET_SUCC h x = GET h (x + 4).
Proof. reflexivity. Qed.

Lemma is_dll_head (h : heap) (l : list Z) (prev p : Z) :
  is_dll h prev p l -> p = NULL \/ In p l.
Proof.
  destruct l as [|x l]; simpl; [intros ->; left; reflexivity|].
  intros (-> & _). right. left. reflexivity.
Qed.

(** In a list, the successor link of a node is null or a later node, and
    the predecessor link of a node that is not the first is an earlier
    node. *)
Lemma is_dll_succ_in (h : heap) (x : Z) (l2 : list Z) :
  forall l1 prev p,
    is_dll h prev p (l1 ++ x :: l2) ->
    is_dll h x (GET h (x + 4)) l2.
Proof.
  induction l1 as [|y l1 IH]; intros prev p H; simpl in H.
  - destruct H as (_ & _ & _ & H). exact H.
  - destruct H as (_ & _ & _ & H). eapply IH; eassumption.
Qed.

Lemma is_dll_pred_in (h : heap) (x : Z) (l2 : list Z) :
  forall l1 prev p,
    is_dll h prev p (l1 ++ x :: l2) ->
    (l1 = [] /\ GET h x = prev) \/ (In (GET h x) l1 /\ GET h x <> NULL).
Proof.
  induction l1 as [|y l1 IH]; intros prev p H; simpl in H.
  - destruct H as (_ & _ & Hp & _). left. split; [reflexivity|exact Hp].
  - destruct H as (-> & Hy & _ & H). right.
    destruct (IH _ _ H) as [(-> & E)|(Hin & Hn)].
    + rewrite E. split; [left; reflexivity|exact Hy].
    + split; [right; exact Hin|exact Hn].
Qed.

(** The first node of a list leaves: the head becomes its successor, whose
    predecessor link is redirected. *)
Lemma is_dll_delete_head (h1 : heap) (x prev su : Z) (l2 : list Z) :
  is_dll h1 x su l2 ->
  0 <= prev < 4294967296 ->
  nodes_sep l2 ->
  is_dll (if negb (su =? NULL) then PUT h1 su prev else h1) prev su l2.
Proof.
  intros H Hprev Hsep.
  pose proof (is_list_NoDup _ _ _ (is_dll_is_list _ _ _ _ H)) as Hnd.
  destruct l2 as [|z l3]; simpl in *.
  - subst su. simpl. reflexivity.
  - destruct H as (-> & Hz & Hp & H).
    destruct (Z.eqb_spec z NULL); [contradiction|]. cbn [negb].
    rewrite GET_PRED_eq, GET_SUCC_eq in *.
    rewrite GET_PUT_same, GET_PUT_other by lia.
    repeat split; try assumption; [apply wrap_small; exact Hprev|].
    apply is_dll_PUT; [|exact H].
    intros y Hy.
    assert (Hyz : y <> z).
    { intros ->. inversion Hnd; contradiction. }
    destruct (Hsep y z) as [E|E]; [right; exact Hy|left; reflexivity| |];
      [contradiction|lia].
Qed.

Lemma NoDup_app_disjoint (A : Type) (l1 l2 : list A) (a b : A) :
  NoDup (l1 ++ l2) -> In a l1 -> In b l2 -> a <> b.
Proof.
  induction l1 as [|c l1 IH]; simpl; intros Hnd Ha Hb; [contradiction|].
  inversion Hnd as [|? ? Hc Hnd']; subst.
  destruct Ha as [->|Ha].
  - intros ->. apply Hc. apply in_or_app. right. exact Hb.
  - apply IH; assumption.
Qed.

(** A node that is not the first leaves: its predecessor's successor link
    and its successor's predecessor link are stitched past it. *)
Lemma is_dll_delete_mid (h : heap) (x : Z) (l2 : list Z) :
  forall l1 prev p,
    l1 <> [] ->
    is_dll h prev p (l1 ++ x :: l2) ->
    nodes_sep (l1 ++ x :: l2) ->
    let pr := GET h x in
    let su := GET h (x + 4) in
    let h1 := PUT h (pr + 4) su in
    is_dll (if negb (su =? NULL) then PUT h1 su pr else h1) prev p (l1 ++ l2).
Proof.
  intros l1 prev p Hne H Hsep pr su h1.
  set (h2 := if negb (su =? NULL) then PUT h1 su pr else h1).
  pose proof (is_list_NoDup _ _ _ (is_dll_is_list _ _ _ _ H)) as Hnd.
  assert (Hsu : is_dll h x su l2) by (eapply is_dll_succ_in; exact H).
  assert (Hsu_in : su = NULL \/ In su l2) by (eapply is_dll_head; exact Hsu).
  assert (Hsur : 0 <= su < 4294967296) by apply GET_range.
  assert (Hprr : 0 <= pr < 4294967296) by apply GET_range.
  assert (Hpr_in : In pr l1).
  { destruct (is_dll_pred_in _ _ _ _ _ _ H) as [(E & _)|(Hin & _)];
      [contradiction|exact Hin]. }
  (* what the two writes leave alone *)
  assert (Hkeep : forall y, In y (l1 ++ x :: l2) -> y <> pr -> y <> su ->
            GET h2 y = GET h y /\ GET h2 (y + 4) = GET h (y + 4)).
  { intros y Hy Hypr Hysu.
    assert (Sp : y + 8 <= pr \/ pr + 8 <= y).
    { destruct (Hsep y pr Hy) as [E|E];
        [apply in_or_app; left; exact Hpr_in|contradiction|exact E]. }
    assert (Ss : su = NULL \/ y + 8 <= su \/ su + 8 <= y).
    { destruct Hsu_in as [E|Hin]; [left; exact E|right].
      destruct (Hsep y su Hy) as [E|E];
        [apply in_or_app; right; right; exact Hin|contradiction|exact E]. }
    unfold h2, h1.
    destruct (Z.eqb_spec su NULL) as [E|E]; cbn [negb].
    - split; apply GET_PUT_other; lia.
    - destruct Ss as [Ss|Ss]; [contradiction|].
      split; (rewrite GET_PUT_other by lia; apply GET_PUT_other; lia). }
  assert (Hpr_su : su = NULL \/ pr + 8 <= su \/ su + 8 <= pr).
  { destruct Hsu_in as [E|Hin]; [left; exact E|right].
    destruct (Hsep pr su) as [E|E];
      [apply in_or_app; left; exact Hpr_in
      |apply in_or_app; right; right; exact Hin| |exact E].
    exfalso. revert E. apply (NoDup_app_disjoint _ l1 (x :: l2)); 
      [exact Hnd|exact Hpr_in|right; exact Hin]. }
  (* the tail, once both words are written *)
  assert (Htail : is_dll h2 pr su l2).
  { unfold h2. apply is_dll_delete_head with (x := x).
    - unfold h1. apply is_dll_PUT; [|exact Hsu].
      intros y Hy.
      assert (Hyq : pr <> y).
      { apply (NoDup_app_disjoint _ l1 (x :: l2)); 
          [exact Hnd|exact Hpr_in|right; exact Hy]. }
      destruct (Hsep y pr) as [E|E];
        [apply in_or_app; right; right; exact Hy
        |apply in_or_app; left; exact Hpr_in|congruence|lia].
    - exact Hprr.
    - intros y z Hy Hz. apply Hsep; apply in_or_app; right; right; assumption. }
  clear Hne. revert prev p H Hpr_in Hnd Hsep Hkeep.
  induction l1 as [|y l1 IH]; intros prev p H Hpr_in Hnd Hsep Hkeep;
    [contradiction|].
  simpl in H. destruct H as (-> & Hy & Hp & H).
  rewrite GET_PRED_eq, GET_SUCC_eq in *.
  destruct l1 as [|y' l1].
  - (* [y] is the predecessor *)
    simpl in H. destruct H as (Ex & Hx & Hpx & _).
    rewrite GET_PRED_eq in Hpx. fold pr in Hpx. subst pr.
    simpl. rewrite GET_PRED_eq, GET_SUCC_eq.
    assert (E1 : GET h2 y = GET h y).
    { unfold h2, h1. rewrite <- Hpx in *.
      destruct (Z.eqb_spec su NULL) as [E|E]; cbn [negb].
      - apply GET_PUT_other; lia.
      - destruct Hpr_su as [Ss|Ss]; [contradiction|].
        rewrite GET_PUT_other by lia. apply GET_PUT_other; lia. }
    assert (E2 : GET h2 (y + 4) = su).
    { unfold h2, h1. rewrite <- Hpx in *.
      destruct (Z.eqb_spec su NULL) as [E|E]; cbn [negb].
      - rewrite GET_PUT_same. apply wrap_small. exact Hsur.
      - destruct Hpr_su as [Ss|Ss]; [contradiction|].
        rewrite GET_PUT_other by lia.
        rewrite GET_PUT_same. apply wrap_small. exact Hsur. }
    rewrite E1, E2. repeat split; try assumption.
    rewrite Hpx in Htail. exact Htail.
  - assert (Hpr' : In pr (y' :: l1)).
    { destruct (is_dll_pred_in _ _ _ _ _ _ H) as [(E & _)|(Hin & _)];
        [discriminate|exact Hin]. }
    assert (Hy_pr : y <> pr).
    { inversion Hnd as [|? ? Hni _]; subst. intros E. apply Hni.
      change (In y ((y' :: l1) ++ x :: l2)).
      rewrite E. apply in_or_app. left. exact Hpr'. }
    assert (Hy_su : y <> su).
    { destruct Hsu_in as [E|Hin]; [congruence|].
      inversion Hnd as [|? ? Hni _]; subst. intros E. apply Hni.
      change (In y ((y' :: l1) ++ x :: l2)).
      rewrite E. apply in_or_app. right. right. exact Hin. }
    destruct (Hkeep y (or_introl eq_refl) Hy_pr Hy_su) as (E1 & E2).
    assert (Hrest : is_dll h2 y (GET h (y + 4)) ((y' :: l1) ++ l2));
      [|simpl; rewrite GET_PRED_eq, GET_SUCC_eq, E1, E2;
        split; [reflexivity|split; [exact Hy|split; [exact Hp|exact Hrest]]]].
    apply IH.
    + exact H.
    + exact Hpr'.
    + inversion Hnd; assumption.
    + intros a b Ha Hb. apply Hsep; right; assumption.
    + intros a Ha. apply Hkeep. right. exact Ha.
Qed.

(** A node becomes the first of a list. *)
Lemma is_dll_insert_head (h : heap) (x root : Z) (l : list Z) :
  is_dll h NULL root l ->
  x <> NULL -> 0 <= x < 4294967296 -> 0 <= root < 4294967296 ->
  nodes_sep l ->
  (forall y, In y l -> y + 8 <= x \/ x + 8 <= y) ->
  let h1 := PUT h (x + 4) root in
  let h2 := PUT h1 x NULL in
  let h3 := if negb (root =? NULL) then PUT h2 root x else h2 in
  is_dll h3 NULL x (x :: l).
Proof.
  intros H Hx Hxr Hroot Hsep Hfar h1 h2 h3.
  pose proof (is_list_NoDup _ _ _ (is_dll_is_list _ _ _ _ H)) as Hnd.
  simpl. rewrite GET_PRED_eq, GET_SUCC_eq.
  destruct l as [|z l]; simpl in H.
  - subst root. unfold h3, h2, h1. rewrite Z.eqb_refl. cbn [negb].
    rewrite GET_PUT_same, GET_PUT_other, GET_PUT_same by lia.
    repeat split; try assumption; reflexivity.
  - destruct H as (-> & Hz & Hp & H). rewrite GET_PRED_eq, GET_SUCC_eq in *.
    assert (Hzx : z + 8 <= x \/ x + 8 <= z) by (apply Hfar; left; reflexivity).
    unfold h3, h2, h1.
    destruct (Z.eqb_spec z NULL); [contradiction|]. cbn [negb].
    rewrite (GET_PUT_other _ z x x) by lia. rewrite GET_PUT_same.
    rewrite (GET_PUT_other _ z x (x + 4)), (GET_PUT_other _ x NULL (x + 4)) by lia.
    rewrite GET_PUT_same, (wrap_small z) by lia.
    split; [reflexivity|]. split; [exact Hx|]. split; [reflexivity|].
    simpl. rewrite GET_PRED_eq, GET_SUCC_eq.
    rewrite GET_PUT_same, (wrap_small x) by lia.
    rewrite !(GET_PUT_other _ _ _ (z + 4)) by lia.
    repeat split; try assumption.
    assert (Hl : forall y, In y l -> (y + 8 <= z \/ z + 8 <= y) /\
                                     (y + 8 <= x \/ x + 8 <= y)).
    { intros y Hy. split; [|apply Hfar; right; exact Hy].
      destruct (Hsep y z) as [E|E]; [right; exact Hy|left; reflexivity| |lia].
      subst y. inversion Hnd; contradiction. }
    apply is_dll_PUT; [intros y Hy; destruct (Hl y Hy); lia|].
    apply is_dll_PUT; [intros y Hy; destruct (Hl y Hy); lia|].
    apply is_dll_PUT; [intros y Hy; destruct (Hl y Hy); lia|].
    exact H.
Qed.

Lemma remove_node_not_in (x : Z) (l : list Z) : ~ In x (remove_node x l).
Proof.
  unfold remove_node. intros H. apply filter_In in H. destruct H as (_ & H).
  rewrite Z.eqb_refl in H. discriminate.
Qed.

Lemma remove_node_in (x y : Z) (l : list Z) :
  In y (remove_node x l) <-> In y l /\ y <> x.
Proof.
  unfold remove_node. rewrite filter_In. split; intros (H1 & H2); split; try exact H1.
  - intros ->. rewrite Z.eqb_refl in H2. discriminate.
  - destruct (Z.eqb_spec y x); [contradiction|reflexivity].
Qed.

Lemma remove_node_absent (x : Z) (l : list Z) : ~ In x l -> remove_node x l = l.
Proof.
  induction l as [|y l IH]; simpl; intros H; [reflexivity|].
  destruct (Z.eqb_spec y x) as [->|N]; simpl.
  - exfalso. apply H. left. reflexivity.
  - f_equal. apply IH. intros Hin. apply H. right. exact Hin.
Qed.

Lemma remove_node_middle (x : Z) (l1 l2 : list Z) :
  NoDup (l1 ++ x :: l2) -> remove_node x (l1 ++ x :: l2) = l1 ++ l2.
Proof.
  intros Hnd. unfold remove_node. rewrite filter_app. simpl.
  rewrite Z.eqb_refl. simpl.
  fold (remove_node x l1). fold (remove_node x l2).
  apply NoDup_remove_2 in Hnd.
  rewrite !remove_node_absent; [reflexivity| |];
    intros Hin; apply Hnd; apply in_or_app; [right|left]; exact Hin.
Qed.

(** ** Reading a well-formed heap *)

Lemma first_block_eq (h : heap) : first_block h = seg_list h + 96.
Proof.
  unfold first_block, heap_start, LIST_LIMIT, PTR_SIZE, WSIZE, DSIZE. lia.
Qed.

Lemma heap_start_eq (h : heap) : heap_start h = seg_list h + 88.
Proof. unfold heap_start, LIST_LIMIT, PTR_SIZE, WSIZE. lia. Qed.

Lemma seg_slot_eq (h : heap) (i : Z) : seg_slot h i = seg_list h + 4 * i.
Proof. unfold seg_slot, PTR_SIZE. reflexivity. Qed.

Lemma seg_get_eq (h : heap) (i : Z) : seg_get h i = GET h (seg_slot h i).
Proof. reflexivity. Qed.

Lemma tag_valid (b : block) :
  16 <= fst b /\ fst b mod 8 = 0 -> fst b <= 4294967288 ->
  valid_size (fst b) /\ ((if snd b then 1 else 0) = 0 \/ (if snd b then 1 else 0) = 1).
Proof.
  intros (H1 & H2) H3. split; [split; [lia|exact H2]|].
  destruct (snd b); [right|left]; reflexivity.
Qed.

Section HeapPre.
Variables (h : heap) (bl : list block) (lists : lists_t).
Hypothesis Hpre : heap_pre h bl lists.

Lemma pre_total_bound : 0 <= total bl /\ first_block h + total bl < 4294967295.
Proof.
  destruct Hpre as [_ (Hb & Hm) Hs _ _ _]. unfold MINUS_ONE in Hm.
  pose proof (total_nonneg bl Hs). lia.
Qed.

Lemma pre_block (x : Z) (b : block) :
  In (x, b) (block_starts (first_block h) bl) ->
  GET h (x - 4) = tag b /\ GET h (x + fst b - 8) = tag b /\
  16 <= fst b /\ fst b mod 8 = 0 /\
  first_block h <= x /\ x + fst b <= mem_brk h /\ x mod 8 = 0.
Proof.
  intros Hin. destruct Hpre as [(Hsp & Hsm) (Hb & Hm) Hs (Hl & _) _ _].
  simpl in Hl. inversion Hl as [|? ? _ Hl']; subst.
  rewrite Forall_forall in Hl'. destruct (Hl' _ Hin) as (Hh & Hf).
  simpl in Hh, Hf. unfold HDRP, WSIZE, DSIZE in *.
  destruct (in_block_starts_sizes _ _ _ _ Hs Hin).
  destruct (in_block_starts_bounds _ Hs _ _ _ Hin).
  split; [exact Hh|]. split; [exact Hf|].
  repeat split; try lia.
  eapply block_starts_mod8; [exact Hs| |exact Hin].
  rewrite first_block_eq.
  rewrite Z.add_mod, Hsm by lia. reflexivity.
Qed.

Lemma pre_block_read (x : Z) (b : block) :
  In (x, b) (block_starts (first_block h) bl) ->
  GET_SIZE h (HDRP x) = fst b /\
  GET_ALLOC h (HDRP x) = (if snd b then 1 else 0) /\
  FTRP h x = x + fst b - 8 /\
  NEXT_BLKP h x = x + fst b /\
  GET_SIZE h (x + fst b - 8) = fst b /\
  GET_ALLOC h (x + fst b - 8) = (if snd b then 1 else 0).
Proof.
  intros Hin. destruct (pre_block x b Hin) as (Hh & Hf & H16 & H8 & Hlo & Hhi & _).
  destruct pre_total_bound as (_ & Hb).
  destruct Hpre as [(Hsp & _) (Hbrk & Hm) _ _ _ _]. unfold MINUS_ONE in Hm.
  rewrite first_block_eq in *.
  assert (Hv : valid_size (fst b)) by (split; [lia|exact H8]).
  assert (Ha : (if snd b then 1 else 0) = 0 \/ (if snd b then 1 else 0) = 1)
    by (destruct (snd b); [right|left]; reflexivity).
  destruct (tag_decode h (x - 4) _ _ Hv Ha Hh) as (E1 & E2).
  destruct (tag_decode h (x + fst b - 8) _ _ Hv Ha Hf) as (E3 & E4).
  unfold FTRP, NEXT_BLKP, HDRP, WSIZE, DSIZE. rewrite E1.
  repeat split; assumption.
Qed.

Lemma pre_dll_at (i : Z) :
  0 <= i < LIST_LIMIT -> is_dll h NULL (seg_get h i) (lists i).
Proof.
  intros Hi. destruct Hpre as [_ _ _ _ Hd _].
  rewrite Forall_forall in Hd. apply Hd. apply in_classes. exact Hi.
Qed.

Lemma pre_listed_at (i x : Z) :
  0 <= i < LIST_LIMIT -> In x (lists i) ->
  exists s, In (x, (s, false)) (block_starts (first_block h) bl) /\
            get_list_index s = i.
Proof.
  intros Hi Hx. destruct Hpre as [_ _ _ _ _ Hl].
  rewrite Forall_forall in Hl. specialize (Hl i (proj2 (in_classes i) Hi)).
  rewrite Forall_forall in Hl. apply Hl. exact Hx.
Qed.

(** Two blocks of the heap at the same address are the same block. *)
Lemma pre_block_unique (x : Z) (b c : block) :
  In (x, b) (block_starts (first_block h) bl) ->
  In (x, c) (block_starts (first_block h) bl) -> b = c.
Proof.
  intros Hb Hc. destruct Hpre as [_ _ Hs _ _ _].
  destruct (in_block_starts_sizes _ _ _ _ Hs Hb).
  destruct (in_block_starts_sizes _ _ _ _ Hs Hc).
  destruct (block_starts_disjoint _ Hs _ _ _ _ _ Hb Hc) as [(_ & E)|E];
    [exact E|lia].
Qed.

(** Listed nodes are apart, or the same node of the same class. *)
Lemma pre_listed_sep (i j x y : Z) :
  0 <= i < LIST_LIMIT -> 0 <= j < LIST_LIMIT ->
  In x (lists i) -> In y (lists j) ->
  (x = y /\ i = j) \/ x + 16 <= y \/ y + 16 <= x.
Proof.
  intros Hi Hj Hx Hy.
  destruct (pre_listed_at i x Hi Hx) as (s & Hs & Ei).
  destruct (pre_listed_at j y Hj Hy) as (t & Ht & Ej).
  destruct Hpre as [_ _ Hso _ _ _].
  destruct (in_block_starts_sizes _ _ _ _ Hso Hs) as (Hs16 & _).
  destruct (in_block_starts_sizes _ _ _ _ Hso Ht) as (Ht16 & _).
  simpl in *.
  destruct (block_starts_disjoint _ Hso _ _ _ _ _ Hs Ht) as [(E1 & E2)|E].
  - left. inversion E2; subst. split; reflexivity.
  - right. simpl in E. lia.
Qed.

Lemma pre_nodes_sep (i : Z) : 0 <= i < LIST_LIMIT -> nodes_sep (lists i).
Proof.
  intros Hi y z Hy Hz.
  destruct (pre_listed_sep i i y z Hi Hi Hy Hz) as [(E & _)|E]; [left; exact E|lia].
Qed.

End HeapPre.

(** ** Rewriting the tags of a run of blocks *)

Lemma sizes_ok_app (l1 l2 : list block) :
  sizes_ok (l1 ++ l2) <-> sizes_ok l1 /\ sizes_ok l2.
Proof. unfold sizes_ok. apply Forall_app. Qed.

Lemma same_provider_refl (h : heap) : same_provider h h.
Proof. repeat split. Qed.

Lemma same_provider_trans (h1 h2 h3 : heap) :
  same_provider h1 h2 -> same_provider h2 h3 -> same_provider h1 h3.
Proof.
  intros (A1 & A2 & A3 & A4) (B1 & B2 & B3 & B4).
  repeat split; congruence.
Qed.

Lemma same_provider_PUT (h : heap) (p v : Z) : same_provider h (PUT h p v).
Proof. repeat split. Qed.

Lemma same_provider_first_block (h h' : heap) :
  same_provider h h' -> first_block h' = first_block h /\ heap_start h' = heap_start h.
Proof.
  intros (E & _). unfold first_block, heap_start. rewrite E. split; reflexivity.
Qed.

(** The blocks [mid] of a heap are replaced by blocks [mid'] that cover the
    same bytes.  If only bytes of their span changed, the new tags are in
    place and no listed node lay in the span, the heap is well formed
    again, with the lists it had. *)
Lemma heap_pre_retag (h h' : heap) (pre mid mid' post : list block)
      (lists : lists_t) :
  heap_pre h (pre ++ mid ++ post) lists ->
  same_provider h h' ->
  total mid' = total mid ->
  sizes_ok mid' ->
  (forall a, a + 4 <= first_block h + total pre - 4 \/
             first_block h + total pre + total mid - 4 <= a ->
             GET h' a = GET h a) ->
  Forall (tagged h') (block_starts (first_block h + total pre) mid') ->
  (forall i x, 0 <= i < LIST_LIMIT -> In x (lists i) ->
               x < first_block h + total pre \/
               first_block h + total pre + total mid <= x) ->
  heap_pre h' (pre ++ mid' ++ post) lists.
Proof.
  intros Hpre Hsame Htot Hsz Hout Htags Hclear.
  pose proof Hpre as [(Hsp & Hsm) (Hb & Hm) Hs (Hl & He) Hd Hls].
  destruct (same_provider_first_block _ _ Hsame) as (Efb & Ehs).
  destruct Hsame as (Esl & _ & Ebrk & _).
  apply sizes_ok_app in Hs. destruct Hs as (Hs1 & Hs2).
  apply sizes_ok_app in Hs2. destruct Hs2 as (Hs2 & Hs3).
  pose proof (total_nonneg _ Hs1). pose proof (total_nonneg _ Hs2).
  pose proof (total_nonneg _ Hs3).
  set (X := first_block h + total pre) in *.
  assert (Hfb : first_block h = heap_start h + 8) by reflexivity.
  (* where a block of the old heap lies *)
  assert (Hwhere : forall x b,
            In (x, b) (block_starts (first_block h) (pre ++ mid ++ post)) ->
            (In (x, b) (block_starts (first_block h) pre) /\ x + fst b <= X /\ 16 <= fst b) \/
            (X <= x /\ x + 16 <= X + total mid) \/
            (In (x, b) (block_starts (X + total mid) post) /\ X + total mid <= x)).
  { intros x b Hin. rewrite !block_starts_app in Hin.
    apply in_app_or in Hin. destruct Hin as [Hin|Hin].
    - left. pose proof (in_block_starts_bounds _ Hs1 _ _ _ Hin).
      pose proof (in_block_starts_sizes _ _ _ _ Hs1 Hin). unfold X. tauto.
    - apply in_app_or in Hin. destruct Hin as [Hin|Hin].
      + right. left. pose proof (in_block_starts_bounds _ Hs2 _ _ _ Hin).
        pose proof (in_block_starts_sizes _ _ _ _ Hs2 Hin). fold X in H2. lia.
      + right. right. pose proof (in_block_starts_bounds _ Hs3 _ _ _ Hin).
        fold X in Hin, H2. split; [exact Hin|lia]. }
  constructor.
  - rewrite Esl. split; assumption.
  - rewrite Efb, Ebrk, !total_app, Htot. rewrite !total_app in Hb.
    split; assumption.
  - apply sizes_ok_app. split; [exact Hs1|].
    apply sizes_ok_app. split; assumption.
  - split.
    + rewrite Ehs. simpl. simpl in Hl. inversion Hl as [|? ? Hpro Hl']; subst.
      constructor.
      * destruct Hpro as (P1 & P2). unfold tagged in *. simpl in *.
        unfold HDRP, WSIZE, DSIZE in *.
        rewrite !Hout by (fold X; lia). split; assumption.
      * change (heap_start h + DSIZE) with (first_block h) in *.
        rewrite !block_starts_app in *.
        apply Forall_app in Hl'. destruct Hl' as (T1 & T2).
        apply Forall_app in T2. destruct T2 as (T2 & T3).
        apply Forall_app. split; [|apply Forall_app; split].
        -- rewrite Forall_forall in *. intros (x, b) Hin.
           specialize (T1 _ Hin). unfold tagged, HDRP, WSIZE, DSIZE in *. simpl in *.
           pose proof (in_block_starts_bounds _ Hs1 _ _ _ Hin).
           pose proof (in_block_starts_sizes _ _ _ _ Hs1 Hin). simpl in *.
           rewrite !Hout by (fold X; lia). exact T1.
        -- exact Htags.
        -- rewrite Htot. rewrite Forall_forall in *. intros (x, b) Hin.
           specialize (T3 _ Hin). unfold tagged, HDRP, WSIZE, DSIZE in *. simpl in *.
           pose proof (in_block_starts_bounds _ Hs3 _ _ _ Hin).
           pose proof (in_block_starts_sizes _ _ _ _ Hs3 Hin). simpl in *.
           rewrite !Hout by (fold X; lia). exact T3.
    + rewrite Efb, !total_app, Htot. rewrite !total_app in He.
      unfold HDRP, WSIZE in *. rewrite Hout by (fold X; lia). exact He.
  - rewrite Forall_forall in *. intros i Hi.
    specialize (Hd i Hi). apply in_classes in Hi.
    assert (Eg : seg_get h' i = seg_get h i).
    { rewrite !seg_get_eq, !seg_slot_eq, Esl. apply Hout.
      fold X. rewrite first_block_eq in *. unfold LIST_LIMIT in Hi. lia. }
    rewrite Eg. eapply is_dll_frame; [|exact Hd].
    intros y Hy.
    destruct (pre_listed_at _ _ _ Hpre i y Hi Hy) as (s & Hin & _).
    specialize (Hclear i y Hi Hy). fold X in Hclear.
    destruct (Hwhere _ _ Hin) as [(_ & B1 & B2)|[B|(_ & B)]]; simpl in *.
    + split; apply Hout; fold X; lia.
    + lia.
    + split; apply Hout; fold X; lia.
  - rewrite Forall_forall in *. intros i Hi.
    specialize (Hls i Hi). apply in_classes in Hi.
    rewrite Forall_forall in *. intros y Hy.
    destruct (Hls y Hy) as (s & Hin & Ec). exists s. split; [|exact Ec].
    rewrite Efb.
    specialize (Hclear i y Hi Hy). fold X in Hclear.
    rewrite !block_starts_app. fold X. rewrite Htot.
    destruct (Hwhere _ _ Hin) as [(B & _)|[B|(B & _)]].
    + apply in_or_app. left. exact B.
    + lia.
    + apply in_or_app. right. apply in_or_app. right. exact B.
Qed.

(** ** Link words *)

Lemma layout_frame (h h' : heap) (bl : list block) :
  sizes_ok bl ->
  same_provider h h' ->
  (forall a,
      a = heap_start h - 4 \/ a = heap_start h \/
      a = first_block h + total bl - 4 \/
      (exists x b, In (x, b) (block_starts (first_block h) bl) /\
                   (a = x - 4 \/ a = x + fst b - 8)) ->
      GET h' a = GET h a) ->
  layout h bl -> layout h' bl.
Proof.
  intros Hs Hsame Hf (Hl & He).
  destruct (same_provider_first_block _ _ Hsame) as (Efb & Ehs).
  split.
  - rewrite Ehs. simpl in *. inversion Hl as [|? ? (P1 & P2) Hl']; subst.
    constructor.
    + unfold tagged, HDRP, WSIZE, DSIZE in *. simpl in *.
      rewrite !Hf; [split; assumption| |].
      * right. left. lia.
      * left. reflexivity.
    + rewrite Forall_forall in *. intros (x, b) Hin. specialize (Hl' _ Hin).
      unfold tagged, HDRP, WSIZE, DSIZE in *. simpl in *.
      rewrite !Hf; [exact Hl'| |];
        right; right; right; exists x, b; (split; [exact Hin|]); [right|left];
          reflexivity.
  - rewrite Efb. unfold HDRP, WSIZE in *. rewrite Hf; [exact He|].
    right. right. left. reflexivity.
Qed.

(** Writing a table slot or a link slot of a block leaves every tag. *)
Lemma layout_PUT_link (h : heap) (bl : list block) (w v : Z) :
  sizes_ok bl ->
  layout h bl ->
  (seg_list h <= w <= seg_list h + 76 \/
   exists y c, In (y, c) (block_starts (first_block h) bl) /\
               (w = y \/ w = y + 4)) ->
  layout (PUT h w v) bl.
Proof.
  intros Hs Hl Hw. apply (layout_frame h); [exact Hs|apply same_provider_PUT| |exact Hl].
  intros a Ha. apply GET_PUT_other.
  pose proof (total_nonneg _ Hs) as Ht.
  pose proof (first_block_eq h) as Efb. pose proof (heap_start_eq h) as Ehs.
  destruct Hw as [Hw|(y & c & Hy & Hw)].
  - destruct Ha as [->|[->|[->|(x & b & Hx & Ha)]]]; try lia.
    pose proof (in_block_starts_bounds _ Hs _ _ _ Hx).
    pose proof (in_block_starts_sizes _ _ _ _ Hs Hx). lia.
  - pose proof (in_block_starts_bounds _ Hs _ _ _ Hy).
    pose proof (in_block_starts_sizes _ _ _ _ Hs Hy).
    destruct Ha as [->|[->|[->|(x & b & Hx & Ha)]]]; try lia.
    pose proof (in_block_starts_bounds _ Hs _ _ _ Hx).
    pose proof (in_block_starts_sizes _ _ _ _ Hs Hx).
    destruct (block_starts_disjoint _ Hs _ _ _ _ _ Hx Hy) as [(E1 & E2)|E];
      [subst|]; lia.
Qed.

(** ** [delete_node] *)

Lemma mem_PUT_other (h : heap) (w v a : Z) :
  a < w \/ w + 4 <= a -> mem (PUT h w v) a = mem h a.
Proof. intros. unfold PUT. simpl. apply store32_byte_other. assumption. Qed.

Lemma delete_node_eq (h : heap) (x : Z) :
  delete_node h x =
  let pr := GET h x in
  let su := GET h (x + 4) in
  let h1 := if negb (pr =? NULL) then PUT h (pr + 4) su
            else PUT h (seg_slot h (get_list_index (GET_SIZE h (HDRP x)))) su in
  if negb (GET h1 (x + 4) =? NULL) then PUT h1 (GET h1 (x + 4)) (GET h1 x)
  else h1.
Proof. reflexivity. Qed.

Lemma same_provider_delete_node (h : heap) (x : Z) :
  same_provider h (delete_node h x).
Proof.
  rewrite delete_node_eq. cbv zeta.
  repeat match goal with
         | |- context [if ?c then _ else _] => destruct c
         end; repeat split.
Qed.

Lemma heap_pre_listed_subset (h : heap) (bl : list block) (lists lists' : lists_t) :
  heap_pre h bl lists ->
  (forall i y, 0 <= i < LIST_LIMIT -> In y (lists' i) -> In y (lists i)) ->
  Forall (fun i =>
            Forall (fun x => exists s,
                        In (x, (s, false)) (block_starts (first_block h) bl)
                        /\ get_list_index s = i)
                   (lists' i)) classes.
Proof.
  intros Hpre Hsub. rewrite Forall_forall. intros i Hi. apply in_classes in Hi.
  rewrite Forall_forall. intros y Hy.
  apply (pre_listed_at _ _ _ Hpre i y Hi). apply Hsub; assumption.
Qed.

(** A listed block leaves its list; nothing but the table and link slots of
    listed blocks is written. *)
Lemma delete_node_pre (h : heap) (bl : list block) (lists : lists_t) (i x : Z) :
  heap_pre h bl lists -> 0 <= i < LIST_LIMIT -> In x (lists i) ->
  heap_pre (delete_node h x) bl (unlist lists i x) /\
  (forall a,
      seg_list h + 80 <= a ->
      (forall j y, 0 <= j < LIST_LIMIT -> In y (lists j) -> a < y \/ y + 8 <= a) ->
      mem (delete_node h x) a = mem h a).
Proof.
  intros Hpre Hi Hx.
  destruct (pre_listed_at _ _ _ Hpre i x Hi Hx) as (s & Hin & Ec).
  destruct (pre_block_read _ _ _ Hpre _ _ Hin) as (Esz & _). simpl in Esz.
  pose proof (pre_dll_at _ _ _ Hpre i Hi) as Hd.
  pose proof (pre_nodes_sep _ _ _ Hpre i Hi) as Hsep.
  pose proof (is_list_NoDup _ _ _ (is_dll_is_list _ _ _ _ Hd)) as Hnd.
  destruct (in_split _ _ Hx) as (l1 & l2 & El).
  rewrite El in Hd, Hsep, Hnd.
  pose proof (first_block_eq h) as Efb.
  pose proof Hpre as [(Hsp & _) _ Hso Hlay _ _].
  assert (Hnode : forall j y, 0 <= j < LIST_LIMIT -> In y (lists j) ->
            seg_list h + 96 <= y /\
            exists c, In (y, c) (block_starts (first_block h) bl)).
  { intros j y Hj Hy.
    destruct (pre_listed_at _ _ _ Hpre j y Hj Hy) as (t & Ht & _).
    destruct (pre_block _ _ _ Hpre _ _ Ht) as (_ & _ & _ & _ & Hlo & _).
    split; [lia|]. exists (t, false). exact Ht. }
  rewrite delete_node_eq, Esz, Ec. cbv zeta.
  set (pr := GET h x). set (su := GET h (x + 4)).
  assert (Hsu : is_dll h x su l2) by (eapply is_dll_succ_in; exact Hd).
  assert (Hsu_in : su = NULL \/ In su (lists i)).
  { destruct (is_dll_head _ _ _ _ Hsu) as [E|E]; [left; exact E|right].
    rewrite El. apply in_or_app. right. right. exact E. }
  assert (Hsur : 0 <= su < 4294967296) by apply GET_range.
  assert (Hprr : 0 <= pr < 4294967296) by apply GET_range.
  assert (Hx_su : su = NULL \/ x + 8 <= su \/ su + 8 <= x).
  { destruct (is_dll_head _ _ _ _ Hsu) as [E|E]; [left; exact E|right].
    destruct (Hsep x su) as [E'|E'];
      [apply in_or_app; right; left; reflexivity
      |apply in_or_app; right; right; exact E| |exact E'].
    exfalso. apply NoDup_remove_2 in Hnd. apply Hnd. rewrite E'.
    apply in_or_app. right. exact E. }
  (* the first write goes to a word [w1] outside [x] *)
  set (w1 := if negb (pr =? NULL) then pr + 4 else seg_slot h i).
  assert (Eh1 : (if negb (pr =? NULL) then PUT h (pr + 4) su
                 else PUT h (seg_slot h i) su) = PUT h w1 su).
  { unfold w1. destruct (negb (pr =? NULL)); reflexivity. }
  rewrite Eh1. clear Eh1.
  assert (Hcase : (l1 = [] /\ pr = NULL /\ w1 = seg_slot h i) \/
                  (In pr l1 /\ pr <> NULL /\ w1 = pr + 4)).
  { unfold w1. destruct (is_dll_pred_in _ _ _ _ _ _ Hd) as [(E1 & E2)|(E1 & E2)].
    - left. fold pr in E2. rewrite E2. simpl. repeat split; assumption.
    - right. fold pr in E1, E2. destruct (Z.eqb_spec pr NULL); [contradiction|].
      repeat split; assumption. }
  assert (Hw1 : (seg_list h <= w1 <= seg_list h + 76 /\ pr = NULL) \/
                (In pr (lists i) /\ w1 = pr + 4 /\ pr <> x)).
  { destruct Hcase as [(_ & E & ->)|(Hin1 & Hn & ->)].
    - left. rewrite seg_slot_eq. unfold LIST_LIMIT in Hi. split; [lia|exact E].
    - right. split; [rewrite El; apply in_or_app; left; exact Hin1|].
      split; [reflexivity|].
      apply (NoDup_app_disjoint _ l1 (x :: l2)); [exact Hnd|exact Hin1|].
      left. reflexivity. }
  assert (Hw1x : w1 + 4 <= x \/ x + 8 <= w1).
  { destruct Hw1 as [(Hw & _)|(Hin1 & -> & Hne)].
    - destruct (Hnode i x Hi Hx). lia.
    - destruct (pre_listed_sep _ _ _ Hpre i i pr x Hi Hi Hin1 Hx) as [(E & _)|E];
        [contradiction|lia]. }
  rewrite !(GET_PUT_other h w1 su) by lia. fold pr su.
  set (h1 := PUT h w1 su).
  set (h2 := if negb (su =? NULL) then PUT h1 su pr else h1).
  (* how the two writes relate to a listed node *)
  assert (Hw1_far : forall j y, 0 <= j < LIST_LIMIT -> In y (lists j) ->
            y <> pr -> w1 + 4 <= y \/ y + 8 <= w1).
  { intros j y Hj Hy Hne.
    destruct (Hnode j y Hj Hy) as (Hlo & _).
    destruct Hw1 as [(Hw & _)|(Hin1 & -> & _)]; [lia|].
    destruct (pre_listed_sep _ _ _ Hpre j i y pr Hj Hi Hy Hin1) as [(E & _)|E];
      [contradiction|lia]. }
  assert (Hsu_far : forall j y, 0 <= j < LIST_LIMIT -> In y (lists j) ->
            y <> su -> su = NULL \/ su + 4 <= y \/ y + 8 <= su).
  { intros j y Hj Hy Hne.
    destruct Hsu_in as [E|Hin2]; [left; exact E|right].
    destruct (pre_listed_sep _ _ _ Hpre j i y su Hj Hi Hy Hin2) as [(E & _)|E];
      [contradiction|lia]. }
  assert (Hkeep : forall j y, 0 <= j < LIST_LIMIT -> In y (lists j) ->
            y <> pr -> y <> su ->
            GET h2 y = GET h y /\ GET h2 (y + 4) = GET h (y + 4)).
  { intros j y Hj Hy Hnp Hns.
    specialize (Hw1_far j y Hj Hy Hnp). specialize (Hsu_far j y Hj Hy Hns).
    unfold h2, h1. destruct (Z.eqb_spec su NULL) as [E|E]; cbn [negb].
    - split; apply GET_PUT_other; lia.
    - destruct Hsu_far as [F|F]; [contradiction|].
      split; (rewrite GET_PUT_other by lia; apply GET_PUT_other; lia). }
  assert (Hsame : same_provider h h2).
  { unfold h2, h1. destruct (negb (su =? NULL)); repeat split. }
  assert (Hlay2 : layout h2 bl).
  { assert (Hl1 : layout h1 bl).
    { unfold h1. apply layout_PUT_link; [exact Hso|exact Hlay|].
      destruct Hw1 as [(Hw & _)|(Hin1 & -> & _)]; [left; exact Hw|right].
      destruct (Hnode i pr Hi Hin1) as (_ & c & Hc).
      exists pr, c. split; [exact Hc|right; reflexivity]. }
    unfold h2. destruct (Z.eqb_spec su NULL) as [E|E]; cbn [negb]; [exact Hl1|].
    apply layout_PUT_link; [exact Hso|exact Hl1|]. right.
    destruct Hsu_in as [F|Hin2]; [contradiction|].
    destruct (Hnode i su Hi Hin2) as (_ & c & Hc).
    exists su, c. split; [exact Hc|left; reflexivity]. }
  assert (Hseg : forall j, 0 <= j < LIST_LIMIT -> j <> i \/ pr <> NULL ->
            seg_get h2 j = seg_get h j).
  { intros j Hj Hji. rewrite !seg_get_eq.
    assert (Es : seg_slot h2 j = seg_slot h j).
    { rewrite !seg_slot_eq. destruct Hsame as (E & _). rewrite E. reflexivity. }
    rewrite Es. rewrite seg_slot_eq. unfold LIST_LIMIT in Hj, Hi.
    assert (Hw1j : w1 + 4 <= seg_list h + 4 * j \/ seg_list h + 4 * j + 4 <= w1).
    { destruct Hcase as [(_ & E & ->)|(Hin1 & Hn & ->)].
      - rewrite seg_slot_eq. destruct Hji as [F|F]; [lia|contradiction].
      - assert (In pr (lists i)) by (rewrite El; apply in_or_app; left; exact Hin1).
        destruct (Hnode i pr Hi H). lia. }
    unfold h2, h1. destruct (Z.eqb_spec su NULL) as [E|E]; cbn [negb].
    - apply GET_PUT_other; lia.
    - destruct Hsu_in as [F|Hin2]; [contradiction|].
      destruct (Hnode i su Hi Hin2).
      rewrite GET_PUT_other by lia. apply GET_PUT_other; lia. }
  split.
  - constructor.
    + destruct Hsame as (E & _). rewrite E. apply (pre_seg _ _ _ Hpre).
    + destruct (same_provider_first_block _ _ Hsame) as (E1 & _).
      destruct Hsame as (_ & _ & E2 & _). rewrite E1, E2.
      apply (pre_brk _ _ _ Hpre).
    + exact Hso.
    + exact Hlay2.
    + rewrite Forall_forall. intros j Hj. apply in_classes in Hj.
      unfold unlist, upd.
      destruct (Z.eqb_spec j i) as [->|Hji].
      * (* the list that loses [x] *)
        rewrite El, remove_node_middle by exact Hnd.
        destruct Hcase as [(-> & Epr & Ew)|(Hin1 & Hn & Ew)].
        -- simpl app in *.
           assert (Eg : seg_get h2 i = su).
           { rewrite seg_get_eq.
             assert (Es : seg_slot h2 i = seg_slot h i).
             { rewrite !seg_slot_eq. destruct Hsame as (E & _). rewrite E. reflexivity. }
             rewrite Es. unfold h2, h1. rewrite Ew.
             destruct (Z.eqb_spec su NULL) as [E|E]; cbn [negb].
             - rewrite GET_PUT_same. apply wrap_small. exact Hsur.
             - destruct Hsu_in as [F|Hin2]; [contradiction|].
               destruct (Hnode i su Hi Hin2). rewrite seg_slot_eq.
               unfold LIST_LIMIT in Hi.
               rewrite GET_PUT_other by lia.
               rewrite GET_PUT_same. apply wrap_small. exact Hsur. }
           rewrite Eg. unfold h2. rewrite Epr.
           apply is_dll_delete_head with (x := x).
           ++ unfold h1. apply is_dll_PUT; [|exact Hsu].
              intros y Hy.
              assert (Hyi : In y (lists i)) by (rewrite El; right; exact Hy).
              destruct (Hnode i y Hi Hyi). rewrite Ew, seg_slot_eq.
              unfold LIST_LIMIT in Hi. lia.
           ++ unfold NULL. lia.
           ++ intros a b Ha Hb. apply Hsep; right; assumption.
        -- rewrite (Hseg i Hi (or_intror Hn)).
           assert (Hne : l1 <> []) by (intros ->; contradiction).
           pose proof (is_dll_delete_mid h x l2 l1 NULL _ Hne Hd Hsep) as Hm.
           cbv zeta in Hm. fold pr su in Hm. rewrite <- Ew in Hm. exact Hm.
      * (* the other lists *)
        rewrite (Hseg j Hj (or_introl Hji)).
        eapply is_dll_frame; [|apply (pre_dll_at _ _ _ Hpre j Hj)].
        intros y Hy. apply (Hkeep j y Hj Hy).
        -- destruct Hw1 as [(_ & E)|(Hin1 & _ & _)].
           ++ rewrite E. destruct (Hnode j y Hj Hy). unfold NULL. lia.
           ++ intros E. subst y.
              destruct (pre_listed_sep _ _ _ Hpre j i pr pr Hj Hi Hy Hin1)
                as [(_ & F)|F]; [contradiction|lia].
        -- destruct Hsu_in as [E|Hin2].
           ++ rewrite E. destruct (Hnode j y Hj Hy). unfold NULL. lia.
           ++ intros E. subst y.
              destruct (pre_listed_sep _ _ _ Hpre j i su su Hj Hi Hy Hin2)
                as [(_ & F)|F]; [contradiction|lia].
    + assert (Hsub : forall j y, 0 <= j < LIST_LIMIT ->
                In y (unlist lists i x j) -> In y (lists j)).
      { intros j y Hj. unfold unlist, upd.
        destruct (Z.eqb_spec j i) as [->|_]; [|tauto].
        rewrite remove_node_in. tauto. }
      pose proof (heap_pre_listed_subset h bl lists _ Hpre Hsub) as Hls.
      destruct (same_provider_first_block _ _ Hsame) as (E1 & _).
      rewrite E1. exact Hls.
  - intros a Ha Hfar.
    assert (Hw1a : a < w1 \/ w1 + 4 <= a).
    { destruct Hw1 as [(Hw & _)|(Hin1 & -> & _)]; [lia|].
      specialize (Hfar i pr Hi Hin1). lia. }
    unfold h2, h1. destruct (Z.eqb_spec su NULL) as [E|E]; cbn [negb].
    + apply mem_PUT_other. exact Hw1a.
    + destruct Hsu_in as [F|Hin2]; [contradiction|].
      specialize (Hfar i su Hi Hin2).
      rewrite mem_PUT_other by lia. apply mem_PUT_other. exact Hw1a.
Qed.

(** ** [insert_node] *)

Lemma insert_node_eq (h : heap) (x s : Z) :
  insert_node h x s =
  let i := get_list_index s in
  let root := seg_get h i in
  let h1 := PUT h (x + 4) root in
  let h2 := PUT h1 x NULL in
  let h3 := if negb (root =? NULL) then PUT h2 root x else h2 in
  PUT h3 (seg_slot h3 i) x.
Proof. reflexivity. Qed.

(** A free block that is on no list becomes the head of the list of its
    class; nothing but the table, the block's own link slots and the old
    head's predecessor slot is written. *)
Lemma insert_node_pre (h : heap) (bl : list block) (lists : lists_t) (x s : Z) :
  heap_pre h bl lists ->
  In (x, (s, false)) (block_starts (first_block h) bl) ->
  (forall j, 0 <= j < LIST_LIMIT -> ~ In x (lists j)) ->
  heap_pre (insert_node h x s) bl (enlist lists (get_list_index s) x) /\
  (forall a,
      seg_list h + 80 <= a ->
      a < x \/ x + 8 <= a ->
      (forall j y, 0 <= j < LIST_LIMIT -> In y (lists j) -> a < y \/ y + 8 <= a) ->
      mem (insert_node h x s) a = mem h a).
Proof.
  intros Hpre Hin Hnew.
  pose proof (get_list_index_range s) as Hi.
  set (i := get_list_index s) in *.
  pose proof (pre_dll_at _ _ _ Hpre i Hi) as Hd.
  pose proof (pre_nodes_sep _ _ _ Hpre i Hi) as Hsep.
  pose proof (first_block_eq h) as Efb.
  pose proof Hpre as [(Hsp & _) (_ & Hbrk) Hso Hlay _ _]. unfold MINUS_ONE in Hbrk.
  destruct (pre_block _ _ _ Hpre _ _ Hin) as (_ & _ & Hs16 & _ & Hxlo & Hxhi & _).
  simpl in Hs16, Hxhi.
  assert (Hnode : forall j y, 0 <= j < LIST_LIMIT -> In y (lists j) ->
            seg_list h + 96 <= y /\ (x + 16 <= y \/ y + 16 <= x) /\
            exists c, In (y, c) (block_starts (first_block h) bl)).
  { intros j y Hj Hy.
    destruct (pre_listed_at _ _ _ Hpre j y Hj Hy) as (t & Ht & _).
    destruct (pre_block _ _ _ Hpre _ _ Ht) as (_ & _ & Ht16 & _ & Hlo & _).
    simpl in Ht16.
    split; [lia|]. split; [|exists (t, false); exact Ht].
    destruct (block_starts_disjoint _ Hso _ _ _ _ _ Hin Ht) as [(E & _)|E];
      [|simpl in E; lia].
    exfalso. subst y. exact (Hnew j Hj Hy). }
  rewrite insert_node_eq. cbv zeta. fold i.
  set (root := seg_get h i) in *.
  assert (Hroot_in : root = NULL \/ In root (lists i))
    by (eapply is_dll_head; exact Hd).
  assert (Hrr : 0 <= root < 4294967296) by apply GET_range.
  set (h1 := PUT h (x + 4) root).
  set (h2 := PUT h1 x NULL).
  set (h3 := if negb (root =? NULL) then PUT h2 root x else h2).
  assert (Es3 : seg_slot h3 i = seg_slot h i).
  { unfold h3, h2, h1. destruct (negb (root =? NULL)); reflexivity. }
  rewrite Es3. set (h4 := PUT h3 (seg_slot h i) x).
  assert (Hsame : same_provider h h4).
  { unfold h4, h3, h2, h1. destruct (negb (root =? NULL)); repeat split. }
  assert (Hslot : seg_list h <= seg_slot h i <= seg_list h + 76).
  { rewrite seg_slot_eq. unfold LIST_LIMIT in Hi. lia. }
  assert (Hroot_far : root = NULL \/
            (seg_list h + 96 <= root /\ (x + 16 <= root \/ root + 16 <= x))).
  { destruct Hroot_in as [E|E]; [left; exact E|right].
    destruct (Hnode i root Hi E) as (A & B & _). split; assumption. }
  assert (Esl3 : seg_list h3 = seg_list h).
  { unfold h3, h2, h1. destruct (negb (root =? NULL)); reflexivity. }
  assert (Hlay4 : layout h4 bl).
  { unfold h4. apply layout_PUT_link;
      [exact Hso| |left; rewrite Esl3; exact Hslot].
    assert (Hl2 : layout h2 bl).
    { unfold h2, h1.
      apply layout_PUT_link; [exact Hso| |right; exists x, (s, false); tauto].
      apply layout_PUT_link; [exact Hso|exact Hlay|].
      right; exists x, (s, false); tauto. }
    unfold h3. destruct (Z.eqb_spec root NULL) as [E|E]; cbn [negb]; [exact Hl2|].
    apply layout_PUT_link; [exact Hso|exact Hl2|]. right.
    destruct Hroot_in as [F|F]; [contradiction|].
    destruct (Hnode i root Hi F) as (_ & _ & c & Hc). exists root, c. tauto. }
  assert (Hkeep : forall a, a + 4 <= x \/ x + 8 <= a ->
            root = NULL \/ a + 4 <= root \/ root + 4 <= a ->
            a + 4 <= seg_slot h i \/ seg_slot h i + 4 <= a ->
            GET h4 a = GET h a).
  { intros a Hax Har Has. unfold h4, h3, h2, h1.
    rewrite GET_PUT_other by lia.
    destruct (Z.eqb_spec root NULL) as [E|E]; cbn [negb].
    - rewrite !GET_PUT_other by lia. reflexivity.
    - destruct Har as [F|F]; [contradiction|].
      rewrite !GET_PUT_other by lia. reflexivity. }
  split.
  - constructor.
    + destruct Hsame as (E & _). rewrite E. apply (pre_seg _ _ _ Hpre).
    + destruct (same_provider_first_block _ _ Hsame) as (E1 & _).
      destruct Hsame as (_ & _ & E2 & _). rewrite E1, E2.
      apply (pre_brk _ _ _ Hpre).
    + exact Hso.
    + exact Hlay4.
    + rewrite Forall_forall. intros j Hj. apply in_classes in Hj.
      assert (Esj : seg_slot h4 j = seg_slot h j).
      { rewrite !seg_slot_eq. destruct Hsame as (E & _). rewrite E. reflexivity. }
      unfold enlist, upd. rewrite seg_get_eq, Esj.
      destruct (Z.eqb_spec j i) as [->|Hji].
      * assert (Eg : GET h4 (seg_slot h i) = x).
        { unfold h4. rewrite GET_PUT_same. apply wrap_small. lia. }
        rewrite Eg. unfold h4. apply is_dll_PUT.
        { intros y [<-|Hy]; [lia|]. destruct (Hnode i y Hi Hy). lia. }
        unfold h3, h2, h1. apply is_dll_insert_head; try assumption.
        -- unfold NULL. lia.
        -- lia.
        -- intros y Hy. destruct (Hnode i y Hi Hy) as (_ & A & _). lia.
      * assert (Eg : GET h4 (seg_slot h j) = GET h (seg_slot h j)).
        { apply Hkeep.
          - rewrite seg_slot_eq. unfold LIST_LIMIT in Hj. lia.
          - destruct Hroot_far as [E|(A & _)]; [left; exact E|right].
            rewrite seg_slot_eq. unfold LIST_LIMIT in Hj. lia.
          - rewrite !seg_slot_eq. unfold LIST_LIMIT in Hj, Hi. lia. }
        rewrite Eg, <- seg_get_eq.
        eapply is_dll_frame; [|apply (pre_dll_at _ _ _ Hpre j Hj)].
        intros y Hy. destruct (Hnode j y Hj Hy) as (A & B & _).
        assert (Hyr : root = NULL \/ y + 16 <= root \/ root + 16 <= y).
        { destruct Hroot_in as [E|E]; [left; exact E|right].
          destruct (pre_listed_sep _ _ _ Hpre j i y root Hj Hi Hy E)
            as [(_ & F)|F]; [contradiction|exact F]. }
        split; apply Hkeep; lia.
    + destruct (same_provider_first_block _ _ Hsame) as (E1 & _). rewrite E1.
      rewrite Forall_forall. intros j Hj. apply in_classes in Hj.
      rewrite Forall_forall. intros y Hy. unfold enlist, upd in Hy.
      destruct (Z.eqb_spec j i) as [->|Hji].
      * destruct Hy as [<-|Hy].
        -- exists s. split; [exact Hin|reflexivity].
        -- apply (pre_listed_at _ _ _ Hpre i y Hi Hy).
      * apply (pre_listed_at _ _ _ Hpre j y Hj Hy).
  - intros a Ha Hax Hfar.
    unfold h4, h3, h2, h1.
    rewrite mem_PUT_other by lia.
    destruct (Z.eqb_spec root NULL) as [E|E]; cbn [negb].
    + rewrite !mem_PUT_other by lia. reflexivity.
    + destruct Hroot_in as [F|F]; [contradiction|].
      specialize (Hfar i root Hi F).
      rewrite !mem_PUT_other by lia. reflexivity.
Qed.

(** ** Live data *)

(** Replacing a run of blocks by blocks of the same total size keeps every
    other block where it is. *)
Lemma in_block_starts_swap (bp : Z) (pre mid mid' post : list block)
      (y : Z) (c : block) :
  total mid' = total mid ->
  In (y, c) (block_starts bp (pre ++ mid ++ post)) ->
  ~ In (y, c) (block_starts (bp + total pre) mid) ->
  In (y, c) (block_starts bp (pre ++ mid' ++ post)).
Proof.
  intros Et Hin Hn. rewrite !block_starts_app in *. rewrite Et.
  apply in_app_or in Hin. apply in_or_app.
  destruct Hin as [Hin|Hin]; [left; exact Hin|right].
  apply in_app_or in Hin. apply in_or_app.
  destruct Hin as [Hin|Hin]; [contradiction|right; exact Hin].
Qed.

Lemma in_block_starts_In (bl : list block) :
  forall bp y c, In (y, c) (block_starts bp bl) -> In c bl.
Proof.
  induction bl as [|b bl IH]; intros bp y c H; [contradiction|].
  destruct H as [H|H]; [inversion H; left; reflexivity|right; exact (IH _ _ _ H)].
Qed.

Lemma live_swap (bp : Z) (pre mid mid' post : list block) (a : Z) :
  total mid' = total mid ->
  (forall c, In c mid -> snd c = false) ->
  live bp (pre ++ mid ++ post) a -> live bp (pre ++ mid' ++ post) a.
Proof.
  intros Et Hfree (y & s & Hin & Ha). exists y, s. split; [|exact Ha].
  apply (in_block_starts_swap bp pre mid mid' post y (s, true) Et Hin).
  intros F. apply in_block_starts_In in F. apply Hfree in F. discriminate.
Qed.

(** A live byte keeps its distance from every free block: it lies before
    the block's header or behind its footer. *)
Lemma live_outside_free (bp : Z) (bl : list block) (a x sx : Z) :
  sizes_ok bl -> live bp bl a ->
  In (x, (sx, false)) (block_starts bp bl) ->
  a + 8 < x \/ x + sx <= a.
Proof.
  intros Hso (y & t & Hy & Ha) Hx. unfold DSIZE in Ha.
  destruct (block_starts_disjoint bl Hso bp _ _ _ _ Hy Hx) as [(_ & E)|E].
  - discriminate.
  - simpl in E. lia.
Qed.

(** A live byte is outside the table and the link words of every node. *)
Lemma live_clear (h : heap) (bl : list block) (lists : lists_t) (a : Z) :
  heap_pre h bl lists -> live (first_block h) bl a ->
  seg_list h + 80 <= a /\
  (forall j y, 0 <= j < LIST_LIMIT -> In y (lists j) -> a < y \/ y + 8 <= a).
Proof.
  intros Hpre Hl. pose proof (pre_sizes _ _ _ Hpre) as Hso. split.
  - destruct Hl as (y & t & Hy & Ha).
    pose proof (in_block_starts_bounds _ Hso _ _ _ Hy).
    pose proof (first_block_eq h). lia.
  - intros j y Hj Hy.
    destruct (pre_listed_at _ _ _ Hpre j y Hj Hy) as (s & Hs & _).
    pose proof (in_block_starts_sizes _ _ _ _ Hso Hs). simpl in *.
    destruct (live_outside_free _ _ _ _ _ Hso Hl Hs); lia.
Qed.

Lemma delete_node_live (h : heap) (bl : list block) (lists : lists_t)
      (i x a : Z) :
  heap_pre h bl lists -> 0 <= i < LIST_LIMIT -> In x (lists i) ->
  live (first_block h) bl a ->
  mem (delete_node h x) a = mem h a.
Proof.
  intros Hpre Hi Hx Hl.
  destruct (delete_node_pre h bl lists i x Hpre Hi Hx) as (_ & Hf).
  destruct (live_clear h bl lists a Hpre Hl) as (H1 & H2).
  apply Hf; assumption.
Qed.

Lemma insert_node_live (h : heap) (bl : list block) (lists : lists_t)
      (x s a : Z) :
  heap_pre h bl lists ->
  In (x, (s, false)) (block_starts (first_block h) bl) ->
  (forall j, 0 <= j < LIST_LIMIT -> ~ In x (lists j)) ->
  live (first_block h) bl a ->
  mem (insert_node h x s) a = mem h a.
Proof.
  intros Hpre Hin Hnew Hl.
  destruct (insert_node_pre h bl lists x s Hpre Hin Hnew) as (_ & Hf).
  destruct (live_clear h bl lists a Hpre Hl) as (H1 & H2).
  pose proof (pre_sizes _ _ _ Hpre) as Hso.
  pose proof (in_block_starts_sizes _ _ _ _ Hso Hin). simpl in *.
  apply Hf; try assumption.
  destruct (live_outside_free _ _ _ _ _ Hso Hl Hin); lia.
Qed.

(** A live byte is not part of any header or footer. *)
Lemma live_not_tag (bp : Z) (bl : list block) (a x : Z) (b : block) :
  sizes_ok bl -> live bp bl a ->
  In (x, b) (block_starts bp bl) ->
  (a < x - 4 \/ x <= a) /\ (a < x + fst b - 8 \/ x + fst b - 4 <= a).
Proof.
  intros Hso (y & t & Hy & Ha) Hx. unfold DSIZE in Ha.
  pose proof (in_block_starts_sizes _ _ _ _ Hso Hx).
  destruct (block_starts_disjoint bl Hso bp _ _ _ _ Hy Hx) as [(E1 & E2)|E].
  - subst. simpl in *. lia.
  - simpl in E. lia.
Qed.

(** ** [place] *)

Lemma tagged_intro (h : heap) (x s : Z) (a : bool) :
  GET h (x - 4) = tag (s, a) -> GET h (x + s - 8) = tag (s, a) ->
  tagged h (x, (s, a)).
Proof. intros H1 H2. split; simpl; unfold HDRP, WSIZE, DSIZE; assumption. Qed.

Lemma wrap_tag (s : Z) (a : bool) :
  valid_size s -> wrap (tag (s, a)) = tag (s, a).
Proof.
  intros Hv. apply wrap_small. unfold tag. simpl. apply PACK_range; [exact Hv|].
  destruct a; [right|left]; reflexivity.
Qed.

Lemma GET_SIZE_tag (h : heap) (p s : Z) (a : bool) :
  valid_size s -> GET h p = tag (s, a) -> GET_SIZE h p = s.
Proof.
  intros Hv E. eapply tag_decode; [exact Hv| |exact E].
  destruct a; [right|left]; reflexivity.
Qed.

Lemma all_free_listed_app (bp : Z) (l1 l2 : list block) (lists : lists_t) :
  all_free_listed bp (l1 ++ l2) lists <->
  all_free_listed bp l1 lists /\ all_free_listed (bp + total l1) l2 lists.
Proof. unfold all_free_listed. rewrite block_starts_app. apply Forall_app. Qed.

Lemma all_free_listed_mono (bp : Z) (bl : list block) (lists lists' : lists_t) :
  all_free_listed bp bl lists ->
  (forall x b, In (x, b) (block_starts bp bl) -> snd b = false ->
     In x (lists (get_list_index (fst b))) ->
     In x (lists' (get_list_index (fst b)))) ->
  all_free_listed bp bl lists'.
Proof.
  unfold all_free_listed. rewrite !Forall_forall. intros H Hm (x, b) Hin Hf.
  simpl in *. apply (Hm x b Hin Hf). apply (H (x, b) Hin Hf).
Qed.

Lemma in_unlist (lists : lists_t) (i x j y : Z) :
  In y (lists j) -> y <> x -> In y (unlist lists i x j).
Proof.
  intros Hy Hne. unfold unlist, upd. destruct (Z.eqb_spec j i) as [->|_];
    [apply remove_node_in; split; assumption|exact Hy].
Qed.

Lemma unlist_in (lists : lists_t) (i x j y : Z) :
  In y (unlist lists i x j) -> In y (lists j).
Proof.
  unfold unlist, upd. destruct (Z.eqb_spec j i) as [->|_]; [|tauto].
  rewrite remove_node_in. tauto.
Qed.

Lemma in_enlist (lists : lists_t) (i x j y : Z) :
  In y (lists j) -> In y (enlist lists i x j).
Proof.
  intros Hy. unfold enlist, upd. destruct (Z.eqb_spec j i) as [->|_];
    [right; exact Hy|exact Hy].
Qed.

Lemma in_enlist_head (lists : lists_t) (i x : Z) : In x (enlist lists i x i).
Proof. unfold enlist, upd. rewrite Z.eqb_refl. left. reflexivity. Qed.

(** In a well-formed heap, a listed node inside the span of a free block is
    that block. *)
Lemma listed_in_span (h : heap) (bl : list block) (lists : lists_t)
      (x s : Z) (a : bool) (j y : Z) :
  heap_pre h bl lists ->
  In (x, (s, a)) (block_starts (first_block h) bl) ->
  0 <= j < LIST_LIMIT -> In y (lists j) ->
  y = x \/ y < x \/ x + s <= y.
Proof.
  intros Hpre Hx Hj Hy.
  destruct (pre_listed_at _ _ _ Hpre j y Hj Hy) as (t & Ht & _).
  pose proof (pre_sizes _ _ _ Hpre) as Hso.
  destruct (in_block_starts_sizes _ _ _ _ Hso Ht) as (Ht16 & _).
  destruct (block_starts_disjoint _ Hso _ _ _ _ _ Hx Ht) as [(E & _)|E];
    [left; symmetry; exact E|simpl in *; lia].
Qed.

(** [place] on a free block of a well-formed heap; the payload bytes of the
    allocated blocks are left alone. *)
Lemma place_inv_frame (h : heap) (pre post : list block) (lists : lists_t)
      (csize asize : Z) :
  heap_inv h (pre ++ (csize, false) :: post) lists ->
  asize mod 8 = 0 -> 16 <= asize <= csize ->
  let bp := first_block h + total pre in
  let i := get_list_index csize in
  let kept :=
    forall a, live (first_block h) (pre ++ (csize, false) :: post) a ->
              mem (place h bp asize) a = mem h a in
  same_provider h (place h bp asize) /\
  (16 <= csize - asize ->
   heap_inv (place h bp asize)
            (pre ++ (asize, true) :: (csize - asize, false) :: post)
            (enlist (unlist lists i bp) (get_list_index (csize - asize))
                    (bp + asize)) /\ kept) /\
  (csize - asize < 16 ->
   heap_inv (place h bp asize) (pre ++ (csize, true) :: post)
            (unlist lists i bp) /\ kept).
Proof.
  intros [Hpre Hfree] Ha8 Ha bp i kept. subst kept.
  assert (Hkd : forall a, live (first_block h) (pre ++ (csize, false) :: post) a ->
                          mem (delete_node h bp) a = mem h a /\
                          (a + 8 < bp \/ bp + csize <= a)).
  { intros a Hl. split.
    - apply (delete_node_live h _ lists (get_list_index csize) bp a Hpre
               (get_list_index_range csize)); [|exact Hl].
      unfold all_free_listed in Hfree. rewrite Forall_forall in Hfree.
      apply (Hfree (bp, (csize, false))
                   (in_block_starts_middle (first_block h) pre post (csize, false))).
      reflexivity.
    - apply (live_outside_free _ _ _ _ _ (pre_sizes _ _ _ Hpre) Hl).
      apply in_block_starts_middle. }
  pose proof (in_block_starts_middle (first_block h) pre post (csize, false)) as Hin.
  fold bp in Hin.
  destruct (pre_block _ _ _ Hpre _ _ Hin) as (_ & _ & Hc16 & Hc8 & Hlo & Hhi & _).
  destruct (pre_block_read _ _ _ Hpre _ _ Hin) as (Esz & _).
  simpl in Hc16, Hc8, Hhi, Esz.
  pose proof (pre_brk _ _ _ Hpre) as (_ & Hbrk). unfold MINUS_ONE in Hbrk.
  pose proof (pre_seg _ _ _ Hpre) as (Hsp & _).
  pose proof (first_block_eq h) as Efb.
  pose proof (get_list_index_range csize) as Hi. fold i in Hi.
  assert (Hbp_listed : In bp (lists i)).
  { unfold all_free_listed in Hfree. rewrite Forall_forall in Hfree.
    apply (Hfree (bp, (csize, false)) Hin). reflexivity. }
  destruct (delete_node_pre h _ lists i bp Hpre Hi Hbp_listed) as (Hd & _).
  pose proof (same_provider_delete_node h bp) as Hsd.
  destruct (same_provider_first_block _ _ Hsd) as (Efd & _).
  set (hd := delete_node h bp) in *.
  assert (Esub : sub32 csize asize = csize - asize) by (apply wrap_small; lia).
  assert (Hva : valid_size asize) by (split; [lia|exact Ha8]).
  assert (Hvc : valid_size csize) by (split; [lia|exact Hc8]).
  assert (Hrem8 : (csize - asize) mod 8 = 0).
  { pose proof (Z.div_mod csize 8 ltac:(lia)).
    pose proof (Z.div_mod asize 8 ltac:(lia)).
    replace (csize - asize) with ((csize / 8 - asize / 8) * 8) by lia.
    apply Z.mod_mul. lia. }
  (* listed nodes stay clear of the block *)
  assert (Hclear : forall j y, 0 <= j < LIST_LIMIT -> In y (unlist lists i bp j) ->
            y < first_block hd + total pre \/
            first_block hd + total pre + total [(csize, false)] <= y).
  { intros j y Hj Hy. rewrite Efd. fold bp. simpl.
    assert (Hy' : In y (lists j) /\ y <> bp).
    { unfold unlist, upd in Hy. destruct (Z.eqb_spec j i) as [->|Hji].
      - apply remove_node_in in Hy. exact Hy.
      - split; [exact Hy|]. intros ->.
        destruct (pre_listed_at _ _ _ Hpre j bp Hj Hy) as (t & Ht & Ec).
        pose proof (pre_block_unique _ _ _ Hpre _ _ _ Ht Hin) as E.
        inversion E; subst. contradiction. }
    destruct Hy' as (Hy' & Hne).
    destruct (listed_in_span _ _ _ _ _ _ j y Hpre Hin Hj Hy') as [E|E];
      [contradiction|lia]. }
  assert (Hold_listed : forall x b,
            In (x, b) (block_starts (first_block h) pre) \/
            In (x, b) (block_starts (bp + csize) post) ->
            snd b = false ->
            In x (lists (get_list_index (fst b))) /\ x <> bp).
  { intros x b Hx Hb.
    assert (Hx' : In (x, b) (block_starts (first_block h)
                                          (pre ++ (csize, false) :: post))).
    { rewrite block_starts_app. simpl. fold bp.
      apply in_or_app. destruct Hx as [Hx|Hx]; [left; exact Hx|right; right; exact Hx]. }
    unfold all_free_listed in Hfree. rewrite Forall_forall in Hfree.
    split; [apply (Hfree (x, b) Hx' Hb)|].
    intros ->.
    pose proof (pre_sizes _ _ _ Hpre) as Hso.
    apply sizes_ok_app in Hso. destruct Hso as (Hs1 & Hs2).
    pose proof (Forall_inv_tail Hs2) as Hs3.
    destruct Hx as [Hx|Hx].
    - pose proof (in_block_starts_bounds _ Hs1 _ _ _ Hx).
      pose proof (in_block_starts_sizes _ _ _ _ Hs1 Hx). unfold bp in *. lia.
    - pose proof (in_block_starts_bounds _ Hs3 _ _ _ Hx). lia. }
  unfold place. rewrite Esz, Esub. fold hd. unfold DSIZE, HDRP, WSIZE.
  change (2 * 8) with 16.
  split.
  { destruct (16 <=? csize - asize); unfold PUT, insert_node, SET_PRED, SET_SUCC,
      seg_set; cbv zeta;
      [destruct (negb (_ =? NULL))|]; destruct Hsd as (A & B & C & D);
        repeat split; simpl; assumption. }
  split.
  - intros Hsplit.
    destruct (Z.leb_spec 16 (csize - asize)); [|lia].
    set (ha := PUT hd (bp - 4) (PACK asize 1)).
    assert (Eha : GET ha (bp - 4) = tag (asize, true)).
    { unfold ha. rewrite GET_PUT_same. apply (wrap_tag asize true Hva). }
    assert (Ef1 : FTRP ha bp = bp + asize - 8).
    { unfold FTRP, HDRP, WSIZE, DSIZE.
      rewrite (GET_SIZE_tag ha _ asize true Hva Eha). reflexivity. }
    rewrite Ef1.
    set (hb := PUT ha (bp + asize - 8) (PACK asize 1)).
    assert (Ehb : GET hb (bp - 4) = tag (asize, true)).
    { unfold hb. rewrite GET_PUT_other by lia. exact Eha. }
    assert (En : NEXT_BLKP hb bp = bp + asize).
    { unfold NEXT_BLKP, WSIZE.
      rewrite (GET_SIZE_tag hb _ asize true Hva Ehb). reflexivity. }
    rewrite En.
    set (rs := csize - asize) in *.
    assert (Hvr : valid_size rs) by (split; [lia|exact Hrem8]).
    set (hc := PUT hb (bp + asize - 4) (PACK rs 0)).
    assert (Ehc : GET hc (bp + asize - 4) = tag (rs, false)).
    { unfold hc. rewrite GET_PUT_same. apply (wrap_tag rs false Hvr). }
    assert (Ef2 : FTRP hc (bp + asize) = bp + asize + rs - 8).
    { unfold FTRP, HDRP, WSIZE, DSIZE.
      rewrite (GET_SIZE_tag hc _ rs false Hvr Ehc). reflexivity. }
    rewrite Ef2.
    set (he := PUT hc (bp + asize + rs - 8) (PACK rs 0)).
    (* the four tags *)
    assert (Hretag : heap_pre he (pre ++ [(asize, true); (rs, false)] ++ post)
                              (unlist lists i bp)).
    { apply (heap_pre_retag hd he pre [(csize, false)]).
      - exact Hd.
      - unfold he, hc, hb, ha. repeat split.
      - simpl. unfold rs. lia.
      - repeat constructor; simpl; (lia || assumption).
      - intros a Hout. rewrite Efd in Hout. fold bp in Hout. simpl in Hout.
        unfold he, hc, hb, ha. rewrite !GET_PUT_other by (unfold rs; lia).
        reflexivity.
      - rewrite Efd. fold bp. simpl.
        apply Forall_cons; [|apply Forall_cons; [|apply Forall_nil]].
        + apply tagged_intro.
          * unfold he, hc. rewrite !GET_PUT_other by (unfold rs; lia). exact Ehb.
          * unfold he, hc, hb. rewrite !GET_PUT_other by (unfold rs; lia).
            rewrite GET_PUT_same. apply (wrap_tag asize true Hva).
        + apply tagged_intro.
          * unfold he. rewrite !GET_PUT_other by (unfold rs; lia).
            replace (bp + asize - 4) with (bp + asize - 4) by lia. exact Ehc.
          * unfold he. rewrite GET_PUT_same. apply (wrap_tag rs false Hvr).
      - exact Hclear. }
    assert (Hrem_in : In (bp + asize, (rs, false))
                         (block_starts (first_block he)
                            (pre ++ [(asize, true); (rs, false)] ++ post))).
    { change (first_block he) with (first_block hd). rewrite Efd.
      rewrite block_starts_app. fold bp. simpl.
      apply in_or_app. right. right. left. reflexivity. }
    assert (Hrem_new : forall j, 0 <= j < LIST_LIMIT ->
                         ~ In (bp + asize) (unlist lists i bp j)).
    { intros j Hj Hy. specialize (Hclear j _ Hj Hy).
      rewrite Efd in Hclear. fold bp in Hclear. simpl in Hclear. lia. }
    destruct (insert_node_pre he _ _ (bp + asize) rs Hretag Hrem_in Hrem_new)
      as (Hins & _).
    split; [|
      intros a Hl; destruct (Hkd a Hl) as (Ed & Hout); fold hd in Ed;
      rewrite (insert_node_live he _ _ (bp + asize) rs a Hretag Hrem_in Hrem_new);
      [unfold he, hc, hb, ha;
       rewrite !mem_PUT_other by (unfold rs; lia); exact Ed|];
      change (first_block he) with (first_block hd); rewrite Efd;
      apply (live_swap _ pre [(csize, false)] _ post a);
      [simpl; unfold rs; lia
      |intros c [<-|[]]; reflexivity
      |exact Hl]].
    constructor; [exact Hins|].
    assert (Efi : first_block (insert_node he (bp + asize) rs) = first_block h).
    { rewrite <- Efd. unfold insert_node, SET_PRED, SET_SUCC, seg_set. cbv zeta.
      destruct (negb (_ =? NULL)); reflexivity. }
    rewrite Efi.
    change (pre ++ (asize, true) :: (rs, false) :: post)
      with (pre ++ [(asize, true); (rs, false)] ++ post).
    apply all_free_listed_app in Hfree. destruct Hfree as (F1 & F2).
    fold bp in F2.
    apply all_free_listed_app. split; [|fold bp; apply all_free_listed_app; split].
    + apply (all_free_listed_mono _ _ lists); [exact F1|].
      intros x b Hx Hb Hl. apply in_enlist. apply in_unlist; [exact Hl|].
      apply (Hold_listed x b (or_introl Hx) Hb).
    + unfold all_free_listed. simpl.
      apply Forall_cons; [discriminate|apply Forall_cons; [|apply Forall_nil]].
      intros _. simpl. apply in_enlist_head.
    + simpl total. simpl in F2. unfold all_free_listed in F2. simpl in F2.
      pose proof (Forall_inv_tail F2) as F3.
      replace (bp + (asize + (rs + 0))) with (bp + csize) by (unfold rs; lia).
      apply (all_free_listed_mono _ _ lists); [exact F3|].
      intros x b Hx Hb Hl. apply in_enlist. apply in_unlist; [exact Hl|].
      apply (Hold_listed x b (or_intror Hx) Hb).
  - intros Hwhole.
    destruct (Z.leb_spec 16 (csize - asize)); [lia|].
    set (ha := PUT hd (bp - 4) (PACK csize 1)).
    assert (Eha : GET ha (bp - 4) = tag (csize, true)).
    { unfold ha. rewrite GET_PUT_same. apply (wrap_tag csize true Hvc). }
    assert (Ef1 : FTRP ha bp = bp + csize - 8).
    { unfold FTRP, HDRP, WSIZE, DSIZE.
      rewrite (GET_SIZE_tag ha _ csize true Hvc Eha). reflexivity. }
    rewrite Ef1.
    set (hb := PUT ha (bp + csize - 8) (PACK csize 1)).
    assert (Hretag : heap_pre hb (pre ++ [(csize, true)] ++ post)
                              (unlist lists i bp)).
    { apply (heap_pre_retag hd hb pre [(csize, false)]).
      - exact Hd.
      - unfold hb, ha. repeat split.
      - reflexivity.
      - repeat constructor; simpl; (lia || assumption).
      - intros a Hout. rewrite Efd in Hout. fold bp in Hout. simpl in Hout.
        unfold hb, ha. rewrite !GET_PUT_other by lia. reflexivity.
      - rewrite Efd. fold bp. simpl.
        apply Forall_cons; [|apply Forall_nil].
        apply tagged_intro.
        + unfold hb. rewrite !GET_PUT_other by lia. exact Eha.
        + unfold hb. rewrite GET_PUT_same. apply (wrap_tag csize true Hvc).
      - exact Hclear. }
    split; [|
      intros a Hl; destruct (Hkd a Hl) as (Ed & Hout); fold hd in Ed;
      unfold hb, ha; rewrite !mem_PUT_other by lia; exact Ed].
    constructor; [exact Hretag|].
    change (first_block hb) with (first_block hd). rewrite Efd.
    apply all_free_listed_app in Hfree. destruct Hfree as (F1 & F2).
    fold bp in F2.
    apply all_free_listed_app. split.
    + apply (all_free_listed_mono _ _ lists); [exact F1|].
      intros x b Hx Hb Hl. apply in_unlist; [exact Hl|].
      apply (Hold_listed x b (or_introl Hx) Hb).
    + fold bp. unfold all_free_listed in *. simpl in *.
      pose proof (Forall_inv_tail F2) as F3.
      apply Forall_cons; [discriminate|].
      apply (all_free_listed_mono _ _ lists); [exact F3|].
      intros x b Hx Hb Hl. apply in_unlist; [exact Hl|].
      apply (Hold_listed x b (or_intror Hx) Hb).
Qed.

Lemma place_inv (h : heap) (pre post : list block) (lists : lists_t)
      (csize asize : Z) :
  heap_inv h (pre ++ (csize, false) :: post) lists ->
  asize mod 8 = 0 -> 16 <= asize <= csize ->
  let bp := first_block h + total pre in
  let i := get_list_index csize in
  same_provider h (place h bp asize) /\
  (16 <= csize - asize ->
   heap_inv (place h bp asize)
            (pre ++ (asize, true) :: (csize - asize, false) :: post)
            (enlist (unlist lists i bp) (get_list_index (csize - asize))
                    (bp + asize))) /\
  (csize - asize < 16 ->
   heap_inv (place h bp asize) (pre ++ (csize, true) :: post)
            (unlist lists i bp)).
Proof.
  intros Hinv Ha8 Ha bp i.
  destruct (place_inv_frame h pre post lists csize asize Hinv Ha8 Ha)
    as (A & B & C).
  split; [exact A|]. split; intros Hc; [apply (B Hc)|apply (C Hc)].
Qed.

(** C7: for a free block [bp] of size [csize] in a well-formed heap and an
    adjusted request [asize <= csize] (a multiple of 8, at least 16),
    [place(bp, asize)] takes [bp] off its free list.  If
    [csize - asize >= 16] it writes [(asize, allocated)] to header and footer
    at [bp], gives the remainder at [bp + asize] header and footer
    [(csize - asize, free)] and makes it the head of the list of its class.
    Otherwise, an exact fit included, the whole block is marked
    [(csize, allocated)] and nothing is split.  The heap is well formed
    afterwards in both cases. *)
Theorem place_splits_or_consumes (h : heap) (pre post : list block)
        (lists : lists_t) (csize asize : Z) :
  heap_inv h (pre ++ (csize, false) :: post) lists ->
  asize mod 8 = 0 -> 16 <= asize <= csize ->
  let bp := first_block h + total pre in
  let h' := place h bp asize in
  let lists' := unlist lists (get_list_index csize) bp in
  (forall j, 0 <= j < LIST_LIMIT -> ~ In bp (lists' j)) /\
  (16 <= csize - asize ->
   GET h' (HDRP bp) = PACK asize 1 /\
   GET h' (bp + asize - DSIZE) = PACK asize 1 /\
   GET h' (HDRP (bp + asize)) = PACK (csize - asize) 0 /\
   GET h' (bp + csize - DSIZE) = PACK (csize - asize) 0 /\
   heap_inv h' (pre ++ (asize, true) :: (csize - asize, false) :: post)
            (enlist lists' (get_list_index (csize - asize)) (bp + asize))) /\
  (csize - asize < 16 ->
   GET h' (HDRP bp) = PACK csize 1 /\
   GET h' (bp + csize - DSIZE) = PACK csize 1 /\
   heap_inv h' (pre ++ (csize, true) :: post) lists').
Proof.
  intros Hinv Ha8 Ha bp h' lists'.
  destruct (place_inv h pre post lists csize asize Hinv Ha8 Ha)
    as (Hsame & Hsplit & Hwhole).
  fold bp in Hsame, Hsplit, Hwhole. fold h' in Hsame, Hsplit, Hwhole.
  fold lists' in Hsplit, Hwhole.
  destruct (same_provider_first_block _ _ Hsame) as (Efb & _).
  split; [|split].
  - intros j Hj Hin. unfold lists', unlist, upd in Hin.
    destruct (Z.eqb_spec j (get_list_index csize)) as [->|Hji].
    + exact (remove_node_not_in _ _ Hin).
    + destruct Hinv as [Hpre _].
      destruct (pre_listed_at _ _ _ Hpre j bp Hj Hin) as (t & Ht & Ec).
      pose proof (in_block_starts_middle (first_block h) pre post (csize, false)) as Hm.
      pose proof (pre_block_unique _ _ _ Hpre _ _ _ Ht Hm) as E.
      inversion E. congruence.
  - intros Hs. specialize (Hsplit Hs). destruct Hsplit as [Hpre' Hfree'].
    assert (H1 : In (bp, (asize, true))
                    (block_starts (first_block h')
                       (pre ++ (asize, true) :: (csize - asize, false) :: post))).
    { rewrite Efb. apply in_block_starts_middle. }
    assert (H2 : In (bp + asize, (csize - asize, false))
                    (block_starts (first_block h')
                       (pre ++ (asize, true) :: (csize - asize, false) :: post))).
    { rewrite Efb.
      replace (bp + asize) with (first_block h + total (pre ++ [(asize, true)]))
        by (rewrite total_app; simpl; unfold bp; lia).
      change (pre ++ (asize, true) :: (csize - asize, false) :: post)
        with (pre ++ [(asize, true)] ++ (csize - asize, false) :: post).
      rewrite app_assoc. apply in_block_starts_middle. }
    destruct (pre_block _ _ _ Hpre' _ _ H1) as (A1 & A2 & _).
    destruct (pre_block _ _ _ Hpre' _ _ H2) as (B1 & B2 & _).
    simpl in A1, A2, B1, B2. unfold HDRP, WSIZE, DSIZE.
    replace (bp + asize + (csize - asize) - 8) with (bp + csize - 8) in B2 by lia.
    split; [exact A1|]. split; [exact A2|]. split; [exact B1|].
    split; [exact B2|]. constructor; assumption.
  - intros Hw. specialize (Hwhole Hw). destruct Hwhole as [Hpre' Hfree'].
    assert (H1 : In (bp, (csize, true))
                    (block_starts (first_block h') (pre ++ (csize, true) :: post))).
    { rewrite Efb. apply in_block_starts_middle. }
    destruct (pre_block _ _ _ Hpre' _ _ H1) as (A1 & A2 & _).
    simpl in A1, A2. unfold HDRP, WSIZE, DSIZE.
    split; [exact A1|]. split; [exact A2|]. constructor; assumption.
Qed.

(** ** Coalescing on the layout *)

Lemma no_adjacent_free_app (l1 l2 : list block) :
  no_adjacent_free (l1 ++ l2) <->
  no_adjacent_free l1 /\ no_adjacent_free l2 /\
  ~ (snd (last l1 epilogue) = false /\ snd (hd epilogue l2) = false).
Proof.
  induction l1 as [|b l1 IH].
  - simpl. split.
    + intros H. split; [exact I|]. split; [exact H|]. intros (F & _). discriminate.
    + intros (_ & H & _). exact H.
  - destruct l1 as [|c l1].
    + simpl. destruct l2 as [|d l2]; simpl.
      * split; [intros _|tauto]. repeat split; try exact I.
        intros (_ & F). discriminate.
      * tauto.
    + change (no_adjacent_free ((b :: c :: l1) ++ l2))
        with (~ (snd b = false /\ snd c = false) /\
              no_adjacent_free ((c :: l1) ++ l2)).
      change (no_adjacent_free (b :: c :: l1))
        with (~ (snd b = false /\ snd c = false) /\ no_adjacent_free (c :: l1)).
      change (last (b :: c :: l1) epilogue) with (last (c :: l1) epilogue).
      rewrite IH. tauto.
Qed.

Lemma prev_block_free_split (pre : list block) :
  snd (prev_block pre) = false ->
  pre = removelast pre ++ [prev_block pre].
Proof.
  intros H. unfold prev_block in *. apply app_removelast_last.
  intros ->. simpl in H. discriminate.
Qed.

Lemma next_block_free_split (post : list block) :
  snd (next_block post) = false -> post = next_block post :: tl post.
Proof.
  intros H. destruct post as [|b post]; [simpl in H; discriminate|reflexivity].
Qed.

Lemma last_epilogue_prologue (l : list block) :
  snd (last l epilogue) = snd (last l prologue).
Proof.
  induction l as [|b l IH]; [reflexivity|].
  destruct l; [reflexivity|exact IH].
Qed.

(** Merging keeps free blocks apart. *)
Lemma coalesced_no_adjacent_free (pre post : list block) (s : Z) :
  no_adjacent_free pre -> no_adjacent_free post ->
  no_adjacent_free (coalesced_blocks pre s post).
Proof.
  intros Hpre Hpost. unfold coalesced_blocks.
  set (m := (coalesced_size pre s post, false)).
  assert (Hright : no_adjacent_free
                     (m :: (if snd (next_block post) then post else tl post)) ).
  { destruct (snd (next_block post)) eqn:En.
    - destruct post as [|d post]; [simpl; tauto|].
      split; [|exact Hpost]. unfold next_block in En. simpl in En.
      intros (_ & F). congruence.
    - rewrite (next_block_free_split _ En) in Hpost. simpl tl.
      destruct (tl post) as [|d post'] eqn:Et; [simpl; tauto|].
      split; [|apply Hpost].
      destruct Hpost as (Hn & _). simpl in Hn.
      intros (_ & F). apply Hn. split; assumption. }
  apply no_adjacent_free_app.
  destruct (snd (prev_block pre)) eqn:Ep.
  - split; [exact Hpre|]. split; [exact Hright|].
    rewrite last_epilogue_prologue. fold (prev_block pre). rewrite Ep.
    intros (F & _). discriminate.
  - rewrite (prev_block_free_split _ Ep) in Hpre.
    apply no_adjacent_free_app in Hpre. destruct Hpre as (H1 & _ & H3).
    split; [exact H1|]. split; [exact Hright|].
    simpl in H3. intros (F & _). apply H3. split; assumption.
Qed.

Lemma no_adjacent_free_around (pre post : list block) (b : block) :
  no_adjacent_free (pre ++ b :: post) ->
  no_adjacent_free pre /\ no_adjacent_free post.
Proof.
  intros H. apply no_adjacent_free_app in H. destruct H as (H1 & H2 & _).
  split; [exact H1|]. destruct post; [exact I|apply H2].
Qed.

(** ** [coalesce] *)

Lemma last_app_singleton (A : Type) (l : list A) (a d : A) : last (l ++ [a]) d = a.
Proof. apply last_last. Qed.

(** The tags [coalesce] reads around the block after [pre]. *)
Lemma pre_neighbours (h : heap) (pre post : list block) (b : block)
      (lists : lists_t) :
  heap_pre h (pre ++ b :: post) lists ->
  let bp := first_block h + total pre in
  let prev := prev_block pre in
  GET h (bp - 8) = tag prev /\ GET h (bp - fst prev - 4) = tag prev /\
  valid_size (fst prev) /\ 8 <= fst prev /\
  (snd prev = false ->
   16 <= fst prev /\
   In (bp - fst prev, prev)
      (block_starts (first_block h) (pre ++ b :: post)) /\
   bp - fst prev = first_block h + total (removelast pre)) /\
  GET h (bp + fst b - 4) = tag (next_block post) /\
  valid_size (fst (next_block post)) /\
  (snd (next_block post) = false ->
   16 <= fst (next_block post) /\
   In (bp + fst b, next_block post)
      (block_starts (first_block h) (pre ++ b :: post))).
Proof.
  intros Hpre bp prev.
  pose proof Hpre as [_ _ Hso (Hl & He) _ _].
  assert (Hprev : GET h (bp - 8) = tag prev /\ GET h (bp - fst prev - 4) = tag prev /\
                  valid_size (fst prev) /\ 8 <= fst prev /\
                  (snd prev = false ->
                   16 <= fst prev /\
                   In (bp - fst prev, prev)
                      (block_starts (first_block h) (pre ++ b :: post)) /\
                   bp - fst prev = first_block h + total (removelast pre))).
  { assert (Hcases : pre = [] \/ exists pre' c, pre = pre' ++ [c]).
    { destruct pre as [|q pre0]; [left; reflexivity|right].
      destruct (@exists_last _ (q :: pre0)) as (pre' & c & E); [discriminate|].
      exists pre', c. exact E. }
    destruct Hcases as [->|(pre' & c & E)].
    - assert (B1 : bp - 8 = heap_start h).
      { unfold bp. rewrite first_block_eq, heap_start_eq. simpl. lia. }
      assert (B2 : bp - fst prev - 4 = heap_start h - 4).
      { unfold bp, prev, prev_block, prologue, DSIZE.
        rewrite first_block_eq, heap_start_eq. simpl. lia. }
      rewrite B1, B2.
      simpl in Hl. pose proof (Forall_inv Hl) as (P1 & P2).
      unfold HDRP, WSIZE, DSIZE in P1, P2. simpl in P1, P2.
      replace (heap_start h + 8 - 8) with (heap_start h) in P2 by lia.
      unfold prev, prev_block. simpl last. unfold prologue, DSIZE.
      split; [exact P2|]. split; [exact P1|].
      split; [split; [simpl; lia|reflexivity]|]. split; [simpl; lia|].
      simpl. discriminate.
    - assert (Ep : prev = c).
      { unfold prev, prev_block. rewrite E. apply last_last. }
      assert (Er : removelast pre = pre').
      { rewrite E. apply removelast_last. }
      assert (Hc : In (first_block h + total pre', c)
                      (block_starts (first_block h) (pre ++ b :: post))).
      { rewrite E, <- app_assoc. apply in_block_starts_middle. }
      assert (Ebp : bp - fst c = first_block h + total pre').
      { unfold bp. rewrite E, total_app. simpl. lia. }
      destruct (pre_block _ _ _ Hpre _ _ Hc) as (A1 & A2 & A3 & A4 & A5 & A6 & _).
      pose proof (pre_brk _ _ _ Hpre) as (_ & Hbrk). unfold MINUS_ONE in Hbrk.
      pose proof (pre_seg _ _ _ Hpre) as (Hsp & _).
      pose proof (first_block_eq h).
      rewrite Ep, Er, Ebp.
      replace (bp - 8) with (first_block h + total pre' + fst c - 8) by lia.
      split; [exact A2|]. split; [exact A1|].
      split; [split; [lia|exact A4]|]. split; [lia|].
      intros _. split; [exact A3|]. split; [exact Hc|reflexivity]. }
  destruct Hprev as (P1 & P2 & P3 & P4 & P5).
  split; [exact P1|]. split; [exact P2|]. split; [exact P3|].
  split; [exact P4|]. split; [exact P5|].
  destruct post as [|d post].
  - unfold next_block. simpl.
    rewrite total_app in He. simpl in He. unfold HDRP, WSIZE in He.
    replace (bp + fst b - 4) with (first_block h + (total pre + (fst b + 0)) - 4)
      by (unfold bp; lia).
    split; [exact He|]. split; [split; [lia|reflexivity]|]. discriminate.
  - unfold next_block. simpl.
    assert (Hd : In (bp + fst b, d)
                    (block_starts (first_block h) (pre ++ b :: d :: post))).
    { replace (bp + fst b) with (first_block h + total (pre ++ [b]))
        by (rewrite total_app; simpl; unfold bp; lia).
      change (pre ++ b :: d :: post) with (pre ++ [b] ++ d :: post).
      rewrite app_assoc. apply in_block_starts_middle. }
    destruct (pre_block _ _ _ Hpre _ _ Hd) as (A1 & _ & A3 & A4 & A5 & A6 & _).
    pose proof (pre_brk _ _ _ Hpre) as (_ & Hbrk). unfold MINUS_ONE in Hbrk.
    pose proof (pre_seg _ _ _ Hpre) as (Hsp & _).
    pose proof (first_block_eq h).
    split; [exact A1|]. split; [split; [lia|exact A4]|].
    intros _. split; [exact A3|exact Hd].
Qed.

(** The last steps of every case: the tags of the merged block are in
    place, and it is put on the list of its size. *)
Lemma coalesce_finish (hA h2 : heap) (pre' mid post' : list block)
      (listsA : lists_t) :
  heap_pre hA (pre' ++ mid ++ post') listsA ->
  mid <> [] ->
  same_provider hA h2 ->
  let bp' := first_block hA + total pre' in
  let size := total mid in
  (forall a, a + 4 <= bp' - 4 \/ bp' + size - 4 <= a -> GET h2 a = GET hA a) ->
  GET h2 (bp' - 4) = tag (size, false) ->
  GET h2 (bp' + size - 8) = tag (size, false) ->
  (forall j y, 0 <= j < LIST_LIMIT -> In y (listsA j) ->
               y < bp' \/ bp' + size <= y) ->
  all_free_listed (first_block hA) pre' listsA ->
  all_free_listed (bp' + size) post' listsA ->
  heap_inv (insert_node h2 bp' size) (pre' ++ (size, false) :: post')
           (enlist listsA (get_list_index size) bp') /\
  same_provider hA (insert_node h2 bp' size) /\
  (forall a, live (first_block hA) (pre' ++ (size, false) :: post') a ->
             mem (insert_node h2 bp' size) a = mem h2 a).
Proof.
  intros Hpre Hne Hsame bp' size Hout Hhd Hft Hclear Hf1 Hf2.
  pose proof (pre_sizes _ _ _ Hpre) as Hso.
  apply sizes_ok_app in Hso. destruct Hso as (Hs1 & Hs2).
  apply sizes_ok_app in Hs2. destruct Hs2 as (Hs2 & Hs3).
  assert (Hsz : 16 <= size /\ size mod 8 = 0).
  { unfold size. split; [|apply total_mod8; exact Hs2].
    destruct mid as [|c mid]; [contradiction|].
    inversion Hs2 as [|? ? (Hc & _) Hs2']; subst. simpl.
    pose proof (total_nonneg _ Hs2'). lia. }
  destruct (same_provider_first_block _ _ Hsame) as (Efb & _).
  assert (Hretag : heap_pre h2 (pre' ++ [(size, false)] ++ post') listsA).
  { apply (heap_pre_retag hA h2 pre' mid); try assumption.
    - simpl. unfold size. lia.
    - repeat constructor; simpl; tauto.
    - simpl. fold bp'. apply Forall_cons; [|apply Forall_nil].
      apply tagged_intro; assumption. }
  assert (Hin : In (bp', (size, false))
                   (block_starts (first_block h2)
                                 (pre' ++ [(size, false)] ++ post'))).
  { rewrite Efb. apply in_block_starts_middle. }
  assert (Hnew : forall j, 0 <= j < LIST_LIMIT -> ~ In bp' (listsA j)).
  { intros j Hj Hy. specialize (Hclear j bp' Hj Hy). lia. }
  destruct (insert_node_pre h2 _ _ bp' size Hretag Hin Hnew) as (Hins & _).
  assert (Hsi : same_provider h2 (insert_node h2 bp' size)).
  { rewrite insert_node_eq. cbv zeta.
    destruct (negb (_ =? NULL)); repeat split. }
  assert (Hsame' : same_provider hA (insert_node h2 bp' size))
    by (eapply same_provider_trans; eassumption).
  split; [|split; [exact Hsame'|]].
  2:{ intros a Hl. rewrite <- Efb in Hl.
      apply (insert_node_live h2 _ listsA bp' size a Hretag Hin Hnew Hl). }
  constructor; [exact Hins|].
  destruct (same_provider_first_block _ _ Hsame') as (Efi & _). rewrite Efi.
  change (pre' ++ (size, false) :: post')
    with (pre' ++ [(size, false)] ++ post').
  apply all_free_listed_app. split; [|fold bp'; apply all_free_listed_app; split].
  - apply (all_free_listed_mono _ _ listsA); [exact Hf1|].
    intros x b _ _ Hl. apply in_enlist. exact Hl.
  - unfold all_free_listed. simpl.
    apply Forall_cons; [|apply Forall_nil]. intros _. simpl. apply in_enlist_head.
  - simpl total. replace (bp' + (size + 0)) with (bp' + size) by lia.
    apply (all_free_listed_mono _ _ listsA); [exact Hf2|].
    intros x b _ _ Hl. apply in_enlist. exact Hl.
Qed.

Lemma bit_cases (a : bool) : (if a then 1 else 0) = 0 \/ (if a then 1 else 0) = 1.
Proof. destruct a; [right|left]; reflexivity. Qed.

Lemma GET_SIZE_read (h : heap) (p : Z) (b : block) :
  valid_size (fst b) -> GET h p = tag b -> GET_SIZE h p = fst b.
Proof.
  intros Hv E. eapply tag_decode; [exact Hv|apply (bit_cases (snd b))|exact E].
Qed.

Lemma GET_ALLOC_read (h : heap) (p : Z) (b : block) :
  valid_size (fst b) -> GET h p = tag b ->
  GET_ALLOC h p = (if snd b then 1 else 0).
Proof.
  intros Hv E. eapply tag_decode; [exact Hv|apply (bit_cases (snd b))|exact E].
Qed.

Lemma PREV_BLKP_read (h : heap) (bp : Z) (b : block) :
  valid_size (fst b) -> GET h (bp - 8) = tag b -> PREV_BLKP h bp = bp - fst b.
Proof.
  intros Hv E. unfold PREV_BLKP, DSIZE. rewrite (GET_SIZE_read _ _ _ Hv E).
  reflexivity.
Qed.

Lemma NEXT_BLKP_read (h : heap) (bp : Z) (b : block) :
  valid_size (fst b) -> GET h (bp - 4) = tag b -> NEXT_BLKP h bp = bp + fst b.
Proof.
  intros Hv E. unfold NEXT_BLKP, WSIZE. rewrite (GET_SIZE_read _ _ _ Hv E).
  reflexivity.
Qed.

Lemma FTRP_read (h : heap) (bp : Z) (b : block) :
  valid_size (fst b) -> GET h (bp - 4) = tag b -> FTRP h bp = bp + fst b - 8.
Proof.
  intros Hv E. unfold FTRP, HDRP, WSIZE, DSIZE.
  rewrite (GET_SIZE_read _ _ _ Hv E). reflexivity.
Qed.


Lemma in_map_fst_block_starts (bp y : Z) (bl : list block) :
  In y (map fst (block_starts bp bl)) <-> exists b, In (y, b) (block_starts bp bl).
Proof.
  rewrite in_map_iff. split.
  - intros ((y', b) & E & H). simpl in E. subst. exists b. exact H.
  - intros (b & H). exists (y, b). split; [reflexivity|exact H].
Qed.

(** A listed free block leaves its list inside an operation. *)
Lemma delete_node_step (h : heap) (bl : list block) (lists : lists_t)
      (X : list Z) (x sx : Z) :
  heap_pre h bl lists ->
  free_listed_except (first_block h) bl lists X ->
  unlisted lists X ->
  In (x, (sx, false)) (block_starts (first_block h) bl) ->
  ~ In x X ->
  heap_pre (delete_node h x) bl (unlist lists (get_list_index sx) x) /\
  free_listed_except (first_block (delete_node h x)) bl
                     (unlist lists (get_list_index sx) x) (x :: X) /\
  unlisted (unlist lists (get_list_index sx) x) (x :: X) /\
  same_provider h (delete_node h x).
Proof.
  intros Hpre Hfl Hun Hin HxX.
  pose proof (get_list_index_range sx) as Hi.
  assert (Hx : In x (lists (get_list_index sx))).
  { apply (Hfl x (sx, false) Hin eq_refl HxX). }
  destruct (delete_node_pre h bl lists _ x Hpre Hi Hx) as (Hd & _).
  pose proof (same_provider_delete_node h x) as Hs.
  destruct (same_provider_first_block _ _ Hs) as (Efb & _).
  split; [exact Hd|]. split; [|split; [|exact Hs]].
  - rewrite Efb. intros y b Hy Hb HyX.
    apply in_unlist.
    + apply (Hfl y b Hy Hb). intros F. apply HyX. right. exact F.
    + intros ->. apply HyX. left. reflexivity.
  - intros j y Hj Hy [<-|F].
    + unfold unlist, upd in Hy.
      destruct (Z.eqb_spec j (get_list_index sx)) as [->|Hji].
      * exact (remove_node_not_in _ _ Hy).
      * destruct (pre_listed_at _ _ _ Hpre j x Hj Hy) as (t & Ht & Ec).
        pose proof (pre_block_unique _ _ _ Hpre _ _ _ Ht Hin) as E.
        inversion E. congruence.
    + apply (Hun j y Hj (unlist_in _ _ _ _ _ Hy) F).
Qed.

(** The last steps of every case of [coalesce], for the blocks [mid] that
    are off the lists. *)
Lemma coalesce_finish_except (hA h2 : heap) (pre' mid post' : list block)
      (listsA : lists_t) (X : list Z) :
  heap_pre hA (pre' ++ mid ++ post') listsA ->
  free_listed_except (first_block hA) (pre' ++ mid ++ post') listsA X ->
  unlisted listsA X ->
  (forall y, In y X <->
             In y (map fst (block_starts (first_block hA + total pre') mid))) ->
  mid <> [] ->
  same_provider hA h2 ->
  let bp' := first_block hA + total pre' in
  let size := total mid in
  (forall a, a + 4 <= bp' - 4 \/ bp' + size - 4 <= a -> GET h2 a = GET hA a) ->
  GET h2 (bp' - 4) = tag (size, false) ->
  GET h2 (bp' + size - 8) = tag (size, false) ->
  heap_inv (insert_node h2 bp' size) (pre' ++ (size, false) :: post')
           (enlist listsA (get_list_index size) bp') /\
  same_provider hA (insert_node h2 bp' size) /\
  (forall a, live (first_block hA) (pre' ++ (size, false) :: post') a ->
             mem (insert_node h2 bp' size) a = mem h2 a).
Proof.
  intros Hpre Hfl Hun HX Hne Hsame bp' size Hout Hhd Hft.
  pose proof (pre_sizes _ _ _ Hpre) as Hso.
  apply sizes_ok_app in Hso. destruct Hso as (Hs1 & Hs2).
  apply sizes_ok_app in Hs2. destruct Hs2 as (Hs2 & Hs3).
  assert (HXspan : forall y, In y X -> bp' <= y /\ y + 16 <= bp' + size).
  { intros y Hy. apply HX in Hy. apply in_map_fst_block_starts in Hy.
    destruct Hy as (b & Hb).
    pose proof (in_block_starts_bounds _ Hs2 _ _ _ Hb).
    pose proof (in_block_starts_sizes _ _ _ _ Hs2 Hb). fold bp' in H. unfold size. lia. }
  apply coalesce_finish; try assumption.
  - intros j y Hj Hy.
    destruct (pre_listed_at _ _ _ Hpre j y Hj Hy) as (t & Ht & _).
    rewrite !block_starts_app in Ht. fold bp' in Ht.
    apply in_app_or in Ht. destruct Ht as [Ht|Ht].
    + pose proof (in_block_starts_bounds _ Hs1 _ _ _ Ht).
      pose proof (in_block_starts_sizes _ _ _ _ Hs1 Ht). simpl in *.
      fold bp' in H. lia.
    + apply in_app_or in Ht. destruct Ht as [Ht|Ht].
      * exfalso. apply (Hun j y Hj Hy). apply HX.
        apply in_map_fst_block_starts. exists (t, false). exact Ht.
      * pose proof (in_block_starts_bounds _ Hs3 _ _ _ Ht). fold size in H. lia.
  - unfold all_free_listed. rewrite Forall_forall. intros (y, b) Hy Hb.
    simpl in *. apply (Hfl y b); [|exact Hb|].
    + rewrite block_starts_app. apply in_or_app. left. exact Hy.
    + intros F. apply HXspan in F.
      pose proof (in_block_starts_bounds _ Hs1 _ _ _ Hy).
      pose proof (in_block_starts_sizes _ _ _ _ Hs1 Hy). fold bp' in H. lia.
  - unfold all_free_listed. rewrite Forall_forall. intros (y, b) Hy Hb.
    simpl in *. apply (Hfl y b); [|exact Hb|].
    + rewrite !block_starts_app. apply in_or_app. right.
      apply in_or_app. right. exact Hy.
    + intros F. apply HXspan in F.
      pose proof (in_block_starts_bounds _ Hs3 _ _ _ Hy).
      pose proof (in_block_starts_sizes _ _ _ _ Hs3 Hy). lia.
Qed.

(** The words around a free block of a well-formed heap. *)
Lemma around_block (h : heap) (pre post : list block) (s : Z) (a : bool)
      (lists : lists_t) :
  heap_pre h (pre ++ (s, a) :: post) lists ->
  let bp := first_block h + total pre in
  let prev := prev_block pre in
  let next := next_block post in
  (GET h (bp - 4) = tag (s, a) /\ GET h (bp + s - 8) = tag (s, a) /\
   GET h (bp - 8) = tag prev /\ GET h (bp - fst prev - 4) = tag prev /\
   GET h (bp + s - 4) = tag next /\
   (snd next = false -> GET h (bp + s + fst next - 8) = tag next)) /\
  (valid_size s /\ valid_size (fst prev) /\ valid_size (fst next) /\
   16 <= s /\ 8 <= fst prev /\ 0 <= fst next /\
   (snd prev = false -> 16 <= fst prev) /\
   (snd next = false -> 16 <= fst next) /\
   first_block h <= bp - absorb prev /\
   bp + s + absorb next <= mem_brk h /\ mem_brk h < 4294967295 /\
   0 < seg_list h).
Proof.
  intros Hpre bp prev next.
  pose proof (in_block_starts_middle (first_block h) pre post (s, a)) as Hin.
  fold bp in Hin.
  destruct (pre_block _ _ _ Hpre _ _ Hin) as (T1 & T2 & H16 & H8 & Hlo & Hhi & _).
  simpl in T1, T2, H16, H8, Hhi.
  destruct (pre_neighbours h pre post (s, a) lists Hpre)
    as (P1 & P2 & P3 & P4 & P5 & N1 & N2 & N3).
  fold bp prev next in P1, P2, P3, P4, P5, N1, N2, N3. simpl in N1, N3.
  pose proof (pre_brk _ _ _ Hpre) as (_ & Hbrk). unfold MINUS_ONE in Hbrk.
  pose proof (pre_seg _ _ _ Hpre) as (Hsp & _).
  pose proof (first_block_eq h) as Efb.
  assert (A1 : (snd prev = false -> 16 <= fst prev) /\
               first_block h <= bp - absorb prev).
  { unfold absorb. destruct (snd prev) eqn:E; [split; [discriminate|lia]|].
    destruct (P5 eq_refl) as (Q1 & Q2 & Q3).
    destruct (pre_block _ _ _ Hpre _ _ Q2) as (_ & _ & _ & _ & Q4 & _).
    split; [intros _; exact Q1|lia]. }
  assert (A2 : (snd next = false ->
                16 <= fst next /\ GET h (bp + s + fst next - 8) = tag next) /\
               bp + s + absorb next <= mem_brk h).
  { unfold absorb. destruct (snd next) eqn:E; [split; [discriminate|lia]|].
    destruct (N3 eq_refl) as (Q1 & Q2).
    destruct (pre_block _ _ _ Hpre _ _ Q2) as (_ & Q3 & _ & _ & _ & Q4 & _).
    split; [intros _; split; [exact Q1|exact Q3]|lia]. }
  destruct A1 as (A1 & A1'). destruct A2 as (A2 & A2').
  destruct N2 as (N2 & N2').
  split.
  - repeat split; try assumption. intros E. apply (A2 E).
  - split; [split; [lia|exact H8]|]. split; [exact P3|].
    split; [split; assumption|].
    repeat split; try assumption; try lia. intros E. apply (A2 E).
Qed.

Lemma free_block_is (b : block) : snd b = false -> b = (fst b, false).
Proof. destruct b as (s, a). simpl. intros ->. reflexivity. Qed.

Lemma add32_small (a b : Z) : 0 <= a + b < 4294967296 -> add32 a b = a + b.
Proof. intros. unfold add32. apply wrap_small. assumption. Qed.

Lemma coalesce_inv (h : heap) (pre post : list block) (s : Z) (lists : lists_t) :
  heap_pre h (pre ++ (s, false) :: post) lists ->
  free_listed_except (first_block h) (pre ++ (s, false) :: post) lists
                     [first_block h + total pre] ->
  unlisted lists [first_block h + total pre] ->
  let bp := first_block h + total pre in
  fst (coalesce h bp) = coalesced_start bp pre /\
  heap_inv (snd (coalesce h bp)) (coalesced_blocks pre s post)
           (coalesced_lists lists bp pre s post) /\
  same_provider h (snd (coalesce h bp)) /\
  (forall a, live (first_block h) (pre ++ (s, false) :: post) a ->
             mem (snd (coalesce h bp)) a = mem h a).
Proof.
  intros Hpre Hfl Hun bp.
  pose proof (pre_sizes _ _ _ Hpre) as Hso.
  pose proof (in_block_starts_middle (first_block h) pre post (s, false)) as Hself.
  fold bp in Hself.
  destruct (around_block h pre post s false lists Hpre)
    as ((T1 & T2 & P1 & P2 & N1 & N1') & V).
  fold bp in T1, T2, P1, P2, N1, N1', V, Hfl, Hun.
  destruct (pre_neighbours h pre post (s, false) lists Hpre)
    as (_ & _ & _ & _ & Pin & _ & _ & Nin).
  fold bp in Pin, Nin. simpl fst in Nin.
  set (prev := prev_block pre) in *. set (next := next_block post) in *.
  destruct V as (Vs & Vp & Vn & H16 & Hp8 & Hn0 & Hp16 & Hn16 & Hlo & Hhi & Hbrk & Hsp).
  pose proof (first_block_eq h) as Efbh.
  assert (Esz : GET_SIZE h (HDRP bp) = s)
    by (apply (GET_SIZE_read h _ (s, false) Vs T1)).
  assert (Epv : PREV_BLKP h bp = bp - fst prev)
    by (apply (PREV_BLKP_read h bp prev Vp P1)).
  assert (Enx : NEXT_BLKP h bp = bp + s)
    by (apply (NEXT_BLKP_read h bp (s, false) Vs T1)).
  assert (Epa : GET_ALLOC h (FTRP h (bp - fst prev)) = (if snd prev then 1 else 0)).
  { rewrite (FTRP_read h (bp - fst prev) prev Vp P2).
    replace (bp - fst prev + fst prev - 8) with (bp - 8) by lia.
    apply (GET_ALLOC_read h _ prev Vp P1). }
  assert (Ena : GET_ALLOC h (HDRP (bp + s)) = (if snd next then 1 else 0)).
  { unfold HDRP, WSIZE. apply (GET_ALLOC_read h _ next Vn N1). }
  unfold coalesce. rewrite Epv, Enx, Epa, Ena, Esz.
  unfold coalesced_lists, coalesced_blocks.
  unfold coalesced_start, coalesced_size, absorb.
  change (prev_block pre) with prev. change (next_block post) with next.
  unfold absorb in Hlo, Hhi.
  destruct (snd prev) eqn:Ep; destruct (snd next) eqn:En;
    cbv zeta; change (1 =? 0) with false; change (0 =? 0) with true;
    cbn [negb andb fst snd].
  - (* case 1 *)
    replace (0 + s + 0) with s by lia. replace (bp - 0) with bp by lia.
    pose proof (coalesce_finish_except h h pre [(s, false)] post lists [bp]
                  Hpre Hfl Hun) as F.
    cbv zeta in F. simpl total in F. simpl block_starts in F. simpl map in F.
    fold bp in F. replace (s + 0) with s in F by lia.
    destruct F as (F1 & F2 & F3).
    + intros y. tauto.
    + discriminate.
    + apply same_provider_refl.
    + intros a _. reflexivity.
    + exact T1.
    + exact T2.
    + split; [reflexivity|]. split; [exact F1|]. split; [exact F2|exact F3].
  - (* case 2 *)
    pose proof (free_block_is next En) as Enext.
    destruct (Nin eq_refl) as (Hn16' & Hnin). rewrite Enext in Hnin.
    set (ns := fst next) in *.
    assert (Epost : post = (ns, false) :: tl post).
    { rewrite <- Enext. apply next_block_free_split. exact En. }
    assert (HnX : ~ In (bp + s) [bp]) by (intros [F|[]]; lia).
    destruct (delete_node_step h _ lists [bp] (bp + s) ns Hpre Hfl Hun Hnin HnX)
      as (HpA & HflA & HunA & HsA).
    set (hA := delete_node h (bp + s)) in *.
    set (listsA := unlist lists (get_list_index ns) (bp + s)) in *.
    destruct (same_provider_first_block _ _ HsA) as (EfA & _).
    destruct (around_block hA pre post s false listsA HpA)
      as ((T1A & T2A & P1A & P2A & N1A & N1A') & _).
    rewrite EfA in T1A, T2A, P1A, P2A, N1A, N1A'.
    fold bp in T1A, T2A, P1A, P2A, N1A, N1A'. fold prev next in P1A, P2A, N1A, N1A'.
    specialize (N1A' En). fold ns in N1A'.
    rewrite (NEXT_BLKP_read hA bp (s, false) Vs T1A). simpl fst.
    unfold HDRP, WSIZE.
    rewrite (GET_SIZE_read hA _ next Vn N1A). fold ns.
    rewrite add32_small by lia.
    set (size := s + ns).
    assert (Vsz : valid_size size).
    { destruct Vs as (_ & Vs8). destruct Vn as (_ & Vn8). fold ns in Vn8.
      split; [unfold size; lia|]. unfold size.
      rewrite Z.add_mod, Vs8, Vn8 by lia. reflexivity. }
    unfold HDRP, WSIZE.
    set (h1 := PUT hA (bp - 4) (PACK size 0)).
    assert (E1 : GET h1 (bp - 4) = tag (size, false)).
    { unfold h1. rewrite GET_PUT_same. apply (wrap_tag size false Vsz). }
    rewrite (FTRP_read h1 bp (size, false) Vsz E1). simpl fst.
    set (h2 := PUT h1 (bp + size - 8) (PACK size 0)).
    replace (0 + s + ns) with size by (unfold size; lia).
    replace (bp - 0) with bp by lia.
    rewrite Epost in HpA, HflA.
    change (pre ++ (s, false) :: (ns, false) :: tl post)
      with (pre ++ [(s, false); (ns, false)] ++ tl post) in HpA, HflA.
    pose proof (coalesce_finish_except hA h2 pre [(s, false); (ns, false)]
                  (tl post) listsA [bp + s; bp] HpA HflA HunA) as F.
    cbv zeta in F. rewrite EfA in F. fold bp in F.
    simpl total in F. simpl block_starts in F. simpl map in F.
    replace (s + (ns + 0)) with size in F by (unfold size; lia).
    destruct F as (F1 & F2 & F3).
    + intros y. simpl. tauto.
    + discriminate.
    + unfold h2, h1. repeat split.
    + intros a Ha. unfold h2, h1. rewrite !GET_PUT_other by (unfold size; lia).
      reflexivity.
    + unfold h2. rewrite GET_PUT_other by (unfold size; lia). exact E1.
    + unfold h2. rewrite GET_PUT_same. apply (wrap_tag size false Vsz).
    + split; [reflexivity|]. split; [exact F1|].
      split; [eapply same_provider_trans; eassumption|].
      intros a Hl.
      pose proof (live_outside_free _ _ _ _ _ Hso Hl Hself) as O1. cbn [fst] in O1.
      pose proof (live_outside_free _ _ _ _ _ Hso Hl Hnin) as O2. cbn [fst] in O2.
      rewrite F3.
      * unfold h2, h1. rewrite !mem_PUT_other by (unfold size; lia).
        apply (delete_node_live h _ lists (get_list_index ns) (bp + s) a Hpre
                 (get_list_index_range ns)); [|exact Hl].
        apply (Hfl (bp + s) (ns, false) Hnin eq_refl HnX).
      * rewrite Epost in Hl.
        apply (live_swap _ pre [(s, false); (ns, false)] [(size, false)]
                         (tl post) a);
          [simpl; unfold size; lia
          |intros c [<-|[<-|[]]]; reflexivity
          |exact Hl].
  - (* case 3 *)
    pose proof (free_block_is prev Ep) as Eprev.
    destruct (Pin eq_refl) as (Hp16' & Hpin & Epvfb). rewrite Eprev in Hpin.
    set (ps := fst prev) in *.
    set (pre' := removelast pre) in *.
    assert (Epre : pre = pre' ++ [(ps, false)]).
    { rewrite <- Eprev. apply prev_block_free_split. exact Ep. }
    assert (HpX : ~ In (bp - ps) [bp]) by (intros [F|[]]; lia).
    destruct (delete_node_step h _ lists [bp] (bp - ps) ps Hpre Hfl Hun Hpin HpX)
      as (HpA & HflA & HunA & HsA).
    set (hA := delete_node h (bp - ps)) in *.
    set (listsA := unlist lists (get_list_index ps) (bp - ps)) in *.
    destruct (same_provider_first_block _ _ HsA) as (EfA & _).
    destruct (around_block hA pre post s false listsA HpA)
      as ((T1A & T2A & P1A & P2A & N1A & _) & _).
    rewrite EfA in T1A, T2A, P1A, P2A, N1A.
    fold bp in T1A, T2A, P1A, P2A, N1A. fold prev next in P1A, P2A, N1A.
    fold ps in P2A.
    rewrite (PREV_BLKP_read hA bp prev Vp P1A). fold ps.
    unfold HDRP, WSIZE.
    rewrite (GET_SIZE_read hA _ prev Vp P2A). fold ps.
    rewrite add32_small by lia.
    set (size := s + ps).
    assert (Vsz : valid_size size).
    { destruct Vs as (_ & Vs8). destruct Vp as (_ & Vp8). fold ps in Vp8.
      split; [unfold size; lia|]. unfold size.
      rewrite Z.add_mod, Vs8, Vp8 by lia. reflexivity. }
    rewrite (FTRP_read hA bp (s, false) Vs T1A). simpl fst.
    set (h1 := PUT hA (bp + s - 8) (PACK size 0)).
    assert (E1 : GET h1 (bp - 8) = tag prev).
    { unfold h1. rewrite GET_PUT_other by lia. exact P1A. }
    rewrite (PREV_BLKP_read h1 bp prev Vp E1). fold ps.
    set (h2 := PUT h1 (bp - ps - 4) (PACK size 0)).
    assert (E2 : GET h2 (bp - 8) = tag prev).
    { unfold h2. rewrite GET_PUT_other by lia. exact E1. }
    rewrite (PREV_BLKP_read h2 bp prev Vp E2). fold ps.
    replace (ps + s + 0) with size by (unfold size; lia).
    assert (Ebl : pre ++ (s, false) :: post =
                  pre' ++ [(ps, false); (s, false)] ++ post).
    { rewrite Epre at 1. rewrite <- app_assoc. reflexivity. }
    rewrite Ebl in HpA, HflA.
    pose proof (coalesce_finish_except hA h2 pre' [(ps, false); (s, false)]
                  post listsA [bp - ps; bp] HpA HflA HunA) as F.
    cbv zeta in F. rewrite EfA, <- Epvfb in F.
    simpl total in F. simpl block_starts in F. simpl map in F.
    replace (ps + (s + 0)) with size in F by (unfold size; lia).
    replace (bp - ps + ps) with bp in F by lia.
    destruct F as (F1 & F2 & F3).
    + intros y. simpl. tauto.
    + discriminate.
    + unfold h2, h1. repeat split.
    + intros a Ha. unfold h2, h1. rewrite !GET_PUT_other by (unfold size; lia).
      reflexivity.
    + unfold h2. rewrite GET_PUT_same. apply (wrap_tag size false Vsz).
    + unfold h2, h1. rewrite GET_PUT_other by (unfold size; lia).
      replace (bp - ps + size - 8) with (bp + s - 8) by (unfold size; lia).
      rewrite GET_PUT_same. apply (wrap_tag size false Vsz).
    + split; [reflexivity|]. split; [exact F1|].
      split; [eapply same_provider_trans; eassumption|].
      intros a Hl.
      pose proof (live_outside_free _ _ _ _ _ Hso Hl Hself) as O1. cbn [fst] in O1.
      pose proof (live_outside_free _ _ _ _ _ Hso Hl Hpin) as O2. cbn [fst] in O2.
      rewrite F3.
      * unfold h2, h1. rewrite !mem_PUT_other by (unfold size; lia).
        apply (delete_node_live h _ lists (get_list_index ps) (bp - ps) a Hpre
                 (get_list_index_range ps)); [|exact Hl].
        apply (Hfl (bp - ps) (ps, false) Hpin eq_refl HpX).
      * rewrite Ebl in Hl.
        apply (live_swap _ pre' [(ps, false); (s, false)] [(size, false)]
                         post a);
          [simpl; unfold size; lia
          |intros c [<-|[<-|[]]]; reflexivity
          |exact Hl].
  - (* case 4 *)
    pose proof (free_block_is prev Ep) as Eprev.
    pose proof (free_block_is next En) as Enext.
    destruct (Pin eq_refl) as (Hp16' & Hpin & Epvfb). rewrite Eprev in Hpin.
    destruct (Nin eq_refl) as (Hn16' & Hnin). rewrite Enext in Hnin.
    set (ps := fst prev) in *. set (ns := fst next) in *.
    set (pre' := removelast pre) in *.
    assert (Epre : pre = pre' ++ [(ps, false)]).
    { rewrite <- Eprev. apply prev_block_free_split. exact Ep. }
    assert (Epost : post = (ns, false) :: tl post).
    { rewrite <- Enext. apply next_block_free_split. exact En. }
    assert (HpX : ~ In (bp - ps) [bp]) by (intros [F|[]]; lia).
    destruct (delete_node_step h _ lists [bp] (bp - ps) ps Hpre Hfl Hun Hpin HpX)
      as (HpA & HflA & HunA & HsA).
    set (hA := delete_node h (bp - ps)) in *.
    set (listsA := unlist lists (get_list_index ps) (bp - ps)) in *.
    destruct (same_provider_first_block _ _ HsA) as (EfA & _).
    destruct (around_block hA pre post s false listsA HpA)
      as ((T1A & _) & _).
    rewrite EfA in T1A. fold bp in T1A.
    rewrite (NEXT_BLKP_read hA bp (s, false) Vs T1A). simpl fst.
    assert (HnX : ~ In (bp + s) [bp - ps; bp]) by (intros [F|[F|[]]]; lia).
    pose proof Hnin as Hnin0.
    rewrite <- EfA in Hnin.
    destruct (delete_node_step hA _ listsA [bp - ps; bp] (bp + s) ns
                               HpA HflA HunA Hnin HnX)
      as (HpB & HflB & HunB & HsB).
    set (hB := delete_node hA (bp + s)) in *.
    set (listsB := unlist listsA (get_list_index ns) (bp + s)) in *.
    destruct (same_provider_first_block _ _ HsB) as (EfB & _).
    rewrite EfA in EfB.
    destruct (around_block hB pre post s false listsB HpB)
      as ((T1B & T2B & P1B & P2B & N1B & N1B') & _).
    rewrite EfB in T1B, T2B, P1B, P2B, N1B, N1B'.
    fold bp in T1B, T2B, P1B, P2B, N1B, N1B'. fold prev next in P1B, P2B, N1B, N1B'.
    specialize (N1B' En). fold ps in P2B. fold ns in N1B'.
    rewrite (PREV_BLKP_read hB bp prev Vp P1B). fold ps.
    rewrite (NEXT_BLKP_read hB bp (s, false) Vs T1B). simpl fst.
    unfold HDRP, WSIZE.
    rewrite (GET_SIZE_read hB _ prev Vp P2B). fold ps.
    rewrite (FTRP_read hB (bp + s) next Vn N1B). fold ns.
    rewrite (GET_SIZE_read hB _ next Vn N1B'). fold ns.
    rewrite (add32_small ps ns) by lia. rewrite add32_small by lia.
    set (size := s + (ps + ns)).
    assert (Vsz : valid_size size).
    { destruct Vs as (_ & Vs8). destruct Vp as (_ & Vp8). destruct Vn as (_ & Vn8).
      fold ps in Vp8. fold ns in Vn8.
      split; [unfold size; lia|]. unfold size.
      rewrite Z.add_mod, (Z.add_mod ps ns), Vs8, Vp8, Vn8 by lia. reflexivity. }
    set (h1 := PUT hB (bp - ps - 4) (PACK size 0)).
    assert (E1 : GET h1 (bp - 4) = tag (s, false)).
    { unfold h1. rewrite GET_PUT_other by lia. exact T1B. }
    rewrite (NEXT_BLKP_read h1 bp (s, false) Vs E1). simpl fst.
    assert (E1' : GET h1 (bp + s - 4) = tag next).
    { unfold h1. rewrite GET_PUT_other by lia. exact N1B. }
    rewrite (FTRP_read h1 (bp + s) next Vn E1'). fold ns.
    set (h2 := PUT h1 (bp + s + ns - 8) (PACK size 0)).
    assert (E2 : GET h2 (bp - 8) = tag prev).
    { unfold h2, h1. rewrite !GET_PUT_other by lia. exact P1B. }
    rewrite (PREV_BLKP_read h2 bp prev Vp E2). fold ps.
    replace (ps + s + ns) with size by (unfold size; lia).
    assert (Ebl : pre ++ (s, false) :: post =
                  pre' ++ [(ps, false); (s, false); (ns, false)] ++ tl post).
    { rewrite Epre at 1. rewrite Epost at 1. rewrite <- app_assoc. reflexivity. }
    rewrite Ebl in HpB, HflB. rewrite EfB in HflB.
    pose proof (coalesce_finish_except hB h2 pre'
                  [(ps, false); (s, false); (ns, false)]
                  (tl post) listsB [bp + s; bp - ps; bp]) as F.
    cbv zeta in F. rewrite EfB, <- Epvfb in F.
    simpl total in F. simpl block_starts in F. simpl map in F.
    replace (ps + (s + (ns + 0))) with size in F by (unfold size; lia).
    replace (bp - ps + ps) with bp in F by lia.
    destruct F as (F1 & F2 & F3).
    + exact HpB.
    + exact HflB.
    + exact HunB.
    + intros y. simpl. tauto.
    + discriminate.
    + unfold h2, h1. repeat split.
    + intros a Ha. unfold h2, h1. rewrite !GET_PUT_other by (unfold size; lia).
      reflexivity.
    + unfold h2. rewrite GET_PUT_other by (unfold size; lia).
      unfold h1. rewrite GET_PUT_same. apply (wrap_tag size false Vsz).
    + unfold h2.
      replace (bp - ps + size - 8) with (bp + s + ns - 8) by (unfold size; lia).
      rewrite GET_PUT_same. apply (wrap_tag size false Vsz).
    + split; [reflexivity|]. split; [exact F1|].
      split; [eapply same_provider_trans; [exact HsA|];
              eapply same_provider_trans; eassumption|].
      intros a Hl.
      pose proof (live_outside_free _ _ _ _ _ Hso Hl Hself) as O1. cbn [fst] in O1.
      pose proof (live_outside_free _ _ _ _ _ Hso Hl Hpin) as O2. cbn [fst] in O2.
      pose proof (live_outside_free _ _ _ _ _ Hso Hl Hnin0) as O3. cbn [fst] in O3.
      rewrite F3.
      * unfold h2, h1. rewrite !mem_PUT_other by (unfold size; lia).
        transitivity (mem hA a).
        -- apply (delete_node_live hA _ listsA (get_list_index ns) (bp + s) a HpA
                    (get_list_index_range ns)); [|rewrite EfA; exact Hl].
           apply (HflA (bp + s) (ns, false) Hnin eq_refl HnX).
        -- apply (delete_node_live h _ lists (get_list_index ps) (bp - ps) a Hpre
                    (get_list_index_range ps)); [|exact Hl].
           apply (Hfl (bp - ps) (ps, false) Hpin eq_refl HpX).
      * rewrite Ebl in Hl.
        apply (live_swap _ pre' [(ps, false); (s, false); (ns, false)]
                         [(size, false)] (tl post) a);
          [simpl; unfold size; lia
          |intros c [<-|[<-|[<-|[]]]]; reflexivity
          |exact Hl].
Qed.

(** ** [mm_free] *)

(** In a well-formed heap the block at a listed address is free. *)
Lemma listed_not_allocated (h : heap) (bl : list block) (lists : lists_t)
      (x s j : Z) :
  heap_pre h bl lists ->
  In (x, (s, true)) (block_starts (first_block h) bl) ->
  0 <= j < LIST_LIMIT -> ~ In x (lists j).
Proof.
  intros Hpre Hin Hj Hx.
  destruct (pre_listed_at _ _ _ Hpre j x Hj Hx) as (t & Ht & _).
  pose proof (pre_block_unique _ _ _ Hpre _ _ _ Ht Hin) as E. discriminate.
Qed.

Lemma in_block_starts_replace (bp : Z) (pre post : list block) (b c : block)
      (y : Z) (d : block) :
  fst b = fst c ->
  In (y, d) (block_starts bp (pre ++ c :: post)) ->
  y <> bp + total pre ->
  In (y, d) (block_starts bp (pre ++ b :: post)).
Proof.
  intros E Hin Hne. rewrite block_starts_app in *. simpl in *.
  apply in_app_or in Hin. apply in_or_app.
  destruct Hin as [Hin|[Hin|Hin]].
  - left. exact Hin.
  - injection Hin as E1 E2. exfalso. apply Hne. symmetry. exact E1.
  - right. right. rewrite E. exact Hin.
Qed.

(** [mm_free] on an allocated block of a well-formed heap; the payload
    bytes of the other allocated blocks are left alone. *)
Lemma mm_free_inv_frame (h : heap) (pre post : list block) (s : Z)
      (lists : lists_t) :
  heap_inv h (pre ++ (s, true) :: post) lists ->
  let ptr := first_block h + total pre in
  heap_inv (mm_free h ptr) (coalesced_blocks pre s post)
           (coalesced_lists lists ptr pre s post) /\
  same_provider h (mm_free h ptr) /\
  (forall a, live (first_block h) (pre ++ (s, false) :: post) a ->
             mem (mm_free h ptr) a = mem h a).
Proof.
  intros [Hpre Hfree] ptr.
  destruct (around_block h pre post s true lists Hpre)
    as ((T1 & T2 & _) & (Vs & _ & _ & H16 & _ & _ & _ & _ & Hlo & Hhi & Hbrk & Hsp)).
  fold ptr in T1, T2, Hlo, Hhi.
  pose proof (first_block_eq h) as Efb.
  pose proof (in_block_starts_middle (first_block h) pre post (s, true)) as Hin.
  fold ptr in Hin.
  assert (Hptr : first_block h <= ptr).
  { pose proof (pre_sizes _ _ _ Hpre) as Hso. apply sizes_ok_app in Hso.
    destruct Hso as (Hs1 & _). pose proof (total_nonneg _ Hs1). unfold ptr. lia. }
  unfold mm_free. destruct (Z.eqb_spec ptr NULL) as [E|_]; [unfold NULL in E; lia|].
  unfold HDRP, WSIZE.
  rewrite (GET_SIZE_read h _ (s, true) Vs T1). simpl fst.
  set (h1 := PUT h (ptr - 4) (PACK s 0)).
  assert (E1 : GET h1 (ptr - 4) = tag (s, false)).
  { unfold h1. rewrite GET_PUT_same. apply (wrap_tag s false Vs). }
  rewrite (FTRP_read h1 ptr (s, false) Vs E1). simpl fst.
  set (h2 := PUT h1 (ptr + s - 8) (PACK s 0)).
  assert (Hclear : forall j y, 0 <= j < LIST_LIMIT -> In y (lists j) ->
                     y < ptr \/ ptr + s <= y).
  { intros j y Hj Hy.
    destruct (listed_in_span _ _ _ _ _ _ j y Hpre Hin Hj Hy) as [->|F]; [|exact F].
    exfalso. exact (listed_not_allocated _ _ _ _ _ j Hpre Hin Hj Hy). }
  assert (Hretag : heap_pre h2 (pre ++ [(s, false)] ++ post) lists).
  { apply (heap_pre_retag h h2 pre [(s, true)]).
    - exact Hpre.
    - unfold h2, h1. repeat split.
    - reflexivity.
    - repeat constructor; simpl; [lia|apply Vs].
    - intros a Ha. fold ptr in Ha. simpl in Ha. unfold h2, h1.
      rewrite !GET_PUT_other by lia. reflexivity.
    - fold ptr. simpl. apply Forall_cons; [|apply Forall_nil].
      apply tagged_intro.
      + unfold h2. rewrite GET_PUT_other by lia. exact E1.
      + unfold h2. rewrite GET_PUT_same. apply (wrap_tag s false Vs).
    - intros j y Hj Hy. fold ptr. simpl.
      specialize (Hclear j y Hj Hy). lia. }
  simpl app in Hretag.
  assert (Hfl : free_listed_except (first_block h2) (pre ++ (s, false) :: post)
                                   lists [first_block h2 + total pre]).
  { change (first_block h2) with (first_block h). fold ptr.
    intros y b Hy Hb HyX.
    unfold all_free_listed in Hfree. rewrite Forall_forall in Hfree.
    apply (Hfree (y, b)); [|exact Hb].
    apply (in_block_starts_replace _ pre post (s, true) (s, false));
      [reflexivity|exact Hy|].
    fold ptr. intros ->. apply HyX. left. reflexivity. }
  assert (Hun : unlisted lists [first_block h2 + total pre]).
  { change (first_block h2) with (first_block h). fold ptr.
    intros j y Hj Hy [<-|[]]. specialize (Hclear j ptr Hj Hy). lia. }
  destruct (coalesce_inv h2 pre post s lists Hretag Hfl Hun) as (_ & C2 & C3 & C4).
  change (first_block h2) with (first_block h) in C2, C3, C4.
  fold ptr in C2, C3, C4.
  split; [exact C2|]. split.
  - eapply same_provider_trans; [|exact C3]. unfold h2, h1. repeat split.
  - intros a Hl. rewrite (C4 a Hl).
    pose proof (live_outside_free _ _ _ _ _ (pre_sizes _ _ _ Hretag) Hl
                  (in_block_starts_middle (first_block h) pre post (s, false)))
      as O.
    fold ptr in O. unfold h2, h1. rewrite !mem_PUT_other by lia. reflexivity.
Qed.

Lemma mm_free_inv (h : heap) (pre post : list block) (s : Z) (lists : lists_t) :
  heap_inv h (pre ++ (s, true) :: post) lists ->
  let ptr := first_block h + total pre in
  heap_inv (mm_free h ptr) (coalesced_blocks pre s post)
           (coalesced_lists lists ptr pre s post) /\
  same_provider h (mm_free h ptr).
Proof.
  intros Hinv ptr.
  destruct (mm_free_inv_frame h pre post s lists Hinv) as (A & B & _).
  split; [exact A|exact B].
Qed.

(** ** [extend_heap] *)

(** A free block is added at the break. *)
Lemma heap_pre_extend (h h' : heap) (bl : list block) (lists : lists_t)
      (size : Z) :
  heap_pre h bl lists ->
  16 <= size -> size mod 8 = 0 ->
  seg_list h' = seg_list h ->
  mem_brk h' = mem_brk h + size -> mem_brk h' < MINUS_ONE ->
  (forall a, a + 4 <= mem_brk h - 4 -> GET h' a = GET h a) ->
  GET h' (mem_brk h - 4) = tag (size, false) ->
  GET h' (mem_brk h + size - 8) = tag (size, false) ->
  GET h' (mem_brk h + size - 4) = PACK 0 1 ->
  heap_pre h' (bl ++ [(size, false)]) lists.
Proof.
  intros Hpre H16 H8 Esl Ebrk Hfit Hout Hhd Hft Hep.
  pose proof Hpre as [(Hsp & Hsm) (Hb & Hm) Hso (Hl & He) Hd Hls].
  assert (Efb : first_block h' = first_block h)
    by (unfold first_block, heap_start; rewrite Esl; reflexivity).
  assert (Ehs : heap_start h' = heap_start h)
    by (unfold heap_start; rewrite Esl; reflexivity).
  pose proof (first_block_eq h) as Efbh. pose proof (heap_start_eq h) as Ehsh.
  pose proof (total_nonneg _ Hso) as Ht.
  constructor.
  - rewrite Esl. split; assumption.
  - rewrite Efb, total_app. simpl. split; [lia|exact Hfit].
  - apply sizes_ok_app. split; [exact Hso|].
    repeat constructor; simpl; assumption.
  - split.
    + rewrite Ehs. simpl. simpl in Hl.
      pose proof (Forall_inv Hl) as (P1 & P2).
      pose proof (Forall_inv_tail Hl) as Hl'.
      unfold HDRP, WSIZE, DSIZE in P1, P2. simpl in P1, P2.
      apply Forall_cons.
      * split; simpl; unfold HDRP, WSIZE, DSIZE; rewrite Hout by lia; assumption.
      * change (heap_start h + DSIZE) with (first_block h) in *.
        rewrite block_starts_app. apply Forall_app. split.
        -- rewrite Forall_forall in *. intros (x, b) Hin.
           specialize (Hl' _ Hin). unfold tagged, HDRP, WSIZE, DSIZE in *.
           simpl in *.
           pose proof (in_block_starts_bounds _ Hso _ _ _ Hin).
           pose proof (in_block_starts_sizes _ _ _ _ Hso Hin). simpl in *.
           rewrite !Hout by lia. exact Hl'.
        -- simpl. apply Forall_cons; [|apply Forall_nil].
           rewrite Hb. apply tagged_intro; assumption.
    + rewrite Efb, total_app. simpl. unfold HDRP, WSIZE.
      replace (first_block h + (total bl + (size + 0)) - 4)
        with (mem_brk h + size - 4) by lia.
      exact Hep.
  - rewrite Forall_forall in *. intros i Hi.
    specialize (Hd i Hi). apply in_classes in Hi.
    assert (Eg : seg_get h' i = seg_get h i).
    { rewrite !seg_get_eq, !seg_slot_eq, Esl. apply Hout.
      unfold LIST_LIMIT in Hi. lia. }
    rewrite Eg. eapply is_dll_frame; [|exact Hd].
    intros y Hy.
    destruct (pre_listed_at _ _ _ Hpre i y Hi Hy) as (t & Hin & _).
    destruct (pre_block _ _ _ Hpre _ _ Hin) as (_ & _ & A1 & _ & A2 & A3 & _).
    simpl in A1, A3. split; apply Hout; lia.
  - rewrite Forall_forall in *. intros i Hi.
    specialize (Hls i Hi). rewrite Forall_forall in *. intros y Hy.
    destruct (Hls y Hy) as (t & Hin & Ec). exists t. split; [|exact Ec].
    rewrite Efb, block_starts_app. apply in_or_app. left. exact Hin.
Qed.

Lemma extend_size_spec (words : Z) :
  0 <= words -> 4 * (words + 1) < 4294967296 ->
  (if negb (words mod 2 =? 0) then mul32 (add32 words 1) WSIZE
   else mul32 words WSIZE) = extend_size words /\
  extend_size words mod 8 = 0 /\ 4 * words <= extend_size words.
Proof.
  intros Hw Hb. unfold extend_size, mul32, add32, WSIZE.
  pose proof (Z.div_mod words 2 ltac:(lia)).
  pose proof (Z.mod_pos_bound words 2 ltac:(lia)).
  destruct (Z.eqb_spec (words mod 2) 0) as [E|E]; cbn [negb].
  - rewrite wrap_small by lia. split; [lia|]. split; [|lia].
    replace (4 * words) with ((words / 2) * 8) by lia. apply Z.mod_mul. lia.
  - rewrite (wrap_small (words + 1)) by lia. rewrite wrap_small by lia.
    split; [lia|]. split; [|lia].
    replace (4 * (words + 1)) with ((words / 2 + 1) * 8) by lia.
    apply Z.mod_mul. lia.
Qed.

Lemma extend_heap_fails (h : heap) (words : Z) :
  0 <= words -> 4 * (words + 1) < 4294967296 ->
  mem_max_addr h < mem_brk h + extend_size words ->
  extend_heap h words = (NULL, h).
Proof.
  intros Hw Hb Hfull. unfold extend_heap.
  destruct (extend_size_spec words Hw Hb) as (-> & _).
  unfold mem_sbrk.
  destruct (Z.leb_spec (mem_brk h + extend_size words) (mem_max_addr h)); [lia|].
  reflexivity.
Qed.

(** [extend_heap] on a well-formed heap when the provider grants the
    bytes; the payload bytes of the allocated blocks are left alone. *)
Lemma extend_heap_inv_frame (h : heap) (bl : list block) (lists : lists_t)
      (words : Z) :
  heap_inv h bl lists ->
  0 <= words -> 4 * (words + 1) < 4294967296 ->
  16 <= extend_size words ->
  mem_brk h + extend_size words <= mem_max_addr h ->
  mem_max_addr h < MINUS_ONE ->
  let size := extend_size words in
  let bp := mem_brk h in
  fst (extend_heap h words) = coalesced_start bp bl /\
  heap_inv (snd (extend_heap h words)) (coalesced_blocks bl size [])
           (coalesced_lists lists bp bl size []) /\
  seg_list (snd (extend_heap h words)) = seg_list h /\
  mem_brk (snd (extend_heap h words)) = mem_brk h + size /\
  mem_max_addr (snd (extend_heap h words)) = mem_max_addr h /\
  mem_start (snd (extend_heap h words)) = mem_start h /\
  (forall a, live (first_block h) bl a ->
             mem (snd (extend_heap h words)) a = mem h a).
Proof.
  intros [Hpre Hfree] Hw Hb H16 Hroom Hmax size bp.
  destruct (extend_size_spec words Hw Hb) as (Esize & H8 & _).
  fold size in Esize, H8, H16, Hroom.
  pose proof (pre_brk _ _ _ Hpre) as (Ebrk & Hbrk). unfold MINUS_ONE in *.
  pose proof (pre_seg _ _ _ Hpre) as (Hsp & _).
  pose proof (first_block_eq h) as Efb.
  pose proof (pre_sizes _ _ _ Hpre) as Hso.
  pose proof (total_nonneg _ Hso) as Ht.
  assert (Vs : valid_size size) by (split; [lia|exact H8]).
  unfold extend_heap. rewrite Esize. unfold mem_sbrk.
  destruct (Z.leb_spec (mem_brk h + size) (mem_max_addr h)); [|lia].
  fold bp. destruct (Z.eqb_spec bp MINUS_ONE) as [E|_];
    [unfold bp, MINUS_ONE in E; lia|].
  set (h0 := mkHeap (mem h) (seg_list h) (mem_start h) (bp + size) (mem_max_addr h)).
  unfold HDRP, WSIZE.
  set (h1 := PUT h0 (bp - 4) (PACK size 0)).
  assert (E1 : GET h1 (bp - 4) = tag (size, false)).
  { unfold h1. rewrite GET_PUT_same. apply (wrap_tag size false Vs). }
  rewrite (FTRP_read h1 bp (size, false) Vs E1). simpl fst.
  set (h2 := PUT h1 (bp + size - 8) (PACK size 0)).
  assert (E2 : GET h2 (bp - 4) = tag (size, false)).
  { unfold h2. rewrite GET_PUT_other by lia. exact E1. }
  rewrite (NEXT_BLKP_read h2 bp (size, false) Vs E2). simpl fst.
  set (h3 := PUT h2 (bp + size - 4) (PACK 0 1)).
  assert (Hext : heap_pre h3 (bl ++ [(size, false)]) lists).
  { apply (heap_pre_extend h h3 bl lists size Hpre); try assumption.
    - reflexivity.
    - reflexivity.
    - unfold h3, h2, h1, h0, MINUS_ONE. simpl. lia.
    - intros a Ha. fold bp in Ha. unfold h3, h2, h1.
      rewrite !GET_PUT_other by lia. reflexivity.
    - fold bp. unfold h3. rewrite GET_PUT_other by lia. exact E2.
    - fold bp. unfold h3. rewrite GET_PUT_other by lia.
      unfold h2. rewrite GET_PUT_same. apply (wrap_tag size false Vs).
    - fold bp. unfold h3. rewrite GET_PUT_same. reflexivity. }
  assert (Ebp : bp = first_block h3 + total bl).
  { change (first_block h3) with (first_block h). unfold bp. lia. }
  assert (Hfl : free_listed_except (first_block h3) (bl ++ [(size, false)])
                                   lists [first_block h3 + total bl]).
  { rewrite <- Ebp. change (first_block h3) with (first_block h).
    intros y b Hy Hb' HyX.
    rewrite block_starts_app in Hy. apply in_app_or in Hy.
    destruct Hy as [Hy|Hy].
    - unfold all_free_listed in Hfree. rewrite Forall_forall in Hfree.
      apply (Hfree (y, b) Hy Hb').
    - simpl in Hy. destruct Hy as [Hy|[]]. injection Hy as Hy1 Hy2.
      exfalso. apply HyX. left. unfold bp. lia. }
  assert (Hun : unlisted lists [first_block h3 + total bl]).
  { rewrite <- Ebp. intros j y Hj Hy [<-|[]].
    destruct (pre_listed_at _ _ _ Hpre j bp Hj Hy) as (t & Hin & _).
    destruct (pre_block _ _ _ Hpre _ _ Hin) as (_ & _ & A1 & _ & _ & A3 & _).
    simpl in A1, A3. unfold bp in A3. lia. }
  destruct (coalesce_inv h3 bl [] size lists Hext Hfl Hun) as (C1 & C2 & C3 & C4).
  rewrite <- Ebp in C1, C2, C3, C4.
  split; [exact C1|]. split; [exact C2|].
  destruct C3 as (D1 & D2 & D3 & D4).
  split; [exact D1|]. split; [exact D3|]. split; [exact D4|]. split; [exact D2|].
  intros a Hl. rewrite C4.
  - destruct Hl as (y & t & Hy & Ha).
    pose proof (in_block_starts_bounds _ Hso _ _ _ Hy) as Hb'. simpl in Hb'.
    unfold DSIZE in Ha.
    unfold h3, h2, h1. rewrite !mem_PUT_other by (unfold bp; lia). reflexivity.
  - change (first_block h3) with (first_block h).
    destruct Hl as (y & t & Hy & Ha). exists y, t. split; [|exact Ha].
    rewrite block_starts_app. apply in_or_app. left. exact Hy.
Qed.

Lemma extend_heap_inv (h : heap) (bl : list block) (lists : lists_t)
      (words : Z) :
  heap_inv h bl lists ->
  0 <= words -> 4 * (words + 1) < 4294967296 ->
  16 <= extend_size words ->
  mem_brk h + extend_size words <= mem_max_addr h ->
  mem_max_addr h < MINUS_ONE ->
  let size := extend_size words in
  let bp := mem_brk h in
  fst (extend_heap h words) = coalesced_start bp bl /\
  heap_inv (snd (extend_heap h words)) (coalesced_blocks bl size [])
           (coalesced_lists lists bp bl size []) /\
  seg_list (snd (extend_heap h words)) = seg_list h /\
  mem_brk (snd (extend_heap h words)) = mem_brk h + size /\
  mem_max_addr (snd (extend_heap h words)) = mem_max_addr h.
Proof.
  intros Hinv Hw Hb H16 Hroom Hmax size bp.
  destruct (extend_heap_inv_frame h bl lists words Hinv Hw Hb H16 Hroom Hmax)
    as (A & B & C & D & E & _).
  split; [exact A|]. split; [exact B|]. split; [exact C|].
  split; [exact D|exact E].
Qed.

(** ** Immediate coalescing *)

Lemma coalesced_start_total (pre : list block) (bp : Z) :
  coalesced_start (bp + total pre) pre =
  bp + total (if snd (prev_block pre) then pre else removelast pre).
Proof.
  unfold coalesced_start, absorb. destruct (snd (prev_block pre)) eqn:E; [lia|].
  rewrite (prev_block_free_split pre E) at 1. rewrite total_app. simpl. lia.
Qed.

(** The four cases, spelled out. *)
Lemma coalesced_blocks_cases (pre post : list block) (s : Z) :
  (snd (prev_block pre) = true -> snd (next_block post) = true ->
   coalesced_blocks pre s post = pre ++ (s, false) :: post) /\
  (snd (prev_block pre) = true -> snd (next_block post) = false ->
   coalesced_blocks pre s post =
   pre ++ (s + fst (next_block post), false) :: tl post) /\
  (snd (prev_block pre) = false -> snd (next_block post) = true ->
   coalesced_blocks pre s post =
   removelast pre ++ (fst (prev_block pre) + s, false) :: post) /\
  (snd (prev_block pre) = false -> snd (next_block post) = false ->
   coalesced_blocks pre s post =
   removelast pre
     ++ (fst (prev_block pre) + s + fst (next_block post), false) :: tl post).
Proof.
  unfold coalesced_blocks, coalesced_size, absorb.
  repeat split; intros -> ->; do 2 f_equal; f_equal; lia.
Qed.

(** What a well-formed heap says about the merged block. *)
Lemma coalesced_block_facts (h' : heap) (pre post : list block) (s fb ptr : Z)
      (lists : lists_t) :
  heap_inv h' (coalesced_blocks pre s post)
           (coalesced_lists lists ptr pre s post) ->
  first_block h' = fb -> ptr = fb + total pre ->
  let size := coalesced_size pre s post in
  let bp := coalesced_start ptr pre in
  GET h' (HDRP bp) = PACK size 0 /\
  GET h' (bp + size - DSIZE) = PACK size 0 /\
  seg_get h' (get_list_index size) = bp.
Proof.
  intros [Hpre _] Efb Eptr size bp.
  assert (Hin : In (bp, (size, false))
                   (block_starts (first_block h') (coalesced_blocks pre s post))).
  { unfold bp. rewrite Eptr, coalesced_start_total, Efb.
    unfold coalesced_blocks. apply in_block_starts_middle. }
  destruct (pre_block _ _ _ Hpre _ _ Hin) as (A1 & A2 & _).
  simpl in A1, A2. unfold HDRP, WSIZE, DSIZE.
  split; [exact A1|]. split; [exact A2|].
  pose proof (pre_dll_at _ _ _ Hpre (get_list_index size)
                         (get_list_index_range size)) as Hd.
  unfold coalesced_lists in Hd. fold size bp in Hd.
  unfold enlist, upd in Hd. rewrite Z.eqb_refl in Hd.
  simpl in Hd. destruct Hd as (E & _). exact E.
Qed.

(** C3: after [mm_free(ptr)] for a non-null [ptr] to an allocated block of a
    well-formed heap, and after a successful [extend_heap], the freed or
    added block is merged at once with those of its two neighbours that are
    free (the four cases of [coalesced_blocks]): header and footer of the
    merged block hold its combined size and a clear allocated bit, the
    merged block is the head of the free list of its combined size, the heap
    is well formed, and no two blocks that follow each other are both
    free. *)
Theorem coalesce_immediately (h : heap) (lists : lists_t) :
  (forall pre post s,
      heap_inv h (pre ++ (s, true) :: post) lists ->
      no_adjacent_free (pre ++ (s, true) :: post) ->
      let ptr := first_block h + total pre in
      let h' := mm_free h ptr in
      let size := coalesced_size pre s post in
      let bp := coalesced_start ptr pre in
      ptr <> NULL /\
      heap_inv h' (coalesced_blocks pre s post)
               (coalesced_lists lists ptr pre s post) /\
      GET h' (HDRP bp) = PACK size 0 /\
      GET h' (bp + size - DSIZE) = PACK size 0 /\
      seg_get h' (get_list_index size) = bp /\
      no_adjacent_free (coalesced_blocks pre s post)) /\
  (forall bl words,
      heap_inv h bl lists ->
      no_adjacent_free bl ->
      0 <= words -> 4 * (words + 1) < 4294967296 ->
      16 <= extend_size words ->
      mem_brk h + extend_size words <= mem_max_addr h ->
      mem_max_addr h < MINUS_ONE ->
      let h' := snd (extend_heap h words) in
      let size := coalesced_size bl (extend_size words) [] in
      let bp := coalesced_start (mem_brk h) bl in
      fst (extend_heap h words) = bp /\
      mem_brk h' = mem_brk h + extend_size words /\
      heap_inv h' (coalesced_blocks bl (extend_size words) [])
               (coalesced_lists lists (mem_brk h) bl (extend_size words) []) /\
      GET h' (HDRP bp) = PACK size 0 /\
      GET h' (bp + size - DSIZE) = PACK size 0 /\
      seg_get h' (get_list_index size) = bp /\
      no_adjacent_free (coalesced_blocks bl (extend_size words) [])).
Proof.
  split.
  - intros pre post s Hinv Hadj ptr h' size bp.
    destruct (mm_free_inv h pre post s lists Hinv) as (Hinv' & Hsame).
    fold ptr in Hinv', Hsame. fold h' in Hinv', Hsame.
    destruct (same_provider_first_block _ _ Hsame) as (Efb & _).
    destruct (coalesced_block_facts h' pre post s (first_block h) ptr lists
                                    Hinv' Efb eq_refl) as (A1 & A2 & A3).
    destruct (no_adjacent_free_around _ _ _ Hadj) as (N1 & N2).
    split.
    { destruct Hinv as [Hpre _].
      destruct (around_block h pre post s true lists Hpre)
        as (_ & (_ & _ & _ & _ & _ & _ & _ & _ & Hlo & _ & _ & Hsp)).
      pose proof (first_block_eq h).
      assert (0 <= total pre).
      { pose proof (pre_sizes _ _ _ Hpre) as Hso. apply sizes_ok_app in Hso.
        apply total_nonneg. apply Hso. }
      unfold ptr, NULL. lia. }
    split; [exact Hinv'|]. split; [exact A1|]. split; [exact A2|].
    split; [exact A3|]. apply coalesced_no_adjacent_free; assumption.
  - intros bl words Hinv Hadj Hw Hb H16 Hroom Hmax h' size bp.
    destruct (extend_heap_inv h bl lists words Hinv Hw Hb H16 Hroom Hmax)
      as (E1 & Hinv' & Esl & Ebrk & _).
    fold h' in Hinv', Esl, Ebrk.
    assert (Efb : first_block h' = first_block h)
      by (unfold first_block, heap_start; rewrite Esl; reflexivity).
    assert (Eptr : mem_brk h = first_block h + total bl).
    { destruct Hinv as [Hpre _]. destruct (pre_brk _ _ _ Hpre) as (E & _).
      symmetry. exact E. }
    destruct (coalesced_block_facts h' bl [] (extend_size words) (first_block h)
                                    (mem_brk h) lists Hinv' Efb Eptr)
      as (A1 & A2 & A3).
    split; [exact E1|]. split; [exact Ebrk|]. split; [exact Hinv'|].
    split; [exact A1|]. split; [exact A2|]. split; [exact A3|].
    apply coalesced_no_adjacent_free; [exact Hadj|exact I].
Qed.

(** ** [mm_realloc], policy 2 *)

(** A listed node lies wholly before or after a block that is not its own. *)
Lemma listed_far (h : heap) (bl : list block) (lists : lists_t)
      (x s : Z) (a : bool) (j y : Z) :
  heap_pre h bl lists ->
  In (x, (s, a)) (block_starts (first_block h) bl) ->
  0 <= j < LIST_LIMIT -> In y (lists j) ->
  (y = x /\ a = false) \/ y + 16 <= x \/ x + s <= y.
Proof.
  intros Hpre Hx Hj Hy.
  destruct (pre_listed_at _ _ _ Hpre j y Hj Hy) as (t & Ht & _).
  pose proof (pre_sizes _ _ _ Hpre) as Hso.
  destruct (in_block_starts_sizes _ _ _ _ Hso Ht) as (Ht16 & _).
  destruct (block_starts_disjoint _ Hso _ _ _ _ _ Hx Ht) as [(E & E')|E].
  - left. inversion E'. split; [symmetry; exact E|reflexivity].
  - simpl in *. lia.
Qed.

(** Policy 2 on a well-formed heap; the payload bytes of the allocated
    blocks are left alone. *)
Lemma realloc_absorb_inv_frame (fuel : nat) (h : heap) (pre post : list block)
      (lists : lists_t) (old ns size : Z) :
  heap_inv h (pre ++ (old, true) :: (ns, false) :: post) lists ->
  size <> 0 ->
  old < adjust_size size -> adjust_size size <= old + ns ->
  let ptr := first_block h + total pre in
  let lists' := unlist lists (get_list_index ns) (ptr + old) in
  exists h',
    mm_realloc fuel h ptr size = Some (ptr, h') /\
    heap_inv h' (pre ++ (old + ns, true) :: post) lists' /\
    (forall a, ptr <= a < ptr + old - DSIZE -> mem h' a = mem h a) /\
    same_provider h h' /\
    (forall a,
        live (first_block h) (pre ++ (old, true) :: (ns, false) :: post) a ->
        mem h' a = mem h a).
Proof.
  intros [Hpre Hfree] Hsz Hgrow Hfit ptr lists'.
  destruct (around_block h pre ((ns, false) :: post) old true lists Hpre)
    as ((T1 & T2 & _ & _ & N1 & N1') & (Vo & _ & Vn & Ho16 & _ & _ & _ & Hn16
        & Hlo & Hhi & Hbrk & Hsp)).
  fold ptr in T1, T2, N1, N1', Hlo, Hhi.
  unfold next_block in N1, N1', Vn, Hn16, Hhi. simpl in N1, N1', Vn, Hn16, Hhi.
  specialize (N1' eq_refl). specialize (Hn16 eq_refl).
  unfold absorb in Hhi. simpl in Hhi.
  pose proof (first_block_eq h) as Efb.
  pose proof (pre_sizes _ _ _ Hpre) as Hso.
  assert (Htp : 0 <= total pre).
  { apply sizes_ok_app in Hso. apply total_nonneg. apply Hso. }
  assert (Hin : In (ptr, (old, true))
                   (block_starts (first_block h)
                                 (pre ++ (old, true) :: (ns, false) :: post))).
  { apply in_block_starts_middle. }
  assert (Hnin : In (ptr + old, (ns, false))
                    (block_starts (first_block h)
                                  (pre ++ (old, true) :: (ns, false) :: post))).
  { replace (ptr + old) with (first_block h + total (pre ++ [(old, true)]))
      by (rewrite total_app; simpl; unfold ptr; lia).
    change (pre ++ (old, true) :: (ns, false) :: post)
      with (pre ++ [(old, true)] ++ (ns, false) :: post).
    rewrite app_assoc. apply in_block_starts_middle. }
  pose proof (get_list_index_range ns) as Hi.
  assert (Hnx_listed : In (ptr + old) (lists (get_list_index ns))).
  { unfold all_free_listed in Hfree. rewrite Forall_forall in Hfree.
    apply (Hfree (ptr + old, (ns, false)) Hnin). reflexivity. }
  destruct (delete_node_pre h _ lists _ (ptr + old) Hpre Hi Hnx_listed)
    as (Hd & Hbytes).
  pose proof (same_provider_delete_node h (ptr + old)) as Hsd.
  destruct (same_provider_first_block _ _ Hsd) as (Efd & _).
  unfold mm_realloc.
  destruct (Z.eqb_spec ptr NULL) as [E|_]; [unfold ptr, NULL in E; lia|].
  destruct (Z.eqb_spec size 0) as [E|_]; [contradiction|].
  unfold HDRP, WSIZE.
  rewrite (GET_SIZE_read h _ (old, true) Vo T1). simpl fst.
  destruct (Z.leb_spec (adjust_size size) old) as [F|_]; [lia|].
  rewrite (NEXT_BLKP_read h ptr (old, true) Vo T1). simpl fst.
  rewrite (GET_ALLOC_read h _ (ns, false) Vn N1).
  rewrite (GET_SIZE_read h _ (ns, false) Vn N1). simpl fst. simpl snd.
  rewrite add32_small by lia.
  destruct (Z.leb_spec (adjust_size size) (old + ns)) as [_|F]; [|lia].
  change (0 =? 0) with true. cbn [andb].
  set (hd := delete_node h (ptr + old)) in *.
  set (comb := old + ns).
  assert (Vc : valid_size comb).
  { destruct Vo as (_ & Vo8). destruct Vn as (_ & Vn8). simpl in Vn8.
    split; [unfold comb; lia|]. unfold comb.
    rewrite Z.add_mod, Vo8, Vn8 by lia. reflexivity. }
  set (h1 := PUT hd (ptr - 4) (PACK comb 1)).
  assert (E1 : GET h1 (ptr - 4) = tag (comb, true)).
  { unfold h1. rewrite GET_PUT_same. apply (wrap_tag comb true Vc). }
  rewrite (FTRP_read h1 ptr (comb, true) Vc E1). simpl fst.
  set (h2 := PUT h1 (ptr + comb - 8) (PACK comb 1)).
  exists h2. split; [reflexivity|].
  assert (Hclear : forall j y, 0 <= j < LIST_LIMIT -> In y (lists' j) ->
                     y + 16 <= ptr \/ ptr + comb <= y).
  { intros j y Hj Hy.
    assert (Hy' : In y (lists j)) by (apply (unlist_in _ _ _ _ _ Hy)).
    destruct (listed_far _ _ _ _ _ _ j y Hpre Hin Hj Hy') as [(_ & F)|F1];
      [discriminate|].
    destruct (listed_far _ _ _ _ _ _ j y Hpre Hnin Hj Hy') as [(F & _)|F2].
    - exfalso. subst y. unfold lists', unlist, upd in Hy.
      destruct (Z.eqb_spec j (get_list_index ns)) as [->|Hji].
      + exact (remove_node_not_in _ _ Hy).
      + destruct (pre_listed_at _ _ _ Hpre j _ Hj Hy) as (t & Ht & Ec).
        pose proof (pre_block_unique _ _ _ Hpre _ _ _ Ht Hnin) as E.
        inversion E. congruence.
    - unfold comb. lia. }
  split; [|split].
  - constructor.
    + change (pre ++ (comb, true) :: post) with (pre ++ [(comb, true)] ++ post).
      apply (heap_pre_retag hd h2 pre [(old, true); (ns, false)]).
      * exact Hd.
      * unfold h2, h1. repeat split.
      * simpl. unfold comb. lia.
      * repeat constructor; simpl; [unfold comb; lia|apply Vc].
      * intros a Ha. rewrite Efd in Ha. fold ptr in Ha. simpl in Ha.
        unfold h2, h1. rewrite !GET_PUT_other by (unfold comb; lia). reflexivity.
      * rewrite Efd. fold ptr. simpl. apply Forall_cons; [|apply Forall_nil].
        apply tagged_intro.
        -- unfold h2. rewrite GET_PUT_other by (unfold comb; lia). exact E1.
        -- unfold h2. rewrite GET_PUT_same. apply (wrap_tag comb true Vc).
      * intros j y Hj Hy. rewrite Efd. fold ptr. simpl.
        specialize (Hclear j y Hj Hy). unfold comb in Hclear. lia.
    + change (first_block h2) with (first_block hd). rewrite Efd.
      apply all_free_listed_app in Hfree. destruct Hfree as (F1 & F2).
      fold ptr in F2.
      apply all_free_listed_app. split.
      * apply (all_free_listed_mono _ _ lists); [exact F1|].
        intros x b Hx Hb Hl. apply in_unlist; [exact Hl|].
        apply sizes_ok_app in Hso. destruct Hso as (Hs1 & _).
        pose proof (in_block_starts_bounds _ Hs1 _ _ _ Hx).
        pose proof (in_block_starts_sizes _ _ _ _ Hs1 Hx). unfold ptr. lia.
      * fold ptr. unfold all_free_listed in *. simpl in *.
        apply Forall_cons; [discriminate|].
        pose proof (Forall_inv_tail (Forall_inv_tail F2)) as F3.
        replace (ptr + comb) with (ptr + old + ns) by (unfold comb; lia).
        apply (all_free_listed_mono _ _ lists); [exact F3|].
        intros x b Hx Hb Hl. apply in_unlist; [exact Hl|].
        apply sizes_ok_app in Hso. destruct Hso as (_ & Hs2).
        pose proof (Forall_inv_tail (Forall_inv_tail Hs2)) as Hs3.
        pose proof (in_block_starts_bounds _ Hs3 _ _ _ Hx). lia.
  - intros a Ha. unfold DSIZE in Ha. unfold h2, h1.
    rewrite !mem_PUT_other by (unfold comb; lia).
    apply Hbytes; [lia|].
    intros j y Hj Hy.
    destruct (listed_far _ _ _ _ _ _ j y Hpre Hin Hj Hy) as [(_ & F)|F1];
      [discriminate|lia].
  - split; [eapply same_provider_trans; [exact Hsd|]; unfold h2, h1; repeat split|].
    intros a Hl.
    destruct (live_not_tag _ _ _ _ _ Hso Hl Hin) as (O1 & _).
    pose proof (live_outside_free _ _ _ _ _ Hso Hl Hnin) as O2.
    unfold h2, h1. rewrite !mem_PUT_other by (unfold comb; lia).
    apply (delete_node_live h _ lists (get_list_index ns) (ptr + old) a Hpre Hi
             Hnx_listed Hl).
Qed.

Lemma realloc_absorb_inv (fuel : nat) (h : heap) (pre post : list block)
      (lists : lists_t) (old ns size : Z) :
  heap_inv h (pre ++ (old, true) :: (ns, false) :: post) lists ->
  size <> 0 ->
  old < adjust_size size -> adjust_size size <= old + ns ->
  let ptr := first_block h + total pre in
  let lists' := unlist lists (get_list_index ns) (ptr + old) in
  exists h',
    mm_realloc fuel h ptr size = Some (ptr, h') /\
    heap_inv h' (pre ++ (old + ns, true) :: post) lists' /\
    (forall a, ptr <= a < ptr + old - DSIZE -> mem h' a = mem h a) /\
    same_provider h h'.
Proof.
  intros Hinv Hsz Hgrow Hfit ptr lists'.
  destruct (realloc_absorb_inv_frame fuel h pre post lists old ns size
              Hinv Hsz Hgrow Hfit) as (h' & A & B & C & D & _).
  exists h'. split; [exact A|]. split; [exact B|]. split; [exact C|exact D].
Qed.

(** C5: for a non-null [ptr] to an allocated block of a well-formed heap
    whose request does not fit in place (policy 1), if the next block in
    address order is free and [old_size + next.size >= new_size], then
    [mm_realloc] takes the next block off its free list, writes
    [(old_size + next.size, allocated)] to header and footer of the block at
    [ptr] without splitting off the surplus, and returns [ptr]; the payload
    bytes of [ptr] are untouched and the heap is well formed. *)
Theorem realloc_absorbs_next (fuel : nat) (h : heap) (pre post : list block)
        (lists : lists_t) (old_size next_size size : Z) :
  heap_inv h (pre ++ (old_size, true) :: (next_size, false) :: post) lists ->
  size <> 0 ->
  old_size < adjust_size size ->
  adjust_size size <= old_size + next_size ->
  let ptr := first_block h + total pre in
  let next_bp := ptr + old_size in
  let combine_size := old_size + next_size in
  let lists' := unlist lists (get_list_index next_size) next_bp in
  exists h',
    mm_realloc fuel h ptr size = Some (ptr, h') /\
    ptr <> NULL /\
    (forall j, 0 <= j < LIST_LIMIT -> ~ In next_bp (lists' j)) /\
    GET h' (HDRP ptr) = PACK combine_size 1 /\
    GET h' (ptr + combine_size - DSIZE) = PACK combine_size 1 /\
    heap_inv h' (pre ++ (combine_size, true) :: post) lists' /\
    (forall a, ptr <= a < ptr + old_size - DSIZE -> mem h' a = mem h a).
Proof.
  intros Hinv Hsz Hgrow Hfit ptr next_bp combine_size lists'.
  destruct (realloc_absorb_inv fuel h pre post lists old_size next_size size
                               Hinv Hsz Hgrow Hfit)
    as (h' & Er & Hinv' & Hbytes & Hsame).
  fold ptr in Er, Hinv', Hbytes. fold next_bp lists' in Hinv'.
  fold combine_size in Hinv'.
  destruct (same_provider_first_block _ _ Hsame) as (Efb & _).
  exists h'. split; [exact Er|].
  destruct Hinv as [Hpre Hfree].
  split.
  { destruct (around_block h pre ((next_size, false) :: post) old_size true
                           lists Hpre)
      as (_ & (_ & _ & _ & _ & _ & _ & _ & _ & Hlo & _ & _ & Hsp)).
    pose proof (first_block_eq h).
    assert (0 <= total pre).
    { pose proof (pre_sizes _ _ _ Hpre) as Hso. apply sizes_ok_app in Hso.
      apply total_nonneg. apply Hso. }
    unfold ptr, NULL. lia. }
  split.
  { intros j Hj Hin. unfold lists', unlist, upd in Hin.
    destruct (Z.eqb_spec j (get_list_index next_size)) as [->|Hji].
    - exact (remove_node_not_in _ _ Hin).
    - destruct (pre_listed_at _ _ _ Hpre j _ Hj Hin) as (t & Ht & Ec).
      assert (Hnin : In (next_bp, (next_size, false))
                        (block_starts (first_block h)
                           (pre ++ (old_size, true) :: (next_size, false) :: post))).
      { unfold next_bp.
        replace (ptr + old_size)
          with (first_block h + total (pre ++ [(old_size, true)]))
          by (rewrite total_app; simpl; unfold ptr; lia).
        change (pre ++ (old_size, true) :: (next_size, false) :: post)
          with (pre ++ [(old_size, true)] ++ (next_size, false) :: post).
        rewrite app_assoc. apply in_block_starts_middle. }
      pose proof (pre_block_unique _ _ _ Hpre _ _ _ Ht Hnin) as E.
      inversion E. congruence. }
  assert (Hin' : In (ptr, (combine_size, true))
                    (block_starts (first_block h')
                                  (pre ++ (combine_size, true) :: post))).
  { rewrite Efb. apply in_block_starts_middle. }
  destruct Hinv' as [Hpre' Hfree'].
  destruct (pre_block _ _ _ Hpre' _ _ Hin') as (A1 & A2 & _).
  simpl in A1, A2. unfold HDRP, WSIZE, DSIZE.
  split; [exact A1|]. split; [exact A2|].
  split; [constructor; assumption|exact Hbytes].
Qed.

(** ** [mm_malloc] *)

Lemma get_list_index_mono (a b : Z) :
  a <= b -> get_list_index a <= get_list_index b.
Proof.
  intros Hab. unfold get_list_index.
  repeat match goal with
         | |- context [if ?x <=? ?y then _ else _] =>
           destruct (Z.leb_spec x y); try lia
         end.
Qed.

Lemma MAX_spec (x y : Z) : MAX x y = Z.max x y.
Proof. unfold MAX. destruct (Z.gtb_spec x y); lia. Qed.

Lemma extend_size_even (e : Z) :
  0 <= e -> e mod 8 = 0 -> extend_size (e / WSIZE) = e.
Proof.
  intros He H8. unfold extend_size, WSIZE.
  pose proof (Z.div_mod e 8 ltac:(lia)).
  assert (E4 : e / 4 = 2 * (e / 8)).
  { replace e with ((2 * (e / 8)) * 4) at 1 by lia. apply Z.div_mul. lia. }
  rewrite E4.
  assert (Em : (2 * (e / 8)) mod 2 = 0).
  { rewrite Z.mul_comm. apply Z.mod_mul. lia. }
  rewrite Em. change (0 =? 0) with true. cbv iota. lia.
Qed.

Lemma prev_block_size (bl : list block) :
  sizes_ok bl -> 8 <= fst (prev_block bl).
Proof.
  unfold prev_block. induction 1 as [|b bl (Hb & _) Hs IH]; simpl.
  - unfold DSIZE. lia.
  - destruct bl; [lia|exact IH].
Qed.

Lemma pre_lists_terminate (h : heap) (bl : list block) (lists : lists_t) (i : Z) :
  heap_pre h bl lists -> 0 <= i < LIST_LIMIT ->
  is_list h (seg_get h i) (lists i).
Proof.
  intros Hpre Hi. eapply is_dll_is_list. apply (pre_dll_at _ _ _ Hpre i Hi).
Qed.

(** [mm_malloc] on a well-formed heap, when the rounding does not wrap. *)
Lemma mm_malloc_inv (fuel : nat) (h : heap) (bl : list block)
      (lists : lists_t) (size : Z) :
  heap_inv h bl lists ->
  mem_max_addr h < MINUS_ONE ->
  0 <= size <= SIZE_MAX - 15 ->
  (forall j, 0 <= j < LIST_LIMIT -> (length (lists j) < fuel)%nat) ->
  exists p h' bl' lists',
    mm_malloc fuel h size = Some (p, h') /\
    heap_inv h' bl' lists' /\
    ((p = NULL /\ (size = 0 \/ extension_fails fuel h size)) \/
     (p <> NULL /\ size <> 0 /\ ~ extension_fails fuel h size /\
      exists s, In (p, (s, true)) (block_starts (first_block h') bl') /\
                adjust_size size <= s)).
Proof.
  intros Hinv Hmax Hsize Hfuel.
  unfold mm_malloc.
  destruct (Z.eqb_spec size 0) as [E0|N0].
  { exists NULL, h, bl, lists. split; [reflexivity|]. split; [exact Hinv|].
    left. split; [reflexivity|left; exact E0]. }
  destruct (adjust_size_bounds size Hsize) as (Ha16 & Hasz).
  destruct (adjust_size_valid size) as (Har & Ha8).
  set (asize := adjust_size size) in *.
  pose proof Hinv as [Hpre Hfree].
  assert (Hidx := get_list_index_range asize).
  destruct (find_fit_from_spec fuel h asize lists ltac:(lia)
              (Z.to_nat (LIST_LIMIT - get_list_index asize))
              (get_list_index asize)) as (r & Er & Hr).
  { lia. }
  { intros j Hj. apply (pre_lists_terminate h bl lists j Hpre). lia. }
  { intros j Hj. apply Hfuel. lia. }
  fold (find_fit fuel h asize) in Er. rewrite Er.
  destruct Hr as [(-> & Hnone)|(Hrn & c & Hc & _ & (Hrin & Hrsz & _) & _)].
  - (* no fit: the heap is extended *)
    change (negb (NULL =? NULL)) with false. cbv iota.
    set (e := MAX asize CHUNKSIZE).
    assert (He : e = Z.max asize 4096) by apply MAX_spec.
    assert (He8 : e mod 8 = 0).
    { rewrite He. destruct (Z.max_spec asize 4096) as [(_ & ->)|(_ & ->)];
        [reflexivity|exact Ha8]. }
    assert (Ees : extend_size (e / WSIZE) = e)
      by (apply extend_size_even; [lia|exact He8]).
    assert (Hw0 : 0 <= e / WSIZE) by (apply Z.div_pos; unfold WSIZE; lia).
    assert (Hw1 : 4 * (e / WSIZE + 1) < 4294967296).
    { unfold WSIZE. pose proof (Z.div_mod e 4 ltac:(lia)).
      pose proof (Z.mod_pos_bound e 4 ltac:(lia)). lia. }
    destruct (Z_le_gt_dec (mem_brk h + e) (mem_max_addr h)) as [Hroom|Hfull].
    + destruct (extend_heap_inv h bl lists (e / WSIZE) Hinv Hw0 Hw1)
        as (E1 & Hinv1 & Esl & Ebrk & Emax);
        try (rewrite Ees; lia); try assumption.
      rewrite Ees in *.
      destruct (extend_heap h (e / WSIZE)) as (bp1, h1) eqn:Ee.
      simpl fst in E1. simpl snd in Hinv1, Esl, Ebrk, Emax.
      assert (Efb1 : first_block h1 = first_block h)
        by (unfold first_block, heap_start; rewrite Esl; reflexivity).
      assert (Ebp : mem_brk h = first_block h + total bl).
      { destruct (pre_brk _ _ _ Hpre) as (E & _). symmetry. exact E. }
      assert (Ebp1 : bp1 = first_block h1 +
                           total (if snd (prev_block bl) then bl else removelast bl)).
      { rewrite E1, Ebp, coalesced_start_total, Efb1. reflexivity. }
      set (pre1 := if snd (prev_block bl) then bl else removelast bl) in *.
      set (cs := coalesced_size bl e []) in *.
      assert (Hcs : e <= cs).
      { unfold cs, coalesced_size, absorb. simpl.
        pose proof (prev_block_size bl (pre_sizes _ _ _ Hpre)).
        destruct (snd (prev_block bl)); lia. }
      assert (Ecb : coalesced_blocks bl e [] = pre1 ++ (cs, false) :: [])
        by reflexivity.
      rewrite Ecb in Hinv1.
      set (lists1 := coalesced_lists lists (mem_brk h) bl e []) in *.
      destruct (place_inv h1 pre1 [] lists1 cs asize Hinv1 Ha8 ltac:(lia))
        as (Hsame2 & Hsplit & Hwhole).
      rewrite <- Ebp1 in Hsame2, Hsplit, Hwhole.
      destruct (same_provider_first_block _ _ Hsame2) as (Efb2 & _).
      assert (Hbp1 : bp1 <> NULL).
      { pose proof (first_block_eq h1). pose proof (pre_seg _ _ _ Hpre) as (Q & _).
        rewrite <- Esl in Q.
        assert (0 <= total pre1).
        { destruct Hinv1 as [Hp1 _]. pose proof (pre_sizes _ _ _ Hp1) as Hso.
          apply sizes_ok_app in Hso. apply total_nonneg. apply Hso. }
        unfold NULL. lia. }
      destruct (Z.eqb_spec bp1 NULL) as [F|_]; [contradiction|].
      assert (Hnf : ~ extension_fails fuel h size).
      { intros (_ & F). unfold provider_refuses, mem_sbrk in F.
        fold asize e in F.
        destruct (Z.leb_spec (mem_brk h + e) (mem_max_addr h)); [|lia].
        cbn [fst] in F. pose proof (pre_brk _ _ _ Hpre) as (_ & Hlt). lia. }
      destruct (Z_le_gt_dec 16 (cs - asize)) as [Hs|Hs].
      * exists bp1, (place h1 bp1 asize). eexists. eexists.
        split; [reflexivity|]. split; [exact (Hsplit Hs)|].
        right. split; [exact Hbp1|]. split; [exact N0|]. split; [exact Hnf|].
        exists asize. split; [|lia].
        rewrite Efb2, Ebp1. apply in_block_starts_middle.
      * exists bp1, (place h1 bp1 asize). eexists. eexists.
        split; [reflexivity|]. split; [exact (Hwhole ltac:(lia))|].
        right. split; [exact Hbp1|]. split; [exact N0|]. split; [exact Hnf|].
        exists cs. split; [|lia].
        rewrite Efb2, Ebp1. apply in_block_starts_middle.
    + rewrite extend_heap_fails by (try rewrite Ees; assumption || lia).
      change (NULL =? NULL) with true. cbv iota.
      exists NULL, h, bl, lists. split; [reflexivity|]. split; [exact Hinv|].
      left. split; [reflexivity|]. right. split; [exact Er|].
      unfold provider_refuses, mem_sbrk. fold asize e.
      destruct (Z.leb_spec (mem_brk h + e) (mem_max_addr h)); [lia|].
      reflexivity.
  - (* a fit: it is placed *)
    destruct (Z.eqb_spec r NULL) as [F|_]; [contradiction|]. cbn [negb].
    assert (Hcr : 0 <= c < LIST_LIMIT) by lia.
    destruct (pre_listed_at _ _ _ Hpre c r Hcr Hrin) as (cs & Hin & _).
    destruct (pre_block_read _ _ _ Hpre _ _ Hin) as (Ecs & _). simpl in Ecs.
    unfold block_size in Hrsz. rewrite Ecs in Hrsz.
    destruct (in_block_starts_split _ _ _ _ Hin) as (pre & post & Ebl & Ebp).
    rewrite Ebl in Hinv.
    destruct (place_inv h pre post lists cs asize Hinv Ha8 ltac:(lia))
      as (Hsame2 & Hsplit & Hwhole).
    rewrite <- Ebp in Hsame2, Hsplit, Hwhole.
    destruct (same_provider_first_block _ _ Hsame2) as (Efb2 & _).
    assert (Hnf : ~ extension_fails fuel h size).
    { intros (F & _). fold asize in F. rewrite Er in F. inversion F.
      contradiction. }
    destruct (Z_le_gt_dec 16 (cs - asize)) as [Hs|Hs].
    + exists r, (place h r asize). eexists. eexists.
      split; [reflexivity|]. split; [exact (Hsplit Hs)|].
      right. split; [exact Hrn|]. split; [exact N0|]. split; [exact Hnf|].
      exists asize. split; [|lia].
      rewrite Efb2, Ebp. apply in_block_starts_middle.
    + exists r, (place h r asize). eexists. eexists.
      split; [reflexivity|]. split; [exact (Hwhole ltac:(lia))|].
      right. split; [exact Hrn|]. split; [exact N0|]. split; [exact Hnf|].
      exists cs. split; [|lia].
      rewrite Efb2, Ebp. apply in_block_starts_middle.
Qed.

(** ** The rounding, past [SIZE_MAX - 15] *)

(** C10: the rounding of [mm_malloc] and [mm_realloc] is done modulo [2^32]
    with no guard.  For every [size] with [size + 15 > SIZE_MAX] the
    adjusted size is [((size + 15) mod 2^32) & ~7], below 16 and below
    [size], and the request is not rejected: [mm_malloc] places any fit
    [find_fit] finds for the wrapped size, and [mm_realloc] takes policy 1
    whenever the wrapped size is at most the size of the block. *)
Theorem adjust_size_overflow (size : Z) :
  SIZE_MAX - 14 <= size <= SIZE_MAX ->
  adjust_size size = Z.land (wrap (size + 15)) (Z.lnot 7) /\
  adjust_size size < 16 /\ adjust_size size < size /\
  (forall fuel h bp,
      find_fit fuel h (adjust_size size) = Some bp -> bp <> NULL ->
      mm_malloc fuel h size = Some (bp, place h bp (adjust_size size))) /\
  (forall fuel h ptr,
      ptr <> NULL -> adjust_size size <= block_size h ptr ->
      mm_realloc fuel h ptr size = Some (ptr, h)).
Proof.
  intros Hs. destruct (adjust_size_wraps size Hs) as (E & H16 & Hlt).
  split; [exact E|]. split; [exact H16|]. split; [exact Hlt|].
  unfold SIZE_MAX in Hs. split.
  - intros fuel h bp Ef Hbp. unfold mm_malloc.
    destruct (Z.eqb_spec size 0); [lia|]. rewrite Ef.
    destruct (Z.eqb_spec bp NULL); [contradiction|]. reflexivity.
  - intros fuel h ptr Hp Hle. unfold mm_realloc.
    destruct (Z.eqb_spec ptr NULL); [contradiction|].
    destruct (Z.eqb_spec size 0); [lia|].
    unfold block_size in Hle.
    destruct (Z.leb_spec (adjust_size size) (GET_SIZE h (HDRP ptr))); [|lia].
    reflexivity.
Qed.

(** * Further properties of the allocator *)

Lemma some_pair_inj (A B : Type) (a a' : A) (b b' : B) :
  Some (a, b) = Some (a', b') -> a = a' /\ b = b'.
Proof. intros E. inversion E. split; reflexivity. Qed.

(** ** The size classes *)

(** X1: the class table in closed form: block sizes from 16 to 112 have a
    class of their own ([size / 8 - 2]), 113 to 128 share class 13, class
    [14 + k] holds the sizes above [128 * 2^k] up to [256 * 2^k] for
    [k = 0 .. 4], class 19 everything above 4096; the class never decreases
    as the size grows. *)
Theorem get_list_index_classes (s : Z) :
  (16 <= s <= 112 -> s mod 8 = 0 -> get_list_index s = s / 8 - 2) /\
  (112 < s <= 128 -> get_list_index s = 13) /\
  (forall k, 0 <= k <= 4 ->
             (get_list_index s = 14 + k <-> 128 * 2 ^ k < s <= 256 * 2 ^ k)) /\
  (get_list_index s = 19 <-> 4096 < s) /\
  (forall t, s <= t -> get_list_index s <= get_list_index t).
Proof.
  split; [|split; [|split; [|split]]].
  - intros Hr Hm.
    assert (E : s = 8 * (s / 8)) by (pose proof (Z.div_mod s 8); lia).
    set (q := s / 8) in *. 
    assert (Hq : 2 <= q <= 14) by lia.
    assert (Hc : q = 2 \/ q = 3 \/ q = 4 \/ q = 5 \/ q = 6 \/ q = 7 \/ q = 8 \/
                 q = 9 \/ q = 10 \/ q = 11 \/ q = 12 \/ q = 13 \/ q = 14) by lia.
    rewrite E.
    repeat (destruct Hc as [->|Hc]; [reflexivity|]). subst q. rewrite Hc. reflexivity.
  - intros Hr. unfold get_list_index.
    repeat match goal with
           | |- context [?a <=? ?b] => destruct (Z.leb_spec a b); try lia
           end.
  - intros k Hk.
    assert (Hc : k = 0 \/ k = 1 \/ k = 2 \/ k = 3 \/ k = 4) by lia.
    destruct Hc as [->|[->|[->|[->| ->]]]]; simpl Z.pow; unfold get_list_index;
    repeat match goal with
           | |- context [?a <=? ?b] => destruct (Z.leb_spec a b); try lia
           end.
  - unfold get_list_index.
    repeat match goal with
           | |- context [?a <=? ?b] => destruct (Z.leb_spec a b); try lia
           end.
  - intros t Ht. apply get_list_index_mono. exact Ht.
Qed.

(** ** [mm_check] on a well-formed heap *)

Lemma mm_check_of_audits (fuel : nat) (h : heap) (bps : list Z) (stop : Z)
      (lists : lists_t) :
  audits h bps stop lists ->
  (length bps < fuel)%nat ->
  (forall j, 0 <= j < LIST_LIMIT -> (length (lists j) < fuel)%nat) ->
  mm_check fuel h = Some (Return 1).
Proof.
  intros [(Hps & Hpa) Hw He Hb Hc Hl Hlb Hp Hn] Hf Hfl.
  unfold mm_check. fold (heap_start h).
  unfold block_size in Hps. rewrite Hps, Z.eqb_refl. cbn [negb orb].
  destruct (Z.eqb_spec (GET_ALLOC h (HDRP (heap_start h))) 0); [contradiction|].
  rewrite (check_heap_passes h bps stop fuel _ 0 Hw Hb Hc Hf).
  assert (Hs : GET_SIZE h (HDRP stop) = 0).
  { clear - Hw. revert Hw. generalize (heap_start h).
    induction bps as [|y bps IH]; simpl; intros bp Hw.
    - destruct Hw as (_ & Hs). exact Hs.
    - destruct Hw as (_ & _ & Hw). exact (IH _ Hw). }
  rewrite Hs. simpl (0 =? 0). cbn [negb orb].
  destruct (Z.eqb_spec (GET_ALLOC h (HDRP stop)) 0); [contradiction|].
  rewrite (check_lists_passes h lists fuel (Z.to_nat LIST_LIMIT) 0 0 (Z.le_refl 0)
                              eq_refl Hl Hlb Hp Hfl).
  rewrite Hn, Z.add_0_l, Z.eqb_refl. reflexivity.
Qed.

Lemma in_free_starts (bl : list block) :
  forall bp x,
    In x (free_starts bp bl) <->
    exists s, In (x, (s, false)) (block_starts bp bl).
Proof.
  induction bl as [|(s, a) bl IH]; intros bp x; simpl.
  - split; [contradiction|intros (s & [])].
  - rewrite in_app_iff, IH. split.
    + intros [H|(t & H)].
      * destruct a; [contradiction|]. destruct H as [<-|[]].
        exists s. left. reflexivity.
      * exists t. right. exact H.
    + intros (t & [H|H]).
      * inversion H; subst. left. left. reflexivity.
      * right. exists t. exact H.
Qed.

Lemma free_starts_NoDup (bl : list block) :
  sizes_ok bl -> forall bp, NoDup (free_starts bp bl).
Proof.
  induction 1 as [|(s, a) bl (Hs & _) Hso IH]; intros bp; simpl.
  - constructor.
  - destruct a; simpl; [apply IH|].
    constructor; [|apply IH].
    intros F. apply in_free_starts in F. destruct F as (t & F).
    pose proof (in_block_starts_bounds _ Hso _ _ _ F). simpl in *. lia.
Qed.

Lemma free_starts_length (bl : list block) :
  forall bp, (length (free_starts bp bl) <= length bl)%nat.
Proof.
  induction bl as [|(s, a) bl IH]; intros bp; simpl; [lia|].
  rewrite length_app. specialize (IH (bp + s)). destruct a; simpl; lia.
Qed.

Lemma count_free_cons (h : heap) (x : Z) (bps : list Z) :
  count_free h (x :: bps) =
  (if GET_ALLOC h (HDRP x) =? 0 then 1 else 0) + count_free h bps.
Proof.
  unfold count_free. cbn [filter]. unfold is_free at 1.
  destruct (GET_ALLOC h (HDRP x) =? 0); cbn [length]; lia.
Qed.

Lemma count_free_blocks (h : heap) (bl : list block) :
  forall bp,
    (forall x b, In (x, b) (block_starts bp bl) ->
                 GET_ALLOC h (HDRP x) = (if snd b then 1 else 0)) ->
    count_free h (map fst (block_starts bp bl)) =
    Z.of_nat (length (free_starts bp bl)).
Proof.
  induction bl as [|(s, a) bl IH]; intros bp Hr; [reflexivity|].
  cbn [block_starts map fst snd free_starts]. rewrite count_free_cons.
  rewrite (Hr bp (s, a)) by (left; reflexivity).
  rewrite IH by (intros x b Hx; apply Hr; right; exact Hx).
  rewrite length_app, Nat2Z.inj_add.
  destruct a; cbn [snd]; [change (1 =? 0) with false|change (0 =? 0) with true];
    cbv iota; simpl length; lia.
Qed.

Lemma listed_from_length (lists : lists_t) (n : nat) :
  forall i, listed_from lists i n = Z.of_nat (length (listed_nodes lists i n)).
Proof.
  induction n as [|n IH]; intros i; simpl; [reflexivity|].
  rewrite length_app, IH. lia.
Qed.

Lemma in_listed_nodes (lists : lists_t) (n : nat) :
  forall i x,
    In x (listed_nodes lists i n) <->
    exists j, i <= j < i + Z.of_nat n /\ In x (lists j).
Proof.
  induction n as [|n IH]; intros i x; cbn [listed_nodes].
  - split; [contradiction|]. intros (j & Hj & _). simpl in Hj. lia.
  - rewrite in_app_iff, IH. split.
    + intros [H|(j & Hj & H)]; [exists i|exists j]; split; try assumption; lia.
    + intros (j & Hj & H). destruct (Z.eq_dec j i) as [->|Hne].
      * left. exact H.
      * right. exists j. split; [lia|exact H].
Qed.

Lemma listed_nodes_NoDup (h : heap) (bl : list block) (lists : lists_t) :
  heap_pre h bl lists ->
  forall n i, 0 <= i -> i + Z.of_nat n <= LIST_LIMIT ->
              NoDup (listed_nodes lists i n).
Proof.
  intros Hpre. induction n as [|n IH]; intros i Hi Hn; cbn [listed_nodes].
  - constructor.
  - assert (Hd : forall x, In x (lists i) ->
                           ~ In x (listed_nodes lists (i + 1) n)).
    { intros x Hx F. apply in_listed_nodes in F. destruct F as (j & Hj & F).
      destruct (pre_listed_sep h bl lists Hpre i j x x) as [(_ & E)|E];
        try assumption; lia. }
    assert (Hnd : NoDup (lists i)).
    { apply (is_list_NoDup h _ (seg_get h i)).
      apply (pre_lists_terminate h bl lists i Hpre). lia. }
    specialize (IH (i + 1) ltac:(lia) ltac:(lia)).
    revert Hnd Hd. generalize (lists i) as l.
    induction l as [|y l IHl]; intros Hnd Hd; simpl; [exact IH|].
    inversion Hnd as [|? ? Hy Hnd']; subst.
    constructor.
    + rewrite in_app_iff. intros [F|F]; [contradiction|].
      apply (Hd y); [left; reflexivity|exact F].
    + apply IHl; [exact Hnd'|]. intros x Hx. apply Hd. right. exact Hx.
Qed.

(** In a well-formed heap there are as many listed nodes as free blocks. *)
Lemma listed_count (h : heap) (bl : list block) (lists : lists_t) :
  heap_inv h bl lists ->
  length (listed_nodes lists 0 (Z.to_nat LIST_LIMIT)) =
  length (free_starts (first_block h) bl).
Proof.
  intros [Hpre Hfree].
  apply Nat.le_antisymm; apply NoDup_incl_length.
  - apply (listed_nodes_NoDup h bl lists Hpre); unfold LIST_LIMIT; simpl; lia.
  - intros x Hx. apply in_listed_nodes in Hx. destruct Hx as (j & Hj & Hx).
    apply in_free_starts.
    destruct (pre_listed_at h bl lists Hpre j x) as (s & Hs & _);
      [unfold LIST_LIMIT in *; simpl in Hj; lia|exact Hx|].
    exists s. exact Hs.
  - apply free_starts_NoDup. apply (pre_sizes _ _ _ Hpre).
  - intros x Hx. apply in_free_starts in Hx. destruct Hx as (s & Hs).
    apply in_listed_nodes. exists (get_list_index s).
    pose proof (get_list_index_range s). split; [unfold LIST_LIMIT in *; simpl; lia|].
    unfold all_free_listed in Hfree. rewrite Forall_forall in Hfree.
    apply (Hfree (x, (s, false)) Hs). reflexivity.
Qed.

Lemma list_length_bound (h : heap) (bl : list block) (lists : lists_t) (j : Z) :
  heap_inv h bl lists -> 0 <= j < LIST_LIMIT ->
  (length (lists j) <= length bl)%nat.
Proof.
  intros Hinv Hj.
  pose proof (free_starts_length bl (first_block h)) as Hb.
  rewrite <- (listed_count h bl lists Hinv) in Hb.
  eapply Nat.le_trans; [|exact Hb].
  apply NoDup_incl_length.
  - destruct Hinv as [Hpre _].
    apply (is_list_NoDup h _ (seg_get h j)).
    apply (pre_lists_terminate h bl lists j Hpre Hj).
  - intros x Hx. apply in_listed_nodes. exists j.
    split; [unfold LIST_LIMIT in *; simpl; lia|exact Hx].
Qed.

Lemma heap_walk_blocks (h : heap) (bl : list block) :
  forall bp stop,
    (forall x b, In (x, b) (block_starts bp bl) ->
                 GET_SIZE h (HDRP x) = fst b /\ 0 < fst b) ->
    stop = bp + total bl -> block_size h stop = 0 ->
    heap_walk h bp (map fst (block_starts bp bl)) stop.
Proof.
  induction bl as [|(s, a) bl IH]; intros bp stop Hr Es H0; simpl.
  - simpl in Es. split; [lia|exact H0].
  - destruct (Hr bp (s, a) ltac:(left; reflexivity)) as (E & Hpos). simpl in E, Hpos.
    split; [reflexivity|]. split; [unfold block_size; lia|].
    unfold NEXT_BLKP, WSIZE. unfold HDRP, WSIZE in E. rewrite E.
    apply IH; [|simpl in Es; lia|exact H0].
    intros x b Hx. apply Hr. right. exact Hx.
Qed.

Lemma pred_chain_of_dll (h : heap) (l : list Z) :
  forall prev p, is_dll h prev p l -> pred_chain h prev l.
Proof.
  induction l as [|x l IH]; intros prev p H; simpl; [exact I|].
  destruct H as (_ & _ & Hp & H). split; [intros _; exact Hp|].
  apply (IH _ _ H).
Qed.

(** The follower of each block of a layout: the next block or the epilogue. *)
Lemma next_in_layout (bl : list block) :
  forall bp x b,
    In (x, b) (block_starts bp bl) ->
    (x + fst b = bp + total bl /\
     exists pre, bl = pre ++ [b]) \/
    (exists pre c post, bl = pre ++ b :: c :: post /\ x = bp + total pre).
Proof.
  induction bl as [|c bl IH]; intros bp x b H; [contradiction|].
  simpl in H. destruct H as [H|H].
  - inversion H; subst. destruct bl as [|d bl].
    + left. simpl. split; [lia|]. exists []. reflexivity.
    + right. exists [], d, bl. split; [reflexivity|]. simpl. lia.
  - destruct (IH _ _ _ H) as [(E & pre & Ep)|(pre & d & post & Ep & Ex)].
    + left. simpl. split; [lia|]. exists (c :: pre). rewrite Ep. reflexivity.
    + right. exists (c :: pre), d, post. split; [rewrite Ep; reflexivity|].
      simpl. lia.
Qed.

(** Every audit of [mm_check] but the count, from the invariants that do
    not ask for every free block to be listed. *)
Lemma audit_facts (h : heap) (bl : list block) (lists : lists_t) :
  heap_pre h bl lists ->
  no_adjacent_free bl ->
  mem_heap_lo h <= seg_list h ->
  let bps := heap_start h :: map fst (block_starts (first_block h) bl) in
  let stop := first_block h + total bl in
  (block_size h (heap_start h) = DSIZE /\
   GET_ALLOC h (HDRP (heap_start h)) <> 0) /\
  heap_walk h (heap_start h) bps stop /\
  GET_ALLOC h (HDRP stop) <> 0 /\
  Forall (fun x => x mod 8 = 0 /\ GET h (HDRP x) = GET h (FTRP h x)) bps /\
  Forall (fun x => ~ (GET_ALLOC h (HDRP x) = 0 /\
                      GET_ALLOC h (HDRP (NEXT_BLKP h x)) = 0)) bps /\
  Forall (fun i => is_list h (seg_get h i) (lists i)) classes /\
  Forall (fun i =>
            Forall (fun x => mem_heap_lo h <= x <= mem_heap_hi h /\
                             GET_ALLOC h (HDRP x) = 0) (lists i)) classes /\
  Forall (fun i => pred_chain h NULL (lists i)) classes /\
  count_free h bps = Z.of_nat (length (free_starts (first_block h) bl)).
Proof.
  intros Hpre Hnaf Hlo bps stop. subst bps stop.
  destruct (pre_seg _ _ _ Hpre) as (Hsp & Hs8).
  destruct (pre_brk _ _ _ Hpre) as (Ebrk & Hbrk).
  pose proof (pre_sizes _ _ _ Hpre) as Hso.
  destruct (pre_layout _ _ _ Hpre) as (Htag & Hepi).
  pose proof (first_block_eq h) as Efb. pose proof (heap_start_eq h) as Ehs.
  pose proof (total_nonneg _ Hso) as Htot.
  cbn [block_starts] in Htag.
  inversion Htag as [|? ? (Hp1 & Hp2) Htag']; subst. simpl in Hp1, Hp2.
  assert (Vp : valid_size 8) by (split; [lia|reflexivity]).
  assert (Vz : valid_size 0) by (split; [lia|reflexivity]).
  destruct (tag_decode h _ 8 1 Vp ltac:(right; reflexivity) Hp1) as (Eps & Epa).
  destruct (tag_decode h _ 0 1 Vz ltac:(right; reflexivity) Hepi) as (Ees & Eea).
  split; [|split; [|split; [|split; [|split; [|split; [|split; [|split]]]]]]].
  - unfold block_size. rewrite Eps, Epa. split; [reflexivity|discriminate].
  - cbn [heap_walk]. split; [reflexivity|]. split; [unfold block_size; rewrite Eps; reflexivity|].
    unfold NEXT_BLKP. unfold HDRP in Eps. rewrite Eps.
    replace (heap_start h + 8) with (first_block h) by (unfold first_block, DSIZE; lia).
    apply heap_walk_blocks; [|reflexivity|exact Ees].
    intros x b Hx. destruct (pre_block_read _ _ _ Hpre _ _ Hx) as (E & _).
    destruct (in_block_starts_sizes _ _ _ _ Hso Hx). split; [exact E|lia].
  - rewrite Eea. discriminate.
  - apply Forall_cons.
    + split; [rewrite Ehs; rewrite Z.add_mod, Hs8 by lia; reflexivity|].
      unfold FTRP. rewrite Eps. rewrite Hp1.
      replace (heap_start h + 8 - DSIZE) with (heap_start h + DSIZE - DSIZE)
        by (unfold DSIZE; lia).
      symmetry. exact Hp2.
    + rewrite Forall_forall. intros x Hx. apply in_map_fst_block_starts in Hx.
      destruct Hx as (b & Hx).
      destruct (pre_block _ _ _ Hpre _ _ Hx) as (T1 & T2 & _ & _ & _ & _ & H8).
      destruct (pre_block_read _ _ _ Hpre _ _ Hx) as (_ & _ & Ef & _).
      split; [exact H8|]. rewrite Ef. unfold HDRP, WSIZE. congruence.
  - apply Forall_cons.
    + rewrite Epa. intros (F & _). discriminate.
    + rewrite Forall_forall. intros x Hx. apply in_map_fst_block_starts in Hx.
      destruct Hx as (b & Hx).
      destruct (pre_block_read _ _ _ Hpre _ _ Hx) as (_ & Ea & _ & En & _).
      rewrite En, Ea. intros (Fa & Fn).
      destruct b as (s, a). simpl in *. destruct a; [discriminate|].
      destruct (next_in_layout _ _ _ _ Hx) as [(E & _)|(pre & c & post & Ep & Ex)].
      * simpl in E. rewrite E, Eea in Fn. discriminate.
      * assert (Hc : In (x + s, c) (block_starts (first_block h) bl)).
        { rewrite Ep, Ex.
          change (pre ++ (s, false) :: c :: post)
            with (pre ++ [(s, false)] ++ c :: post).
          rewrite app_assoc.
          replace (first_block h + total pre + s)
            with (first_block h + total (pre ++ [(s, false)]))
            by (rewrite total_app; simpl; lia).
          apply in_block_starts_middle. }
        destruct (pre_block_read _ _ _ Hpre _ _ Hc) as (_ & Eca & _).
        rewrite Eca in Fn. destruct c as (t, [|]); simpl in Fn; [discriminate|].
        rewrite Ep in Hnaf. apply no_adjacent_free_app in Hnaf.
        destruct Hnaf as (_ & Hn2 & _). simpl in Hn2. destruct Hn2 as (Hn2 & _).
        apply Hn2. split; reflexivity.
  - rewrite Forall_forall. intros i Hi. apply in_classes in Hi.
    apply (pre_lists_terminate h bl lists i Hpre Hi).
  - rewrite Forall_forall. intros i Hi. apply in_classes in Hi.
    rewrite Forall_forall. intros x Hx.
    destruct (pre_listed_at _ _ _ Hpre i x Hi Hx) as (s & Hs & _).
    destruct (pre_block _ _ _ Hpre _ _ Hs) as (_ & _ & B0 & _ & B1 & B2 & _).
    destruct (pre_block_read _ _ _ Hpre _ _ Hs) as (_ & Ea & _).
    simpl in *. unfold mem_heap_lo, mem_heap_hi in *.
    split; [lia|exact Ea].
  - rewrite Forall_forall. intros i Hi. apply in_classes in Hi.
    apply (pred_chain_of_dll h _ NULL (seg_get h i)).
    apply (pre_dll_at _ _ _ Hpre i Hi).
  - rewrite count_free_cons, Epa. simpl (1 =? 0). cbv iota.
    rewrite count_free_blocks; [lia|].
    intros x b Hx. apply (pre_block_read _ _ _ Hpre _ _ Hx).
Qed.

Lemma audits_of_inv (h : heap) (bl : list block) (lists : lists_t) :
  heap_inv h bl lists ->
  no_adjacent_free bl ->
  mem_heap_lo h <= seg_list h ->
  audits h (heap_start h :: map fst (block_starts (first_block h) bl))
         (first_block h + total bl) lists.
Proof.
  intros Hinv Hnaf Hlo. pose proof Hinv as [Hpre _].
  destruct (audit_facts h bl lists Hpre Hnaf Hlo)
    as (A1 & A2 & A3 & A4 & A5 & A6 & A7 & A8 & A9).
  constructor; try assumption.
  rewrite A9, listed_from_length, (listed_count h bl lists Hinv). reflexivity.
Qed.

(** What [check_heap] has established when it falls out of its loop. *)
Lemma check_heap_sound (h : heap) :
  forall fuel bp count stop c,
    check_heap fuel h bp count = Some (Return (stop, c)) ->
    exists bps,
      heap_walk h bp bps stop /\
      Forall (fun x => x mod 8 = 0 /\ GET h (HDRP x) = GET h (FTRP h x)) bps /\
      Forall (fun x => ~ (GET_ALLOC h (HDRP x) = 0 /\
                          GET_ALLOC h (HDRP (NEXT_BLKP h x)) = 0)) bps /\
      c = count + count_free h bps.
Proof.
  induction fuel as [|fuel IH]; intros bp count stop c E; [discriminate|].
  cbn [check_heap] in E.
  destruct (Z.gtb_spec (GET_SIZE h (HDRP bp)) 0) as [Hs|Hs].
  - unfold checkblock in E.
    destruct (Z.eqb_spec (bp mod 8) 0) as [Hal|]; [|discriminate].
    cbn [negb] in E.
    destruct (Z.eqb_spec (GET h (HDRP bp)) (GET h (FTRP h bp))) as [Hhf|];
      [|discriminate].
    cbn [negb] in E.
    destruct (Z.eqb_spec (GET_ALLOC h (HDRP bp)) 0) as [Ea|Ea].
    + destruct (Z.eqb_spec (GET_ALLOC h (HDRP (NEXT_BLKP h bp))) 0) as [En|En];
        [discriminate|].
      cbn [andb] in E. apply IH in E. destruct E as (bps & Hw & Hb & Hc & Ec).
      exists (bp :: bps). cbn [heap_walk]. split; [|split; [|split]].
      * split; [reflexivity|]. split; [exact Hs|exact Hw].
      * apply Forall_cons; [split; assumption|exact Hb].
      * apply Forall_cons; [|exact Hc]. intros (_ & F). contradiction.
      * rewrite count_free_cons, Ea. simpl (0 =? 0). cbv iota. lia.
    + cbn [andb] in E. apply IH in E. destruct E as (bps & Hw & Hb & Hc & Ec).
      exists (bp :: bps). cbn [heap_walk]. split; [|split; [|split]].
      * split; [reflexivity|]. split; [exact Hs|exact Hw].
      * apply Forall_cons; [split; assumption|exact Hb].
      * apply Forall_cons; [|exact Hc]. intros (F & _). contradiction.
      * rewrite count_free_cons.
        destruct (Z.eqb_spec (GET_ALLOC h (HDRP bp)) 0); [contradiction|]. lia.
  - inversion E; subst. exists []. cbn [heap_walk].
    pose proof (GET_SIZE_range h (HDRP stop)).
    split; [split; [reflexivity|unfold block_size; lia]|].
    split; [apply Forall_nil|]. split; [apply Forall_nil|].
    unfold count_free. simpl. lia.
Qed.

Lemma check_list_sound (h : heap) (i : Z) :
  forall fuel curr prev count c,
    check_list fuel h i curr prev count = Some (Return c) ->
    exists l,
      is_list h curr l /\
      Forall (fun x => mem_heap_lo h <= x <= mem_heap_hi h /\
                       GET_ALLOC h (HDRP x) = 0) l /\
      pred_chain h prev l /\
      c = count + Z.of_nat (length l).
Proof.
  induction fuel as [|fuel IH]; intros curr prev count c E; [discriminate|].
  cbn [check_list] in E.
  destruct (Z.eqb_spec curr NULL) as [En|En].
  - inversion E; subst. exists []. simpl.
    split; [reflexivity|]. split; [apply Forall_nil|]. split; [exact I|lia].
  - destruct (Z.ltb_spec curr (mem_heap_lo h)); [discriminate|].
    destruct (Z.gtb_spec curr (mem_heap_hi h)); [discriminate|].
    cbn [orb] in E.
    destruct (Z.eqb_spec (GET_ALLOC h (HDRP curr)) 0) as [Ea|]; [|discriminate].
    cbn [negb] in E.
    destruct (negb (prev =? NULL) && negb (GET_PRED h curr =? prev)) eqn:Ep;
      [discriminate|].
    apply IH in E. destruct E as (l & Hl & Hb & Hp & Ec).
    exists (curr :: l). cbn [is_list pred_chain length].
    split; [split; [reflexivity|split; [exact En|exact Hl]]|].
    split; [apply Forall_cons; [split; [lia|exact Ea]|exact Hb]|].
    split; [|lia]. split; [|exact Hp].
    intros Hprev. apply andb_false_iff in Ep. destruct Ep as [Ep|Ep].
    + destruct (Z.eqb_spec prev NULL); [contradiction|discriminate].
    + destruct (Z.eqb_spec (GET_PRED h curr) prev); [assumption|discriminate].
Qed.

Lemma listed_from_upd (lists : lists_t) (k : Z) (l : list Z) (n : nat) :
  forall i, k < i -> listed_from (upd lists k l) i n = listed_from lists i n.
Proof.
  induction n as [|n IH]; intros i Hk; simpl; [reflexivity|].
  rewrite IH by lia. unfold upd.
  destruct (Z.eqb_spec i k); [lia|reflexivity].
Qed.

Lemma check_lists_sound (h : heap) (fuel : nat) :
  forall n i count c,
    check_lists n fuel h i count = Some (Return c) ->
    exists lists : lists_t,
      (forall j, i <= j < i + Z.of_nat n ->
                 is_list h (seg_get h j) (lists j) /\
                 Forall (fun x => mem_heap_lo h <= x <= mem_heap_hi h /\
                                  GET_ALLOC h (HDRP x) = 0) (lists j) /\
                 pred_chain h NULL (lists j)) /\
      c = count + listed_from lists i n.
Proof.
  induction n as [|n IH]; intros i count c E; cbn [check_lists] in E.
  - inversion E; subst. exists (fun _ => []). split; [intros j Hj; simpl in Hj; lia|].
    simpl. lia.
  - destruct (check_list fuel h i (seg_get h i) NULL count) as [[c1|e]|] eqn:E1;
      try discriminate.
    apply check_list_sound in E1. destruct E1 as (l & Hl & Hb & Hp & Ec1).
    apply IH in E. destruct E as (lists & Hall & Ec).
    exists (upd lists i l). split.
    + intros j Hj. unfold upd. destruct (Z.eqb_spec j i) as [->|Hne].
      * split; [exact Hl|]. split; [exact Hb|exact Hp].
      * apply Hall. lia.
    + cbn [listed_from]. rewrite listed_from_upd by lia.
      unfold upd at 1. rewrite Z.eqb_refl. lia.
Qed.

(** X2: the checker is sound for what it audits: [mm_check] returns 1 only on
    a heap whose block walk from the prologue ends in an allocated block of
    size 0, whose blocks are aligned with header equal to footer and never
    two free in a row, whose free lists end in NULL with nodes in bounds,
    free and consistently back-linked, and whose two counts of free blocks
    agree. *)
Theorem mm_check_sound (fuel : nat) (h : heap) (r : Z) :
  mm_check fuel h = Some (Return r) ->
  r = 1 /\ exists bps stop lists, audits h bps stop lists.
Proof.
  unfold mm_check. fold (heap_start h). intros E.
  destruct (Z.eqb_spec (GET_SIZE h (HDRP (heap_start h))) DSIZE) as [Hps|];
    [|discriminate].
  cbn [negb orb] in E.
  destruct (Z.eqb_spec (GET_ALLOC h (HDRP (heap_start h))) 0) as [|Hpa];
    [discriminate|].
  destruct (check_heap fuel h (heap_start h) 0) as [[(stop, c1)|e]|] eqn:E1;
    try discriminate.
  apply check_heap_sound in E1. destruct E1 as (bps & Hw & Hb & Hc & Ec1).
  destruct (Z.eqb_spec (GET_SIZE h (HDRP stop)) 0) as [Hes|]; [|discriminate].
  cbn [negb orb] in E.
  destruct (Z.eqb_spec (GET_ALLOC h (HDRP stop)) 0) as [|Hea]; [discriminate|].
  destruct (check_lists (Z.to_nat LIST_LIMIT) fuel h 0 0) as [[c2|e]|] eqn:E2;
    try discriminate.
  apply check_lists_sound in E2. destruct E2 as (lists & Hall & Ec2).
  destruct (Z.eqb_spec c1 c2) as [Ecc|]; [|discriminate].
  cbn [negb] in E. inversion E; subst r. split; [reflexivity|].
  exists bps, stop, lists.
  assert (Hcl : forall j, In j classes -> 0 <= j < 0 + Z.of_nat (Z.to_nat LIST_LIMIT)).
  { intros j Hj. apply in_classes in Hj. unfold LIST_LIMIT in *. simpl. lia. }
  constructor; try assumption.
  - split; [exact Hps|exact Hpa].
  - rewrite Forall_forall. intros j Hj. apply (Hall j (Hcl j Hj)).
  - rewrite Forall_forall. intros j Hj. apply (Hall j (Hcl j Hj)).
  - rewrite Forall_forall. intros j Hj. apply (Hall j (Hcl j Hj)).
  - lia.
Qed.

Lemma block_starts_length (bl : list block) :
  forall bp, length (block_starts bp bl) = length bl.
Proof. induction bl as [|b bl IH]; intros bp; simpl; [|rewrite IH]; reflexivity. Qed.

Lemma mm_check_passes (fuel : nat) (h : heap) (bl : list block)
      (lists : lists_t) :
  heap_inv h bl lists ->
  no_adjacent_free bl ->
  mem_heap_lo h <= seg_list h ->
  (S (length bl) < fuel)%nat ->
  mm_check fuel h = Some (Return 1).
Proof.
  intros Hinv Hnaf Hlo Hf.
  apply (mm_check_of_audits fuel h _ _ lists (audits_of_inv h bl lists Hinv Hnaf Hlo)).
  - cbn [length]. rewrite length_map, block_starts_length. exact Hf.
  - intros j Hj. pose proof (list_length_bound h bl lists j Hinv Hj). lia.
Qed.

(** X3: the checker accepts every heap that satisfies the design's invariants:
    on a heap with well-formed blocks and lists, every free block listed,
    no two adjacent free blocks and the table inside the provider's
    range, [mm_check] returns 1 (the fuel covers the prologue, the blocks
    and the epilogue). *)
Theorem mm_check_accepts_well_formed (fuel : nat) (h : heap) (bl : list block)
        (lists : lists_t) :
  heap_inv h bl lists ->
  no_adjacent_free bl ->
  mem_heap_lo h <= seg_list h ->
  (S (length bl) < fuel)%nat ->
  mm_check fuel h = Some (Return 1).
Proof. apply mm_check_passes. Qed.

(** [check_heap] stops at the first free block whose follower is free. *)
Lemma check_heap_reports (h : heap) (s1 s2 : Z) (post : list block) :
  forall pre fuel bp count,
    (forall x b, In (x, b) (block_starts bp (pre ++ (s1, false) :: (s2, false) :: post)) ->
                 x mod 8 = 0 /\ GET h (HDRP x) = GET h (FTRP h x) /\
                 GET_SIZE h (HDRP x) = fst b /\ 0 < fst b /\
                 GET_ALLOC h (HDRP x) = (if snd b then 1 else 0)) ->
    no_adjacent_free (pre ++ [(s1, false)]) ->
    (length pre < fuel)%nat ->
    check_heap fuel h bp count = Some (Exit (NotCoalesced (bp + total pre))).
Proof.
  induction pre as [|(s, a) pre IH]; intros fuel bp count Hr Hnaf Hf;
    (destruct fuel as [|fuel]; [simpl in Hf; lia|]); cbn [check_heap].
  - destruct (Hr bp (s1, false) ltac:(left; reflexivity)) as (H8 & Hhf & Es & Hp & Ea).
    destruct (Hr (bp + s1) (s2, false) ltac:(right; left; reflexivity))
      as (_ & _ & _ & _ & Ea2).
    simpl in Es, Hp, Ea, Ea2.
    destruct (Z.gtb_spec (GET_SIZE h (HDRP bp)) 0); [|lia].
    unfold checkblock. rewrite H8, Hhf. simpl (0 =? 0). cbn [negb].
    rewrite Z.eqb_refl. cbn [negb].
    unfold NEXT_BLKP. unfold HDRP in Es. rewrite Es.
    rewrite Ea, Ea2. simpl. replace (bp + 0) with bp by lia. reflexivity.
  - destruct (Hr bp (s, a) ltac:(left; reflexivity)) as (H8 & Hhf & Es & Hp & Ea).
    simpl in Es, Hp, Ea.
    destruct (Z.gtb_spec (GET_SIZE h (HDRP bp)) 0); [|lia].
    unfold checkblock. rewrite H8, Hhf. simpl (0 =? 0). cbn [negb].
    rewrite Z.eqb_refl. cbn [negb].
    unfold NEXT_BLKP. pose proof Es as Es'. unfold HDRP in Es'. rewrite Es'.
    assert (Hnext : exists c, In (bp + s, c)
                     (block_starts bp (((s, a) :: pre) ++ (s1, false) :: (s2, false) :: post))
                     /\ ~ (a = false /\ snd c = false)).
    { simpl in Hnaf. destruct Hnaf as (Hn & _).
      destruct pre as [|c pre]; simpl in *.
      - exists (s1, false). split; [right; left; reflexivity|exact Hn].
      - exists c. split; [right; left; reflexivity|exact Hn]. }
    destruct Hnext as (c & Hc & Hnc).
    destruct (Hr _ _ Hc) as (_ & _ & _ & _ & Eac).
    assert (Eand : (GET_ALLOC h (HDRP bp) =? 0) &&
                   (GET_ALLOC h (HDRP (bp + s)) =? 0) = false).
    { rewrite Ea, Eac. destruct a; [reflexivity|].
      destruct (snd c) eqn:Ec; [reflexivity|]. exfalso. apply Hnc. tauto. }
    rewrite Eand.
    rewrite (IH fuel (bp + s)).
    + simpl. f_equal. f_equal. f_equal. lia.
    + intros x b Hx. apply Hr. right. exact Hx.
    + simpl in Hnaf. apply Hnaf.
    + simpl in Hf. lia.
Qed.

(** X4: the checker reports the first violation of immediate coalescing: when
    the blocks are well formed and the first two neighbours that are both
    free start at [bp], [mm_check] leaves through
    ["Contiguous free blocks not coalesced at bp"]. *)
Theorem mm_check_reports_uncoalesced (fuel : nat) (h : heap)
        (pre post : list block) (s1 s2 : Z) (lists : lists_t) :
  heap_pre h (pre ++ (s1, false) :: (s2, false) :: post) lists ->
  no_adjacent_free (pre ++ [(s1, false)]) ->
  (S (length pre) < fuel)%nat ->
  mm_check fuel h = Some (Exit (NotCoalesced (first_block h + total pre))).
Proof.
  intros Hpre Hnaf Hf.
  set (bl := pre ++ (s1, false) :: (s2, false) :: post) in *.
  destruct (pre_seg _ _ _ Hpre) as (Hsp & Hs8).
  destruct (pre_layout _ _ _ Hpre) as (Htag & _).
  pose proof (heap_start_eq h) as Ehs.
  cbn [block_starts] in Htag.
  inversion Htag as [|? ? (Hp1 & Hp2) _]; subst. simpl in Hp1, Hp2.
  assert (Vp : valid_size 8) by (split; [lia|reflexivity]).
  destruct (tag_decode h _ 8 1 Vp ltac:(right; reflexivity) Hp1) as (Eps & Epa).
  unfold mm_check. fold (heap_start h).
  rewrite Eps, Epa. simpl (8 =? DSIZE). simpl (1 =? 0). cbn [negb orb].
  rewrite (check_heap_reports h s1 s2 post ((8, true) :: pre) fuel (heap_start h) 0).
  - cbn [total fst]. unfold first_block, DSIZE. f_equal; f_equal; f_equal; lia.
  - intros x b [Hx|Hx].
    + inversion Hx; subst x b. simpl.
      split; [rewrite Ehs; rewrite Z.add_mod, Hs8 by lia; reflexivity|].
      unfold FTRP. rewrite Eps, Hp1, Epa.
      replace (heap_start h + 8 - DSIZE) with (heap_start h + DSIZE - DSIZE)
        by (unfold DSIZE; lia).
      rewrite Hp2. repeat split.
    + simpl fst in Hx.
      replace (heap_start h + 8) with (first_block h) in Hx
        by (unfold first_block, DSIZE; lia).
      destruct (pre_block _ _ _ Hpre _ _ Hx) as (T1 & T2 & B0 & _ & _ & _ & H8).
      destruct (pre_block_read _ _ _ Hpre _ _ Hx) as (Es & Ea & Ef & _).
      split; [exact H8|]. rewrite Ef. unfold HDRP, WSIZE.
      split; [congruence|]. split; [exact Es|]. split; [lia|exact Ea].
  - change (((8, true) :: pre) ++ [(s1, false)])
      with ((8, true) :: (pre ++ [(s1, false)])).
    cbn [no_adjacent_free]. split; [|exact Hnaf]. clear Hnaf.
    destruct pre; simpl; intros (F & _); discriminate.
  - cbn [length]. exact Hf.
Qed.

(** ** [mm_init] *)

(** The invariants read the lists only at the class indices. *)
Lemma heap_inv_ext (h : heap) (bl : list block) (lists lists' : lists_t) :
  heap_inv h bl lists ->
  (forall j, 0 <= j < LIST_LIMIT -> lists' j = lists j) ->
  heap_inv h bl lists'.
Proof.
  intros [[H1 H2 H3 H4 H5 H6] Hf] He. constructor; [constructor|]; try assumption.
  - rewrite Forall_forall in *. intros i Hi. rewrite He by (apply in_classes; exact Hi).
    apply H5. exact Hi.
  - rewrite Forall_forall in *. intros i Hi. rewrite He by (apply in_classes; exact Hi).
    apply H6. exact Hi.
  - unfold all_free_listed in *. rewrite Forall_forall in *.
    intros xb Hxb Hb. rewrite He by apply get_list_index_range.
    apply Hf; assumption.
Qed.

Lemma clear_seg_list_spec (n : nat) :
  forall h i,
    0 <= i ->
    same_provider h (clear_seg_list n h i) /\
    (forall j, i <= j < i + Z.of_nat n -> seg_get (clear_seg_list n h i) j = NULL) /\
    (forall a, a + 4 <= seg_slot h i \/ seg_slot h (i + Z.of_nat n) <= a ->
               GET (clear_seg_list n h i) a = GET h a).
Proof.
  induction n as [|n IH]; intros h i Hi; cbn [clear_seg_list].
  - split; [apply same_provider_refl|]. split; [intros j Hj; simpl in Hj; lia|].
    intros a _. reflexivity.
  - destruct (IH (seg_set h i NULL) (i + 1) ltac:(lia)) as (Hs & Hz & Ho).
    assert (Hs1 : same_provider h (seg_set h i NULL)) by (repeat split).
    assert (Esl : forall k, seg_slot (seg_set h i NULL) k = seg_slot h k)
      by reflexivity.
    split; [eapply same_provider_trans; eassumption|]. split.
    + intros j Hj. destruct (Z.eq_dec j i) as [->|Hne].
      * rewrite seg_get_eq.
        destruct Hs as (Es & _).
        replace (seg_slot (clear_seg_list n (seg_set h i NULL) (i + 1)) i)
          with (seg_slot h i) by (rewrite !seg_slot_eq, Es; reflexivity).
        rewrite Ho by (rewrite !Esl, !seg_slot_eq; lia).
        change (seg_set h i NULL) with (PUT h (seg_slot h i) NULL).
        rewrite GET_PUT_same. reflexivity.
      * apply Hz. lia.
    + intros a Ha. rewrite Ho by (rewrite !Esl, !seg_slot_eq in *; lia).
      change (seg_set h i NULL) with (PUT h (seg_slot h i) NULL).
      apply GET_PUT_other. rewrite !seg_slot_eq in *. lia.
Qed.

Lemma write_prologue_inv (h1 : heap) :
  0 < seg_list h1 -> seg_list h1 mod 8 = 0 ->
  mem_brk h1 = seg_list h1 + 96 -> mem_brk h1 < MINUS_ONE ->
  (forall j, 0 <= j < LIST_LIMIT -> seg_get h1 j = NULL) ->
  heap_inv (write_prologue h1) [] lists_none /\
  same_provider h1 (write_prologue h1).
Proof.
  intros Hpos H8 Eb Hmax Hz.
  unfold write_prologue.
  change (LIST_LIMIT * PTR_SIZE) with 80. unfold WSIZE.
  set (p := seg_list h1) in *.
  set (h5 := PUT _ _ _).
  assert (Hsame : same_provider h1 h5) by (unfold h5; repeat split).
  destruct Hsame as (E5 & Est5 & Eb5 & Em5). fold p in E5.
  split; [|repeat split; assumption].
  assert (Efb : first_block h5 = p + 96) by (rewrite first_block_eq, E5; lia).
  assert (Ehs : heap_start h5 = p + 88) by (rewrite heap_start_eq, E5; lia).
  constructor; [constructor|].
  - rewrite E5. split; assumption.
  - rewrite Efb, Eb5. simpl total. split; lia.
  - apply Forall_nil.
  - unfold layout. cbn [block_starts]. split.
    + apply Forall_cons; [|apply Forall_nil]. split; cbn [fst snd].
      * unfold HDRP, WSIZE. rewrite Ehs. unfold h5.
        rewrite !GET_PUT_other by lia.
        replace (p + 88 - 4) with (p + 80 + 1 * 4) by lia.
        rewrite GET_PUT_same. reflexivity.
      * rewrite Ehs. unfold DSIZE, h5. rewrite GET_PUT_other by lia.
        replace (p + 88 + 8 - 8) with (p + 80 + 2 * 4) by lia.
        rewrite GET_PUT_same. reflexivity.
    + unfold HDRP, WSIZE. rewrite Efb. simpl total. unfold h5.
      replace (p + 96 + 0 - 4) with (p + 80 + 3 * 4) by lia.
      rewrite GET_PUT_same. reflexivity.
  - rewrite Forall_forall. intros i Hi. apply in_classes in Hi.
    unfold lists_none. cbn [is_dll].
    rewrite seg_get_eq, seg_slot_eq, E5. unfold h5.
    unfold LIST_LIMIT in Hi.
    rewrite !GET_PUT_other by lia.
    specialize (Hz i Hi).
    rewrite seg_get_eq, seg_slot_eq in Hz. exact Hz.
  - rewrite Forall_forall. intros i _. apply Forall_nil.
  - apply Forall_nil.
Qed.

Lemma mm_init_empty_inv (h : heap) :
  0 < mem_brk h -> mem_brk h mod 8 = 0 ->
  mem_brk h + 96 <= mem_max_addr h -> mem_max_addr h < MINUS_ONE ->
  heap_inv (mm_init_empty h) [] lists_none /\
  seg_list (mm_init_empty h) = mem_brk h /\
  mem_brk (mm_init_empty h) = mem_brk h + 96 /\
  mem_max_addr (mm_init_empty h) = mem_max_addr h /\
  mem_start (mm_init_empty h) = mem_start h.
Proof.
  intros Hpos H8 Hroom Hmax. unfold MINUS_ONE in Hmax.
  unfold mm_init_empty.
  assert (E0 : snd (mem_sbrk h (LIST_LIMIT * PTR_SIZE + 4 * WSIZE)) =
               mkHeap (mem h) (seg_list h) (mem_start h) (mem_brk h + 96)
                      (mem_max_addr h)).
  { unfold mem_sbrk. change (LIST_LIMIT * PTR_SIZE + 4 * WSIZE) with 96.
    destruct (Z.leb_spec (mem_brk h + 96) (mem_max_addr h)); [reflexivity|lia]. }
  rewrite E0. clear E0.
  set (h0 := set_seg_list _ _).
  destruct (clear_seg_list_spec (Z.to_nat LIST_LIMIT) h0 0 ltac:(lia))
    as ((Es & Est & Eb & Em) & Hz & _).
  remember (clear_seg_list (Z.to_nat LIST_LIMIT) h0 0) as h1 eqn:Eh1.
  clear Eh1.
  assert (Es0 : seg_list h0 = mem_brk h) by reflexivity.
  assert (Eb0 : mem_brk h0 = mem_brk h + 96) by reflexivity.
  assert (Em0 : mem_max_addr h0 = mem_max_addr h) by reflexivity.
  assert (Est0 : mem_start h0 = mem_start h) by reflexivity.
  destruct (write_prologue_inv h1) as (Hinv & (E5 & Est5 & Eb5 & Em5));
    try (unfold MINUS_ONE; lia).
  - rewrite Es, Es0. exact H8.
  - intros j Hj. apply Hz. unfold LIST_LIMIT in *. simpl. lia.
  - split; [exact Hinv|]. repeat split; congruence.
Qed.

Lemma mm_init_eq (h : heap) :
  mem_brk h + 96 <= mem_max_addr h -> mem_brk h <> MINUS_ONE ->
  mm_init h =
  let (bp, h') := extend_heap (mm_init_empty h) (CHUNKSIZE / WSIZE) in
  if bp =? NULL then (-1, h') else (0, h').
Proof.
  intros Hroom Hm. unfold mm_init, mm_init_empty, mem_sbrk.
  change (LIST_LIMIT * PTR_SIZE + 4 * WSIZE) with 96.
  destruct (Z.leb_spec (mem_brk h + 96) (mem_max_addr h)); [|lia].
  destruct (Z.eqb_spec (mem_brk h) MINUS_ONE); [contradiction|]. reflexivity.
Qed.

Lemma mm_init_step (h : heap) :
  0 < mem_brk h -> mem_brk h mod 8 = 0 ->
  mem_brk h + 96 + 4096 <= mem_max_addr h -> mem_max_addr h < MINUS_ONE ->
  let h' := snd (mm_init h) in
  fst (mm_init h) = 0 /\
  seg_list h' = mem_brk h /\
  mem_brk h' = mem_brk h + 96 + 4096 /\
  heap_inv h' [(4096, false)]
           (fun i => if i =? 18 then [mem_brk h + 96] else []) /\
  mem_start h' = mem_start h /\ mem_max_addr h' = mem_max_addr h.
Proof.
  intros Hpos H8 Hroom Hmax h'. subst h'.
  rewrite mm_init_eq by (unfold MINUS_ONE in *; lia).
  destruct (mm_init_empty_inv h Hpos H8 ltac:(lia) Hmax)
    as (Hinv & Es & Eb & Em & Est).
  destruct (extend_heap_inv_frame (mm_init_empty h) [] lists_none
                                  (CHUNKSIZE / WSIZE) Hinv)
    as (E1 & Hinv1 & Esl & Ebrk & Emax1 & Est1 & _).
  - vm_compute. discriminate.
  - vm_compute. reflexivity.
  - vm_compute. discriminate.
  - rewrite Eb, Em. change (extend_size (CHUNKSIZE / WSIZE)) with 4096. lia.
  - rewrite Em. exact Hmax.
  - destruct (extend_heap (mm_init_empty h) (CHUNKSIZE / WSIZE)) as (bp, h1).
    cbn [fst snd] in *.
    change (extend_size (CHUNKSIZE / WSIZE)) with 4096 in *.
    rewrite Eb in E1, Ebrk, Hinv1.
    assert (Ebp : bp = mem_brk h + 96).
    { rewrite E1. unfold coalesced_start, absorb, prev_block. simpl. lia. }
    destruct (Z.eqb_spec bp NULL) as [F|_]; [unfold NULL in F; lia|].
    cbn [fst snd].
    split; [reflexivity|]. split; [congruence|]. split; [lia|].
    split; [|split; congruence].
    apply (heap_inv_ext _ _ _ _ Hinv1).
    intros j Hj. unfold coalesced_lists, coalesced_start, coalesced_size, absorb.
    cbn [prev_block next_block last hd prologue epilogue snd fst].
    unfold enlist, upd, lists_none.
    change (get_list_index (0 + 4096 + 0)) with 18.
    destruct (j =? 18); [|reflexivity]. f_equal. lia.
Qed.

(** X5: on a provider that has room for the table, the prologue, the epilogue
    and one chunk, [mm_init] returns 0, takes exactly [96 + 4096] bytes
    and leaves a well-formed heap: the table at the old break and one free
    block of 4096 bytes, the only node of list 18. *)
Theorem mm_init_establishes (h : heap) :
  0 < mem_brk h -> mem_brk h mod 8 = 0 ->
  mem_brk h + 96 + 4096 <= mem_max_addr h -> mem_max_addr h < MINUS_ONE ->
  let h' := snd (mm_init h) in
  fst (mm_init h) = 0 /\
  seg_list h' = mem_brk h /\
  mem_brk h' = mem_brk h + 96 + 4096 /\
  heap_inv h' [(4096, false)]
           (fun i => if i =? 18 then [mem_brk h + 96] else []) /\
  no_adjacent_free [(4096, false)].
Proof.
  intros Hpos H8 Hroom Hmax h'.
  destruct (mm_init_step h Hpos H8 Hroom Hmax) as (A & B & C & D & _).
  split; [exact A|]. split; [exact B|]. split; [exact C|].
  split; [exact D|simpl; tauto].
Qed.

(** X6: [mm_init] fails with -1 when the provider refuses the 96 bytes of the
    table, prologue and epilogue (only [seg_list] has changed: it holds
    [(void* )-1]) and when it grants them but refuses the first chunk (the
    96 bytes stay taken). *)
Theorem mm_init_fails (h : heap) :
  (mem_max_addr h < mem_brk h + 96 ->
   mm_init h = (-1, set_seg_list h MINUS_ONE)) /\
  (0 < mem_brk h -> mem_brk h mod 8 = 0 ->
   mem_brk h + 96 <= mem_max_addr h -> mem_max_addr h < mem_brk h + 96 + 4096 ->
   mem_max_addr h < MINUS_ONE ->
   fst (mm_init h) = -1 /\
   mem_brk (snd (mm_init h)) = mem_brk h + 96 /\
   heap_inv (snd (mm_init h)) [] lists_none).
Proof.
  split.
  - intros Hfull. unfold mm_init, mem_sbrk.
    change (LIST_LIMIT * PTR_SIZE + 4 * WSIZE) with 96.
    destruct (Z.leb_spec (mem_brk h + 96) (mem_max_addr h)); [lia|].
    rewrite Z.eqb_refl. reflexivity.
  - intros Hpos H8 Hroom Hfull Hmax.
    rewrite mm_init_eq by (unfold MINUS_ONE in *; lia).
    destruct (mm_init_empty_inv h Hpos H8 Hroom Hmax) as (Hinv & Es & Eb & Em & _).
    rewrite extend_heap_fails.
    + change (NULL =? NULL) with true. cbn [fst snd].
      split; [reflexivity|]. split; [exact Eb|exact Hinv].
    + vm_compute. discriminate.
    + vm_compute. reflexivity.
    + rewrite Eb, Em. change (extend_size (CHUNKSIZE / WSIZE)) with 4096. lia.
Qed.

(** ** Allocated blocks across the operations *)

Lemma live_of_block (bp : Z) (bl : list block) (y t a : Z) :
  In (y, (t, true)) (block_starts bp bl) -> y <= a < y + t - DSIZE ->
  live bp bl a.
Proof. intros H1 H2. exists y, t. split; assumption. Qed.

Lemma live_mono (bp : Z) (bl bl' : list block) (a : Z) :
  (forall y t, In (y, (t, true)) (block_starts bp bl) ->
               In (y, (t, true)) (block_starts bp bl')) ->
  live bp bl a -> live bp bl' a.
Proof. intros H (y & t & Hy & Ha). exists y, t. split; [apply H; exact Hy|exact Ha]. Qed.

Lemma total_placed (csize asize : Z) : total (placed csize asize) = csize.
Proof. unfold placed. destruct (16 <=? csize - asize); simpl; lia. Qed.

(** Coalescing keeps every allocated block other than the one at the
    coalescing point. *)
Lemma coalesced_keeps_allocated (bp : Z) (pre post : list block) (s : Z)
      (a : bool) (y t : Z) :
  In (y, (t, true)) (block_starts bp (pre ++ (s, a) :: post)) ->
  y <> bp + total pre ->
  In (y, (t, true)) (block_starts bp (coalesced_blocks pre s post)).
Proof.
  intros Hin Hne.
  assert (Hswap : forall pre' mp mn post' sz,
            pre = pre' ++ mp -> post = mn ++ post' ->
            (forall c, In c mp -> snd c = false) ->
            (forall c, In c mn -> snd c = false) ->
            sz = total mp + s + total mn ->
            In (y, (t, true))
               (block_starts bp (pre' ++ (sz, false) :: post'))).
  { intros pre' mp mn post' sz Ep Eq Hmp Hmn ->.
    apply (in_block_starts_swap bp pre' (mp ++ (s, a) :: mn)
                                [(total mp + s + total mn, false)]).
    - rewrite total_app. simpl. lia.
    - rewrite Ep, Eq, <- !app_assoc in Hin. simpl in Hin.
      rewrite <- app_assoc. simpl. exact Hin.
    - rewrite block_starts_app. intros F. apply in_app_or in F.
      destruct F as [F|F].
      + apply in_block_starts_In in F. apply Hmp in F. discriminate.
      + simpl in F. destruct F as [F|F].
        * inversion F. subst. rewrite total_app in Hne. lia.
        * apply in_block_starts_In in F. apply Hmn in F. discriminate. }
  destruct (coalesced_blocks_cases pre post s) as (C1 & C2 & C3 & C4).
  destruct (snd (prev_block pre)) eqn:Ep; destruct (snd (next_block post)) eqn:En.
  - rewrite (C1 eq_refl eq_refl).
    apply (Hswap pre [] [] post).
    + symmetry. apply app_nil_r.
    + reflexivity.
    + intros c [].
    + intros c [].
    + simpl. lia.
  - rewrite (C2 eq_refl eq_refl).
    apply (Hswap pre [] [next_block post] (tl post)).
    + symmetry. apply app_nil_r.
    + apply next_block_free_split. exact En.
    + intros c [].
    + intros c [<-|[]]. exact En.
    + simpl. lia.
  - rewrite (C3 eq_refl eq_refl).
    apply (Hswap (removelast pre) [prev_block pre] [] post).
    + apply prev_block_free_split. exact Ep.
    + reflexivity.
    + intros c [<-|[]]. exact Ep.
    + intros c [].
    + simpl. lia.
  - rewrite (C4 eq_refl eq_refl).
    apply (Hswap (removelast pre) [prev_block pre] [next_block post] (tl post)).
    + apply prev_block_free_split. exact Ep.
    + apply next_block_free_split. exact En.
    + intros c [<-|[]]. exact Ep.
    + intros c [<-|[]]. exact En.
    + simpl. lia.
Qed.

Lemma placed_no_adjacent_free (pre post : list block) (csize asize : Z) :
  no_adjacent_free (pre ++ (csize, false) :: post) ->
  no_adjacent_free (pre ++ placed csize asize ++ post).
Proof.
  intros H. apply no_adjacent_free_app in H. destruct H as (H1 & H2 & H3).
  simpl in H2. destruct H2 as (H2 & H4).
  apply no_adjacent_free_app. split; [exact H1|].
  unfold placed. destruct (16 <=? csize - asize); simpl.
  - split; [|intros (_ & F); discriminate].
    split; [intros (F & _); discriminate|]. split; [|exact H4].
    destruct post as [|c post]; [exact I|]. intros (_ & F). apply H2.
    split; [reflexivity|exact F].
  - split; [|intros (_ & F); discriminate].
    split; [|exact H4]. destruct post as [|c post]; [exact I|].
    intros (F & _). discriminate.
Qed.

(** An allocated block of the coalesced layout was an allocated block
    before, and not the one at the coalescing point. *)
Lemma coalesced_allocated_was (bp : Z) (pre post : list block) (s : Z)
      (a : bool) (y t : Z) :
  sizes_ok (pre ++ (s, a) :: post) ->
  In (y, (t, true)) (block_starts bp (coalesced_blocks pre s post)) ->
  In (y, (t, true)) (block_starts bp (pre ++ (s, a) :: post)) /\
  y <> bp + total pre.
Proof.
  intros Hso Hin.
  assert (Hswap : forall pre' mp mn post' sz,
            pre = pre' ++ mp -> post = mn ++ post' ->
            sz = total mp + s + total mn ->
            coalesced_blocks pre s post = pre' ++ (sz, false) :: post' ->
            In (y, (t, true)) (block_starts bp (pre ++ (s, a) :: post)) /\
            y <> bp + total pre).
  { intros pre' mp mn post' sz Ep Eq Esz Ec. rewrite Ec in Hin.
    assert (Hl : pre ++ (s, a) :: post = pre' ++ (mp ++ (s, a) :: mn) ++ post').
    { rewrite Ep, Eq, <- !app_assoc. simpl. reflexivity. }
    rewrite Hl in Hso.
    apply sizes_ok_app in Hso. destruct Hso as (Hs1 & Hs2).
    apply sizes_ok_app in Hs2. destruct Hs2 as (Hs2 & Hs3).
    apply sizes_ok_app in Hs2. destruct Hs2 as (Hmp & Hs2).
    pose proof (Forall_inv Hs2) as (Hs16 & _). simpl in Hs16.
    pose proof (Forall_inv_tail Hs2) as Hmn.
    pose proof (total_nonneg _ Hmp). pose proof (total_nonneg _ Hmn).
    split.
    - rewrite Hl.
      apply (in_block_starts_swap bp pre' [(sz, false)] (mp ++ (s, a) :: mn) post').
      + rewrite total_app. simpl. lia.
      + exact Hin.
      + simpl. intros [F|[]]. inversion F.
    - rewrite block_starts_app in Hin. apply in_app_or in Hin.
      rewrite Ep, total_app.
      destruct Hin as [Hy|Hy].
      + pose proof (in_block_starts_bounds _ Hs1 _ _ _ Hy).
        pose proof (in_block_starts_sizes _ _ _ _ Hs1 Hy). simpl in *. lia.
      + simpl in Hy. destruct Hy as [Hy|Hy]; [inversion Hy|].
        pose proof (in_block_starts_bounds _ Hs3 _ _ _ Hy). lia. }
  destruct (coalesced_blocks_cases pre post s) as (C1 & C2 & C3 & C4).
  destruct (snd (prev_block pre)) eqn:Ep; destruct (snd (next_block post)) eqn:En.
  - apply (Hswap pre [] [] post s).
    + symmetry. apply app_nil_r.
    + reflexivity.
    + simpl. lia.
    + apply (C1 eq_refl eq_refl).
  - apply (Hswap pre [] [next_block post] (tl post) (s + fst (next_block post))).
    + symmetry. apply app_nil_r.
    + apply next_block_free_split. exact En.
    + simpl. lia.
    + apply (C2 eq_refl eq_refl).
  - apply (Hswap (removelast pre) [prev_block pre] [] post (fst (prev_block pre) + s)).
    + apply prev_block_free_split. exact Ep.
    + reflexivity.
    + simpl. lia.
    + apply (C3 eq_refl eq_refl).
  - apply (Hswap (removelast pre) [prev_block pre] [next_block post] (tl post)
                 (fst (prev_block pre) + s + fst (next_block post))).
    + apply prev_block_free_split. exact Ep.
    + apply next_block_free_split. exact En.
    + simpl. lia.
    + apply (C4 eq_refl eq_refl).
Qed.

Lemma placed_allocated_was (bp : Z) (pre post : list block) (csize asize : Z)
      (y t : Z) :
  In (y, (t, true)) (block_starts bp (pre ++ placed csize asize ++ post)) ->
  y = bp + total pre \/
  In (y, (t, true)) (block_starts bp (pre ++ (csize, false) :: post)).
Proof.
  intros Hin.
  destruct (Z.eq_dec y (bp + total pre)) as [E|Hne]; [left; exact E|right].
  apply (in_block_starts_swap bp pre (placed csize asize) [(csize, false)] post).
  - rewrite total_placed. simpl. lia.
  - exact Hin.
  - unfold placed. destruct (16 <=? csize - asize); simpl.
    + intros [F|[F|[]]]; [injection F as F1 _; lia|discriminate F].
    + intros [F|[]]. injection F as F1 _. lia.
Qed.

(** [place], both branches at once. *)
Lemma place_step (h : heap) (pre post : list block) (lists : lists_t)
      (csize asize : Z) :
  heap_inv h (pre ++ (csize, false) :: post) lists ->
  asize mod 8 = 0 -> 16 <= asize <= csize ->
  let bp := first_block h + total pre in
  let h' := place h bp asize in
  let bl' := pre ++ placed csize asize ++ post in
  heap_inv h' bl' (placed_lists lists bp csize asize) /\
  same_provider h h' /\
  (forall a, live (first_block h) (pre ++ (csize, false) :: post) a ->
             mem h' a = mem h a) /\
  (forall y t, In (y, (t, true))
                  (block_starts (first_block h) (pre ++ (csize, false) :: post)) ->
               In (y, (t, true)) (block_starts (first_block h) bl') /\ y <> bp) /\
  (exists s, In (bp, (s, true)) (block_starts (first_block h) bl') /\ asize <= s).
Proof.
  intros Hinv Ha8 Ha bp h' bl'.
  destruct (place_inv_frame h pre post lists csize asize Hinv Ha8 Ha)
    as (Hsame & Hsplit & Hwhole).
  fold bp in Hsame, Hsplit, Hwhole. fold h' in Hsame, Hsplit, Hwhole.
  destruct Hinv as [Hpre _].
  assert (Hkeep : forall y t,
             In (y, (t, true))
                (block_starts (first_block h) (pre ++ (csize, false) :: post)) ->
             In (y, (t, true)) (block_starts (first_block h) bl') /\ y <> bp).
  { intros y t Hy. split.
    - apply (in_block_starts_swap _ pre [(csize, false)]).
      + rewrite total_placed. simpl. lia.
      + exact Hy.
      + simpl. intros [F|[]]. inversion F.
    - intros ->.
      pose proof (in_block_starts_middle (first_block h) pre post (csize, false)) as Hm.
      fold bp in Hm.
      pose proof (pre_block_unique _ _ _ Hpre _ _ _ Hy Hm) as E. discriminate. }
  unfold bl', placed_lists, placed in *.
  destruct (Z.leb_spec 16 (csize - asize)) as [Hc|Hc].
  - destruct (Hsplit Hc) as (Hi & Hk).
    split; [exact Hi|]. split; [exact Hsame|]. split; [exact Hk|].
    split; [exact Hkeep|].
    exists asize. split; [|lia].
    change (pre ++ [(asize, true); (csize - asize, false)] ++ post)
      with (pre ++ (asize, true) :: (csize - asize, false) :: post).
    apply in_block_starts_middle.
  - destruct (Hwhole Hc) as (Hi & Hk).
    split; [exact Hi|]. split; [exact Hsame|]. split; [exact Hk|].
    split; [exact Hkeep|].
    exists csize. split; [|lia].
    change (pre ++ [(csize, true)] ++ post) with (pre ++ (csize, true) :: post).
    apply in_block_starts_middle.
Qed.

(** [extend_heap] by [e] bytes, with the last block it merges into. *)
Lemma extend_step (h : heap) (bl : list block) (lists : lists_t) (e : Z) :
  heap_inv h bl lists ->
  16 <= e -> e mod 8 = 0 -> e + 4 < 4294967296 ->
  mem_brk h + e <= mem_max_addr h ->
  mem_max_addr h < MINUS_ONE ->
  let pre1 := if snd (prev_block bl) then bl else removelast bl in
  let cs := coalesced_size bl e [] in
  let h1 := snd (extend_heap h (e / WSIZE)) in
  fst (extend_heap h (e / WSIZE)) = first_block h + total pre1 /\
  heap_inv h1 (pre1 ++ [(cs, false)])
           (coalesced_lists lists (mem_brk h) bl e []) /\
  e <= cs /\
  (seg_list h1 = seg_list h /\ mem_start h1 = mem_start h /\
   mem_brk h1 = mem_brk h + e /\ mem_max_addr h1 = mem_max_addr h) /\
  (forall a, live (first_block h) bl a -> mem h1 a = mem h a) /\
  (forall y t, In (y, (t, true)) (block_starts (first_block h) bl) ->
               In (y, (t, true))
                  (block_starts (first_block h) (pre1 ++ [(cs, false)]))) /\
  (no_adjacent_free bl -> no_adjacent_free (pre1 ++ [(cs, false)])).
Proof.
  intros Hinv He16 He8 Hb Hroom Hmax pre1 cs h1.
  assert (Ees : extend_size (e / WSIZE) = e)
    by (apply extend_size_even; [lia|exact He8]).
  assert (Hw0 : 0 <= e / WSIZE) by (apply Z.div_pos; unfold WSIZE; lia).
  assert (Hw1 : 4 * (e / WSIZE + 1) < 4294967296).
  { unfold WSIZE. pose proof (Z.div_mod e 4 ltac:(lia)).
    pose proof (Z.mod_pos_bound e 4 ltac:(lia)). lia. }
  destruct (extend_heap_inv_frame h bl lists (e / WSIZE) Hinv Hw0 Hw1)
    as (E1 & Hinv1 & Esl & Ebrk & Emax & Est & Hk);
    try (rewrite Ees; lia); try assumption.
  rewrite Ees in *. fold h1 in Hinv1, Esl, Ebrk, Emax, Est, Hk.
  pose proof Hinv as [Hpre _].
  pose proof (pre_sizes _ _ _ Hpre) as Hso.
  assert (Ebp : mem_brk h = first_block h + total bl).
  { destruct (pre_brk _ _ _ Hpre) as (E & _). symmetry. exact E. }
  split; [rewrite E1, Ebp; apply coalesced_start_total|].
  split; [exact Hinv1|].
  split.
  { unfold cs, coalesced_size, absorb. simpl.
    pose proof (prev_block_size bl Hso). destruct (snd (prev_block bl)); lia. }
  split; [repeat split; assumption|].
  split; [exact Hk|].
  split.
  - intros y t Hy.
    change (pre1 ++ [(cs, false)]) with (coalesced_blocks bl e []).
    apply (coalesced_keeps_allocated _ bl [] e false).
    + rewrite block_starts_app. apply in_or_app. left. exact Hy.
    + pose proof (in_block_starts_bounds _ Hso _ _ _ Hy).
      pose proof (in_block_starts_sizes _ _ _ _ Hso Hy). simpl in *. lia.
  - intros Hn. change (pre1 ++ [(cs, false)]) with (coalesced_blocks bl e []).
    apply coalesced_no_adjacent_free; [exact Hn|exact I].
Qed.

(** [mm_malloc] on a well-formed heap, case by case. *)
Lemma mm_malloc_cases (fuel : nat) (h : heap) (bl : list block)
      (lists : lists_t) (size : Z) :
  heap_inv h bl lists ->
  mem_max_addr h < MINUS_ONE ->
  0 <= size <= SIZE_MAX - 15 ->
  (forall j, 0 <= j < LIST_LIMIT -> (length (lists j) < fuel)%nat) ->
  let asize := adjust_size size in
  let fb := first_block h in
  exists p h' bl' lists',
    mm_malloc fuel h size = Some (p, h') /\
    heap_inv h' bl' lists' /\
    (seg_list h' = seg_list h /\ mem_start h' = mem_start h /\
     mem_max_addr h' = mem_max_addr h) /\
    (forall a, live fb bl a -> mem h' a = mem h a) /\
    (forall y t, In (y, (t, true)) (block_starts fb bl) ->
                 In (y, (t, true)) (block_starts fb bl') /\ (p <> NULL -> y <> p)) /\
    (forall y t, In (y, (t, true)) (block_starts fb bl') ->
                 y = p \/ In (y, (t, true)) (block_starts fb bl)) /\
    (no_adjacent_free bl -> no_adjacent_free bl') /\
    ((p = NULL /\ h' = h /\ bl' = bl /\ lists' = lists /\
      (size = 0 \/
       (no_fit h bl asize /\ mem_max_addr h < mem_brk h + Z.max asize 4096)))
     \/
     (p <> NULL /\ size <> 0 /\
      (exists s, In (p, (s, true)) (block_starts fb bl') /\ asize <= s) /\
      ((exists pre cs post,
           bl = pre ++ (cs, false) :: post /\ p = fb + total pre /\
           asize <= cs /\ h' = place h p asize /\
           bl' = pre ++ placed cs asize ++ post /\
           lists' = placed_lists lists p cs asize /\
           mem_brk h' = mem_brk h)
       \/
       (no_fit h bl asize /\ mem_brk h' = mem_brk h + Z.max asize 4096 /\
        mem_brk h + Z.max asize 4096 <= mem_max_addr h)))).
Proof.
  intros Hinv Hmax Hsize Hfuel asize fb. subst fb.
  unfold mm_malloc.
  destruct (Z.eqb_spec size 0) as [E0|N0].
  { exists NULL, h, bl, lists. split; [reflexivity|]. split; [exact Hinv|].
    split; [repeat split|]. split; [reflexivity|].
    split; [intros y t Hy; split; [exact Hy|intros F; contradiction]|].
    split; [intros y t Hy; right; exact Hy|].
    split; [exact (fun H => H)|].
    left. repeat split. left. exact E0. }
  destruct (adjust_size_bounds size Hsize) as (Ha16 & Hasz).
  destruct (adjust_size_valid size) as (Har & Ha8).
  fold asize in Ha16, Hasz, Har, Ha8. fold asize.
  pose proof Hinv as [Hpre Hfree].
  assert (Hidx := get_list_index_range asize).
  destruct (find_fit_from_spec fuel h asize lists ltac:(lia)
              (Z.to_nat (LIST_LIMIT - get_list_index asize))
              (get_list_index asize)) as (r & Er & Hr).
  { lia. }
  { intros j Hj. apply (pre_lists_terminate h bl lists j Hpre). lia. }
  { intros j Hj. apply Hfuel. lia. }
  fold (find_fit fuel h asize) in Er. rewrite Er.
  destruct Hr as [(-> & Hnone)|(Hrn & c & Hc & _ & (Hrin & Hrsz & _) & _)].
  - (* no fit: the heap is extended *)
    assert (Hnf : no_fit h bl asize).
    { intros x s Hx. destruct (Z_lt_ge_dec s asize) as [Hlt|Hge]; [exact Hlt|].
      exfalso.
      pose proof (get_list_index_range s) as Hsi.
      pose proof (get_list_index_mono asize s ltac:(lia)) as Hmono.
      apply (Hnone (get_list_index s) ltac:(lia)).
      exists x. split.
      - unfold all_free_listed in Hfree. rewrite Forall_forall in Hfree.
        apply (Hfree (x, (s, false)) Hx). reflexivity.
      - destruct (pre_block_read _ _ _ Hpre _ _ Hx) as (Es & _).
        unfold block_size. rewrite Es. simpl. lia. }
    change (negb (NULL =? NULL)) with false. cbv iota.
    rewrite MAX_spec. change CHUNKSIZE with 4096.
    set (e := Z.max asize 4096).
    assert (He8 : e mod 8 = 0).
    { unfold e. destruct (Z.max_spec asize 4096) as [(_ & ->)|(_ & ->)];
        [reflexivity|exact Ha8]. }
    destruct (Z_le_gt_dec (mem_brk h + e) (mem_max_addr h)) as [Hroom|Hfull].
    + destruct (extend_step h bl lists e Hinv ltac:(lia) He8 ltac:(lia) Hroom Hmax)
        as (E1 & Hinv1 & Hcs & (Esl & Est & Ebrk & Emax) & Hk1 & Hkeep1 & Hnaf1).
      set (pre1 := if snd (prev_block bl) then bl else removelast bl) in *.
      set (cs := coalesced_size bl e []) in *.
      set (lists1 := coalesced_lists lists (mem_brk h) bl e []) in *.
      destruct (extend_heap h (e / WSIZE)) as (bp1, h1) eqn:Ee.
      cbn [fst snd] in *.
      assert (Efb1 : first_block h1 = first_block h)
        by (unfold first_block, heap_start; rewrite Esl; reflexivity).
      rewrite <- Efb1 in E1.
      change (pre1 ++ [(cs, false)]) with (pre1 ++ (cs, false) :: []) in Hinv1.
      destruct (place_step h1 pre1 [] lists1 cs asize Hinv1 Ha8 ltac:(lia))
        as (Hinv2 & Hsame2 & Hk2 & Hkeep2 & Hnew).
      rewrite <- E1 in Hinv2, Hsame2, Hk2, Hkeep2, Hnew.
      rewrite Efb1 in Hk2, Hkeep2, Hnew.
      assert (Hbp1 : bp1 <> NULL).
      { pose proof (first_block_eq h1). pose proof (pre_seg _ _ _ Hpre) as (Q & _).
        rewrite <- Esl in Q.
        assert (0 <= total pre1).
        { destruct Hinv1 as [Hp1 _]. pose proof (pre_sizes _ _ _ Hp1) as Hso.
          apply sizes_ok_app in Hso. apply total_nonneg. apply Hso. }
        unfold NULL. lia. }
      destruct (Z.eqb_spec bp1 NULL) as [F|_]; [contradiction|].
      destruct Hsame2 as (S1 & S2 & S3 & S4).
      exists bp1, (place h1 bp1 asize), (pre1 ++ placed cs asize ++ []),
        (placed_lists lists1 bp1 cs asize).
      split; [reflexivity|]. split; [exact Hinv2|].
      split; [repeat split; congruence|].
      split.
      { intros a Hl. rewrite Hk2; [apply Hk1; exact Hl|].
        apply (live_mono (first_block h) bl); [exact Hkeep1|exact Hl]. }
      split.
      { intros y t Hy. destruct (Hkeep2 y t (Hkeep1 y t Hy)) as (K1 & K2).
        split; [exact K1|intros _; exact K2]. }
      split.
      { intros y t Hy. apply placed_allocated_was in Hy.
        destruct Hy as [Hy|Hy]; [left; rewrite E1, Efb1; exact Hy|right].
        change (pre1 ++ (cs, false) :: []) with (coalesced_blocks bl e []) in Hy.
        apply (coalesced_allocated_was _ bl [] e false) in Hy.
        - destruct Hy as (Hy & _). rewrite block_starts_app in Hy.
          apply in_app_or in Hy. destruct Hy as [Hy|[Hy|[]]]; [exact Hy|].
          discriminate Hy.
        - apply sizes_ok_app. split; [exact (pre_sizes _ _ _ Hpre)|].
          apply Forall_cons; [|apply Forall_nil]. simpl. split; [lia|exact He8]. }
      split.
      { intros Hn. apply placed_no_adjacent_free. apply Hnaf1. exact Hn. }
      right. split; [exact Hbp1|]. split; [exact N0|]. split; [exact Hnew|].
      right. split; [exact Hnf|]. split; [lia | exact Hroom].
    + rewrite extend_heap_fails.
      * change (NULL =? NULL) with true. cbv iota.
        exists NULL, h, bl, lists. split; [reflexivity|]. split; [exact Hinv|].
        split; [repeat split|]. split; [reflexivity|].
        split; [intros y t Hy; split; [exact Hy|intros F; contradiction]|].
        split; [intros y t Hy; right; exact Hy|].
        split; [exact (fun H => H)|].
        left. repeat split. right. split; [exact Hnf|]. fold e. lia.
      * apply Z.div_pos; unfold WSIZE; lia.
      * unfold WSIZE. pose proof (Z.div_mod e 4 ltac:(lia)).
        pose proof (Z.mod_pos_bound e 4 ltac:(lia)). lia.
      * rewrite extend_size_even by (lia || exact He8). lia.
  - (* a fit: it is placed *)
    destruct (Z.eqb_spec r NULL) as [F|_]; [contradiction|]. cbn [negb].
    assert (Hcr : 0 <= c < LIST_LIMIT) by lia.
    destruct (pre_listed_at _ _ _ Hpre c r Hcr Hrin) as (cs & Hin & _).
    destruct (pre_block_read _ _ _ Hpre _ _ Hin) as (Ecs & _). simpl in Ecs.
    unfold block_size in Hrsz. rewrite Ecs in Hrsz.
    destruct (in_block_starts_split _ _ _ _ Hin) as (pre & post & Ebl & Ebp).
    subst bl.
    destruct (place_step h pre post lists cs asize Hinv Ha8 ltac:(lia))
      as (Hinv2 & Hsame2 & Hk2 & Hkeep2 & Hnew).
    rewrite <- Ebp in Hinv2, Hsame2, Hk2, Hkeep2, Hnew.
    destruct Hsame2 as (S1 & S2 & S3 & S4).
    exists r, (place h r asize), (pre ++ placed cs asize ++ post),
      (placed_lists lists r cs asize).
    split; [reflexivity|]. split; [exact Hinv2|].
    split; [repeat split; assumption|].
    split; [exact Hk2|].
    split.
    { intros y t Hy. destruct (Hkeep2 y t Hy) as (K1 & K2).
      split; [exact K1|intros _; exact K2]. }
    split.
    { intros y t Hy. apply placed_allocated_was in Hy.
      destruct Hy as [Hy|Hy]; [left; rewrite Ebp; exact Hy|right; exact Hy]. }
    split.
    { intros Hn. apply placed_no_adjacent_free. exact Hn. }
    right. split; [exact Hrn|]. split; [exact N0|]. split; [exact Hnew|].
    left. exists pre, cs, post. repeat split; try assumption.
Qed.

(** [mm_malloc] returns, and it returns null only for 0 bytes or when no
    free block fits and the break may not move far enough. *)
Lemma mm_malloc_total (fuel : nat) (h : heap) (bl : list block)
      (lists : lists_t) (size : Z) :
  heap_inv h bl lists ->
  mem_max_addr h < MINUS_ONE ->
  0 <= size <= SIZE_MAX - 15 ->
  (forall j, 0 <= j < LIST_LIMIT -> (length (lists j) < fuel)%nat) ->
  exists p h', mm_malloc fuel h size = Some (p, h').
Proof.
  intros Hinv Hmax Hsize Hfuel.
  destruct (mm_malloc_cases fuel h bl lists size Hinv Hmax Hsize Hfuel)
    as (p & h' & _ & _ & Em & _).
  exists p, h'. exact Em.
Qed.

Lemma mm_malloc_null_iff (fuel : nat) (h : heap) (bl : list block)
      (lists : lists_t) (size p : Z) (h' : heap) :
  heap_inv h bl lists ->
  mem_max_addr h < MINUS_ONE ->
  0 <= size <= SIZE_MAX - 15 ->
  (forall j, 0 <= j < LIST_LIMIT -> (length (lists j) < fuel)%nat) ->
  mm_malloc fuel h size = Some (p, h') ->
  (p = NULL <->
   size = 0 \/
   (no_fit h bl (adjust_size size) /\
    mem_max_addr h < mem_brk h + Z.max (adjust_size size) CHUNKSIZE)).
Proof.
  intros Hinv Hmax Hsize Hfuel Em.
  destruct (mm_malloc_cases fuel h bl lists size Hinv Hmax Hsize Hfuel)
    as (p0 & h0 & bl' & lists' & Em0 & _ & _ & _ & _ & _ & _ & Hcase).
  rewrite Em in Em0. apply some_pair_inj in Em0. destruct Em0 as (<- & <-).
  change CHUNKSIZE with 4096.
  destruct Hcase as [(Ep & _ & _ & _ & Hwhy)
                    | (Hp & Hs0 & _ & Hhow)].
  - split; [intros _; exact Hwhy | intros _; exact Ep].
  - split; [intros F; contradiction|].
    intros [F | (Hnf & Hfull)]; [contradiction|]. exfalso.
    destruct Hhow as [(pre & cs & post & Ebl & _ & Hcs & _) | (_ & _ & Hroom)].
    + specialize (Hnf (first_block h + total pre) cs).
      rewrite Ebl in Hnf. specialize (Hnf (in_block_starts_middle _ _ _ _)).
      lia.
    + lia.
Qed.

(** ** What [mm_malloc] and [mm_free] leave alone *)

(** X7: [mm_malloc] never touches a block that is in use.  On a well-formed
    heap and for a request whose rounding does not wrap, [mm_malloc]
    returns and leaves a well-formed heap in which every block that was
    allocated before the call is still allocated, at its address and with
    its size and its payload bytes; a result that is not null is an
    allocated block with room for [size] bytes that was not allocated
    before and overlaps none of the blocks that were. *)
Theorem mm_malloc_keeps_allocated (fuel : nat) (h : heap) (bl : list block)
        (lists : lists_t) (size : Z) :
  heap_inv h bl lists ->
  mem_max_addr h < MINUS_ONE ->
  0 <= size <= SIZE_MAX - 15 ->
  (forall j, 0 <= j < LIST_LIMIT -> (length (lists j) < fuel)%nat) ->
  exists p h' bl' lists',
    mm_malloc fuel h size = Some (p, h') /\
    heap_inv h' bl' lists' /\ first_block h' = first_block h /\
    (forall y t,
        In (y, (t, true)) (block_starts (first_block h) bl) ->
        In (y, (t, true)) (block_starts (first_block h) bl') /\
        (forall a, y <= a < y + t - DSIZE -> mem h' a = mem h a)) /\
    (p <> NULL ->
     exists s,
       In (p, (s, true)) (block_starts (first_block h) bl') /\
       size + DSIZE <= s /\
       (forall t, ~ In (p, (t, true)) (block_starts (first_block h) bl)) /\
       (forall y t,
           In (y, (t, true)) (block_starts (first_block h) bl) ->
           y + t <= p \/ p + s <= y)).
Proof.
  intros Hinv Hmax Hsize Hfuel.
  destruct (mm_malloc_cases fuel h bl lists size Hinv Hmax Hsize Hfuel)
    as (p & h' & bl' & lists' & Em & Hinv' & (Esl & _) & Hk & Hkeep & _ & _ & Hcase).
  assert (Efb : first_block h' = first_block h)
    by (unfold first_block, heap_start; rewrite Esl; reflexivity).
  exists p, h', bl', lists'. split; [exact Em|]. split; [exact Hinv'|].
  split; [exact Efb|]. split.
  - intros y t Hy. destruct (Hkeep y t Hy) as (K1 & _).
    split; [exact K1|].
    intros a Ha. apply Hk. apply (live_of_block _ _ y t); assumption.
  - intros Hp. destruct Hcase as [(F & _)|(_ & _ & (s & Hs & Hsz) & _)];
      [contradiction|].
    exists s. split; [exact Hs|].
    destruct (adjust_size_bounds size Hsize) as (_ & Hb).
    split; [unfold DSIZE; lia|]. split.
    + intros t Ht. destruct (Hkeep p t Ht) as (_ & K2). exact (K2 Hp eq_refl).
    + intros y t Hy. destruct (Hkeep y t Hy) as (K1 & K2).
      destruct Hinv' as [Hpre' _].
      rewrite <- Efb in K1, Hs.
      destruct (block_starts_disjoint _ (pre_sizes _ _ _ Hpre') _ _ _ _ _ K1 Hs)
        as [(E & _)|E].
      * exfalso. exact (K2 Hp E).
      * simpl in E. exact E.
Qed.

(** [mm_malloc] and the break, for the result [(p, h')] of the call. *)
Lemma mm_malloc_grows_at (fuel : nat) (h : heap) (bl : list block)
        (lists : lists_t) (size p : Z) (h' : heap) :
  heap_inv h bl lists ->
  mem_max_addr h < MINUS_ONE ->
  0 < size <= SIZE_MAX - 15 ->
  (forall j, 0 <= j < LIST_LIMIT -> (length (lists j) < fuel)%nat) ->
  mm_malloc fuel h size = Some (p, h') ->
  let asize := adjust_size size in
  ((exists x s, In (x, (s, false)) (block_starts (first_block h) bl) /\
                asize <= s) ->
   p <> NULL /\ mem_brk h' = mem_brk h /\
   exists s, In (p, (s, false)) (block_starts (first_block h) bl) /\ asize <= s) /\
  (no_fit h bl asize ->
   mem_brk h + Z.max asize CHUNKSIZE <= mem_max_addr h ->
   p <> NULL /\ mem_brk h' = mem_brk h + Z.max asize CHUNKSIZE).
Proof.
  intros Hinv Hmax Hsize Hfuel Em asize.
  destruct (mm_malloc_cases fuel h bl lists size Hinv Hmax ltac:(lia) Hfuel)
    as (p0 & h0 & bl' & lists' & Em0 & Hinv' & _ & _ & _ & _ & _ & Hcase).
  rewrite Em in Em0. apply some_pair_inj in Em0. destruct Em0 as (<- & <-).
  fold asize in Hcase. change CHUNKSIZE with 4096.
  split.
  - intros (x & s & Hx & Hs).
    destruct Hcase as [(_ & _ & _ & _ & [F|(Hnf & _)])
                      |(Hp & _ & _ & [(pre & cs & post & Ebl & Ep & Hcs & _ & _ & _ & Eb)
                                     |(Hnf & _)])].
    + lia.
    + specialize (Hnf x s Hx). lia.
    + split; [exact Hp|]. split; [exact Eb|].
      exists cs. split; [|exact Hcs]. rewrite Ebl, Ep.
      apply in_block_starts_middle.
    + specialize (Hnf x s Hx). lia.
  - intros Hnf Hroom.
    destruct Hcase as [(_ & _ & _ & _ & [F|(_ & Hfull)])
                      |(Hp & _ & _ & [(pre & cs & post & Ebl & Ep & Hcs & _)
                                     |(_ & Eb & _)])].
    + lia.
    + lia.
    + exfalso. specialize (Hnf (first_block h + total pre) cs).
      rewrite Ebl in Hnf. specialize (Hnf (in_block_starts_middle _ _ _ _)). lia.
    + split; [exact Hp|exact Eb].
Qed.

(** X8: [mm_malloc] grows the heap only on a miss: when some free block is large
    enough for the rounded request, the block that is returned was a free
    block and the break does not move; when none is and the provider has
    room, the break moves by exactly [max(asize, CHUNKSIZE)] bytes, however
    large the free block at the end of the heap is. *)
Theorem mm_malloc_grows_on_miss (fuel : nat) (h : heap) (bl : list block)
        (lists : lists_t) (size : Z) :
  heap_inv h bl lists ->
  mem_max_addr h < MINUS_ONE ->
  0 < size <= SIZE_MAX - 15 ->
  (forall j, 0 <= j < LIST_LIMIT -> (length (lists j) < fuel)%nat) ->
  let asize := adjust_size size in
  exists p h',
    mm_malloc fuel h size = Some (p, h') /\
    ((exists x s, In (x, (s, false)) (block_starts (first_block h) bl) /\
                  asize <= s) ->
     p <> NULL /\ mem_brk h' = mem_brk h /\
     exists s, In (p, (s, false)) (block_starts (first_block h) bl) /\
               asize <= s) /\
    (no_fit h bl asize ->
     mem_brk h + Z.max asize CHUNKSIZE <= mem_max_addr h ->
     p <> NULL /\ mem_brk h' = mem_brk h + Z.max asize CHUNKSIZE).
Proof.
  intros Hinv Hmax Hsize Hfuel asize.
  destruct (mm_malloc_total fuel h bl lists size Hinv Hmax ltac:(lia) Hfuel)
    as (p & h' & Em).
  exists p, h'. split; [exact Em|].
  exact (mm_malloc_grows_at fuel h bl lists size p h' Hinv Hmax Hsize Hfuel Em).
Qed.

Lemma no_adjacent_free_neighbours (pre post : list block) (s : Z) :
  no_adjacent_free (pre ++ (s, false) :: post) ->
  snd (prev_block pre) = true /\ snd (next_block post) = true.
Proof.
  intros H. apply no_adjacent_free_app in H. destruct H as (_ & H2 & H3).
  split.
  - unfold prev_block. rewrite <- last_epilogue_prologue.
    destruct (snd (last pre epilogue)) eqn:E; [reflexivity|].
    exfalso. apply H3. split; reflexivity.
  - simpl in H2. destruct H2 as (H2 & _). unfold next_block.
    destruct post as [|c post]; [reflexivity|]. simpl.
    destruct (snd c) eqn:E; [reflexivity|]. exfalso. apply H2. split; reflexivity.
Qed.

(** [mm_free] and the other blocks. *)
Lemma mm_free_step (h : heap) (pre post : list block) (s : Z)
      (lists : lists_t) :
  heap_inv h (pre ++ (s, true) :: post) lists ->
  let ptr := first_block h + total pre in
  let h' := mm_free h ptr in
  let bl' := coalesced_blocks pre s post in
  let bp := coalesced_start ptr pre in
  let size := coalesced_size pre s post in
  heap_inv h' bl' (coalesced_lists lists ptr pre s post) /\
  same_provider h h' /\
  mem_brk h' = mem_brk h /\
  first_block h' = first_block h /\
  In (bp, (size, false)) (block_starts (first_block h) bl') /\
  bp <= ptr /\ ptr + s <= bp + size /\
  forall y t,
    In (y, (t, true)) (block_starts (first_block h) (pre ++ (s, true) :: post)) ->
    y <> ptr ->
    In (y, (t, true)) (block_starts (first_block h) bl') /\
    (forall a, y <= a < y + t - DSIZE -> mem h' a = mem h a).
Proof.
  intros Hinv ptr h' bl' bp size.
  destruct (mm_free_inv_frame h pre post s lists Hinv) as (Hinv' & Hsame & Hk).
  fold ptr in Hinv', Hsame, Hk. fold h' in Hinv', Hsame, Hk.
  split; [exact Hinv'|]. split; [exact Hsame|].
  destruct Hsame as (S1 & S2 & S3 & S4).
  destruct Hinv as [Hpre _].
  pose proof (pre_sizes _ _ _ Hpre) as Hso.
  split; [exact S3|].
  split; [unfold first_block, heap_start; rewrite S1; reflexivity|].
  split.
  { unfold bl', bp, ptr, coalesced_blocks. rewrite coalesced_start_total.
    apply in_block_starts_middle. }
  assert (Hprev : 0 <= absorb (prev_block pre)).
  { unfold absorb. pose proof (prev_block_size pre) as Hp.
    apply sizes_ok_app in Hso. destruct Hso as (Hs1 & _). specialize (Hp Hs1).
    destruct (snd (prev_block pre)); lia. }
  assert (Hnext : 0 <= absorb (next_block post)).
  { unfold absorb, next_block. apply sizes_ok_app in Hso. destruct Hso as (_ & Hs2).
    pose proof (Forall_inv_tail Hs2) as Hs3.
    destruct post as [|c post]; simpl; [lia|].
    pose proof (Forall_inv Hs3) as (Hc & _). destruct (snd c); lia. }
  split; [unfold bp, coalesced_start; lia|].
  split; [unfold bp, size, coalesced_start, coalesced_size; lia|].
  intros y t Hy Hne. split.
  - apply (coalesced_keeps_allocated _ pre post s true y t Hy Hne).
  - intros a Ha. apply Hk. apply (live_of_block _ _ y t); [|exact Ha].
    apply (in_block_starts_swap _ pre [(s, true)] [(s, false)] post);
      [reflexivity|exact Hy|].
    simpl. intros [F|[]]. injection F as F1. apply Hne. unfold ptr. lia.
Qed.

(** X9: [mm_free] never touches another block that is in use: on a
    well-formed heap, [mm_free(ptr)] of an allocated block leaves a
    well-formed heap with the break where it was, in which the bytes of the
    block are part of one free block (header and footer hold its size and
    a clear allocated bit), and every other allocated block is still
    allocated, at its address and with its size and its payload bytes. *)
Theorem mm_free_keeps_allocated (h : heap) (pre post : list block) (s : Z)
        (lists : lists_t) :
  heap_inv h (pre ++ (s, true) :: post) lists ->
  let ptr := first_block h + total pre in
  let h' := mm_free h ptr in
  let bl' := coalesced_blocks pre s post in
  let bp := coalesced_start ptr pre in
  let size := coalesced_size pre s post in
  heap_inv h' bl' (coalesced_lists lists ptr pre s post) /\
  GET h' (HDRP bp) = PACK size 0 /\
  GET h' (bp + size - DSIZE) = PACK size 0 /\
  mem_brk h' = mem_brk h /\
  first_block h' = first_block h /\
  In (bp, (size, false)) (block_starts (first_block h') bl') /\
  bp <= ptr /\ ptr + s <= bp + size /\
  forall y t,
    In (y, (t, true)) (block_starts (first_block h) (pre ++ (s, true) :: post)) ->
    y <> ptr ->
    In (y, (t, true)) (block_starts (first_block h') bl') /\
    GET h' (HDRP y) = PACK t 1 /\
    (forall a, y <= a < y + t - DSIZE -> mem h' a = mem h a).
Proof.
  intros Hinv ptr h' bl' bp size.
  destruct (mm_free_step h pre post s lists Hinv)
    as (Hinv' & _ & Eb & Efb & Hin & Hlo & Hhi & Hkeep).
  fold ptr h' bl' bp size in Hinv', Eb, Efb, Hin, Hlo, Hhi, Hkeep.
  destruct (coalesced_block_facts h' pre post s (first_block h) ptr lists
                                  Hinv' Efb eq_refl) as (A1 & A2 & _).
  fold bp size in A1, A2.
  split; [exact Hinv'|]. split; [exact A1|]. split; [exact A2|].
  split; [exact Eb|]. split; [exact Efb|].
  split; [rewrite Efb; exact Hin|]. split; [exact Hlo|]. split; [exact Hhi|].
  intros y t Hy Hne. destruct (Hkeep y t Hy Hne) as (K1 & K2).
  rewrite Efb. split; [exact K1|]. split; [|exact K2].
  destruct Hinv' as [Hpre' _]. rewrite <- Efb in K1.
  destruct (pre_block _ _ _ Hpre' _ _ K1) as (T1 & _).
  simpl in T1. unfold HDRP, WSIZE. exact T1.
Qed.

(** ** [mm_malloc] followed by [mm_free] *)

(** [mm_free] of the result [(p, h')] of an [mm_malloc] that found a fit. *)
Lemma malloc_free_restores_at (fuel : nat) (h : heap) (bl : list block)
        (lists : lists_t) (size p : Z) (h' : heap) :
  heap_inv h bl lists ->
  no_adjacent_free bl ->
  mem_max_addr h < MINUS_ONE ->
  0 < size <= SIZE_MAX - 15 ->
  (forall j, 0 <= j < LIST_LIMIT -> (length (lists j) < fuel)%nat) ->
  (exists x s, In (x, (s, false)) (block_starts (first_block h) bl) /\
               adjust_size size <= s) ->
  mm_malloc fuel h size = Some (p, h') ->
  p <> NULL /\
  exists lists'' cs,
    heap_inv (mm_free h' p) bl lists'' /\
    mem_brk (mm_free h' p) = mem_brk h /\
    In (p, (cs, false)) (block_starts (first_block h) bl) /\
    seg_get (mm_free h' p) (get_list_index cs) = p.
Proof.
  intros Hinv Hnaf Hmax Hsize Hfuel (x & s & Hx & Hs) Em.
  destruct (mm_malloc_cases fuel h bl lists size Hinv Hmax ltac:(lia) Hfuel)
    as (p0 & h0 & bl' & lists' & Em0 & Hinv' & (Esl & _) & _ & _ & _ & _ & Hcase).
  rewrite Em in Em0. apply some_pair_inj in Em0. destruct Em0 as (<- & <-).
  destruct Hcase as [(_ & _ & _ & _ & [F|(Hnf & _)])
                    |(Hp & _ & _ & [(pre & cs & post & Ebl & Ep & Hcs & _ & Ebl' & _ & Eb)
                                   |(Hnf & _)])];
    [lia|specialize (Hnf x s Hx); lia| |specialize (Hnf x s Hx); lia].
  split; [exact Hp|].
  assert (Efb : first_block h' = first_block h)
    by (unfold first_block, heap_start; rewrite Esl; reflexivity).
  subst bl.
  destruct (no_adjacent_free_neighbours pre post cs Hnaf) as (Npre & Npost).
  assert (Eptr : p = first_block h' + total pre) by (rewrite Efb; exact Ep).
  destruct (adjust_size_bounds size ltac:(lia)) as (Ha16 & _).
  unfold placed in Ebl'.
  destruct (Z.leb_spec 16 (cs - adjust_size size)) as [Hc|Hc]; subst bl'.
  - set (asize := adjust_size size) in *. set (rs := cs - asize) in *.
    change (pre ++ [(asize, true); (rs, false)] ++ post)
      with (pre ++ (asize, true) :: ((rs, false) :: post)) in Hinv'.
    destruct (mm_free_inv_frame h' pre ((rs, false) :: post) asize lists' Hinv')
      as (Hinv2 & (S1 & _ & S3 & _) & _).
    rewrite <- Eptr in Hinv2, S3, S1.
    destruct (coalesced_block_facts _ pre ((rs, false) :: post) asize
                (first_block h') p lists' Hinv2) as (_ & _ & Ehead).
    { unfold first_block, heap_start. rewrite S1. reflexivity. }
    { exact Eptr. }
    destruct (coalesced_blocks_cases pre ((rs, false) :: post) asize)
      as (_ & C2 & _).
    rewrite (C2 Npre eq_refl) in Hinv2. cbn [next_block hd fst tl] in Hinv2.
    replace (asize + rs) with cs in Hinv2 by (unfold rs; lia).
    unfold coalesced_size, coalesced_start, absorb in Ehead.
    rewrite Npre in Ehead. cbn [next_block hd snd fst] in Ehead.
    replace (0 + asize + rs) with cs in Ehead by (unfold rs; lia).
    replace (p - 0) with p in Ehead by lia.
    eexists. exists cs. split; [exact Hinv2|]. split; [congruence|].
    split; [rewrite Ep; apply in_block_starts_middle|exact Ehead].
  - change (pre ++ [(cs, true)] ++ post) with (pre ++ (cs, true) :: post) in Hinv'.
    destruct (mm_free_inv_frame h' pre post cs lists' Hinv')
      as (Hinv2 & (S1 & _ & S3 & _) & _).
    rewrite <- Eptr in Hinv2, S3, S1.
    destruct (coalesced_block_facts _ pre post cs
                (first_block h') p lists' Hinv2) as (_ & _ & Ehead).
    { unfold first_block, heap_start. rewrite S1. reflexivity. }
    { exact Eptr. }
    destruct (coalesced_blocks_cases pre post cs) as (C1 & _).
    rewrite (C1 Npre Npost) in Hinv2.
    unfold coalesced_size, coalesced_start, absorb in Ehead.
    rewrite Npre, Npost in Ehead.
    replace (0 + cs + 0) with cs in Ehead by lia.
    replace (p - 0) with p in Ehead by lia.
    eexists. exists cs. split; [exact Hinv2|]. split; [congruence|].
    split; [rewrite Ep; apply in_block_starts_middle|exact Ehead].
Qed.

(** X10: freeing what was just allocated restores the block layout: on a
    well-formed heap without adjacent free blocks, when [mm_malloc] took a
    free block (no extension), [mm_free] of the returned pointer gives back
    the very same sequence of blocks; the block, whether it was split or
    not, is one free block again and the head of its list. *)
Theorem malloc_free_restores_layout (fuel : nat) (h : heap) (bl : list block)
        (lists : lists_t) (size : Z) :
  heap_inv h bl lists ->
  no_adjacent_free bl ->
  mem_max_addr h < MINUS_ONE ->
  0 < size <= SIZE_MAX - 15 ->
  (forall j, 0 <= j < LIST_LIMIT -> (length (lists j) < fuel)%nat) ->
  (exists x s, In (x, (s, false)) (block_starts (first_block h) bl) /\
               adjust_size size <= s) ->
  exists p h',
    mm_malloc fuel h size = Some (p, h') /\
    p <> NULL /\
    exists lists'' cs,
      heap_inv (mm_free h' p) bl lists'' /\
      mem_brk (mm_free h' p) = mem_brk h /\
      In (p, (cs, false)) (block_starts (first_block h) bl) /\
      seg_get (mm_free h' p) (get_list_index cs) = p.
Proof.
  intros Hinv Hnaf Hmax Hsize Hfuel Hfit.
  destruct (mm_malloc_total fuel h bl lists size Hinv Hmax ltac:(lia) Hfuel)
    as (p & h' & Em).
  exists p, h'. split; [exact Em|].
  exact (malloc_free_restores_at fuel h bl lists size p h'
                                 Hinv Hnaf Hmax Hsize Hfuel Hfit Em).
Qed.

(** ** [mm_realloc], the fallback *)

Lemma GET_bytes (h h' : heap) (w : Z) :
  (forall b, w <= b < w + 4 -> mem h' b = mem h b) -> GET h' w = GET h w.
Proof.
  intros H. unfold GET, load32, load8.
  rewrite (H w), (H (w + 1)), (H (w + 2)), (H (w + 3)) by lia. reflexivity.
Qed.

(** Writing into the payload of an allocated block keeps the heap well
    formed. *)
Lemma heap_inv_payload_write (h h' : heap) (bl : list block) (lists : lists_t)
      (p s : Z) :
  heap_inv h bl lists ->
  In (p, (s, true)) (block_starts (first_block h) bl) ->
  same_provider h h' ->
  (forall a, a < p \/ p + s - 8 <= a -> mem h' a = mem h a) ->
  heap_inv h' bl lists.
Proof.
  intros [Hpre Hfree] Hin Hsame Hout.
  destruct (in_block_starts_split _ _ _ _ Hin) as (pre & post & Ebl & Ep).
  subst bl.
  destruct (pre_block _ _ _ Hpre _ _ Hin) as (T1 & T2 & H16 & H8 & _).
  simpl in T1, T2, H16, H8.
  destruct (same_provider_first_block _ _ Hsame) as (Efb & _).
  constructor.
  - change (pre ++ (s, true) :: post) with (pre ++ [(s, true)] ++ post).
    apply (heap_pre_retag h h' pre [(s, true)] [(s, true)] post lists).
    + exact Hpre.
    + exact Hsame.
    + reflexivity.
    + apply Forall_cons; [|apply Forall_nil]. simpl. split; assumption.
    + intros a Ha. simpl in Ha. apply GET_bytes. intros b Hb. apply Hout. lia.
    + simpl. apply Forall_cons; [|apply Forall_nil]. rewrite <- Ep.
      apply tagged_intro.
      * rewrite <- T1. apply GET_bytes. intros b Hb. apply Hout. lia.
      * rewrite <- T2. apply GET_bytes. intros b Hb. apply Hout. lia.
    + intros i x Hi Hx. simpl. rewrite <- Ep.
      destruct (listed_far h _ lists p s true i x Hpre Hin Hi Hx) as [(_ & F)|F];
        [discriminate|lia].
  - rewrite Efb. exact Hfree.
Qed.

(** The fallback of [mm_realloc] on a well-formed heap. *)
Lemma realloc_move_full (fuel : nat) (h : heap) (pre post : list block)
      (lists : lists_t) (old ns : Z) (na : bool) (size : Z) :
  heap_inv h (pre ++ (old, true) :: (ns, na) :: post) lists ->
  mem_max_addr h < MINUS_ONE ->
  0 < size <= SIZE_MAX - 15 ->
  (forall j, 0 <= j < LIST_LIMIT -> (length (lists j) < fuel)%nat) ->
  old < adjust_size size ->
  na = true \/ old + ns < adjust_size size ->
  let fb := first_block h in
  let bl := pre ++ (old, true) :: (ns, na) :: post in
  let ptr := fb + total pre in
  exists newptr h',
    mm_realloc fuel h ptr size = Some (newptr, h') /\
    (exists hm, mm_malloc fuel h size = Some (newptr, hm)) /\
    (newptr = NULL -> h' = h) /\
    (newptr <> NULL ->
     newptr <> ptr /\
     (forall k, 0 <= k < old - DSIZE -> mem h' (newptr + k) = mem h (ptr + k)) /\
     exists bl' lists',
       heap_inv h' bl' lists' /\ first_block h' = fb /\
       (exists s, In (newptr, (s, true)) (block_starts fb bl') /\
                  size + DSIZE <= s) /\
       (forall t, ~ In (ptr, (t, true)) (block_starts fb bl')) /\
       (forall y t, In (y, (t, true)) (block_starts fb bl) -> y <> ptr ->
                    In (y, (t, true)) (block_starts fb bl') /\
                    (forall a, y <= a < y + t - DSIZE -> mem h' a = mem h a)) /\
       (seg_list h' = seg_list h /\ mem_start h' = mem_start h /\
        mem_max_addr h' = mem_max_addr h) /\
       (no_adjacent_free bl -> no_adjacent_free bl') /\
       (forall y t, In (y, (t, true)) (block_starts fb bl') ->
                    y = newptr \/
                    (y <> ptr /\ In (y, (t, true)) (block_starts fb bl))) /\
       (forall t, ~ In (newptr, (t, true)) (block_starts fb bl))).
Proof.
  intros Hinv Hmax Hsize Hfuel Hgrow Hnext fb bl ptr.
  pose proof Hinv as [Hpre _].
  pose proof (pre_sizes _ _ _ Hpre) as Hso.
  assert (Hin : In (ptr, (old, true)) (block_starts fb bl))
    by apply in_block_starts_middle.
  assert (Hinn : In (ptr + old, (ns, na)) (block_starts fb bl)).
  { unfold bl, ptr.
    change (pre ++ (old, true) :: (ns, na) :: post)
      with (pre ++ [(old, true)] ++ (ns, na) :: post).
    rewrite app_assoc.
    replace (fb + total pre + old) with (fb + total (pre ++ [(old, true)]))
      by (rewrite total_app; simpl; lia).
    apply in_block_starts_middle. }
  destruct (pre_block _ _ _ Hpre _ _ Hin) as (_ & _ & Ho16 & _ & Hlo & _ & _).
  destruct (pre_block _ _ _ Hpre _ _ Hinn) as (_ & _ & Hn16 & _ & _ & Hhi & _).
  destruct (pre_block_read _ _ _ Hpre _ _ Hin) as (Eos & _ & _ & Enx & _).
  destruct (pre_block_read _ _ _ Hpre _ _ Hinn) as (Ens & Ena & _).
  simpl in Ho16, Hn16, Hhi, Eos, Enx, Ens, Ena.
  pose proof (pre_brk _ _ _ Hpre) as (_ & Hbrk). unfold MINUS_ONE in Hbrk.
  pose proof (pre_seg _ _ _ Hpre) as (Hsp & _).
  pose proof (first_block_eq h) as Efbh. fold fb in Efbh, Hlo.
  unfold mm_realloc.
  destruct (Z.eqb_spec ptr NULL) as [F|_]; [unfold NULL in F; lia|].
  destruct (Z.eqb_spec size 0) as [F|_]; [lia|].
  rewrite Eos.
  destruct (Z.leb_spec (adjust_size size) old) as [F|_]; [lia|].
  rewrite Enx, Ena, Ens.
  rewrite (add32_small old ns) by lia.
  assert (Ep2 : ((if na then 1 else 0) =? 0) && (adjust_size size <=? old + ns) = false).
  { destruct Hnext as [->|Hlt]; [reflexivity|].
    destruct (Z.leb_spec (adjust_size size) (old + ns)); [lia|].
    apply andb_false_r. }
  rewrite Ep2.
  destruct (Z.eqb_spec ns 0) as [F|_]; [lia|].
  destruct (mm_malloc_cases fuel h bl lists size Hinv Hmax ltac:(lia) Hfuel)
    as (p & h1 & bl1 & lists1 & Em & Hinv1 & (Esl & Est & Emx) & Hk1 & Hkeep1 & Hwas1
        & Hnaf1 & Hcase).
  fold fb in Hk1, Hkeep1, Hwas1, Hcase. rewrite Em.
  destruct Hcase as [(-> & -> & _)|(Hp & _ & (s & Hs & Hsz) & _)].
  { change (NULL =? NULL) with true. cbv iota.
    exists NULL, h. split; [reflexivity|]. split; [exists h; reflexivity|].
    split; [reflexivity|]. intros F. contradiction. }
  destruct (Z.eqb_spec p NULL) as [F|_]; [contradiction|].
  assert (Esub : sub32 old DSIZE = old - 8) by (apply wrap_small; unfold DSIZE; lia).
  rewrite Esub.
  set (h2 := set_mem h1 (memcpy (mem h1) p ptr (old - 8))).
  assert (Efb1 : first_block h1 = fb)
    by (unfold fb, first_block, heap_start; rewrite Esl; reflexivity).
  destruct (Hkeep1 ptr old Hin) as (Hin1 & Hne1). specialize (Hne1 Hp).
  destruct (adjust_size_bounds size ltac:(lia)) as (_ & Hab).
  assert (Hinv2 : heap_inv h2 bl1 lists1).
  { apply (heap_inv_payload_write h1 h2 bl1 lists1 p s Hinv1).
    - rewrite Efb1. exact Hs.
    - unfold h2. repeat split.
    - intros a Ha. unfold h2, memcpy. simpl.
      destruct (Z.leb_spec p a); destruct (Z.ltb_spec a (p + (old - 8)));
        try reflexivity. lia. }
  assert (Efb2 : first_block h2 = fb) by exact Efb1.
  rewrite <- Efb2 in Hin1.
  destruct (in_block_starts_split _ _ _ _ Hin1) as (pre1 & post1 & Ebl1 & Eptr).
  subst bl1.
  destruct (mm_free_step h2 pre1 post1 old lists1 Hinv2)
    as (Hinv3 & Hsame3 & _ & Efb3 & Hmerged & Hb1 & Hb2 & Hkeep3).
  rewrite <- Eptr in Hinv3, Hsame3, Efb3, Hmerged, Hb1, Hb2, Hkeep3.
  rewrite Efb2 in Hmerged, Hkeep3, Efb3, Hin1.
  exists p, (mm_free h2 ptr). split; [reflexivity|].
  split; [exists h1; reflexivity|].
  split; [intros F; contradiction|]. intros _.
  split; [intros F; apply Hne1; symmetry; exact F|].
  destruct (Hkeep3 p s Hs ltac:(intros F; apply Hne1; symmetry; exact F))
    as (Hs3 & Hk3).
  split.
  { intros k Hk. unfold DSIZE in Hk.
    rewrite Hk3 by (unfold DSIZE; lia).
    unfold h2, memcpy. simpl.
    destruct (Z.leb_spec p (p + k)); [|lia].
    destruct (Z.ltb_spec (p + k) (p + (old - 8))); [|lia]. simpl.
    replace (ptr + (p + k - p)) with (ptr + k) by lia.
    apply Hk1. apply (live_of_block _ _ ptr old); [exact Hin|unfold DSIZE; lia]. }
  eexists. eexists. split; [exact Hinv3|]. split; [exact Efb3|].
  split; [exists s; split; [exact Hs3|unfold DSIZE; lia]|].
  split.
  { intros t F.
    destruct Hinv3 as [Hpre3 _].
    pose proof (pre_sizes _ _ _ Hpre3) as Hso3.
    pose proof (in_block_starts_sizes _ _ _ _ Hso3 F) as (Ht & _).
    destruct (block_starts_disjoint _ Hso3 _ _ _ _ _ F Hmerged) as [(_ & E)|E].
    - discriminate.
    - simpl in *. lia. }
  pose proof Hinv2 as [Hpre2 _].
  pose proof (pre_sizes _ _ _ Hpre2) as Hso2.
  split.
  { intros y t Hy Hne. destruct (Hkeep1 y t Hy) as (Hy1 & Hyp). specialize (Hyp Hp).
    destruct (Hkeep3 y t Hy1 Hne) as (Hy3 & Hky3).
    split; [exact Hy3|].
    intros a Ha. rewrite Hky3 by exact Ha.
    unfold h2, memcpy. simpl.
    destruct (block_starts_disjoint _ Hso2 _ _ _ _ _ Hy1 Hs) as [(E & _)|E];
      [contradiction|]. simpl in E. unfold DSIZE in Ha.
    assert (Eif : (p <=? a) && (a <? p + (old - 8)) = false).
    { destruct (Z.leb_spec p a); destruct (Z.ltb_spec a (p + (old - 8)));
        try reflexivity. lia. }
    rewrite Eif. apply Hk1.
    apply (live_of_block _ _ y t); [exact Hy|unfold DSIZE; lia]. }
  split.
  { destruct Hsame3 as (S1 & S2 & _ & S4).
    change (seg_list h2) with (seg_list h1) in S1.
    change (mem_start h2) with (mem_start h1) in S2.
    change (mem_max_addr h2) with (mem_max_addr h1) in S4.
    repeat split; congruence. }
  split.
  { intros Hn. specialize (Hnaf1 Hn).
    destruct (no_adjacent_free_around _ _ _ Hnaf1) as (N1 & N2).
    apply coalesced_no_adjacent_free; assumption. }
  split.
  { intros y t Hy.
    destruct (coalesced_allocated_was _ pre1 post1 old true y t Hso2 Hy)
      as (Hy1 & Hne).
    assert (Hne' : y <> ptr) by (rewrite Eptr, Efb2; exact Hne).
    destruct (Hwas1 y t Hy1) as [->|Hy0]; [left; reflexivity|right].
    split; [exact Hne'|exact Hy0]. }
  intros t Ht. destruct (Hkeep1 p t Ht) as (_ & F). exact (F Hp eq_refl).
Qed.

(** The fallback, without the link to [mm_malloc]. *)
Lemma realloc_move_step (fuel : nat) (h : heap) (pre post : list block)
      (lists : lists_t) (old ns : Z) (na : bool) (size : Z) :
  heap_inv h (pre ++ (old, true) :: (ns, na) :: post) lists ->
  mem_max_addr h < MINUS_ONE ->
  0 < size <= SIZE_MAX - 15 ->
  (forall j, 0 <= j < LIST_LIMIT -> (length (lists j) < fuel)%nat) ->
  old < adjust_size size ->
  na = true \/ old + ns < adjust_size size ->
  let fb := first_block h in
  let bl := pre ++ (old, true) :: (ns, na) :: post in
  let ptr := fb + total pre in
  exists newptr h',
    mm_realloc fuel h ptr size = Some (newptr, h') /\
    (newptr = NULL -> h' = h) /\
    (newptr <> NULL ->
     newptr <> ptr /\
     (forall k, 0 <= k < old - DSIZE -> mem h' (newptr + k) = mem h (ptr + k)) /\
     exists bl' lists',
       heap_inv h' bl' lists' /\ first_block h' = fb /\
       (exists s, In (newptr, (s, true)) (block_starts fb bl') /\
                  size + DSIZE <= s) /\
       (forall t, ~ In (ptr, (t, true)) (block_starts fb bl')) /\
       (forall y t, In (y, (t, true)) (block_starts fb bl) -> y <> ptr ->
                    In (y, (t, true)) (block_starts fb bl') /\
                    (forall a, y <= a < y + t - DSIZE -> mem h' a = mem h a)) /\
       (seg_list h' = seg_list h /\ mem_start h' = mem_start h /\
        mem_max_addr h' = mem_max_addr h) /\
       (no_adjacent_free bl -> no_adjacent_free bl') /\
       (forall y t, In (y, (t, true)) (block_starts fb bl') ->
                    y = newptr \/
                    (y <> ptr /\ In (y, (t, true)) (block_starts fb bl))) /\
       (forall t, ~ In (newptr, (t, true)) (block_starts fb bl))).
Proof.
  intros Hinv Hmax Hsize Hfuel Hgrow Hnext fb bl ptr.
  destruct (realloc_move_full fuel h pre post lists old ns na size
              Hinv Hmax Hsize Hfuel Hgrow Hnext)
    as (q & h' & Er & _ & Hnull & Hok).
  exists q, h'. split; [exact Er|]. split; [exact Hnull | exact Hok].
Qed.

(** X11: when neither shrinking, nor the next block, nor the end of the heap
    helps, [mm_realloc] moves the block: it allocates with [mm_malloc],
    copies the old payload and frees the old block.  On a well-formed heap,
    for an allocated block of [old] bytes followed by a block that is in
    use or too small, the result is the pointer that [mm_malloc(size)]
    returns on this heap.  It is null exactly when no free block has the
    rounded size and the break may not move by [max(asize, CHUNKSIZE)]
    bytes, and then nothing has changed; otherwise the result is a
    different block with room for [size] bytes whose first [old - 8]
    payload bytes are the old payload, the old block is no longer
    allocated, every other allocated block keeps its place and its
    payload, and the heap is well formed. *)
Theorem realloc_moves_block (fuel : nat) (h : heap) (pre post : list block)
        (lists : lists_t) (old ns : Z) (na : bool) (size : Z) :
  heap_inv h (pre ++ (old, true) :: (ns, na) :: post) lists ->
  mem_max_addr h < MINUS_ONE ->
  0 < size <= SIZE_MAX - 15 ->
  (forall j, 0 <= j < LIST_LIMIT -> (length (lists j) < fuel)%nat) ->
  old < adjust_size size ->
  na = true \/ old + ns < adjust_size size ->
  let fb := first_block h in
  let bl := pre ++ (old, true) :: (ns, na) :: post in
  let ptr := fb + total pre in
  exists newptr h',
    mm_realloc fuel h ptr size = Some (newptr, h') /\
    (exists hm, mm_malloc fuel h size = Some (newptr, hm)) /\
    (newptr = NULL <->
     no_fit h bl (adjust_size size) /\
     mem_max_addr h < mem_brk h + Z.max (adjust_size size) CHUNKSIZE) /\
    (newptr = NULL -> h' = h) /\
    (newptr <> NULL ->
     newptr <> ptr /\
     (forall k, 0 <= k < old - DSIZE -> mem h' (newptr + k) = mem h (ptr + k)) /\
     exists bl' lists',
       heap_inv h' bl' lists' /\ first_block h' = fb /\
       (exists s, In (newptr, (s, true)) (block_starts fb bl') /\
                  size + DSIZE <= s) /\
       (forall t, ~ In (ptr, (t, true)) (block_starts fb bl')) /\
       (forall y t, In (y, (t, true)) (block_starts fb bl) -> y <> ptr ->
                    In (y, (t, true)) (block_starts fb bl') /\
                    (forall a, y <= a < y + t - DSIZE -> mem h' a = mem h a))).
Proof.
  intros Hinv Hmax Hsize Hfuel Hgrow Hnext fb bl ptr.
  destruct (realloc_move_full fuel h pre post lists old ns na size
              Hinv Hmax Hsize Hfuel Hgrow Hnext)
    as (q & h' & Er & (hm & Em) & Hnull & Hok).
  exists q, h'. split; [exact Er|]. split; [exists hm; exact Em|].
  split.
  { pose proof (mm_malloc_null_iff fuel h bl lists size q hm Hinv Hmax
                                   ltac:(lia) Hfuel Em) as Hiff.
    split.
    - intros Hq. destruct (proj1 Hiff Hq) as [F | Hwhy]; [lia | exact Hwhy].
    - intros Hwhy. apply (proj2 Hiff). right. exact Hwhy. }
  split; [exact Hnull|].
  intros Hq. destruct (Hok Hq) as (A & B & bl' & lists' & C & D & E & F & G & _).
  split; [exact A|]. split; [exact B|].
  exists bl', lists'. split; [exact C|]. split; [exact D|].
  split; [exact E|]. split; [exact F|exact G].
Qed.

(** ** [insert_node] and [delete_node] *)

Lemma heap_pre_ext (h : heap) (bl : list block) (lists lists' : lists_t) :
  heap_pre h bl lists ->
  (forall j, 0 <= j < LIST_LIMIT -> lists' j = lists j) ->
  heap_pre h bl lists'.
Proof.
  intros [H1 H2 H3 H4 H5 H6] He. constructor; try assumption.
  - rewrite Forall_forall in *. intros i Hi. rewrite He by (apply in_classes; exact Hi).
    apply H5. exact Hi.
  - rewrite Forall_forall in *. intros i Hi. rewrite He by (apply in_classes; exact Hi).
    apply H6. exact Hi.
Qed.

Lemma is_dll_hd (h : heap) (l : list Z) (prev p : Z) :
  is_dll h prev p l -> p = hd NULL l.
Proof. destruct l; simpl; intros H; [exact H|apply H]. Qed.

(** X12: the free lists are LIFO: [insert_node] makes the block the head of the
    list of its size class, in front of the old head, and leaves the heads
    of the other classes alone. *)
Theorem insert_node_lifo (h : heap) (bl : list block) (lists : lists_t)
        (x s : Z) :
  heap_pre h bl lists ->
  In (x, (s, false)) (block_starts (first_block h) bl) ->
  (forall j, 0 <= j < LIST_LIMIT -> ~ In x (lists j)) ->
  let i := get_list_index s in
  let h' := insert_node h x s in
  seg_get h' i = x /\
  GET_PRED h' x = NULL /\
  GET_SUCC h' x = seg_get h i /\
  (seg_get h i <> NULL -> GET_PRED h' (seg_get h i) = x) /\
  (forall j, 0 <= j < LIST_LIMIT -> j <> i -> seg_get h' j = seg_get h j) /\
  heap_pre h' bl (enlist lists i x).
Proof.
  intros Hpre Hin Hnew i h'.
  destruct (insert_node_pre h bl lists x s Hpre Hin Hnew) as (Hpre' & _).
  fold i h' in Hpre'.
  pose proof (get_list_index_range s) as Hi. fold i in Hi.
  pose proof (pre_dll_at _ _ _ Hpre' i Hi) as Hd'.
  pose proof (pre_dll_at _ _ _ Hpre i Hi) as Hd.
  unfold enlist, upd in Hd'. rewrite Z.eqb_refl in Hd'.
  cbn [is_dll] in Hd'. destruct Hd' as (E1 & _ & E2 & Hd').
  apply is_dll_hd in Hd. pose proof Hd' as Hd''. apply is_dll_hd in Hd''.
  split; [exact E1|]. split; [exact E2|]. split; [congruence|].
  split.
  - intros Hr. destruct (lists i) as [|y l]; [simpl in Hd; contradiction|].
    simpl in Hd. cbn [is_dll] in Hd'. destruct Hd' as (_ & _ & E3 & _).
    rewrite Hd. exact E3.
  - split; [|exact Hpre'].
    intros j Hj Hne.
    pose proof (pre_dll_at _ _ _ Hpre' j Hj) as Hj'.
    pose proof (pre_dll_at _ _ _ Hpre j Hj) as Hj0.
    unfold enlist, upd in Hj'. destruct (Z.eqb_spec j i); [contradiction|].
    apply is_dll_hd in Hj'. apply is_dll_hd in Hj0. congruence.
Qed.

Lemma unlist_enlist (lists : lists_t) (i x j : Z) :
  ~ In x (lists i) -> unlist (enlist lists i x) i x j = lists j.
Proof.
  intros Hn. unfold unlist, enlist, upd.
  destruct (Z.eqb_spec j i) as [->|]; [|reflexivity].
  rewrite Z.eqb_refl. unfold remove_node. cbn [filter].
  rewrite Z.eqb_refl. cbn [negb].
  apply remove_node_absent. exact Hn.
Qed.

(** X13: taking a block off the list it was just put on undoes the insertion:
    the heap is well formed with the lists it had before, and every aligned
    word other than the two link words of the block holds its old value. *)
Theorem insert_delete_round_trip (h : heap) (bl : list block)
        (lists : lists_t) (x s : Z) :
  heap_pre h bl lists ->
  In (x, (s, false)) (block_starts (first_block h) bl) ->
  (forall j, 0 <= j < LIST_LIMIT -> ~ In x (lists j)) ->
  let h' := delete_node (insert_node h x s) x in
  heap_pre h' bl lists /\
  (forall a, a mod 4 = 0 -> a <> x -> a <> x + 4 -> GET h' a = GET h a).
Proof.
  intros Hpre Hin Hnew h'.
  pose proof (get_list_index_range s) as Hi.
  destruct (insert_node_pre h bl lists x s Hpre Hin Hnew) as (Hpre1 & _).
  split.
  - destruct (delete_node_pre _ bl _ (get_list_index s) x Hpre1 Hi) as (Hpre2 & _).
    { apply in_enlist_head. }
    apply (heap_pre_ext _ _ _ _ Hpre2).
    intros j Hj. symmetry. apply unlist_enlist. apply Hnew. exact Hi.
  - intros a Ha4 Hax Hax4.
    destruct (pre_seg _ _ _ Hpre) as (Hsp & Hs8).
    destruct (pre_block _ _ _ Hpre _ _ Hin) as (T1 & _ & Hs16 & Hsm8 & Hxlo & _ & Hx8).
    simpl in T1, Hs16, Hsm8.
    pose proof (first_block_eq h) as Efb.
    pose proof (pre_dll_at _ _ _ Hpre _ Hi) as Hd.
    set (i := get_list_index s) in *.
    assert (Hroot : seg_get h i = NULL \/
                    (seg_get h i <> NULL /\ seg_get h i mod 8 = 0 /\
                     seg_list h + 96 <= seg_get h i /\
                     (seg_get h i + 16 <= x \/ x + 16 <= seg_get h i) /\
                     GET h (seg_get h i) = NULL)).
    { destruct (lists i) as [|y l] eqn:El; cbn [is_dll] in Hd; [left; exact Hd|].
      right. destruct Hd as (Er & Hy & Hp & _). rewrite Er.
      assert (Hyi : In y (lists i)) by (rewrite El; left; reflexivity).
      destruct (pre_listed_at _ _ _ Hpre i y Hi Hyi) as (t & Ht & _).
      destruct (pre_block _ _ _ Hpre _ _ Ht) as (_ & _ & Ht16 & _ & Hylo & _ & Hy8).
      simpl in Ht16.
      split; [exact Hy|]. split; [exact Hy8|]. split; [lia|]. split; [|exact Hp].
      destruct (block_starts_disjoint _ (pre_sizes _ _ _ Hpre) _ _ _ _ _ Hin Ht)
        as [(E & _)|E]; [|simpl in E; lia].
      exfalso. apply (Hnew i Hi). rewrite E. exact Hyi. }
    pose proof (GET_range h (seg_slot h i)) as Hrr.
    rewrite <- seg_get_eq in Hrr.
    assert (Hslot : seg_slot h i = seg_list h + 4 * i) by apply seg_slot_eq.
    assert (Hslot4 : seg_slot h i mod 4 = 0).
    { rewrite Hslot. pose proof (Z.div_mod (seg_list h) 8 ltac:(lia)).
      replace (seg_list h + 4 * i) with ((2 * (seg_list h / 8) + i) * 4) by lia.
      apply Z.mod_mul. lia. }
    assert (Hx4 : x mod 4 = 0).
    { pose proof (Z.div_mod x 8 ltac:(lia)).
      replace x with ((2 * (x / 8)) * 4) by lia. apply Z.mod_mul. lia. }
    assert (Hwords : forall u v : Z, u mod 4 = 0 -> v mod 4 = 0 -> u <> v ->
                                     u + 4 <= v \/ v + 4 <= u).
    { intros u v Hu Hv Huv.
      pose proof (Z.div_mod u 4 ltac:(lia)). pose proof (Z.div_mod v 4 ltac:(lia)).
      lia. }
    unfold h'. rewrite insert_node_eq. cbv zeta. fold i.
    set (root := seg_get h i) in *.
    set (h1 := PUT h (x + 4) root).
    set (h2 := PUT h1 x NULL).
    set (h3 := if negb (root =? NULL) then PUT h2 root x else h2).
    assert (E3slot : seg_slot h3 i = seg_slot h i).
    { unfold h3. destruct (negb (root =? NULL)); reflexivity. }
    rewrite E3slot.
    set (h4 := PUT h3 (seg_slot h i) x).
    assert (G3 : forall w, w <> x -> w <> x + 4 -> w <> root \/ root = NULL ->
                           w mod 4 = 0 -> GET h3 w = GET h w).
    { intros w W1 W2 W3 W4. unfold h3.
      assert (E2 : GET h2 w = GET h w).
      { unfold h2, h1. rewrite !GET_PUT_other; [reflexivity| |].
        - apply Hwords; try assumption.
          rewrite Z.add_mod, Hx4 by lia. reflexivity.
        - apply Hwords; assumption. }
      destruct (Z.eqb_spec root NULL) as [Er|Er]; cbn [negb]; [exact E2|].
      destruct Hroot as [F|(_ & R8 & _)]; [contradiction|].
      destruct W3 as [W3|W3]; [|contradiction].
      rewrite GET_PUT_other; [exact E2|].
      apply Hwords; try assumption.
      pose proof (Z.div_mod root 8 ltac:(lia)).
      replace root with ((2 * (root / 8)) * 4) by lia. apply Z.mod_mul. lia. }
    assert (Hi' : 0 <= i < 20) by exact Hi.
    assert (Hxs : x <> seg_slot h i /\ x + 4 <> seg_slot h i /\ x - 4 <> seg_slot h i)
      by lia.
    assert (G4x : GET h4 x = NULL).
    { unfold h4. rewrite GET_PUT_other by lia. unfold h3.
      destruct (Z.eqb_spec root NULL) as [Er|Er]; cbn [negb].
      - unfold h2. rewrite GET_PUT_same. reflexivity.
      - destruct Hroot as [F|(_ & _ & _ & Hrx & _)]; [contradiction|].
        rewrite GET_PUT_other by lia. unfold h2. rewrite GET_PUT_same. reflexivity. }
    assert (G4x4 : GET h4 (x + 4) = root).
    { unfold h4. rewrite GET_PUT_other by lia. unfold h3.
      destruct (Z.eqb_spec root NULL) as [Er|Er]; cbn [negb].
      - unfold h2. rewrite GET_PUT_other by lia. unfold h1. rewrite GET_PUT_same.
        apply wrap_small. exact Hrr.
      - destruct Hroot as [F|(_ & _ & _ & Hrx & _)]; [contradiction|].
        rewrite GET_PUT_other by lia.
        unfold h2. rewrite GET_PUT_other by lia. unfold h1. rewrite GET_PUT_same.
        apply wrap_small. exact Hrr. }
    assert (G4s : GET_SIZE h4 (HDRP x) = s).
    { unfold HDRP, WSIZE. apply (GET_SIZE_tag h4 _ s false).
      - split; [|exact Hsm8].
        destruct (pre_block _ _ _ Hpre _ _ Hin) as (_ & _ & _ & _ & _ & Hhi & _).
        simpl in Hhi. pose proof (pre_brk _ _ _ Hpre) as (_ & Hb).
        unfold MINUS_ONE in Hb. lia.
      - unfold h4. rewrite GET_PUT_other by lia.
        rewrite G3; [exact T1|lia|lia| |].
        + destruct Hroot as [F|(_ & _ & _ & Hrx & _)]; [right; exact F|left; lia].
        + pose proof (Z.div_mod x 4 ltac:(lia)).
          replace (x - 4) with ((x / 4 - 1) * 4) by lia. apply Z.mod_mul. lia. }
    rewrite delete_node_eq. cbv zeta.
    rewrite G4x, G4x4, G4s. fold i.
    change (negb (NULL =? NULL)) with false. cbv iota.
    assert (E4slot : seg_slot h4 i = seg_slot h i) by exact E3slot.
    rewrite E4slot.
    set (h5 := PUT h4 (seg_slot h i) root).
    assert (G5x4 : GET h5 (x + 4) = root).
    { unfold h5. rewrite GET_PUT_other by lia. exact G4x4. }
    assert (G5x : GET h5 x = NULL).
    { unfold h5. rewrite GET_PUT_other by lia. exact G4x. }
    rewrite G5x4, G5x.
    assert (G5 : forall w, w <> x -> w <> x + 4 -> w <> root \/ root = NULL ->
                           w mod 4 = 0 -> GET h5 w = GET h w).
    { intros w W1 W2 W3 W4. unfold h5.
      destruct (Z.eq_dec w (seg_slot h i)) as [->|Hws].
      - rewrite GET_PUT_same. rewrite wrap_small by exact Hrr.
        unfold root. apply seg_get_eq.
      - rewrite GET_PUT_other by (apply Hwords; assumption).
        unfold h4. rewrite GET_PUT_other by (apply Hwords; assumption).
        apply G3; assumption. }
    destruct (Z.eqb_spec root NULL) as [Er|Er]; cbn [negb].
    + apply G5; try assumption. right. exact Er.
    + destruct Hroot as [F|(_ & R8 & Rlo & Hrx & Rp)]; [contradiction|].
      destruct (Z.eq_dec a root) as [->|Har].
      * rewrite GET_PUT_same. rewrite Rp. reflexivity.
      * rewrite GET_PUT_other.
        -- apply G5; try assumption. left. exact Har.
        -- apply Hwords; try assumption.
           pose proof (Z.div_mod root 8 ltac:(lia)).
           replace root with ((2 * (root / 8)) * 4) by lia. apply Z.mod_mul. lia.
Qed.

(** ** [mm_realloc], every policy *)

(** The last block grows in place. *)
Lemma heap_pre_grow_last (h h' : heap) (pre : list block) (lists : lists_t)
      (old new : Z) :
  heap_pre h (pre ++ [(old, true)]) lists ->
  old <= new -> new mod 8 = 0 ->
  seg_list h' = seg_list h ->
  mem_brk h' = mem_brk h + (new - old) -> mem_brk h' < MINUS_ONE ->
  let ptr := first_block h + total pre in
  (forall a, a + 4 <= ptr - 4 -> GET h' a = GET h a) ->
  GET h' (ptr - 4) = tag (new, true) ->
  GET h' (ptr + new - 8) = tag (new, true) ->
  GET h' (ptr + new - 4) = PACK 0 1 ->
  heap_pre h' (pre ++ [(new, true)]) lists.
Proof.
  intros Hpre Hle H8 Esl Ebrk Hfit ptr Hout Hhd Hft Hep.
  pose proof Hpre as [(Hsp & Hsm) (Hb & Hm) Hso (Hl & He) Hd Hls].
  assert (Efb : first_block h' = first_block h)
    by (unfold first_block, heap_start; rewrite Esl; reflexivity).
  assert (Ehs : heap_start h' = heap_start h)
    by (unfold heap_start; rewrite Esl; reflexivity).
  pose proof (first_block_eq h) as Efbh. pose proof (heap_start_eq h) as Ehsh.
  apply sizes_ok_app in Hso. destruct Hso as (Hs1 & Hs2).
  pose proof (Forall_inv Hs2) as (Ho16 & _). simpl in Ho16.
  pose proof (total_nonneg _ Hs1) as Ht.
  rewrite total_app in Hb. simpl in Hb.
  constructor.
  - rewrite Esl. split; assumption.
  - rewrite Efb, total_app. simpl. split; [lia|exact Hfit].
  - apply sizes_ok_app. split; [exact Hs1|].
    apply Forall_cons; [|apply Forall_nil]. simpl. split; [lia|exact H8].
  - split.
    + rewrite Ehs. simpl. simpl in Hl.
      pose proof (Forall_inv Hl) as (P1 & P2).
      pose proof (Forall_inv_tail Hl) as Hl'.
      unfold HDRP, WSIZE, DSIZE in P1, P2. simpl in P1, P2.
      apply Forall_cons.
      * split; simpl; unfold HDRP, WSIZE, DSIZE; rewrite Hout by (unfold ptr; lia);
          assumption.
      * change (heap_start h + DSIZE) with (first_block h) in *.
        rewrite block_starts_app in *. apply Forall_app in Hl'.
        destruct Hl' as (Hl1 & _). apply Forall_app. split.
        -- rewrite Forall_forall in *. intros (x, b) Hin.
           specialize (Hl1 _ Hin). unfold tagged, HDRP, WSIZE, DSIZE in *.
           simpl in *.
           pose proof (in_block_starts_bounds _ Hs1 _ _ _ Hin).
           pose proof (in_block_starts_sizes _ _ _ _ Hs1 Hin). simpl in *.
           rewrite !Hout by (unfold ptr; lia). exact Hl1.
        -- simpl. apply Forall_cons; [|apply Forall_nil].
           apply tagged_intro; assumption.
    + rewrite Efb, total_app. simpl. unfold HDRP, WSIZE.
      replace (first_block h + (total pre + (new + 0)) - 4)
        with (ptr + new - 4) by (unfold ptr; lia).
      exact Hep.
  - rewrite Forall_forall in *. intros i Hi.
    specialize (Hd i Hi). apply in_classes in Hi.
    assert (Eg : seg_get h' i = seg_get h i).
    { rewrite !seg_get_eq, !seg_slot_eq, Esl. apply Hout.
      unfold LIST_LIMIT in Hi. unfold ptr. lia. }
    rewrite Eg. eapply is_dll_frame; [|exact Hd].
    intros y Hy.
    destruct (listed_far h _ lists ptr old true i y Hpre
                (in_block_starts_middle _ _ _ _) Hi Hy) as [(_ & F)|F];
      [discriminate|].
    destruct (pre_listed_at _ _ _ Hpre i y Hi Hy) as (t & Hin & _).
    destruct (pre_block _ _ _ Hpre _ _ Hin) as (_ & _ & A1 & _ & A2 & A3 & _).
    simpl in A1, A3.
    split; apply Hout; unfold ptr in *; lia.
  - rewrite Forall_forall in *. intros i Hi.
    specialize (Hls i Hi). rewrite Forall_forall in *. intros y Hy.
    destruct (Hls y Hy) as (t & Hin & Ec). exists t. split; [|exact Ec].
    rewrite Efb. rewrite block_starts_app in *. apply in_app_or in Hin.
    apply in_or_app. destruct Hin as [Hin|[Hin|[]]]; [left; exact Hin|].
    discriminate Hin.
Qed.

(** Policy 3 on a well-formed heap. *)
Lemma realloc_extend_inv (fuel : nat) (h : heap) (pre : list block)
      (lists : lists_t) (old size : Z) :
  heap_inv h (pre ++ [(old, true)]) lists ->
  size <> 0 -> old < adjust_size size ->
  mem_max_addr h < MINUS_ONE ->
  let ptr := first_block h + total pre in
  let new := adjust_size size in
  (mem_brk h + (new - old) <= mem_max_addr h ->
   exists h',
     mm_realloc fuel h ptr size = Some (ptr, h') /\
     heap_inv h' (pre ++ [(new, true)]) lists /\
     (seg_list h' = seg_list h /\ mem_start h' = mem_start h /\
      mem_brk h' = mem_brk h + (new - old) /\
      mem_max_addr h' = mem_max_addr h) /\
     (forall a, live (first_block h) (pre ++ [(old, true)]) a ->
                mem h' a = mem h a)) /\
  (mem_max_addr h < mem_brk h + (new - old) ->
   mm_realloc fuel h ptr size = Some (NULL, h)).
Proof.
  intros [Hpre Hfree] Hsz Hgrow Hmax ptr new.
  pose proof (in_block_starts_middle (first_block h) pre [] (old, true)) as Hin.
  fold ptr in Hin.
  destruct (pre_block _ _ _ Hpre _ _ Hin) as (T1 & T2 & Ho16 & Ho8 & Hlo & Hhi & _).
  destruct (pre_block_read _ _ _ Hpre _ _ Hin) as (Eos & _ & _ & Enx & _).
  simpl in T1, T2, Ho16, Ho8, Hhi, Eos, Enx.
  destruct (pre_brk _ _ _ Hpre) as (Ebrk & Hbrk). unfold MINUS_ONE in Hbrk, Hmax.
  rewrite total_app in Ebrk. simpl in Ebrk.
  destruct (pre_layout _ _ _ Hpre) as (_ & Hepi).
  rewrite total_app in Hepi. simpl in Hepi. unfold HDRP, WSIZE in Hepi.
  pose proof (pre_seg _ _ _ Hpre) as (Hsp & _).
  pose proof (first_block_eq h) as Efb.
  pose proof (pre_sizes _ _ _ Hpre) as Hso.
  destruct (adjust_size_valid size) as (Hnr & Hn8). fold new in Hnr, Hn8, Hgrow.
  assert (Vz : valid_size 0) by (split; [lia|reflexivity]).
  assert (Enext : ptr + old = mem_brk h) by (unfold ptr; lia).
  replace (first_block h + (total pre + (old + 0)) - 4) with (ptr + old - 4)
    in Hepi by (unfold ptr; lia).
  destruct (tag_decode h _ 0 1 Vz ltac:(right; reflexivity) Hepi) as (Ees & Eea).
  assert (Eeval :
    mm_realloc fuel h ptr size =
    let (p, h0) := mem_sbrk h (new - old) in
    if p =? MINUS_ONE then Some (NULL, h0)
    else
      let h1 := PUT h0 (HDRP ptr) (PACK new 1) in
      let h2 := PUT h1 (FTRP h1 ptr) (PACK new 1) in
      let h3 := PUT h2 (HDRP (NEXT_BLKP h2 ptr)) (PACK 0 1) in
      Some (ptr, h3)).
  { unfold mm_realloc.
    destruct (Z.eqb_spec ptr NULL) as [F|_]; [unfold NULL in F; lia|].
    destruct (Z.eqb_spec size 0) as [F|_]; [contradiction|].
    rewrite Eos. fold new.
    destruct (Z.leb_spec new old) as [F|_]; [lia|].
    rewrite Enx.
    change (ptr + old - 4) with (HDRP (ptr + old)) in Eea, Ees.
    rewrite Eea, Ees.
    change (1 =? 0) with false. cbn [andb]. change (0 =? 0) with true. cbv iota.
    assert (Es : sub32 new old = new - old) by (apply wrap_small; lia).
    rewrite Es. reflexivity. }
  rewrite Eeval. unfold mem_sbrk. split.
  - intros Hroom.
    destruct (Z.leb_spec (mem_brk h + (new - old)) (mem_max_addr h)); [|lia].
    destruct (Z.eqb_spec (mem_brk h) MINUS_ONE) as [F|_];
      [unfold MINUS_ONE in F; lia|].
    set (h0 := mkHeap (mem h) (seg_list h) (mem_start h)
                      (mem_brk h + (new - old)) (mem_max_addr h)).
    assert (Vn : valid_size new) by (split; assumption).
    unfold HDRP, WSIZE.
    set (h1 := PUT h0 (ptr - 4) (PACK new 1)).
    assert (E1 : GET h1 (ptr - 4) = tag (new, true)).
    { unfold h1. rewrite GET_PUT_same. apply (wrap_tag new true Vn). }
    rewrite (FTRP_read h1 ptr (new, true) Vn E1). simpl fst.
    set (h2 := PUT h1 (ptr + new - 8) (PACK new 1)).
    assert (E2 : GET h2 (ptr - 4) = tag (new, true)).
    { unfold h2. rewrite GET_PUT_other by lia. exact E1. }
    rewrite (NEXT_BLKP_read h2 ptr (new, true) Vn E2). simpl fst.
    set (h3 := PUT h2 (ptr + new - 4) (PACK 0 1)).
    exists h3. split; [reflexivity|].
    split; [|split; [repeat split|]].
    + constructor.
      * apply (heap_pre_grow_last h h3 pre lists old new Hpre); try assumption.
        -- lia.
        -- reflexivity.
        -- reflexivity.
        -- unfold h3, h2, h1, h0, MINUS_ONE. simpl. lia.
        -- fold ptr. intros a Ha. unfold h3, h2, h1.
           rewrite !GET_PUT_other by lia. reflexivity.
        -- fold ptr. unfold h3. rewrite GET_PUT_other by lia. exact E2.
        -- fold ptr. unfold h3. rewrite GET_PUT_other by lia.
           unfold h2. rewrite GET_PUT_same. apply (wrap_tag new true Vn).
        -- fold ptr. unfold h3. rewrite GET_PUT_same. reflexivity.
      * change (first_block h3) with (first_block h).
        apply all_free_listed_app in Hfree. destruct Hfree as (F1 & _).
        apply all_free_listed_app. split; [exact F1|].
        unfold all_free_listed. simpl.
        apply Forall_cons; [discriminate|apply Forall_nil].
    + intros a Hl.
      destruct (live_not_tag _ _ _ _ _ Hso Hl Hin) as (O1 & _).
      destruct Hl as (y & t & Hy & Ha). unfold DSIZE in Ha.
      pose proof (in_block_starts_bounds _ Hso _ _ _ Hy) as Hb'.
      rewrite total_app in Hb'. simpl in Hb'.
      unfold h3, h2, h1. rewrite !mem_PUT_other by (unfold ptr in *; lia).
      reflexivity.
  - intros Hfull.
    destruct (Z.leb_spec (mem_brk h + (new - old)) (mem_max_addr h)); [lia|].
    rewrite Z.eqb_refl. reflexivity.
Qed.

(** ** Fuel is only a bound *)

Lemma scan_list_fuel (h : heap) (asize : Z) :
  forall fuel fuel' bp best_bp min_diff r,
    scan_list fuel h asize bp best_bp min_diff = Some r ->
    (fuel <= fuel')%nat ->
    scan_list fuel' h asize bp best_bp min_diff = Some r.
Proof.
  induction fuel as [|fuel IH]; intros fuel' bp best_bp min_diff r E Hle;
    [discriminate|].
  destruct fuel' as [|fuel']; [lia|].
  cbn [scan_list] in *.
  destruct (bp =? NULL); [exact E|].
  destruct (asize <=? GET_SIZE h (HDRP bp)).
  - destruct (sub32 (GET_SIZE h (HDRP bp)) asize =? 0); [exact E|].
    destruct (sub32 (GET_SIZE h (HDRP bp)) asize <? min_diff);
      apply (IH fuel'); (exact E || lia).
  - apply (IH fuel'); (exact E || lia).
Qed.

Lemma find_fit_from_fuel (h : heap) (asize : Z) (fuel fuel' : nat) :
  (fuel <= fuel')%nat ->
  forall n i best_bp min_diff r,
    find_fit_from n fuel h asize i best_bp min_diff = Some r ->
    find_fit_from n fuel' h asize i best_bp min_diff = Some r.
Proof.
  intros Hle. induction n as [|n IH]; intros i best_bp min_diff r E;
    cbn [find_fit_from] in *; [exact E|].
  destruct (scan_list fuel h asize (seg_get h i) best_bp min_diff) as [sc|] eqn:Es;
    [|discriminate].
  rewrite (scan_list_fuel h asize fuel fuel' _ _ _ sc Es Hle).
  destruct sc as [bp|b m]; [exact E|].
  destruct (negb (b =? NULL)); [exact E|]. apply IH. exact E.
Qed.

Lemma mm_malloc_fuel (fuel fuel' : nat) (h : heap) (size : Z) (r : Z * heap) :
  mm_malloc fuel h size = Some r -> (fuel <= fuel')%nat ->
  mm_malloc fuel' h size = Some r.
Proof.
  unfold mm_malloc. intros E Hle.
  destruct (size =? 0); [exact E|].
  destruct (find_fit fuel h (adjust_size size)) as [bp|] eqn:Ef; [|discriminate].
  unfold find_fit in *.
  rewrite (find_fit_from_fuel h _ fuel fuel' Hle _ _ _ _ _ Ef). exact E.
Qed.

Lemma mm_realloc_fuel (fuel fuel' : nat) (h : heap) (ptr size : Z)
      (r : Z * heap) :
  mm_realloc fuel h ptr size = Some r -> (fuel <= fuel')%nat ->
  mm_realloc fuel' h ptr size = Some r.
Proof.
  unfold mm_realloc. intros E Hle.
  destruct (ptr =? NULL); [apply (mm_malloc_fuel fuel); assumption|].
  destruct (size =? 0); [exact E|].
  destruct (adjust_size size <=? GET_SIZE h (HDRP ptr)); [exact E|].
  destruct ((GET_ALLOC h (HDRP (NEXT_BLKP h ptr)) =? 0) &&
            (adjust_size size <=?
             add32 (GET_SIZE h (HDRP ptr)) (GET_SIZE h (HDRP (NEXT_BLKP h ptr)))));
    [exact E|].
  destruct (GET_SIZE h (HDRP (NEXT_BLKP h ptr)) =? 0); [exact E|].
  destruct (mm_malloc fuel h size) as [(newptr, h1)|] eqn:Em; [|discriminate].
  rewrite (mm_malloc_fuel fuel fuel' h size _ Em Hle). exact E.
Qed.

Lemma no_adjacent_free_alloc_mid (pre post : list block) (s : Z) :
  no_adjacent_free pre -> no_adjacent_free post ->
  no_adjacent_free (pre ++ (s, true) :: post).
Proof.
  intros H1 H2. apply no_adjacent_free_app. split; [exact H1|]. split.
  - simpl. split; [|exact H2]. destruct post; [exact I|].
    intros (F & _). discriminate.
  - simpl. intros (_ & F). discriminate.
Qed.

(** An allocated block that takes over the free blocks [rest] behind it:
    the other allocated blocks are the same before and after. *)
Lemma grow_in_place_blocks (bp : Z) (pre rest post : list block) (old : Z)
      (y t : Z) :
  (forall c, In c rest -> snd c = false) ->
  y <> bp + total pre ->
  (In (y, (t, true)) (block_starts bp (pre ++ ((old, true) :: rest) ++ post)) <->
   In (y, (t, true))
      (block_starts bp (pre ++ [(old + total rest, true)] ++ post))).
Proof.
  intros Hrest Hne. split; intros Hin.
  - apply (in_block_starts_swap bp pre ((old, true) :: rest)); [simpl; lia|exact Hin|].
    simpl. intros [F|F]; [injection F as F1 _; lia|].
    apply in_block_starts_In in F. apply Hrest in F. discriminate.
  - apply (in_block_starts_swap bp pre [(old + total rest, true)]);
      [simpl; lia|exact Hin|].
    simpl. intros [F|[]]. injection F as F1 _. lia.
Qed.

(** [mm_realloc] on an allocated block of a well-formed heap, whichever
    policy applies. *)
Lemma realloc_step (fuel : nat) (h : heap) (pre post : list block)
      (lists : lists_t) (old size : Z) :
  heap_inv h (pre ++ (old, true) :: post) lists ->
  no_adjacent_free (pre ++ (old, true) :: post) ->
  mem_max_addr h < MINUS_ONE ->
  0 < size <= SIZE_MAX - 15 ->
  (forall j, 0 <= j < LIST_LIMIT -> (length (lists j) < fuel)%nat) ->
  let fb := first_block h in
  let bl := pre ++ (old, true) :: post in
  let p := fb + total pre in
  exists q h',
    mm_realloc fuel h p size = Some (q, h') /\
    (q = NULL -> h' = h) /\
    (q <> NULL ->
     (forall k, 0 <= k < old - DSIZE -> mem h' (q + k) = mem h (p + k)) /\
     exists bl' lists',
       heap_inv h' bl' lists' /\ no_adjacent_free bl' /\
       (seg_list h' = seg_list h /\ mem_start h' = mem_start h /\
        mem_max_addr h' = mem_max_addr h) /\
       (exists s, In (q, (s, true)) (block_starts fb bl') /\ size + DSIZE <= s) /\
       (q <> p ->
        (forall t, ~ In (p, (t, true)) (block_starts fb bl')) /\
        (forall t, ~ In (q, (t, true)) (block_starts fb bl))) /\
       (forall y t, In (y, (t, true)) (block_starts fb bl) -> y <> p ->
                    In (y, (t, true)) (block_starts fb bl') /\
                    (forall a, y <= a < y + t - DSIZE -> mem h' a = mem h a)) /\
       (forall y t, In (y, (t, true)) (block_starts fb bl') ->
                    y = q \/ (y <> p /\ In (y, (t, true)) (block_starts fb bl)))).
Proof.
  intros Hinv Hnaf Hmax Hsize Hfuel fb bl p.
  pose proof Hinv as [Hpre _].
  pose proof (pre_sizes _ _ _ Hpre) as Hso.
  assert (Hin : In (p, (old, true)) (block_starts fb bl))
    by apply in_block_starts_middle.
  destruct (pre_block _ _ _ Hpre _ _ Hin) as (_ & _ & Ho16 & _ & Hlo & _ & _).
  destruct (pre_block_read _ _ _ Hpre _ _ Hin) as (Eos & _).
  simpl in Ho16, Eos.
  pose proof (pre_seg _ _ _ Hpre) as (Hsp & _).
  pose proof (first_block_eq h) as Efbh. fold fb in Efbh, Hlo.
  assert (Hpn : p <> NULL) by (unfold NULL; lia).
  destruct (adjust_size_bounds size ltac:(lia)) as (Ha16 & Hab).
  destruct (no_adjacent_free_around _ _ _ Hnaf) as (Npre & Npost).
  destruct (Z_le_gt_dec (adjust_size size) old) as [Hshrink|Hgrow].
  { (* policy 1 *)
    exists p, h. split.
    - unfold mm_realloc.
      destruct (Z.eqb_spec p NULL) as [F|_]; [contradiction|].
      destruct (Z.eqb_spec size 0) as [F|_]; [lia|].
      rewrite Eos.
      destruct (Z.leb_spec (adjust_size size) old); [reflexivity|lia].
    - split; [intros F; contradiction|]. intros _.
      split; [reflexivity|].
      exists bl, lists. split; [exact Hinv|]. split; [exact Hnaf|].
      split; [repeat split|].
      split; [exists old; split; [exact Hin|unfold DSIZE; lia]|].
      split; [intros F; contradiction|].
      split; [intros y t Hy _; split; [exact Hy|reflexivity]|].
      intros y t Hy. destruct (Z.eq_dec y p) as [E|Hne]; [left; exact E|right].
      split; assumption. }
  destruct post as [|(ns, na) post].
  { (* policy 3 *)
    destruct (realloc_extend_inv fuel h pre lists old size Hinv ltac:(lia)
                ltac:(lia) Hmax) as (Hok & Hfail).
    fold fb p in Hok, Hfail.
    destruct (Z_le_gt_dec (mem_brk h + (adjust_size size - old)) (mem_max_addr h))
      as [Hroom|Hfull].
    - destruct (Hok Hroom) as (h' & Er & Hinv' & (E1 & E2 & _ & E4) & Hk).
      exists p, h'. split; [exact Er|]. split; [intros F; contradiction|].
      intros _. split.
      + intros k Hk'. apply Hk. apply (live_of_block _ _ p old); [exact Hin|lia].
      + exists (pre ++ [(adjust_size size, true)]), lists.
        split; [exact Hinv'|].
        split; [apply no_adjacent_free_alloc_mid; [exact Npre|exact I]|].
        split; [repeat split; assumption|].
        split.
        { exists (adjust_size size). split; [apply in_block_starts_middle|].
          unfold DSIZE. lia. }
        split; [intros F; contradiction|].
        split.
        * intros y t Hy Hne. split.
          -- unfold bl in Hy. rewrite block_starts_app in *.
             apply in_app_or in Hy. apply in_or_app.
             destruct Hy as [Hy|[Hy|[]]]; [left; exact Hy|].
             injection Hy as Hy1 _. unfold p in Hne. lia.
          -- intros a Ha. apply Hk. apply (live_of_block _ _ y t); assumption.
        * intros y t Hy. rewrite block_starts_app in Hy. apply in_app_or in Hy.
          destruct Hy as [Hy|[Hy|[]]].
          -- right.
             apply sizes_ok_app in Hso. destruct Hso as (Hs1 & _).
             pose proof (in_block_starts_bounds _ Hs1 _ _ _ Hy).
             pose proof (in_block_starts_sizes _ _ _ _ Hs1 Hy). simpl in *.
             split; [unfold p; lia|].
             unfold bl. rewrite block_starts_app. apply in_or_app. left. exact Hy.
          -- left. injection Hy as Hy1 _. unfold p. lia.
    - exists NULL, h. split; [apply Hfail; lia|]. split; [reflexivity|].
      intros F. contradiction. }
  destruct (Bool.bool_dec na false) as [Ena|Ena];
    [destruct (Z_le_gt_dec (adjust_size size) (old + ns)) as [Hfit|Hsmall]|].
  - (* policy 2 *)
    subst na.
    destruct (realloc_absorb_inv_frame fuel h pre post lists old ns size Hinv
                ltac:(lia) ltac:(lia) Hfit)
      as (h' & Er & Hinv' & Hown & (E1 & E2 & _ & E4) & Hk).
    fold fb p in Er, Hinv', Hown, Hk.
    exists p, h'. split; [exact Er|]. split; [intros F; contradiction|].
    intros _. split.
    + intros k Hk'. apply Hown. lia.
    + exists (pre ++ (old + ns, true) :: post). eexists.
      split; [exact Hinv'|].
      split.
      { apply no_adjacent_free_alloc_mid; [exact Npre|].
        simpl in Npost. apply Npost. }
      split; [repeat split; assumption|].
      split.
      { exists (old + ns). split; [apply in_block_starts_middle|].
        unfold DSIZE. lia. }
      split; [intros F; contradiction|].
      assert (Hiff : forall y t, y <> p ->
                (In (y, (t, true)) (block_starts fb bl) <->
                 In (y, (t, true))
                    (block_starts fb (pre ++ (old + ns, true) :: post)))).
      { intros y t Hne.
        pose proof (grow_in_place_blocks fb pre [(ns, false)] post old y t) as G.
        simpl in G. replace (old + (ns + 0)) with (old + ns) in G by lia.
        apply G; [|exact Hne]. intros c [<-|[]]. reflexivity. }
      split.
      * intros y t Hy Hne. split; [apply (Hiff y t Hne); exact Hy|].
        intros a Ha. apply Hk. apply (live_of_block _ _ y t); assumption.
      * intros y t Hy. destruct (Z.eq_dec y p) as [E|Hne]; [left; exact E|right].
        split; [exact Hne|apply (Hiff y t Hne); exact Hy].
  - (* fallback: the next block is free but too small *)
    subst na.
    destruct (realloc_move_step fuel h pre post lists old ns false size Hinv Hmax
                Hsize Hfuel ltac:(lia) ltac:(right; lia))
      as (q & h' & Er & Hnull & Hok).
    fold fb bl p in Er, Hok.
    exists q, h'. split; [exact Er|]. split; [exact Hnull|].
    intros Hq. destruct (Hok Hq)
      as (Hqp & Hcopy & bl' & lists' & A & _ & B & C & D & E & F & G & Hfresh).
    split; [exact Hcopy|].
    exists bl', lists'. split; [exact A|]. split; [exact (F Hnaf)|].
    split; [exact E|]. split; [exact B|].
    split; [intros _; split; [exact C|exact Hfresh]|].
    split; [exact D|exact G].
  - (* fallback: the next block is in use *)
    assert (Ena' : na = true) by (destruct na; [reflexivity|contradiction]).
    subst na.
    destruct (realloc_move_step fuel h pre post lists old ns true size Hinv Hmax
                Hsize Hfuel ltac:(lia) ltac:(left; reflexivity))
      as (q & h' & Er & Hnull & Hok).
    fold fb bl p in Er, Hok.
    exists q, h'. split; [exact Er|]. split; [exact Hnull|].
    intros Hq. destruct (Hok Hq)
      as (Hqp & Hcopy & bl' & lists' & A & _ & B & C & D & E & F & G & Hfresh).
    split; [exact Hcopy|].
    exists bl', lists'. split; [exact A|]. split; [exact (F Hnaf)|].
    split; [exact E|]. split; [exact B|].
    split; [intros _; split; [exact C|exact Hfresh]|].
    split; [exact D|exact G].
Qed.

(** ** Every reachable state is well formed *)

Lemma remove_node_NoDup (x : Z) (l : list Z) : NoDup l -> NoDup (remove_node x l).
Proof. intros H. unfold remove_node. apply NoDup_filter. exact H. Qed.

(** What holds in every reachable state. *)
Lemma reachable_inv (h : heap) (ptrs : list Z) :
  reachable h ptrs ->
  exists bl lists,
    heap_inv h bl lists /\
    no_adjacent_free bl /\
    mem_heap_lo h <= seg_list h /\
    mem_max_addr h < MINUS_ONE /\
    NoDup ptrs /\
    (forall p, In p ptrs <->
               exists s, In (p, (s, true)) (block_starts (first_block h) bl)).
Proof.
  induction 1 as [h0 Hpos H8 Hlo Hroom Hmax
                 |h ptrs fuel size p h' _ IH Hsize Em
                 |h ptrs p _ IH Hp
                 |h ptrs fuel p size q h' _ IH Hp Hsize Er].
  - destruct (mm_init_step h0 Hpos H8 Hroom Hmax) as (_ & Es & _ & Hinv & Est & Emx).
    eexists. eexists. split; [exact Hinv|].
    split; [simpl; tauto|].
    split; [unfold mem_heap_lo in *; rewrite Est, Es; exact Hlo|].
    split; [rewrite Emx; exact Hmax|].
    split; [constructor|].
    intros p. split; [intros []|].
    intros (s & [F|[]]). discriminate F.
  - destruct IH as (bl & lists & Hinv & Hnaf & Hlo & Hmax & Hnd & Hset).
    set (fuel' := Nat.max fuel (S (length bl))).
    assert (Em' : mm_malloc fuel' h size = Some (p, h'))
      by (apply (mm_malloc_fuel fuel); [exact Em|apply Nat.le_max_l]).
    destruct (mm_malloc_cases fuel' h bl lists size Hinv Hmax Hsize)
      as (p0 & h0 & bl' & lists' & Em0 & Hinv' & (Esl & Est & Emx) & _ & Hkeep
          & Hwas & Hnaf' & Hcase).
    { intros j Hj. pose proof (list_length_bound h bl lists j Hinv Hj).
      pose proof (Nat.le_max_r fuel (S (length bl))). unfold fuel'. lia. }
    rewrite Em' in Em0. apply some_pair_inj in Em0. destruct Em0 as (<- & <-).
    assert (Efb : first_block h' = first_block h)
      by (unfold first_block, heap_start; rewrite Esl; reflexivity).
    exists bl', lists'. split; [exact Hinv'|]. split; [exact (Hnaf' Hnaf)|].
    split; [unfold mem_heap_lo in *; rewrite Est, Esl; exact Hlo|].
    split; [rewrite Emx; exact Hmax|].
    rewrite Efb.
    destruct Hcase as [(-> & _ & -> & _)|(Hpn & _ & (s & Hs & _) & _)].
    + change (NULL =? NULL) with true. cbv iota. split; [exact Hnd|exact Hset].
    + destruct (Z.eqb_spec p NULL) as [F|_]; [contradiction|]. split.
      * constructor; [|exact Hnd]. intros F. apply Hset in F.
        destruct F as (t & Ht). destruct (Hkeep p t Ht) as (_ & K). exact (K Hpn eq_refl).
      * intros y. split.
        -- intros [<-|Hy]; [exists s; exact Hs|].
           apply Hset in Hy. destruct Hy as (t & Ht). exists t.
           apply (Hkeep y t Ht).
        -- intros (t & Ht). destruct (Hwas y t Ht) as [->|Hy];
             [left; reflexivity|right]. apply Hset. exists t. exact Hy.
  - destruct IH as (bl & lists & Hinv & Hnaf & Hlo & Hmax & Hnd & Hset).
    pose proof Hp as Hp'. apply Hset in Hp'. destruct Hp' as (s & Hs).
    destruct (in_block_starts_split _ _ _ _ Hs) as (pre & post & Ebl & Ep).
    subst bl.
    destruct (mm_free_step h pre post s lists Hinv)
      as (Hinv' & (Esl & Est & _ & Emx) & _ & Efb & _ & _ & _ & Hkeep).
    rewrite <- Ep in Hinv', Esl, Est, Emx, Efb, Hkeep.
    eexists. eexists. split; [exact Hinv'|].
    split.
    { destruct (no_adjacent_free_around _ _ _ Hnaf) as (N1 & N2).
      apply coalesced_no_adjacent_free; assumption. }
    split; [unfold mem_heap_lo in *; rewrite Est, Esl; exact Hlo|].
    split; [rewrite Emx; exact Hmax|].
    split; [apply remove_node_NoDup; exact Hnd|].
    rewrite Efb. intros y. rewrite remove_node_in. split.
    + intros (Hy & Hne). apply Hset in Hy. destruct Hy as (t & Ht).
      exists t. apply (Hkeep y t Ht Hne).
    + intros (t & Ht).
      destruct Hinv as [Hpre _].
      destruct (coalesced_allocated_was _ pre post s true y t
                  (pre_sizes _ _ _ Hpre) Ht) as (Hy & Hne).
      split; [apply Hset; exists t; exact Hy|]. rewrite Ep. exact Hne.
  - destruct IH as (bl & lists & Hinv & Hnaf & Hlo & Hmax & Hnd & Hset).
    pose proof Hp as Hp'. apply Hset in Hp'. destruct Hp' as (old & Hold).
    destruct (in_block_starts_split _ _ _ _ Hold) as (pre & post & Ebl & Ep).
    set (fuel' := Nat.max fuel (S (length bl))).
    assert (Hfuel' : forall j, 0 <= j < LIST_LIMIT ->
                               (length (lists j) < fuel')%nat).
    { intros j Hj. pose proof (list_length_bound h _ lists j Hinv Hj).
      pose proof (Nat.le_max_r fuel (S (length bl))). unfold fuel'. lia. }
    assert (Er' : mm_realloc fuel' h p size = Some (q, h'))
      by (apply (mm_realloc_fuel fuel); [exact Er|apply Nat.le_max_l]).
    clearbody fuel'. subst bl.
    destruct (realloc_step fuel' h pre post lists old size Hinv Hnaf Hmax Hsize
                Hfuel')
      as (q0 & h0 & Er0 & Hnull & Hok).
    rewrite <- Ep, Er' in Er0. apply some_pair_inj in Er0.
    destruct Er0 as (<- & <-). rewrite <- Ep in Hok.
    destruct (Z.eqb_spec q NULL) as [Eq|Hq].
    + rewrite (Hnull Eq). exists (pre ++ (old, true) :: post), lists.
      split; [exact Hinv|]. split; [exact Hnaf|]. split; [exact Hlo|].
      split; [exact Hmax|]. split; [exact Hnd|exact Hset].
    + destruct (Hok Hq) as (_ & bl' & lists' & Hinv' & Hnaf' & (Esl & Est & Emx)
                            & (s & Hs & _) & Hmoved & Hkeep & Hwas).
      assert (Efb : first_block h' = first_block h)
        by (unfold first_block, heap_start; rewrite Esl; reflexivity).
      exists bl', lists'. split; [exact Hinv'|]. split; [exact Hnaf'|].
      split; [unfold mem_heap_lo in *; rewrite Est, Esl; exact Hlo|].
      split; [rewrite Emx; exact Hmax|].
      rewrite Efb. split.
      * constructor; [|apply remove_node_NoDup; exact Hnd].
        rewrite remove_node_in. intros (Hy & Hne).
        apply Hset in Hy. destruct Hy as (t & Ht).
        destruct (Hmoved Hne) as (_ & Hfresh). exact (Hfresh t Ht).
      * intros y. split.
        -- intros [<-|Hy]; [exists s; exact Hs|].
           apply remove_node_in in Hy. destruct Hy as (Hy & Hne).
           apply Hset in Hy. destruct Hy as (t & Ht). exists t.
           apply (Hkeep y t Ht Hne).
        -- intros (t & Ht). destruct (Hwas y t Ht) as [->|(Hne & Hy)];
             [left; reflexivity|right].
           apply remove_node_in. split; [|exact Hne]. apply Hset. exists t. exact Hy.
Qed.

(** X14: however a client interleaves [mm_malloc], [mm_free] and [mm_realloc]
    after [mm_init] (within the interface: no request that wraps the
    rounding, [mm_free] and [mm_realloc] only of pointers that are in use),
    the heap satisfies the design's invariants, has no two adjacent free
    blocks, the blocks in use are exactly the pointers handed out and not
    yet given back, and [mm_check] returns 1. *)
Theorem reachable_well_formed (h : heap) (ptrs : list Z) :
  reachable h ptrs ->
  exists bl lists,
    heap_inv h bl lists /\
    no_adjacent_free bl /\
    NoDup ptrs /\
    (forall p, In p ptrs <->
               exists s, In (p, (s, true)) (block_starts (first_block h) bl)) /\
    (forall fuel, (S (length bl) < fuel)%nat -> mm_check fuel h = Some (Return 1)).
Proof.
  intros Hr.
  destruct (reachable_inv h ptrs Hr) as (bl & lists & Hinv & Hnaf & Hlo & _ & Hnd & Hset).
  exists bl, lists. split; [exact Hinv|]. split; [exact Hnaf|].
  split; [exact Hnd|]. split; [exact Hset|].
  intros fuel Hf. apply (mm_check_passes fuel h bl lists Hinv Hnaf Hlo Hf).
Qed.

(** [mm_realloc] on a block in use, for the result [(q, h')] of the call. *)
Lemma mm_realloc_contract_at (fuel : nat) (h : heap) (bl : list block)
        (lists : lists_t) (p old size q : Z) (h' : heap) :
  heap_inv h bl lists ->
  no_adjacent_free bl ->
  mem_max_addr h < MINUS_ONE ->
  In (p, (old, true)) (block_starts (first_block h) bl) ->
  0 < size <= SIZE_MAX - 15 ->
  (forall j, 0 <= j < LIST_LIMIT -> (length (lists j) < fuel)%nat) ->
  mm_realloc fuel h p size = Some (q, h') ->
  let fb := first_block h in
  (q = NULL -> h' = h) /\
  (q <> NULL ->
   (forall k, 0 <= k < old - DSIZE -> mem h' (q + k) = mem h (p + k)) /\
   exists bl' lists',
     heap_inv h' bl' lists' /\ no_adjacent_free bl' /\
     first_block h' = fb /\
     (exists s, In (q, (s, true)) (block_starts fb bl') /\ size + DSIZE <= s) /\
     (q <> p -> forall t, ~ In (p, (t, true)) (block_starts fb bl')) /\
     (forall y t, In (y, (t, true)) (block_starts fb bl) -> y <> p ->
                  In (y, (t, true)) (block_starts fb bl') /\
                  (forall a, y <= a < y + t - DSIZE -> mem h' a = mem h a))).
Proof.
  intros Hinv Hnaf Hmax Hold Hsize Hfuel Er fb.
  destruct (in_block_starts_split _ _ _ _ Hold) as (pre & post & Ebl & Ep).
  subst bl.
  destruct (realloc_step fuel h pre post lists old size Hinv Hnaf Hmax Hsize Hfuel)
    as (q0 & h0 & Er0 & Hnull & Hok).
  rewrite <- Ep, Er in Er0. apply some_pair_inj in Er0.
  destruct Er0 as (<- & <-). rewrite <- Ep in Hok. fold fb in Hok.
  split; [exact Hnull|]. intros Hq.
  destruct (Hok Hq) as (Hcopy & bl' & lists' & A & B & (Esl & _) & C & D & E & _).
  split; [exact Hcopy|].
  exists bl', lists'. split; [exact A|]. split; [exact B|].
  split; [unfold fb, first_block, heap_start; rewrite Esl; reflexivity|].
  split; [exact C|]. split; [intros Hne; apply (D Hne)|exact E].
Qed.

(** X15: [mm_realloc(ptr, size)] on a block in use, whichever policy applies: it
    returns null and leaves the heap as it was, or it returns a block with
    room for [size] bytes whose first [old - 8] payload bytes -- all of
    them when the block stays where it is -- are those of the old payload;
    if the block has moved, the old one is no longer allocated; every other
    allocated block keeps its place, its size and its payload, and the heap
    is well formed with no two adjacent free blocks. *)
Theorem mm_realloc_contract (fuel : nat) (h : heap) (bl : list block)
        (lists : lists_t) (p old size : Z) :
  heap_inv h bl lists ->
  no_adjacent_free bl ->
  mem_max_addr h < MINUS_ONE ->
  In (p, (old, true)) (block_starts (first_block h) bl) ->
  0 < size <= SIZE_MAX - 15 ->
  (forall j, 0 <= j < LIST_LIMIT -> (length (lists j) < fuel)%nat) ->
  let fb := first_block h in
  exists q h',
    mm_realloc fuel h p size = Some (q, h') /\
    (q = NULL -> h' = h) /\
    (q <> NULL ->
     (forall k, 0 <= k < old - DSIZE -> mem h' (q + k) = mem h (p + k)) /\
     exists bl' lists',
       heap_inv h' bl' lists' /\ no_adjacent_free bl' /\
       first_block h' = fb /\
       (exists s, In (q, (s, true)) (block_starts fb bl') /\ size + DSIZE <= s) /\
       (q <> p -> forall t, ~ In (p, (t, true)) (block_starts fb bl')) /\
       (forall y t, In (y, (t, true)) (block_starts fb bl) -> y <> p ->
                    In (y, (t, true)) (block_starts fb bl') /\
                    (forall a, y <= a < y + t - DSIZE -> mem h' a = mem h a))).
Proof.
  intros Hinv Hnaf Hmax Hold Hsize Hfuel fb.
  assert (Ex : exists q h', mm_realloc fuel h p size = Some (q, h')).
  { destruct (in_block_starts_split _ _ _ _ Hold) as (pre & post & Ebl & Ep).
    subst bl.
    destruct (realloc_step fuel h pre post lists old size Hinv Hnaf Hmax
                           Hsize Hfuel) as (q & h' & Er & _).
    rewrite <- Ep in Er. exists q, h'. exact Er. }
  destruct Ex as (q & h' & Er).
  exists q, h'. split; [exact Er|].
  exact (mm_realloc_contract_at fuel h bl lists p old size q h'
                                Hinv Hnaf Hmax Hold Hsize Hfuel Er).
Qed.

(** ** The rounded request *)

(** X16: below the wrap-around the rounded request is the least block size with
    room for the payload and the two tags: a multiple of 8, at least 16 and
    at least [size + 8], and no such number is smaller. *)
Theorem adjust_size_least (size : Z) :
  0 <= size <= SIZE_MAX - 15 ->
  adjust_size size mod 8 = 0 /\
  16 <= adjust_size size /\
  size + DSIZE <= adjust_size size /\
  forall s, s mod 8 = 0 -> 16 <= s -> size + DSIZE <= s -> adjust_size size <= s.
Proof.
  intros Hs. destruct (adjust_size_bounds size Hs) as (H16 & Hb).
  destruct (adjust_size_valid size) as (_ & H8).
  split; [exact H8|]. split; [exact H16|]. split; [exact Hb|].
  intros s Hs8 Hs16 Hsb. rewrite (adjust_size_no_wrap size Hs).
  unfold round_up8, DSIZE in *.
  pose proof (Z.div_mod s 8 ltac:(lia)).
  pose proof (Z.div_mod (size + 8 + 7) 8 ltac:(lia)).
  pose proof (Z.mod_pos_bound (size + 8 + 7) 8 ltac:(lia)).
  apply Z.max_lub; [exact Hs16|].
  assert ((size + 8 + 7) / 8 <= s / 8); [|lia].
  apply Z.div_le_lower_bound; lia.
Qed.

(** ** [find_fit] on a well-formed heap *)

(** X17: on a well-formed heap [find_fit] is complete and best-fit by class: it
    returns null exactly when no free block of the heap has [asize] bytes;
    otherwise it returns a free block that is large enough, from the lowest
    size class that holds such a block, and no large-enough block of that
    class is smaller. *)
Theorem find_fit_complete (fuel : nat) (h : heap) (bl : list block)
        (lists : lists_t) (asize : Z) :
  heap_inv h bl lists ->
  0 <= asize ->
  (forall j, 0 <= j < LIST_LIMIT -> (length (lists j) < fuel)%nat) ->
  exists r,
    find_fit fuel h asize = Some r /\
    (r = NULL <-> no_fit h bl asize) /\
    (r <> NULL ->
     exists s,
       In (r, (s, false)) (block_starts (first_block h) bl) /\ asize <= s /\
       forall x t,
         In (x, (t, false)) (block_starts (first_block h) bl) -> asize <= t ->
         get_list_index s <= get_list_index t /\
         (get_list_index t = get_list_index s -> s <= t)).
Proof.
  intros Hinv Ha Hfuel. pose proof Hinv as [Hpre Hfree].
  assert (Hidx := get_list_index_range asize).
  destruct (find_fit_from_spec fuel h asize lists Ha
              (Z.to_nat (LIST_LIMIT - get_list_index asize))
              (get_list_index asize)) as (r & Er & Hr).
  { lia. }
  { intros j Hj. apply (pre_lists_terminate h bl lists j Hpre). lia. }
  { intros j Hj. apply Hfuel. lia. }
  fold (find_fit fuel h asize) in Er. exists r. split; [exact Er|].
  assert (Hlisted : forall x t,
            In (x, (t, false)) (block_starts (first_block h) bl) -> asize <= t ->
            get_list_index asize <= get_list_index t < LIST_LIMIT /\
            In x (lists (get_list_index t)) /\ block_size h x = t).
  { intros x t Hx Ht.
    pose proof (get_list_index_range t).
    pose proof (get_list_index_mono asize t Ht).
    split; [lia|]. split.
    - unfold all_free_listed in Hfree. rewrite Forall_forall in Hfree.
      apply (Hfree (x, (t, false)) Hx). reflexivity.
    - destruct (pre_block_read _ _ _ Hpre _ _ Hx) as (E & _). exact E. }
  destruct Hr as [(-> & Hnone)|(Hrn & c & Hc & Hlow & (Hrin & Hrsz & Hmin) & _)].
  - split; [|intros F; contradiction]. split; [|reflexivity].
    intros _ x t Hx. destruct (Z_lt_ge_dec t asize) as [Hlt|Hge]; [exact Hlt|].
    exfalso. destruct (Hlisted x t Hx ltac:(lia)) as (Hi & Hl & Eb).
    apply (Hnone _ Hi). exists x. split; [exact Hl|lia].
  - assert (Hcr : 0 <= c < LIST_LIMIT) by lia.
    destruct (pre_listed_at _ _ _ Hpre c r Hcr Hrin) as (s & Hs & Ec).
    destruct (pre_block_read _ _ _ Hpre _ _ Hs) as (Es & _). simpl in Es.
    unfold block_size in Hrsz, Hmin. rewrite Es in Hrsz.
    split.
    + split; [intros F; contradiction|]. intros Hnf. specialize (Hnf r s Hs). lia.
    + intros _. exists s. split; [exact Hs|]. split; [exact Hrsz|].
      intros x t Hx Ht. destruct (Hlisted x t Hx Ht) as (Hi & Hl & Eb).
      unfold block_size in Eb. rewrite Ec. split.
      * destruct (Z_lt_ge_dec (get_list_index t) c) as [Hlt|Hge]; [|lia].
        exfalso. apply (Hlow (get_list_index t) ltac:(lia)).
        exists x. split; [exact Hl|]. unfold block_size. lia.
      * intros E. rewrite E in Hl. specialize (Hmin x Hl). rewrite Es, Eb in Hmin.
        apply Hmin. lia.
Qed.

(** ** [mm_free] followed by [mm_malloc] *)

(** X18: the block just freed is the first to be reused: after [mm_free(ptr)] on
    a well-formed heap, a request whose rounded size is exactly the size of
    the free block that [ptr] has become part of returns that block. *)
Theorem free_then_malloc_reuses (fuel : nat) (h : heap) (pre post : list block)
        (s : Z) (lists : lists_t) (size : Z) :
  heap_inv h (pre ++ (s, true) :: post) lists ->
  0 < size <= SIZE_MAX - 15 ->
  adjust_size size = coalesced_size pre s post ->
  let ptr := first_block h + total pre in
  let h1 := mm_free h ptr in
  let bp := coalesced_start ptr pre in
  mm_malloc (S fuel) h1 size = Some (bp, place h1 bp (adjust_size size)) /\
  bp <= ptr /\ ptr + s <= bp + adjust_size size.
Proof.
  intros Hinv Hsize Ea ptr h1 bp.
  destruct (mm_free_step h pre post s lists Hinv)
    as (Hinv1 & _ & _ & Efb & _ & Hb1 & Hb2 & _).
  fold ptr h1 in Hinv1, Efb. fold ptr bp in Hb1, Hb2.
  destruct (coalesced_block_facts h1 pre post s (first_block h) ptr lists
              Hinv1 Efb eq_refl) as (Hhd & _ & Ehead).
  fold bp in Hhd, Ehead. rewrite <- Ea in Hhd, Ehead, Hb2.
  split; [|split; assumption].
  destruct (adjust_size_valid size) as (Hr & H8).
  destruct (adjust_size_bounds size ltac:(lia)) as (H16 & _).
  set (asize := adjust_size size) in *.
  assert (Esz : GET_SIZE h1 (HDRP bp) = asize).
  { destruct (tag_decode h1 (HDRP bp) asize 0) as (E & _);
      [split; assumption|left; reflexivity|exact Hhd|exact E]. }
  assert (Hbp : bp <> NULL).
  { pose proof Hinv as [Hpre _].
    destruct (around_block h pre post s true lists Hpre)
      as (_ & (_ & _ & _ & _ & _ & _ & _ & _ & Hlo & _ & _ & Hsp)).
    pose proof (first_block_eq h). unfold bp, coalesced_start, NULL.
    fold ptr in Hlo. lia. }
  unfold mm_malloc.
  destruct (Z.eqb_spec size 0) as [F|_]; [lia|]. fold asize.
  assert (Ef : find_fit (S fuel) h1 asize = Some bp).
  { unfold find_fit.
    pose proof (get_list_index_range asize) as Hi. unfold LIST_LIMIT in *.
    destruct (Z.to_nat (20 - get_list_index asize)) as [|n] eqn:En; [lia|].
    cbn [find_fit_from scan_list]. rewrite Ehead.
    destruct (Z.eqb_spec bp NULL) as [F|_]; [contradiction|].
    rewrite Esz. rewrite Z.leb_refl.
    replace (sub32 asize asize) with 0
      by (unfold sub32, wrap; rewrite Z.sub_diag; reflexivity).
    reflexivity. }
  rewrite Ef. destruct (Z.eqb_spec bp NULL) as [F|_]; [contradiction|].
  reflexivity.
Qed.

(** ** A free block that is on no list *)

Lemma listed_incl_free (h : heap) (bl : list block) (lists : lists_t) :
  heap_pre h bl lists ->
  incl (listed_nodes lists 0 (Z.to_nat LIST_LIMIT))
       (free_starts (first_block h) bl).
Proof.
  intros Hpre x Hx. apply in_listed_nodes in Hx. destruct Hx as (j & Hj & Hx).
  apply in_free_starts.
  destruct (pre_listed_at h bl lists Hpre j x) as (s & Hs & _);
    [unfold LIST_LIMIT in *; simpl in Hj; lia|exact Hx|].
  exists s. exact Hs.
Qed.

(** X19: the checker detects a lost block: when the heap is well formed except
    that a free block is on no list, [mm_check] leaves through
    ["Free block count mismatch"], with more free blocks counted in the
    heap than in the lists. *)
Theorem mm_check_reports_lost_block (fuel : nat) (h : heap) (bl : list block)
        (lists : lists_t) (x s : Z) :
  heap_pre h bl lists ->
  no_adjacent_free bl ->
  mem_heap_lo h <= seg_list h ->
  In (x, (s, false)) (block_starts (first_block h) bl) ->
  (forall j, 0 <= j < LIST_LIMIT -> ~ In x (lists j)) ->
  (S (length bl) < fuel)%nat ->
  exists by_heap by_list,
    by_list < by_heap /\
    mm_check fuel h = Some (Exit (CountMismatch by_heap by_list)).
Proof.
  intros Hpre Hnaf Hlo Hx Hlost Hf.
  destruct (audit_facts h bl lists Hpre Hnaf Hlo)
    as ((Hps & Hpa) & Hw & He & Hb & Hc & Hl & Hlb & Hp & Hn).
  set (free := free_starts (first_block h) bl) in *.
  set (listed := listed_nodes lists 0 (Z.to_nat LIST_LIMIT)).
  assert (Hnd : NoDup listed)
    by (apply (listed_nodes_NoDup h bl lists Hpre); unfold LIST_LIMIT; simpl; lia).
  assert (Hincl : incl listed free) by apply (listed_incl_free h bl lists Hpre).
  assert (Hlt : (length listed < length free)%nat).
  { destruct (Nat.lt_ge_cases (length listed) (length free)) as [Hlt|Hge];
      [exact Hlt|].
    exfalso.
    pose proof (NoDup_length_incl Hnd Hge Hincl) as Hback.
    assert (Hxf : In x free) by (apply in_free_starts; exists s; exact Hx).
    apply Hback in Hxf. apply in_listed_nodes in Hxf.
    destruct Hxf as (j & Hj & Hxj). apply (Hlost j); [|exact Hxj].
    unfold LIST_LIMIT in *. simpl in Hj. lia. }
  assert (Hfl : forall j, 0 <= j < LIST_LIMIT -> (length (lists j) < fuel)%nat).
  { intros j Hj.
    assert (Hle : (length (lists j) <= length listed)%nat).
    { apply NoDup_incl_length.
      - apply (is_list_NoDup h _ (seg_get h j)).
        apply (pre_lists_terminate h bl lists j Hpre Hj).
      - intros y Hy. apply in_listed_nodes. exists j.
        split; [unfold LIST_LIMIT in *; simpl; lia|exact Hy]. }
    pose proof (free_starts_length bl (first_block h)). fold free in H. lia. }
  exists (Z.of_nat (length free)), (Z.of_nat (length listed)).
  split; [lia|].
  unfold mm_check. fold (heap_start h).
  unfold block_size in Hps. rewrite Hps, Z.eqb_refl. cbn [negb orb].
  destruct (Z.eqb_spec (GET_ALLOC h (HDRP (heap_start h))) 0); [contradiction|].
  rewrite (check_heap_passes h _ _ fuel _ 0 Hw Hb Hc)
    by (cbn [length]; rewrite length_map, block_starts_length; exact Hf).
  assert (Hs : GET_SIZE h (HDRP (first_block h + total bl)) = 0).
  { destruct (pre_layout _ _ _ Hpre) as (_ & Hepi).
    destruct (tag_decode h _ 0 1 ltac:(split; [lia|reflexivity])
                         ltac:(right; reflexivity) Hepi) as (E & _). exact E. }
  rewrite Hs. simpl (0 =? 0). cbn [negb orb].
  destruct (Z.eqb_spec (GET_ALLOC h (HDRP (first_block h + total bl))) 0);
    [contradiction|].
  rewrite (check_lists_passes h lists fuel (Z.to_nat LIST_LIMIT) 0 0 (Z.le_refl 0)
                              eq_refl Hl Hlb Hp Hfl).
  rewrite Hn, !Z.add_0_l, listed_from_length. fold listed.
  destruct (Z.eqb_spec (Z.of_nat (length free)) (Z.of_nat (length listed)));
    [lia|reflexivity].
Qed.

(** ** When [mm_malloc] fails *)

(** X20: [mm_malloc] returns null only for a request of 0 bytes, or when no
    free block is large enough for the rounded request and the provider
    refuses [max(asize, CHUNKSIZE)] more bytes; the heap is then exactly as
    it was. *)
Theorem mm_malloc_fails_cleanly (fuel : nat) (h : heap) (bl : list block)
        (lists : lists_t) (size : Z) (h' : heap) :
  heap_inv h bl lists ->
  mem_max_addr h < MINUS_ONE ->
  0 <= size <= SIZE_MAX - 15 ->
  (forall j, 0 <= j < LIST_LIMIT -> (length (lists j) < fuel)%nat) ->
  mm_malloc fuel h size = Some (NULL, h') ->
  h' = h /\
  (size = 0 \/
   (no_fit h bl (adjust_size size) /\
    mem_max_addr h < mem_brk h + Z.max (adjust_size size) CHUNKSIZE)).
Proof.
  intros Hinv Hmax Hsize Hfuel Em.
  destruct (mm_malloc_cases fuel h bl lists size Hinv Hmax Hsize Hfuel)
    as (p0 & h0 & bl' & lists' & Em0 & _ & _ & _ & _ & _ & _ & Hcase).
  rewrite Em in Em0. apply some_pair_inj in Em0. destruct Em0 as (<- & <-).
  change CHUNKSIZE with 4096.
  destruct Hcase as [(_ & Eh & _ & _ & Hwhy) | (Hp & _)].
  - split; [exact Eh | exact Hwhy].
  - exfalso. apply Hp. reflexivity.
Qed.

(** * The public interface *)

(** ** [mm_malloc] *)

Lemma provider_refuses_iff (h : heap) (incr : Z) :
  mem_brk h <> MINUS_ONE ->
  (provider_refuses h incr <-> mem_max_addr h < mem_brk h + incr).
Proof.
  intros Hb. unfold provider_refuses, mem_sbrk.
  destruct (Z.leb_spec (mem_brk h + incr) (mem_max_addr h)); cbn [fst].
  - split; [intros F; contradiction | lia].
  - split; [intros _; assumption | reflexivity].
Qed.

(** C1, amended: on a well-formed heap and for every [size] whose rounding
    does not wrap around ([size <= SIZE_MAX - 15]), [mm_malloc(size)]
    returns either null or a pointer [p] with [p mod 8 = 0] whose block is
    allocated, lies in the heap and has at least [size] payload bytes; it
    returns null exactly when [size = 0] or when no fit was found and the
    provider refuses the extension, that is, when no free block of the heap
    has the rounded size and [mem_sbrk] answers [(void* )-1] to the request
    for [max(asize, CHUNKSIZE)] bytes.  The heap is well formed
    afterwards. *)
Theorem malloc_contract_without_wrap (fuel : nat) (h : heap) (bl : list block)
        (lists : lists_t) (size : Z) :
  heap_inv h bl lists ->
  mem_max_addr h < MINUS_ONE ->
  0 <= size <= SIZE_MAX - 15 ->
  (forall j, 0 <= j < LIST_LIMIT -> (length (lists j) < fuel)%nat) ->
  malloc_contract fuel h size /\
  (forall p h', mm_malloc fuel h size = Some (p, h') ->
                (p = NULL <->
                 size = 0 \/
                 (no_fit h bl (adjust_size size) /\
                  provider_refuses h (MAX (adjust_size size) CHUNKSIZE))) /\
                exists bl' lists', heap_inv h' bl' lists').
Proof.
  intros Hinv Hmax Hsize Hfuel.
  destruct (mm_malloc_inv fuel h bl lists size Hinv Hmax Hsize Hfuel)
    as (p & h' & bl' & lists' & Em & Hinv' & Hres).
  split.
  - exists p, h'. split; [exact Em|].
    destruct Hres as [(-> & Hwhy)|(Hp & Hs0 & Hnf & s & Hin & Hs)].
    + split; [left; reflexivity|]. split; [intros _; exact Hwhy|reflexivity].
    + split.
      * right. destruct Hinv' as [Hpre' _].
        destruct (pre_block _ _ _ Hpre' _ _ Hin) as (_ & _ & _ & _ & A1 & A2 & A3).
        destruct (pre_block_read _ _ _ Hpre' _ _ Hin) as (B1 & B2 & _).
        simpl in A2, B1, B2.
        destruct (adjust_size_bounds size Hsize) as (_ & Hb).
        unfold provides, block_size, DSIZE. rewrite B1.
        repeat split; try assumption; lia.
      * split; [intros F; contradiction|].
        intros [F|F]; contradiction.
  - intros p0 h0 E. split.
    + pose proof (mm_malloc_null_iff fuel h bl lists size p0 h0 Hinv Hmax
                                     Hsize Hfuel E) as Hiff.
      destruct Hinv as [Hpre _].
      pose proof (pre_brk _ _ _ Hpre) as (_ & Hlt).
      rewrite MAX_spec, provider_refuses_iff by lia.
      exact Hiff.
    + rewrite Em in E. inversion E; subst.
      exists bl', lists'. exact Hinv'.
Qed.

(** ** The interface at its boundaries *)

(** C8: [mm_malloc(0)] returns null and [mm_free(NULL)] returns at once, both
    leaving the state as it was; [mm_realloc(NULL, n)] is [mm_malloc(n)] for
    every [n]; [mm_realloc(p, 0)] for a non-null [p] returns null in the
    state that [mm_free(p)] leaves, and for a [p] that is in use on a
    well-formed heap this state has [p] freed: the heap is well formed with
    the bytes of [p] inside one free block, whose header and footer hold
    its size and a clear allocated bit and which heads the list of its
    size class; the break has not moved and every other allocated block
    keeps its tag and its payload. *)
Theorem api_boundary (fuel : nat) (h : heap) :
  mm_malloc fuel h 0 = Some (NULL, h) /\
  mm_free h NULL = h /\
  (forall n, mm_realloc fuel h NULL n = mm_malloc fuel h n) /\
  (forall p, p <> NULL -> mm_realloc fuel h p 0 = Some (NULL, mm_free h p)) /\
  (forall pre post s lists,
      heap_inv h (pre ++ (s, true) :: post) lists ->
      let p := first_block h + total pre in
      let bl' := coalesced_blocks pre s post in
      let size := coalesced_size pre s post in
      let bp := coalesced_start p pre in
      exists h',
        p <> NULL /\
        mm_realloc fuel h p 0 = Some (NULL, h') /\
        heap_inv h' bl' (coalesced_lists lists p pre s post) /\
        In (bp, (size, false)) (block_starts (first_block h') bl') /\
        bp <= p /\ p + s <= bp + size /\
        GET h' (HDRP bp) = PACK size 0 /\
        GET h' (bp + size - DSIZE) = PACK size 0 /\
        seg_get h' (get_list_index size) = bp /\
        mem_brk h' = mem_brk h /\
        forall y t,
          In (y, (t, true))
             (block_starts (first_block h) (pre ++ (s, true) :: post)) ->
          y <> p ->
          In (y, (t, true)) (block_starts (first_block h') bl') /\
          GET h' (HDRP y) = PACK t 1 /\
          (forall a, y <= a < y + t - DSIZE -> mem h' a = mem h a)).
Proof.
  assert (Hz : forall p, p <> NULL ->
                         mm_realloc fuel h p 0 = Some (NULL, mm_free h p)).
  { intros p Hp. unfold mm_realloc.
    destruct (Z.eqb_spec p NULL); [contradiction|]. reflexivity. }
  split; [reflexivity|]. split; [reflexivity|]. split; [reflexivity|].
  split; [exact Hz|].
  intros pre post s lists Hinv p bl' size bp.
  assert (Hp : p <> NULL).
  { destruct Hinv as [Hpre _].
    pose proof (pre_seg _ _ _ Hpre) as (Hsp & _).
    pose proof (first_block_eq h) as Efb.
    pose proof (pre_sizes _ _ _ Hpre) as Hso. apply sizes_ok_app in Hso.
    destruct Hso as (Hs1 & _). pose proof (total_nonneg _ Hs1).
    unfold p, NULL. lia. }
  exists (mm_free h p). split; [exact Hp|]. split; [exact (Hz p Hp)|].
  destruct (mm_free_step h pre post s lists Hinv)
    as (Hinv' & _ & Eb & Efb & Hin & Hlo & Hhi & Hkeep).
  fold p bl' bp size in Hinv', Eb, Efb, Hin, Hlo, Hhi, Hkeep.
  destruct (coalesced_block_facts (mm_free h p) pre post s (first_block h) p
                                  lists Hinv' Efb eq_refl) as (A1 & A2 & A3).
  fold bp size in A1, A2, A3.
  split; [exact Hinv'|]. split; [rewrite Efb; exact Hin|].
  split; [exact Hlo|]. split; [exact Hhi|].
  split; [exact A1|]. split; [exact A2|]. split; [exact A3|].
  split; [exact Eb|].
  intros y t Hy Hne. destruct (Hkeep y t Hy Hne) as (K1 & K2).
  rewrite Efb. split; [exact K1|]. split; [|exact K2].
  destruct Hinv' as [Hpre' _]. rewrite <- Efb in K1.
  destruct (pre_block _ _ _ Hpre' _ _ K1) as (T1 & _).
  simpl in T1. unfold HDRP, WSIZE. exact T1.
Qed.

(** * The cache simulator: what [accessCache] and [main] compute *)

Section CsimFacts.
Import Csim.

(** ** Arrays *)

Lemma length_update {A : Type} (l : list A) (n : nat) (f : A -> A) :
  length (update l n f) = length l.
Proof.
  revert n. induction l as [|x l IH]; intros [|n]; simpl; auto.
Qed.

Lemma nth_update_eq {A : Type} (l : list A) (n : nat) (f : A -> A) (d : A) :
  (n < length l)%nat -> nth n (update l n f) d = f (nth n l d).
Proof.
  revert n. induction l as [|x l IH]; intros [|n] H; simpl in *; try lia; auto.
  apply IH. lia.
Qed.

Lemma nth_update_neq {A : Type} (l : list A) (n m : nat) (f : A -> A) (d : A) :
  m <> n -> nth m (update l n f) d = nth m l d.
Proof.
  revert n m. induction l as [|x l IH]; intros [|n] [|m] H; simpl; auto.
  - congruence.
Qed.

Lemma Forall_update {A : Type} (P : A -> Prop) (l : list A) (n : nat)
      (f : A -> A) :
  Forall P l -> (forall x, P x -> P (f x)) -> Forall P (update l n f).
Proof.
  intros H Hf. revert n. induction H as [|x l Hx Hl IH]; intros [|n]; simpl;
    constructor; auto.
Qed.

Lemma Forall_update_at {A : Type} (P : A -> Prop) (l : list A) (n : nat)
      (f : A -> A) (d : A) :
  Forall P l -> (P (nth n l d) -> P (f (nth n l d))) -> Forall P (update l n f).
Proof.
  intros H. revert n. induction H as [|x l Hx Hl IH]; intros [|n] Hf; simpl in *;
    constructor; auto.
Qed.

Lemma line_at_update_eq (ls : list CacheLine) (i : Z) (f : CacheLine -> CacheLine) :
  0 <= i < Z.of_nat (length ls) ->
  line_at (update ls (Z.to_nat i) f) i = f (line_at ls i).
Proof. intros H. unfold line_at. apply nth_update_eq. lia. Qed.

Lemma line_at_update_neq (ls : list CacheLine) (i k : Z)
      (f : CacheLine -> CacheLine) :
  0 <= i -> 0 <= k -> k <> i ->
  line_at (update ls (Z.to_nat i) f) k = line_at ls k.
Proof. intros Hi Hk H. unfold line_at. apply nth_update_neq. lia. Qed.

Lemma set_at_update_line_eq (c : Cache) (si i : Z) (f : CacheLine -> CacheLine) :
  0 <= si < Z.of_nat (length (sets c)) ->
  lines (set_at (update_line c si i f) si)
  = update (lines (set_at c si)) (Z.to_nat i) f.
Proof.
  intros H. unfold set_at, update_line. cbn [sets].
  rewrite nth_update_eq by lia. reflexivity.
Qed.

Lemma set_at_update_line_neq (c : Cache) (si k i : Z)
      (f : CacheLine -> CacheLine) :
  0 <= si -> 0 <= k -> k <> si ->
  set_at (update_line c si i f) k = set_at c k.
Proof.
  intros Hs Hk H. unfold set_at, update_line. cbn [sets].
  apply nth_update_neq. lia.
Qed.

(** ** The address *)

Lemma set_index_of_eq (st : state) (a : Z) :
  0 <= s st -> 0 <= b st ->
  set_index_of st a = (a / 2 ^ b st) mod 2 ^ s st.
Proof.
  intros Hs Hb. unfold set_index_of.
  change (Z.shiftl 1 (s st) - 1) with (Z.pred (Z.shiftl 1 (s st))).
  fold (Z.ones (s st)). rewrite Z.land_ones by assumption.
  rewrite Z.shiftr_div_pow2 by assumption. reflexivity.
Qed.

Lemma tag_of_eq (st : state) (a : Z) :
  0 <= s st -> 0 <= b st ->
  tag_of st a = a / 2 ^ (s st + b st).
Proof.
  intros Hs Hb. unfold tag_of. apply Z.shiftr_div_pow2. lia.
Qed.

Lemma tag_of_block (st : state) (a : Z) :
  0 <= s st -> 0 <= b st ->
  tag_of st a = (a / 2 ^ b st) / 2 ^ s st.
Proof.
  intros Hs Hb. rewrite tag_of_eq by assumption.
  assert (Ps : 0 < 2 ^ s st) by (apply Z.pow_pos_nonneg; lia).
  assert (Pb : 0 < 2 ^ b st) by (apply Z.pow_pos_nonneg; lia).
  rewrite Z.add_comm, Z.pow_add_r by assumption.
  rewrite Z.div_div by lia. reflexivity.
Qed.

Lemma set_index_range (st : state) (a : Z) :
  0 <= s st -> 0 <= b st -> 0 <= set_index_of st a < 2 ^ s st.
Proof.
  intros Hs Hb. rewrite set_index_of_eq by assumption.
  apply Z.mod_pos_bound. apply Z.pow_pos_nonneg; lia.
Qed.

Lemma address_parts (st : state) (a a' : Z) :
  0 <= s st -> 0 <= b st ->
  0 <= set_index_of st a < 2 ^ s st /\
  a = (tag_of st a * 2 ^ s st + set_index_of st a) * 2 ^ b st + a mod 2 ^ b st /\
  (set_index_of st a = set_index_of st a' /\ tag_of st a = tag_of st a'
   <-> a / 2 ^ b st = a' / 2 ^ b st).
Proof.
  intros Hs Hb.
  assert (Ps : 0 < 2 ^ s st) by (apply Z.pow_pos_nonneg; lia).
  assert (Pb : 0 < 2 ^ b st) by (apply Z.pow_pos_nonneg; lia).
  split; [apply set_index_range; assumption|].
  rewrite !set_index_of_eq, !tag_of_block by assumption.
  split.
  - pose proof (Z.div_mod (a / 2 ^ b st) (2 ^ s st) ltac:(lia)) as E1.
    pose proof (Z.div_mod a (2 ^ b st) ltac:(lia)) as E2.
    rewrite (Z.mul_comm _ (2 ^ s st)), <- E1. lia.
  - split.
    + intros [E1 E2].
      rewrite (Z.div_mod (a / 2 ^ b st) (2 ^ s st)) by lia.
      rewrite (Z.div_mod (a' / 2 ^ b st) (2 ^ s st)) by lia.
      rewrite E1, E2. reflexivity.
    + intros ->. split; reflexivity.
Qed.

(** X21: for [0 <= s <= 30], [0 <= b], [s + b < 64] and 64-bit addresses,
    the address is cut into tag, set index and block offset without loss:
    the set index is below [2^s], the tag fits 64 bits, the three parts
    give the address back, and two addresses have the same set index and
    the same tag exactly when they lie in the same block of [2^b] bytes. *)
Theorem address_split (st : state) (a a' : Z) :
  0 <= s st <= 30 -> 0 <= b st -> s st + b st < 64 ->
  0 <= a < 2 ^ 64 -> 0 <= a' < 2 ^ 64 ->
  0 <= set_index_of st a < 2 ^ s st /\
  0 <= tag_of st a < 2 ^ 64 /\
  a = (tag_of st a * 2 ^ s st + set_index_of st a) * 2 ^ b st + a mod 2 ^ b st /\
  (set_index_of st a = set_index_of st a' /\ tag_of st a = tag_of st a'
   <-> a / 2 ^ b st = a' / 2 ^ b st).
Proof.
  intros Hs Hb Hsb Ha Ha'.
  destruct (address_parts st a a' ltac:(lia) Hb) as (A & B & C).
  split; [exact A|]. split; [|split; [exact B | exact C]].
  rewrite tag_of_eq by lia.
  assert (P : 0 < 2 ^ (s st + b st)) by (apply Z.pow_pos_nonneg; lia).
  split; [apply Z.div_pos; lia|].
  apply Z.div_lt_upper_bound; [exact P|]. nia.
Qed.

(** ** Counting *)

(** [accessCache] with the state written out. *)
Lemma accessCache_unfold (st : state) (a : Z) :
  accessCache st a =
  let si := set_index_of st a in
  let tg := tag_of st a in
  let T := (global_timer st + 1) mod 2 ^ 32 in
  match accessCache_loop (Z.to_nat (E st)) (lines (set_at (cache st) si))
                         tg 0 (-1) 0 UINT_MAX with
  | hit_at i =>
    mkState (s st) (E st) (b st) (verbose st)
            (hit_count st + 1) (miss_count st) (eviction_count st) T
            (update_line (cache st) si i
                         (fun l => mkLine (valid l) (tag l) T))
            (if verbose st =? 0 then output st else output st ++ [hit_text])
  | no_hit empty lru =>
    mkState (s st) (E st) (b st) (verbose st)
            (hit_count st) (miss_count st + 1)
            (if empty =? -1 then eviction_count st + 1 else eviction_count st)
            T
            (update_line (cache st) si (if empty =? -1 then lru else empty)
                         (fun _ => mkLine 1 tg T))
            (if verbose st =? 0 then output st
             else if empty =? -1
                  then (output st ++ [miss_text]) ++ [eviction_text]
                  else output st ++ [miss_text])
  end.
Proof.
  destruct st as [s0 E0 b0 v0 h0 m0 e0 t0 c0 o0].
  unfold accessCache.
  cbv beta iota zeta delta
      [s E b verbose hit_count miss_count eviction_count global_timer
       cache output set_cache set_eviction_count set_miss_count
       set_hit_count set_global_timer printf printf_verbose
       set_index_of tag_of].
  destruct (accessCache_loop _ _ _ _ _ _ _) as [i | empty lru].
  - destruct (v0 =? 0) eqn:V; cbv beta iota; rewrite ?V; reflexivity.
  - destruct (empty =? -1); cbv beta iota delta [negb];
      destruct (v0 =? 0) eqn:V; cbv beta iota; rewrite ?V; reflexivity.
Qed.

Lemma accessCache_counts (st : state) (a : Z) :
  let st' := accessCache st a in
  s st' = s st /\ E st' = E st /\ b st' = b st /\ verbose st' = verbose st /\
  global_timer st' = (global_timer st + 1) mod 2 ^ 32 /\
  ((hit_count st' = hit_count st + 1 /\ miss_count st' = miss_count st /\
    eviction_count st' = eviction_count st)
   \/
   (hit_count st' = hit_count st /\ miss_count st' = miss_count st + 1 /\
    (eviction_count st' = eviction_count st \/
     eviction_count st' = eviction_count st + 1))).
Proof.
  cbv zeta. rewrite accessCache_unfold. cbv zeta.
  destruct (accessCache_loop _ _ _ _ _ _ _) as [i | empty lru];
    cbn [s E b verbose hit_count miss_count eviction_count global_timer].
  - repeat (split; [reflexivity|]). left. repeat split; reflexivity.
  - repeat (split; [reflexivity|]). right.
    destruct (empty =? -1); repeat split; auto.
Qed.

Lemma main_step_counts (st : state) (r : record) :
  let st' := main_step st r in
  s st' = s st /\ E st' = E st /\ b st' = b st /\ verbose st' = verbose st /\
  hit_count st' + miss_count st' = hit_count st + miss_count st + accesses_of r /\
  hit_count st <= hit_count st' /\
  0 <= eviction_count st' - eviction_count st <= miss_count st' - miss_count st.
Proof.
  destruct r as [[op addr] size]. unfold main_step, accesses_of.
  destruct (op =? op_I); [cbv zeta; repeat split; lia|].
  assert (P : forall st p, s (printf_verbose st p) = s st /\
                           E (printf_verbose st p) = E st /\
                           b (printf_verbose st p) = b st /\
                           verbose (printf_verbose st p) = verbose st /\
                           hit_count (printf_verbose st p) = hit_count st /\
                           miss_count (printf_verbose st p) = miss_count st /\
                           eviction_count (printf_verbose st p) = eviction_count st).
  { intros st0 p. unfold printf_verbose. destruct (verbose st0 =? 0); cbn; auto 10. }
  cbv zeta.
  set (st1 := printf_verbose st (access_text op addr size)).
  destruct (P st (access_text op addr size)) as (A1 & A2 & A3 & A4 & A5 & A6 & A7).
  fold st1 in A1, A2, A3, A4, A5, A6, A7.
  pose proof (accessCache_counts st1 addr) as C1. cbv zeta in C1.
  set (st2 := accessCache st1 addr) in *.
  destruct (op =? op_M).
  - pose proof (accessCache_counts st2 addr) as C2. cbv zeta in C2.
    set (st3 := accessCache st2 addr) in *.
    destruct (P st3 newline_text) as (B1 & B2 & B3 & B4 & B5 & B6 & B7).
    rewrite B1, B2, B3, B4, B5, B6, B7.
    destruct C1 as (? & ? & ? & ? & _ & C1), C2 as (? & ? & ? & ? & _ & C2).
    repeat split; try congruence; lia.
  - destruct (P st2 newline_text) as (B1 & B2 & B3 & B4 & B5 & B6 & B7).
    rewrite B1, B2, B3, B4, B5, B6, B7.
    destruct C1 as (? & ? & ? & ? & _ & C1).
    repeat split; try congruence; lia.
Qed.

Lemma main_loop_counts (trace : list record) (st : state) :
  let st' := main_loop st trace in
  s st' = s st /\ E st' = E st /\ b st' = b st /\ verbose st' = verbose st /\
  hit_count st' + miss_count st' = hit_count st + miss_count st + accesses trace /\
  hit_count st <= hit_count st' /\
  0 <= eviction_count st' - eviction_count st <= miss_count st' - miss_count st.
Proof.
  revert st. induction trace as [|r trace IH]; intros st.
  - cbn. repeat split; lia.
  - cbn [main_loop fold_left accesses]. fold (main_loop (main_step st r) trace).
    specialize (IH (main_step st r)). cbv zeta in IH.
    pose proof (main_step_counts st r) as H. cbv zeta in H.
    cbv zeta.
    destruct IH as (? & ? & ? & ? & ? & ? & ?), H as (? & ? & ? & ? & ? & ? & ?).
    repeat split; try congruence; lia.
Qed.


(** X22: the summary accounts for every access.  For options in the range
    of the simulator ([0 < s <= 30], [0 < E], [0 < b], [s + b < 64]) and a
    trace of fewer than [2^31] data accesses, when [main] runs the trace to
    the end the hits and the misses it reports add up to the number of
    data accesses of the trace (one for a load or store, two for a modify,
    none for an instruction fetch), there are never more evictions than
    misses, and every counter stays below [2^31]. *)
Theorem summary_accounts (st st' : state) (trace : list record)
        (hits misses evictions : Z) :
  0 < s st <= 30 -> 0 < E st -> 0 < b st -> s st + b st < 64 ->
  hit_count st = 0 -> miss_count st = 0 -> eviction_count st = 0 ->
  global_timer st = 0 ->
  accesses trace < 2 ^ 31 ->
  main st (Some (Some trace)) = (summary hits misses evictions, st') ->
  hits + misses = accesses trace /\
  0 <= hits /\ 0 <= evictions <= misses /\ misses <= accesses trace /\
  hits < 2 ^ 31 /\ misses < 2 ^ 31 /\ evictions < 2 ^ 31.
Proof.
  intros _ _ _ _ H0 M0 E0 _ Hn Hm. unfold main in Hm.
  destruct ((s st =? 0) || (E st =? 0) || (b st =? 0) || false);
    [discriminate Hm|].
  injection Hm as <- <- <- _.
  pose proof (main_loop_counts trace (allocateCache st)) as H. cbv zeta in H.
  destruct H as (_ & _ & _ & _ & H1 & H2 & H3).
  change (hit_count (allocateCache st)) with (hit_count st) in *.
  change (miss_count (allocateCache st)) with (miss_count st) in *.
  change (eviction_count (allocateCache st)) with (eviction_count st) in *.
  lia.
Qed.

(** ** The loop of [accessCache] *)

Lemma loop_spec (ls : list CacheLine) (tg : Z) (n : nat) :
  forall i e l m, 0 <= i ->
  match accessCache_loop n ls tg i e l m with
  | hit_at j =>
    i <= j < i + Z.of_nat n /\ holds ls j tg /\
    (forall k, i <= k < j -> ~ holds ls k tg)
  | no_hit e' l' =>
    (forall k, i <= k < i + Z.of_nat n -> ~ holds ls k tg) /\
    (e <> -1 -> e' = e) /\
    (e = -1 ->
     (e' = -1 /\
      forall k, i <= k < i + Z.of_nat n -> valid (line_at ls k) <> 0) \/
     (i <= e' < i + Z.of_nat n /\ valid (line_at ls e') = 0 /\
      forall k, i <= k < e' -> valid (line_at ls k) <> 0)) /\
    exists m',
      m' <= m /\
      (forall k, i <= k < i + Z.of_nat n -> valid (line_at ls k) <> 0 ->
                 m' <= last_access (line_at ls k)) /\
      ((l' = l /\ m' = m) \/
       (i <= l' < i + Z.of_nat n /\ valid (line_at ls l') <> 0 /\
        last_access (line_at ls l') = m' /\ m' < m /\
        forall k, i <= k < l' -> valid (line_at ls k) <> 0 ->
                  m' < last_access (line_at ls k)))
  end.
Proof.
  induction n as [|n IH]; intros i e l m Hi.
  - cbn [accessCache_loop]. split; [intros k Hk; lia|].
    split; [auto|]. split.
    + intros He. left. split; [exact He|intros k Hk; lia].
    + exists m. split; [lia|]. split; [intros k Hk; lia|]. left. auto.
  - cbn [accessCache_loop]. cbv zeta.
    assert (Hcase : forall k, i <= k -> k = i \/ i + 1 <= k) by (intros; lia).
    rewrite Nat2Z.inj_succ.
    destruct (valid (line_at ls i) =? 0) eqn:Ev; cbn [negb].
    + (* line [i] is not in use *)
      apply Z.eqb_eq in Ev.
      assert (Hno : ~ holds ls i tg) by (intros [Hv _]; contradiction).
      destruct (e =? -1) eqn:Ee.
      * apply Z.eqb_eq in Ee. specialize (IH (i + 1) i l m ltac:(lia)).
        destruct (accessCache_loop n ls tg (i + 1) i l m) as [j | e' l'].
        -- destruct IH as (Hj & Hh & Hb). split; [lia|]. split; [exact Hh|].
           intros k Hk. destruct (Hcase k ltac:(lia)) as [-> | Hk'];
             [exact Hno | apply Hb; lia].
        -- destruct IH as (Hb & He1 & _ & m' & Hm & Hall & Hl).
           assert (Ee' : e' = i) by (apply He1; lia). subst e'.
           split.
           { intros k Hk. destruct (Hcase k ltac:(lia)) as [-> | Hk'];
               [exact Hno | apply Hb; lia]. }
           split; [intros; lia|]. split.
           { intros _. right. split; [lia|]. split; [exact Ev|]. intros k Hk; lia. }
           exists m'. split; [exact Hm|]. split.
           { intros k Hk Hv. destruct (Hcase k ltac:(lia)) as [-> | Hk'];
               [contradiction | apply Hall; [lia | exact Hv]]. }
           destruct Hl as [Hl | (Hl1 & Hl2 & Hl3 & Hl4 & Hl5)]; [left; exact Hl|].
           right. split; [lia|]. split; [exact Hl2|]. split; [exact Hl3|].
           split; [exact Hl4|].
           intros k Hk Hv. destruct (Hcase k ltac:(lia)) as [-> | Hk'];
             [contradiction | apply Hl5; [lia | exact Hv]].
      * apply Z.eqb_neq in Ee. specialize (IH (i + 1) e l m ltac:(lia)).
        destruct (accessCache_loop n ls tg (i + 1) e l m) as [j | e' l'].
        -- destruct IH as (Hj & Hh & Hb). split; [lia|]. split; [exact Hh|].
           intros k Hk. destruct (Hcase k ltac:(lia)) as [-> | Hk'];
             [exact Hno | apply Hb; lia].
        -- destruct IH as (Hb & He1 & _ & m' & Hm & Hall & Hl).
           split.
           { intros k Hk. destruct (Hcase k ltac:(lia)) as [-> | Hk'];
               [exact Hno | apply Hb; lia]. }
           split; [exact He1|]. split; [intros; contradiction|].
           exists m'. split; [exact Hm|]. split.
           { intros k Hk Hv. destruct (Hcase k ltac:(lia)) as [-> | Hk'];
               [contradiction | apply Hall; [lia | exact Hv]]. }
           destruct Hl as [Hl | (Hl1 & Hl2 & Hl3 & Hl4 & Hl5)]; [left; exact Hl|].
           right. split; [lia|]. split; [exact Hl2|]. split; [exact Hl3|].
           split; [exact Hl4|].
           intros k Hk Hv. destruct (Hcase k ltac:(lia)) as [-> | Hk'];
             [contradiction | apply Hl5; [lia | exact Hv]].
    + (* line [i] is in use *)
      apply Z.eqb_neq in Ev.
      destruct (tag (line_at ls i) =? tg) eqn:Et.
      * apply Z.eqb_eq in Et. split; [lia|]. split; [split; assumption|].
        intros k Hk; lia.
      * apply Z.eqb_neq in Et.
        assert (Hno : ~ holds ls i tg) by (intros [_ Ht]; contradiction).
        destruct (last_access (line_at ls i) <? m) eqn:El.
        -- apply Z.ltb_lt in El.
           specialize (IH (i + 1) e i (last_access (line_at ls i)) ltac:(lia)).
           destruct (accessCache_loop n ls tg (i + 1) e i _) as [j | e' l'].
           ++ destruct IH as (Hj & Hh & Hb). split; [lia|]. split; [exact Hh|].
              intros k Hk. destruct (Hcase k ltac:(lia)) as [-> | Hk'];
                [exact Hno | apply Hb; lia].
           ++ destruct IH as (Hb & He1 & He2 & m' & Hm & Hall & Hl).
              split.
              { intros k Hk. destruct (Hcase k ltac:(lia)) as [-> | Hk'];
                  [exact Hno | apply Hb; lia]. }
              split; [exact He1|]. split.
              { intros He. destruct (He2 He) as [(E1 & E2) | (E1 & E2 & E3)].
                - left. split; [exact E1|]. intros k Hk.
                  destruct (Hcase k ltac:(lia)) as [-> | Hk'];
                    [exact Ev | apply E2; lia].
                - right. split; [lia|]. split; [exact E2|]. intros k Hk.
                  destruct (Hcase k ltac:(lia)) as [-> | Hk'];
                    [exact Ev | apply E3; lia]. }
              exists m'. split; [lia|]. split.
              { intros k Hk Hv. destruct (Hcase k ltac:(lia)) as [-> | Hk'];
                  [lia | apply Hall; [lia | exact Hv]]. }
              right.
              destruct Hl as [(-> & ->) | (Hl1 & Hl2 & Hl3 & Hl4 & Hl5)].
              ** split; [lia|]. split; [exact Ev|]. split; [reflexivity|].
                 split; [exact El|]. intros k Hk; lia.
              ** split; [lia|]. split; [exact Hl2|]. split; [exact Hl3|].
                 split; [lia|].
                 intros k Hk Hv. destruct (Hcase k ltac:(lia)) as [-> | Hk'];
                   [lia | apply Hl5; [lia | exact Hv]].
        -- apply Z.ltb_ge in El.
           specialize (IH (i + 1) e l m ltac:(lia)).
           destruct (accessCache_loop n ls tg (i + 1) e l m) as [j | e' l'].
           ++ destruct IH as (Hj & Hh & Hb). split; [lia|]. split; [exact Hh|].
              intros k Hk. destruct (Hcase k ltac:(lia)) as [-> | Hk'];
                [exact Hno | apply Hb; lia].
           ++ destruct IH as (Hb & He1 & He2 & m' & Hm & Hall & Hl).
              split.
              { intros k Hk. destruct (Hcase k ltac:(lia)) as [-> | Hk'];
                  [exact Hno | apply Hb; lia]. }
              split; [exact He1|]. split.
              { intros He. destruct (He2 He) as [(E1 & E2) | (E1 & E2 & E3)].
                - left. split; [exact E1|]. intros k Hk.
                  destruct (Hcase k ltac:(lia)) as [-> | Hk'];
                    [exact Ev | apply E2; lia].
                - right. split; [lia|]. split; [exact E2|]. intros k Hk.
                  destruct (Hcase k ltac:(lia)) as [-> | Hk'];
                    [exact Ev | apply E3; lia]. }
              exists m'. split; [exact Hm|]. split.
              { intros k Hk Hv. destruct (Hcase k ltac:(lia)) as [-> | Hk'];
                  [lia | apply Hall; [lia | exact Hv]]. }
              destruct Hl as [Hl | (Hl1 & Hl2 & Hl3 & Hl4 & Hl5)];
                [left; exact Hl|].
              right. split; [lia|]. split; [exact Hl2|]. split; [exact Hl3|].
              split; [exact Hl4|].
              intros k Hk Hv. destruct (Hcase k ltac:(lia)) as [-> | Hk'];
                [lia | apply Hl5; [lia | exact Hv]].
Qed.

(** ** One access on a cache as [allocateCache] lays it out *)

Lemma shaped_set (st : state) (k : Z) :
  shaped st -> 0 <= k < 2 ^ s st ->
  0 <= k < Z.of_nat (length (sets (cache st))) /\
  Z.of_nat (length (lines (set_at (cache st) k))) = E st /\
  (forall j, 0 <= j < E st ->
             0 <= last_access (line_at (lines (set_at (cache st) k)) j)
             <= UINT_MAX).
Proof.
  intros Hsh Hk. destruct Hsh as [_ _ _ _ Hn Hl Hs].
  assert (Hin : In (set_at (cache st) k) (sets (cache st))).
  { unfold set_at. apply nth_In. lia. }
  split; [lia|].
  rewrite Forall_forall in Hl, Hs.
  split; [apply Hl; exact Hin|].
  intros j Hj. specialize (Hs _ Hin). specialize (Hl _ Hin).
  rewrite Forall_forall in Hs. apply Hs. unfold line_at. apply nth_In. lia.
Qed.

Lemma accessCache_cases (st : state) (a : Z) :
  shaped st ->
  let si := set_index_of st a in
  let tg := tag_of st a in
  let ls := lines (set_at (cache st) si) in
  let T := (global_timer st + 1) mod 2 ^ 32 in
  let st' := accessCache st a in
  s st' = s st /\ E st' = E st /\ b st' = b st /\ global_timer st' = T /\
  (forall k, 0 <= k -> k <> si -> set_at (cache st') k = set_at (cache st) k) /\
  length (sets (cache st')) = length (sets (cache st)) /\
  exists i, 0 <= i < E st /\
    ((holds ls i tg /\ (forall k, 0 <= k < i -> ~ holds ls k tg) /\
      lines (set_at (cache st') si)
      = update ls (Z.to_nat i) (fun l => mkLine (valid l) (tag l) T) /\
      hit_count st' = hit_count st + 1 /\ miss_count st' = miss_count st /\
      eviction_count st' = eviction_count st)
     \/
     ((forall k, 0 <= k < E st -> ~ holds ls k tg) /\
      lines (set_at (cache st') si)
      = update ls (Z.to_nat i) (fun _ => mkLine 1 tg T) /\
      hit_count st' = hit_count st /\ miss_count st' = miss_count st + 1 /\
      ((valid (line_at ls i) = 0 /\
        (forall k, 0 <= k < i -> valid (line_at ls k) <> 0) /\
        eviction_count st' = eviction_count st)
       \/
       ((forall k, 0 <= k < E st -> valid (line_at ls k) <> 0) /\
        (forall k, 0 <= k < E st ->
                   last_access (line_at ls i) <= last_access (line_at ls k)) /\
        (forall k, 0 <= k < i ->
                   last_access (line_at ls i) < last_access (line_at ls k)) /\
        eviction_count st' = eviction_count st + 1)))).
Proof.
  intros Hsh. cbv zeta.
  pose proof (set_index_range st a ltac:(destruct Hsh; lia)
                              ltac:(destruct Hsh; lia)) as Hsi.
  destruct (shaped_set st _ Hsh Hsi) as (Hsi' & Hlen & Hst).
  assert (HE : 0 < E st) by (destruct Hsh; assumption).
  rewrite accessCache_unfold. cbv zeta.
  pose proof (loop_spec (lines (set_at (cache st) (set_index_of st a)))
                        (tag_of st a) (Z.to_nat (E st)) 0 (-1) 0 UINT_MAX
                        ltac:(lia)) as L.
  rewrite Z2Nat.id in L by lia. rewrite Z.add_0_l in L.
  set (si := set_index_of st a) in *.
  set (tg := tag_of st a) in *.
  set (ls := lines (set_at (cache st) si)) in *.
  set (T := (global_timer st + 1) mod 2 ^ 32) in *.
  destruct (accessCache_loop _ _ _ _ _ _ _) as [i | e l];
    cbn [s E b global_timer cache hit_count miss_count eviction_count].
  - destruct L as (Hi & Hh & Hb).
    repeat (split; [reflexivity|]).
    split; [intros k Hk Hne; apply set_at_update_line_neq; lia|].
    split; [unfold update_line; cbn [sets]; apply length_update|].
    exists i. split; [exact Hi|]. left.
    split; [exact Hh|]. split; [exact Hb|].
    split; [apply set_at_update_line_eq; lia|]. repeat split; reflexivity.
  - destruct L as (Hb & _ & He & m' & Hm & Hall & Hl).
    specialize (He eq_refl).
    repeat (split; [reflexivity|]).
    split; [intros k Hk Hne; apply set_at_update_line_neq; lia|].
    split; [unfold update_line; cbn [sets]; apply length_update|].
    destruct He as [(-> & Hfull) | (He1 & He2 & He3)].
    + (* every line is in use: the line [lru] is replaced *)
      change (-1 =? -1) with true. cbv iota.
      assert (Hl' : 0 <= l < E st /\
                    (forall k, 0 <= k < E st ->
                       last_access (line_at ls l) <= last_access (line_at ls k)) /\
                    (forall k, 0 <= k < l ->
                       last_access (line_at ls l) < last_access (line_at ls k))).
      { destruct Hl as [(-> & ->) | (Hl1 & Hl2 & Hl3 & Hl4 & Hl5)].
        - split; [lia|]. split; [|intros k Hk; lia].
          intros k Hk. pose proof (Hall k Hk (Hfull k Hk)).
          pose proof (Hst 0 ltac:(lia)). fold si in H0. fold ls in H0. lia.
        - split; [exact Hl1|]. split.
          + intros k Hk. rewrite Hl3. apply Hall; [exact Hk | apply Hfull; exact Hk].
          + intros k Hk. rewrite Hl3. apply Hl5; [exact Hk | apply Hfull; lia]. }
      destruct Hl' as (Hl1 & Hl2 & Hl3).
      exists l. split; [exact Hl1|]. right.
      split; [exact Hb|].
      split; [apply set_at_update_line_eq; lia|].
      split; [reflexivity|]. split; [reflexivity|]. right.
      split; [exact Hfull|]. split; [exact Hl2|]. split; [exact Hl3|].
      reflexivity.
    + (* the first line that is not in use is filled *)
      assert (Ee : (e =? -1) = false) by (apply Z.eqb_neq; lia).
      rewrite Ee. cbv iota.
      exists e. split; [exact He1|]. right.
      split; [exact Hb|].
      split; [apply set_at_update_line_eq; lia|].
      split; [reflexivity|]. split; [reflexivity|]. left.
      split; [exact He2|]. split; [exact He3|]. reflexivity.
Qed.

Lemma update_line_shaped (st : state) (si i : Z)
      (f : CacheLine -> CacheLine) :
  shaped st ->
  (forall l, 0 <= last_access (f l) <= UINT_MAX) ->
  Z.of_nat (length (sets (update_line (cache st) si i f))) = 2 ^ s st /\
  Forall (fun set => Z.of_nat (length (lines set)) = E st)
         (sets (update_line (cache st) si i f)) /\
  Forall (fun set =>
            Forall (fun l => 0 <= last_access l <= UINT_MAX) (lines set))
         (sets (update_line (cache st) si i f)).
Proof.
  intros [H1 H2 H3 H4 H5 H6 H7] Hf. unfold update_line. cbn [sets].
  split; [rewrite length_update; exact H5|]. split.
  - apply Forall_update; [exact H6|]. intros x Hx. cbn [lines].
    rewrite length_update. exact Hx.
  - apply Forall_update; [exact H7|]. intros x Hx. cbn [lines].
    apply Forall_update; [exact Hx|]. intros l _. apply Hf.
Qed.

Lemma accessCache_shaped (st : state) (a : Z) :
  shaped st -> shaped (accessCache st a).
Proof.
  intros Hsh.
  assert (HT : 0 <= (global_timer st + 1) mod 2 ^ 32 <= UINT_MAX).
  { pose proof (Z.mod_pos_bound (global_timer st + 1) (2 ^ 32) ltac:(lia)).
    unfold UINT_MAX. lia. }
  rewrite accessCache_unfold. cbv zeta.
  destruct (accessCache_loop _ _ _ _ _ _ _) as [i | e l].
  - destruct (update_line_shaped
                st (set_index_of st a) i
                (fun l => mkLine (valid l) (tag l)
                                 ((global_timer st + 1) mod 2 ^ 32)) Hsh)
      as (A1 & A2 & A3); [intros l; exact HT|].
    destruct Hsh as [H1 H2 H3 H4 H5 H6 H7].
    constructor; cbn [s E b cache]; assumption.
  - destruct (update_line_shaped
                st (set_index_of st a)
                (if e =? -1 then l else e)
                (fun _ => mkLine 1 (tag_of st a)
                                 ((global_timer st + 1) mod 2 ^ 32)) Hsh)
      as (A1 & A2 & A3); [intros _; exact HT|].
    destruct Hsh as [H1 H2 H3 H4 H5 H6 H7].
    constructor; cbn [s E b cache]; assumption.
Qed.

Lemma printf_verbose_shaped (st : state) (p : printed) :
  shaped st -> shaped (printf_verbose st p).
Proof.
  intros [H1 H2 H3 H4 H5 H6 H7]. unfold printf_verbose.
  destruct (verbose st =? 0); constructor; assumption.
Qed.

Lemma allocateCache_shaped (st : state) :
  0 <= s st <= 30 -> 0 < E st -> 0 <= b st -> s st + b st < 64 ->
  shaped (allocateCache st).
Proof.
  intros Hs HE Hb Hsb. unfold allocateCache. cbv zeta.
  constructor; cbn [s E b cache set_cache sets]; try assumption.
  - rewrite repeat_length, Z.shiftl_1_l, Z2Nat.id; [reflexivity|].
    apply Z.pow_nonneg. lia.
  - apply Forall_forall. intros x Hx. apply repeat_spec in Hx. subst x.
    cbn [lines]. rewrite repeat_length, Z2Nat.id; lia.
  - apply Forall_forall. intros x Hx. apply repeat_spec in Hx. subst x.
    cbn [lines]. apply Forall_forall. intros l Hl. apply repeat_spec in Hl.
    subst l. cbn. unfold UINT_MAX. lia.
Qed.

(** ** Hits, misses and evictions *)

Lemma access_outcome (st : state) (a : Z) :
  shaped st ->
  let st' := accessCache st a in
  (cached st a ->
   hit_count st' = hit_count st + 1 /\ miss_count st' = miss_count st /\
   eviction_count st' = eviction_count st) /\
  (~ cached st a ->
   hit_count st' = hit_count st /\ miss_count st' = miss_count st + 1) /\
  (~ cached st a -> full st a -> eviction_count st' = eviction_count st + 1) /\
  (~ full st a -> eviction_count st' = eviction_count st).
Proof.
  intros Hsh. cbv zeta.
  destruct (accessCache_cases st a Hsh)
    as (_ & _ & _ & _ & _ & _ & i & Hi & C).
  unfold cached, full.
  destruct C as [(Hh & _ & _ & C1 & C2 & C3)
                | (Hno & _ & C1 & C2 & [(Hv & _ & C3) | (Hf & _ & _ & C3)])].
  - split; [intros _; auto|]. split.
    + intros Hn. exfalso. apply Hn. exists i. split; [exact Hi | exact Hh].
    + split.
      * intros Hn. exfalso. apply Hn. exists i. split; [exact Hi | exact Hh].
      * intros _. exact C3.
  - split.
    + intros (k & Hk & Hh). exfalso. exact (Hno k Hk Hh).
    + split; [intros _; auto|]. split.
      * intros _ Hf. exfalso. exact (Hf i Hi Hv).
      * intros _. exact C3.
  - split.
    + intros (k & Hk & Hh). exfalso. exact (Hno k Hk Hh).
    + split; [intros _; auto|]. split.
      * intros _ _. exact C3.
      * intros Hn. exfalso. apply Hn. exact Hf.
Qed.

(** X23: an access is a hit exactly when some line of the set that the
    address maps to holds its block, and a miss otherwise; the miss is
    counted as an eviction exactly when every line of that set is in
    use. *)
Theorem hit_iff_cached (st : state) (a : Z) :
  shaped st ->
  let st' := accessCache st a in
  (cached st a ->
   hit_count st' = hit_count st + 1 /\ miss_count st' = miss_count st /\
   eviction_count st' = eviction_count st) /\
  (~ cached st a ->
   hit_count st' = hit_count st /\ miss_count st' = miss_count st + 1) /\
  (~ cached st a -> full st a -> eviction_count st' = eviction_count st + 1) /\
  (~ full st a -> eviction_count st' = eviction_count st).
Proof. exact (access_outcome st a). Qed.

Lemma access_then_cached (st : state) (a a' : Z) :
  shaped st ->
  a / 2 ^ b st = a' / 2 ^ b st ->
  cached (accessCache st a) a'.
Proof.
  intros Hsh Hblock.
  destruct (accessCache_cases st a Hsh)
    as (E1 & E2 & E3 & _ & _ & _ & i & Hi & C).
  destruct (address_parts st a a' ltac:(destruct Hsh; lia)
                          ltac:(destruct Hsh; lia)) as (_ & _ & Hiff).
  destruct (proj2 Hiff Hblock) as (Es & Et).
  pose proof (set_index_range st a ltac:(destruct Hsh; lia)
                              ltac:(destruct Hsh; lia)) as Hsi.
  destruct (shaped_set st _ Hsh Hsi) as (_ & Hlen & _).
  unfold cached.
  assert (Es' : set_index_of (accessCache st a) a' = set_index_of st a).
  { unfold set_index_of. rewrite E1, E3. symmetry. exact Es. }
  assert (Et' : tag_of (accessCache st a) a' = tag_of st a).
  { unfold tag_of. rewrite E1, E3. symmetry. exact Et. }
  rewrite Es', Et', E2. exists i. split; [exact Hi|].
  destruct C as [(Hh & _ & -> & _) | (_ & -> & _)]; unfold holds;
    rewrite line_at_update_eq by lia; cbn [valid tag].
  - exact Hh.
  - split; [lia | reflexivity].
Qed.

(** X24: an access brings its block into the cache: afterwards the block is
    cached, so that the next access to any address of the same block is a
    hit.  In particular the second access of a modify operation always
    hits: a modify record adds at least one hit. *)
Theorem access_caches_block (st : state) (a a' : Z) :
  shaped st ->
  a / 2 ^ b st = a' / 2 ^ b st ->
  let st1 := accessCache st a in
  let st2 := accessCache st1 a' in
  cached st1 a' /\
  hit_count st2 = hit_count st1 + 1 /\ miss_count st2 = miss_count st1 /\
  eviction_count st2 = eviction_count st1 /\
  forall size, hit_count st + 1 <= hit_count (main_step st (op_M, a, size)).
Proof.
  intros Hsh Hblock. cbv zeta.
  pose proof (access_then_cached st a a' Hsh Hblock) as Hc.
  split; [exact Hc|].
  destruct (access_outcome (accessCache st a) a' (accessCache_shaped st a Hsh))
    as (H & _).
  destruct (H Hc) as (H1 & H2 & H3).
  split; [exact H1|]. split; [exact H2|]. split; [exact H3|].
  intros size. unfold main_step.
  change (op_M =? op_I) with false. change (op_M =? op_M) with true.
  cbv iota zeta.
  set (st1 := printf_verbose st (access_text op_M a size)).
  assert (Hsh1 : shaped st1) by (apply printf_verbose_shaped; exact Hsh).
  assert (F : hit_count st1 = hit_count st).
  { unfold st1, printf_verbose. destruct (verbose st =? 0); reflexivity. }
  pose proof (accessCache_counts st1 a) as C1. cbv zeta in C1.
  pose proof (access_then_cached st1 a a Hsh1 eq_refl) as Hc1.
  destruct (access_outcome (accessCache st1 a) a
                           (accessCache_shaped st1 a Hsh1)) as (K & _).
  destruct (K Hc1) as (K1 & _).
  set (st3 := accessCache (accessCache st1 a) a) in *.
  assert (G : hit_count (printf_verbose st3 newline_text) = hit_count st3).
  { unfold printf_verbose. destruct (verbose st3 =? 0); reflexivity. }
  rewrite G, K1. lia.
Qed.

(** X25: a block leaves the cache only by an eviction in its own set: a
    block that is cached before an access is still cached after it, unless
    the access maps to the same set and is counted as an eviction. *)
Theorem eviction_only_loss (st : state) (a x : Z) :
  shaped st ->
  cached st x ->
  let st' := accessCache st a in
  cached st' x \/
  (set_index_of st x = set_index_of st a /\
   eviction_count st' = eviction_count st + 1).
Proof.
  intros Hsh (j & Hj & Hx). cbv zeta.
  destruct (accessCache_cases st a Hsh)
    as (E1 & E2 & E3 & _ & Hother & _ & i & Hi & C).
  pose proof (set_index_range st a ltac:(destruct Hsh; lia)
                              ltac:(destruct Hsh; lia)) as Hsi.
  pose proof (set_index_range st x ltac:(destruct Hsh; lia)
                              ltac:(destruct Hsh; lia)) as Hsx.
  destruct (shaped_set st _ Hsh Hsi) as (_ & Hlen & _).
  assert (Es' : set_index_of (accessCache st a) x = set_index_of st x)
    by (unfold set_index_of; rewrite E1, E3; reflexivity).
  assert (Et' : tag_of (accessCache st a) x = tag_of st x)
    by (unfold tag_of; rewrite E1, E3; reflexivity).
  unfold cached. rewrite Es', Et', E2.
  destruct (Z.eq_dec (set_index_of st x) (set_index_of st a)) as [Eq | Ne].
  - rewrite Eq in Hx |- *.
    destruct C as [(Hh & _ & -> & _)
                  | (_ & -> & _ & _ & [(Hv & _ & _) | (_ & _ & _ & C3)])].
    + left. exists j. split; [exact Hj|]. unfold holds in *.
      destruct (Z.eq_dec j i) as [-> | Hji].
      * rewrite line_at_update_eq by lia. cbn [valid tag]. exact Hx.
      * rewrite line_at_update_neq by lia. exact Hx.
    + left. exists j. split; [exact Hj|]. unfold holds in *.
      destruct (Z.eq_dec j i) as [-> | Hji].
      * exfalso. destruct Hx as (Hx & _). contradiction.
      * rewrite line_at_update_neq by lia. exact Hx.
    + right. split; [reflexivity | exact C3].
  - left. exists j. split; [exact Hj|].
    rewrite Hother by lia. exact Hx.
Qed.


(** ** Lists of line indices *)












(** ** One set against its list of resident blocks *)




(** ** One access against the policy *)



(** ** A whole trace against the policy *)










End CsimFacts.

(** * The theorems at concrete heaps *)

Ltac solve_concrete :=
  try unfold classes;
  repeat first [apply Forall_nil | apply Forall_cons];
  vm_compute;
  repeat match goal with
         | |- _ /\ _ => split
         | |- Forall _ _ => first [apply Forall_nil | apply Forall_cons]
         | |- _ = _ => reflexivity
         | |- True => exact I
         | |- (_ < _)%nat => lia
         | |- _ -> False =>
           let H := fresh in
           intro H; first [discriminate H | destruct H; discriminate]
         | |- _ -> _ => intro
         end.

Ltac concrete :=
  repeat (cbv beta;
          match goal with
          | |- _ /\ _ => split
          | |- Forall _ _ => first [apply Forall_nil | apply Forall_cons]
          | |- exists _, _ => eexists
          | |- In _ _ => first [left; reflexivity | right]
          | |- heap_pre _ _ _ => constructor
          | |- heap_inv _ _ _ => constructor
          | |- layout _ _ => unfold layout
          | |- sizes_ok _ => unfold sizes_ok
          | |- all_free_listed _ _ _ => unfold all_free_listed
          | H : _ = _ |- False => discriminate H
          | H : _ /\ _ |- False => destruct H
          | |- _ -> _ =>
            let H := fresh in intro H; try (simpl in H; discriminate H)
          | |- _ = _ => vm_compute; reflexivity
          | |- _ < _ => vm_compute; reflexivity
          | |- _ <= _ => vm_compute; discriminate
          | |- is_dll _ _ _ _ => vm_compute
          | |- tagged _ _ => vm_compute
          | |- no_adjacent_free _ => vm_compute
          | |- True => exact I
          end).

Lemma heap_init_inv : heap_inv heap_init [(4096, false)] lists_init.
Proof. unfold classes. concrete. Qed.

Lemma heap_one_inv : heap_inv heap_one [(32, true); (4064, false)] lists_one.
Proof. unfold classes. concrete. Qed.

Lemma heap_full_inv : heap_inv heap_full [(4096, true)] lists_none.
Proof. unfold classes. concrete. Qed.

Lemma api_boundary_witness :
  let h := heap_one in
  let pre := @nil block in
  let post := [(4064, false)] in
  let s := 32 in
  let p := first_block h + total pre in
  let bl' := coalesced_blocks pre s post in
  let size := coalesced_size pre s post in
  let bp := coalesced_start p pre in
  exists h',
    p <> NULL /\
    mm_realloc 100 h p 0 = Some (NULL, h') /\
    heap_inv h' bl' (coalesced_lists lists_one p pre s post) /\
    In (bp, (size, false)) (block_starts (first_block h') bl') /\
    bp <= p /\ p + s <= bp + size /\
    GET h' (HDRP bp) = PACK size 0 /\
    GET h' (bp + size - DSIZE) = PACK size 0 /\
    seg_get h' (get_list_index size) = bp /\
    mem_brk h' = mem_brk h /\
    forall y t,
      In (y, (t, true))
         (block_starts (first_block h) (pre ++ (s, true) :: post)) ->
      y <> p ->
      In (y, (t, true)) (block_starts (first_block h') bl') /\
      GET h' (HDRP y) = PACK t 1 /\
      (forall a, y <= a < y + t - DSIZE -> mem h' a = mem h a).
Proof.
  exact (proj2 (proj2 (proj2 (proj2 (api_boundary 100 heap_one))))
               [] [(4064, false)] 32 lists_one heap_one_inv).
Defined.

Lemma realloc_shrink_in_place_witness :
  mm_realloc 100 heap_one 4192 20 = Some (4192, heap_one).
Proof.
  apply (realloc_shrink_in_place 100 heap_one 4192 20);
    [unfold NULL; lia | lia | vm_compute; discriminate].
Defined.

Lemma realloc_extend_at_tail_witness :
  exists h',
    mm_realloc 100 heap_full 4192 5000 = Some (4192, h') /\
    mem_brk h' = mem_brk heap_full + (5008 - 4096) /\
    GET h' (HDRP 4192) = PACK 5008 1 /\
    GET h' (4192 + 5008 - DSIZE) = PACK 5008 1 /\
    GET h' (HDRP (4192 + 5008)) = PACK 0 1 /\
    (forall a, 4192 <= a < 4192 + 4096 - DSIZE -> mem h' a = mem heap_full a).
Proof.
  assert (E1 : block_size heap_full 4192 = 4096) by (vm_compute; reflexivity).
  assert (E2 : adjust_size 5000 = 5008) by (vm_compute; reflexivity).
  rewrite <- E1, <- E2.
  apply (realloc_extend_at_tail 100 heap_full 4192 5000).
  - unfold NULL; lia.
  - lia.
  - vm_compute; reflexivity.
  - vm_compute; reflexivity.
  - vm_compute; discriminate.
  - vm_compute; discriminate.
Defined.

Lemma find_fit_first_class_best_fit_witness :
  exists r,
    find_fit 100 heap_three 136 = Some r /\
    ((r = NULL /\
      forall i, get_list_index 136 <= i < LIST_LIMIT ->
                ~ fits (block_size heap_three) 136 (lists_three i))
     \/
     (r <> NULL /\
      exists c, get_list_index 136 <= c < LIST_LIMIT /\
        (forall j, get_list_index 136 <= j < c ->
                   ~ fits (block_size heap_three) 136 (lists_three j)) /\
        best_in (block_size heap_three) 136 (lists_three c) r /\
        (forall b, In b (lists_three c) -> block_size heap_three b = 136 ->
                   first_exact (block_size heap_three) 136 (lists_three c) r))).
Proof.
  apply (find_fit_first_class_best_fit 100 heap_three 136 lists_three).
  - lia.
  - intros i Hi. change (get_list_index 136) with 14 in Hi.
    unfold LIST_LIMIT in Hi.
    assert (Hc : i = 14 \/ i = 15 \/ i = 16 \/ i = 17 \/ i = 18 \/ i = 19) by lia.
    destruct Hc as [->|[->|[->|[->|[->| ->]]]]]; solve_concrete.
  - intros i Hi. change (get_list_index 136) with 14 in Hi.
    unfold LIST_LIMIT in Hi.
    assert (Hc : i = 14 \/ i = 15 \/ i = 16 \/ i = 17 \/ i = 18 \/ i = 19) by lia.
    destruct Hc as [->|[->|[->|[->|[->| ->]]]]]; vm_compute; lia.
Defined.

Lemma mm_check_ignores_class_witness :
  In 4192 (lists_misfiled 3) /\
  get_list_index (block_size heap_misfiled 4192) = 18 /\
  mm_check 100 heap_misfiled = Some (Return 1).
Proof.
  split; [left; reflexivity|]. split; [vm_compute; reflexivity|].
  apply (mm_check_ignores_class 100 heap_misfiled [4184; 4192] 8288
                                lists_misfiled 3 4192).
  - constructor; solve_concrete.
  - unfold LIST_LIMIT; lia.
  - left; reflexivity.
  - vm_compute; discriminate.
  - simpl; lia.
  - intros j Hj. unfold lists_misfiled. destruct (j =? 3); simpl; lia.
Defined.

Lemma place_splits_or_consumes_witness :
  GET (place heap_init 4192 24) (HDRP 4192) = PACK 24 1 /\
  GET (place heap_init 4192 24) (4192 + 24 - DSIZE) = PACK 24 1 /\
  GET (place heap_init 4192 24) (HDRP (4192 + 24)) = PACK (4096 - 24) 0 /\
  GET (place heap_init 4192 24) (4192 + 4096 - DSIZE) = PACK (4096 - 24) 0 /\
  heap_inv (place heap_init 4192 24) [(24, true); (4096 - 24, false)]
           (enlist (unlist lists_init (get_list_index 4096) 4192)
                   (get_list_index (4096 - 24)) (4192 + 24)).
Proof.
  apply (place_splits_or_consumes heap_init [] [] lists_init 4096 24).
  - exact heap_init_inv.
  - reflexivity.
  - lia.
  - lia.
Defined.

Lemma coalesce_immediately_witness :
  (heap_inv (mm_free heap_one 4192) [(4096, false)]
            (coalesced_lists lists_one 4192 [] 32 [(4064, false)]) /\
   GET (mm_free heap_one 4192) (HDRP 4192) = PACK 4096 0 /\
   seg_get (mm_free heap_one 4192) (get_list_index 4096) = 4192 /\
   no_adjacent_free [(4096, false)]) /\
  (fst (extend_heap heap_full 1024) = 8288 /\
   heap_inv (snd (extend_heap heap_full 1024)) [(4096, true); (4096, false)]
            (coalesced_lists lists_none 8288 [(4096, true)] 4096 []) /\
   no_adjacent_free [(4096, true); (4096, false)]).
Proof.
  split.
  - destruct (proj1 (coalesce_immediately heap_one lists_one)
                    [] [(4064, false)] 32) as (_ & A & B & _ & C & D).
    + exact heap_one_inv.
    + concrete.
    + split; [exact A|]. split; [exact B|]. split; [exact C|exact D].
  - destruct (proj2 (coalesce_immediately heap_full lists_none)
                    [(4096, true)] 1024) as (A & _ & B & _ & _ & _ & C).
    + exact heap_full_inv.
    + concrete.
    + lia.
    + lia.
    + vm_compute. discriminate.
    + vm_compute. discriminate.
    + reflexivity.
    + split; [exact A|]. split; [exact B|exact C].
Defined.

Lemma realloc_absorbs_next_witness :
  exists h',
    mm_realloc 100 heap_one 4192 56 = Some (4192, h') /\
    4192 <> NULL /\
    (forall j, 0 <= j < LIST_LIMIT ->
               ~ In (4192 + 32) (unlist lists_one (get_list_index 4064)
                                        (4192 + 32) j)) /\
    GET h' (HDRP 4192) = PACK (32 + 4064) 1 /\
    GET h' (4192 + (32 + 4064) - DSIZE) = PACK (32 + 4064) 1 /\
    heap_inv h' [(32 + 4064, true)]
             (unlist lists_one (get_list_index 4064) (4192 + 32)) /\
    (forall a, 4192 <= a < 4192 + 32 - DSIZE -> mem h' a = mem heap_one a).
Proof.
  apply (realloc_absorbs_next 100 heap_one [] [] lists_one 32 4064 56).
  - exact heap_one_inv.
  - lia.
  - vm_compute. reflexivity.
  - vm_compute. discriminate.
Defined.

Lemma malloc_contract_without_wrap_witness :
  malloc_contract 100 heap_init 24 /\
  (forall p h', mm_malloc 100 heap_init 24 = Some (p, h') ->
                (p = NULL <->
                 24 = 0 \/
                 (no_fit heap_init [(4096, false)] (adjust_size 24) /\
                  provider_refuses heap_init (MAX (adjust_size 24) CHUNKSIZE))) /\
                exists bl' lists', heap_inv h' bl' lists').
Proof.
  apply (malloc_contract_without_wrap 100 heap_init [(4096, false)] lists_init 24).
  - exact heap_init_inv.
  - vm_compute. reflexivity.
  - unfold SIZE_MAX. lia.
  - intros j Hj. unfold lists_init. destruct (j =? 18); simpl; lia.
Defined.

(** [mm_malloc(SIZE_MAX)] right after [mm_init] returns the block at 4192
    with a total size of 8 bytes: no payload at all. *)
Lemma malloc_contract_fails_on_wrap : ~ malloc_contract 100 heap_init SIZE_MAX.
Proof.
  intros (p & h' & E & [F|F] & _).
  - subst p. vm_compute in E. discriminate E.
  - destruct F as (_ & _ & F & _).
    assert (E' : mm_malloc 100 heap_init SIZE_MAX =
                 Some (4192, place heap_init 4192 (adjust_size SIZE_MAX))).
    { vm_compute. reflexivity. }
    rewrite E' in E. apply some_pair_inj in E. destruct E as (Ep & Eh).
    rewrite <- Eh, <- Ep in F.
    vm_compute in F. apply F. reflexivity.
Qed.

Lemma adjust_size_overflow_witness :
  adjust_size SIZE_MAX = Z.land (wrap (SIZE_MAX + 15)) (Z.lnot 7) /\
  adjust_size SIZE_MAX < 16 /\ adjust_size SIZE_MAX < SIZE_MAX /\
  (forall fuel h bp,
      find_fit fuel h (adjust_size SIZE_MAX) = Some bp -> bp <> NULL ->
      mm_malloc fuel h SIZE_MAX = Some (bp, place h bp (adjust_size SIZE_MAX))) /\
  (forall fuel h ptr,
      ptr <> NULL -> adjust_size SIZE_MAX <= block_size h ptr ->
      mm_realloc fuel h ptr SIZE_MAX = Some (ptr, h)).
Proof. apply (adjust_size_overflow SIZE_MAX). unfold SIZE_MAX. lia. Defined.

(** * The further properties at concrete heaps *)

Lemma heap_two_inv :
  heap_inv heap_two [(32, true); (32, true); (4032, false)] lists_two.
Proof. unfold classes. concrete. Qed.

Lemma heap_split_pre :
  heap_pre heap_split [(32, false); (4064, false)] lists_one.
Proof. unfold classes. concrete. Qed.

Lemma heap_lost_pre : heap_pre heap_lost [(4096, false)] lists_none.
Proof. unfold classes. concrete. Qed.

Ltac short_lists :=
  let j := fresh "j" in
  intros j _; unfold lists_one, lists_two; destruct (j =? 18); simpl; lia.

Lemma get_list_index_classes_witness :
  get_list_index 64 = 64 / 8 - 2 /\
  (get_list_index 300 = 14 + 1 <-> 128 * 2 ^ 1 < 300 <= 256 * 2 ^ 1).
Proof.
  split.
  - apply (proj1 (get_list_index_classes 64)); [lia | reflexivity].
  - apply (proj1 (proj2 (proj2 (get_list_index_classes 300))) 1). lia.
Defined.

Lemma mm_check_sound_witness :
  1 = 1 /\ exists bps stop lists, audits heap_init bps stop lists.
Proof.
  apply (mm_check_sound 100 heap_init 1). vm_compute. reflexivity.
Defined.

Lemma mm_check_accepts_well_formed_witness :
  mm_check 100 heap_one = Some (Return 1).
Proof.
  apply (mm_check_accepts_well_formed 100 heap_one
                                      [(32, true); (4064, false)] lists_one).
  - exact heap_one_inv.
  - concrete.
  - vm_compute. discriminate.
  - simpl. lia.
Defined.

Lemma mm_check_reports_uncoalesced_witness :
  mm_check 100 heap_split
  = Some (Exit (NotCoalesced (first_block heap_split + total []))).
Proof.
  apply (mm_check_reports_uncoalesced 100 heap_split [] [] 32 4064 lists_one).
  - exact heap_split_pre.
  - concrete.
  - simpl. lia.
Defined.

Lemma mm_init_establishes_witness :
  fst (mm_init heap_fresh) = 0 /\
  seg_list (snd (mm_init heap_fresh)) = mem_brk heap_fresh /\
  mem_brk (snd (mm_init heap_fresh)) = mem_brk heap_fresh + 96 + 4096 /\
  heap_inv (snd (mm_init heap_fresh)) [(4096, false)]
           (fun i => if i =? 18 then [mem_brk heap_fresh + 96] else []) /\
  no_adjacent_free [(4096, false)].
Proof.
  apply (mm_init_establishes heap_fresh).
  - vm_compute. reflexivity.
  - vm_compute. reflexivity.
  - vm_compute. discriminate.
  - vm_compute. reflexivity.
Defined.

Lemma mm_init_fails_witness :
  mm_init heap_tiny = (-1, set_seg_list heap_tiny MINUS_ONE) /\
  fst (mm_init heap_small) = -1 /\
  mem_brk (snd (mm_init heap_small)) = mem_brk heap_small + 96 /\
  heap_inv (snd (mm_init heap_small)) [] lists_none.
Proof.
  split.
  - apply (proj1 (mm_init_fails heap_tiny)). vm_compute. reflexivity.
  - apply (proj2 (mm_init_fails heap_small)).
    + vm_compute. reflexivity.
    + vm_compute. reflexivity.
    + vm_compute. discriminate.
    + vm_compute. reflexivity.
    + vm_compute. reflexivity.
Defined.

Lemma mm_malloc_keeps_allocated_witness :
  exists p h' bl' lists',
    mm_malloc 100 heap_one 24 = Some (p, h') /\
    heap_inv h' bl' lists' /\ first_block h' = first_block heap_one /\
    (forall y t,
        In (y, (t, true))
           (block_starts (first_block heap_one) [(32, true); (4064, false)]) ->
        In (y, (t, true)) (block_starts (first_block heap_one) bl') /\
        (forall a, y <= a < y + t - DSIZE -> mem h' a = mem heap_one a)) /\
    (p <> NULL ->
     exists s,
       In (p, (s, true)) (block_starts (first_block heap_one) bl') /\
       24 + DSIZE <= s /\
       (forall t, ~ In (p, (t, true))
                     (block_starts (first_block heap_one)
                                   [(32, true); (4064, false)])) /\
       (forall y t,
           In (y, (t, true))
              (block_starts (first_block heap_one)
                            [(32, true); (4064, false)]) ->
           y + t <= p \/ p + s <= y)).
Proof.
  apply (mm_malloc_keeps_allocated 100 heap_one [(32, true); (4064, false)]
                                   lists_one 24).
  - exact heap_one_inv.
  - vm_compute. reflexivity.
  - vm_compute. split; discriminate.
  - short_lists.
Defined.

Lemma mm_malloc_grows_on_miss_witness :
  let asize := adjust_size 24 in
  let bl := [(4096, true)] in
  exists p h',
    mm_malloc 100 heap_full 24 = Some (p, h') /\
    ((exists x s, In (x, (s, false)) (block_starts (first_block heap_full) bl) /\
                  asize <= s) ->
     p <> NULL /\ mem_brk h' = mem_brk heap_full /\
     exists s, In (p, (s, false)) (block_starts (first_block heap_full) bl) /\
               asize <= s) /\
    (no_fit heap_full bl asize ->
     mem_brk heap_full + Z.max asize CHUNKSIZE <= mem_max_addr heap_full ->
     p <> NULL /\ mem_brk h' = mem_brk heap_full + Z.max asize CHUNKSIZE).
Proof.
  apply (mm_malloc_grows_on_miss 100 heap_full [(4096, true)] lists_none 24).
  - exact heap_full_inv.
  - vm_compute. reflexivity.
  - vm_compute. split; [reflexivity | discriminate].
  - intros j _. simpl. lia.
Defined.

Lemma mm_free_keeps_allocated_witness :
  let h := heap_two in
  let pre := [(32, true)] in
  let post := [(4032, false)] in
  let s := 32 in
  let ptr := first_block h + total pre in
  let h' := mm_free h ptr in
  let bl' := coalesced_blocks pre s post in
  let bp := coalesced_start ptr pre in
  let size := coalesced_size pre s post in
  heap_inv h' bl' (coalesced_lists lists_two ptr pre s post) /\
  GET h' (HDRP bp) = PACK size 0 /\
  GET h' (bp + size - DSIZE) = PACK size 0 /\
  mem_brk h' = mem_brk h /\
  first_block h' = first_block h /\
  In (bp, (size, false)) (block_starts (first_block h') bl') /\
  bp <= ptr /\ ptr + s <= bp + size /\
  forall y t,
    In (y, (t, true)) (block_starts (first_block h) (pre ++ (s, true) :: post)) ->
    y <> ptr ->
    In (y, (t, true)) (block_starts (first_block h') bl') /\
    GET h' (HDRP y) = PACK t 1 /\
    (forall a, y <= a < y + t - DSIZE -> mem h' a = mem h a).
Proof.
  apply (mm_free_keeps_allocated heap_two [(32, true)] [(4032, false)] 32
                                 lists_two).
  exact heap_two_inv.
Defined.

Lemma malloc_free_restores_layout_witness :
  exists p h',
    mm_malloc 100 heap_one 24 = Some (p, h') /\
    p <> NULL /\
    exists lists'' cs,
      heap_inv (mm_free h' p) [(32, true); (4064, false)] lists'' /\
      mem_brk (mm_free h' p) = mem_brk heap_one /\
      In (p, (cs, false))
         (block_starts (first_block heap_one) [(32, true); (4064, false)]) /\
      seg_get (mm_free h' p) (get_list_index cs) = p.
Proof.
  apply (malloc_free_restores_layout 100 heap_one [(32, true); (4064, false)]
                                     lists_one 24).
  - exact heap_one_inv.
  - concrete.
  - vm_compute. reflexivity.
  - vm_compute. split; [reflexivity | discriminate].
  - short_lists.
  - exists 4224, 4064. split; [right; left; reflexivity | vm_compute; discriminate].
Defined.

Lemma realloc_moves_block_witness :
  let h := heap_two in
  let pre := @nil block in
  let post := [(4032, false)] in
  let old := 32 in
  let size := 100 in
  let fb := first_block h in
  let bl := pre ++ (old, true) :: (32, true) :: post in
  let ptr := fb + total pre in
  exists newptr h',
    mm_realloc 100 h ptr size = Some (newptr, h') /\
    (exists hm, mm_malloc 100 h size = Some (newptr, hm)) /\
    (newptr = NULL <->
     no_fit h bl (adjust_size size) /\
     mem_max_addr h < mem_brk h + Z.max (adjust_size size) CHUNKSIZE) /\
    (newptr = NULL -> h' = h) /\
    (newptr <> NULL ->
     newptr <> ptr /\
     (forall k, 0 <= k < old - DSIZE -> mem h' (newptr + k) = mem h (ptr + k)) /\
     exists bl' lists',
       heap_inv h' bl' lists' /\ first_block h' = fb /\
       (exists s, In (newptr, (s, true)) (block_starts fb bl') /\
                  size + DSIZE <= s) /\
       (forall t, ~ In (ptr, (t, true)) (block_starts fb bl')) /\
       (forall y t, In (y, (t, true)) (block_starts fb bl) -> y <> ptr ->
                    In (y, (t, true)) (block_starts fb bl') /\
                    (forall a, y <= a < y + t - DSIZE -> mem h' a = mem h a))).
Proof.
  apply (realloc_moves_block 100 heap_two [] [(4032, false)] lists_two
                             32 32 true 100).
  - exact heap_two_inv.
  - vm_compute. reflexivity.
  - vm_compute. split; [reflexivity | discriminate].
  - short_lists.
  - vm_compute. reflexivity.
  - left. reflexivity.
Defined.

Lemma insert_node_lifo_witness :
  let h := heap_lost in
  let i := get_list_index 4096 in
  let h' := insert_node h 4192 4096 in
  seg_get h' i = 4192 /\
  GET_PRED h' 4192 = NULL /\
  GET_SUCC h' 4192 = seg_get h i /\
  (seg_get h i <> NULL -> GET_PRED h' (seg_get h i) = 4192) /\
  (forall j, 0 <= j < LIST_LIMIT -> j <> i -> seg_get h' j = seg_get h j) /\
  heap_pre h' [(4096, false)] (enlist lists_none i 4192).
Proof.
  apply (insert_node_lifo heap_lost [(4096, false)] lists_none 4192 4096).
  - exact heap_lost_pre.
  - left. reflexivity.
  - intros j _ [].
Defined.

Lemma insert_delete_round_trip_witness :
  let h := heap_lost in
  let h' := delete_node (insert_node h 4192 4096) 4192 in
  heap_pre h' [(4096, false)] lists_none /\
  (forall a, a mod 4 = 0 -> a <> 4192 -> a <> 4192 + 4 -> GET h' a = GET h a).
Proof.
  apply (insert_delete_round_trip heap_lost [(4096, false)] lists_none
                                  4192 4096).
  - exact heap_lost_pre.
  - left. reflexivity.
  - intros j _ [].
Defined.

Lemma reachable_one : reachable heap_one [4192].
Proof.
  apply (reach_malloc heap_init [] 100 24 4192 heap_one).
  - apply (reach_init heap_fresh).
    + vm_compute. reflexivity.
    + vm_compute. reflexivity.
    + vm_compute. discriminate.
    + vm_compute. discriminate.
    + vm_compute. reflexivity.
  - vm_compute. split; discriminate.
  - vm_compute. reflexivity.
Qed.

Lemma reachable_well_formed_witness :
  exists bl lists,
    heap_inv heap_one bl lists /\
    no_adjacent_free bl /\
    NoDup [4192] /\
    (forall p, In p [4192] <->
               exists s, In (p, (s, true))
                            (block_starts (first_block heap_one) bl)) /\
    (forall fuel, (S (length bl) < fuel)%nat ->
                  mm_check fuel heap_one = Some (Return 1)).
Proof.
  apply (reachable_well_formed heap_one [4192]). exact reachable_one.
Defined.

Lemma mm_realloc_contract_witness :
  let h := heap_one in
  let bl := [(32, true); (4064, false)] in
  let p := 4192 in
  let old := 32 in
  let size := 56 in
  let fb := first_block h in
  exists q h',
    mm_realloc 100 h p size = Some (q, h') /\
    (q = NULL -> h' = h) /\
    (q <> NULL ->
     (forall k, 0 <= k < old - DSIZE -> mem h' (q + k) = mem h (p + k)) /\
     exists bl' lists',
       heap_inv h' bl' lists' /\ no_adjacent_free bl' /\
       first_block h' = fb /\
       (exists s, In (q, (s, true)) (block_starts fb bl') /\ size + DSIZE <= s) /\
       (q <> p -> forall t, ~ In (p, (t, true)) (block_starts fb bl')) /\
       (forall y t, In (y, (t, true)) (block_starts fb bl) -> y <> p ->
                    In (y, (t, true)) (block_starts fb bl') /\
                    (forall a, y <= a < y + t - DSIZE -> mem h' a = mem h a))).
Proof.
  apply (mm_realloc_contract 100 heap_one [(32, true); (4064, false)]
                             lists_one 4192 32 56).
  - exact heap_one_inv.
  - concrete.
  - vm_compute. reflexivity.
  - left. reflexivity.
  - vm_compute. split; [reflexivity | discriminate].
  - short_lists.
Defined.

Lemma adjust_size_least_witness :
  adjust_size 24 mod 8 = 0 /\
  16 <= adjust_size 24 /\
  24 + DSIZE <= adjust_size 24 /\
  forall s, s mod 8 = 0 -> 16 <= s -> 24 + DSIZE <= s -> adjust_size 24 <= s.
Proof.
  apply (adjust_size_least 24). vm_compute. split; discriminate.
Defined.

Lemma find_fit_complete_witness :
  let h := heap_one in
  let bl := [(32, true); (4064, false)] in
  let asize := 32 in
  exists r,
    find_fit 100 h asize = Some r /\
    (r = NULL <-> no_fit h bl asize) /\
    (r <> NULL ->
     exists s,
       In (r, (s, false)) (block_starts (first_block h) bl) /\ asize <= s /\
       forall x t,
         In (x, (t, false)) (block_starts (first_block h) bl) -> asize <= t ->
         get_list_index s <= get_list_index t /\
         (get_list_index t = get_list_index s -> s <= t)).
Proof.
  apply (find_fit_complete 100 heap_one [(32, true); (4064, false)] lists_one 32).
  - exact heap_one_inv.
  - lia.
  - short_lists.
Defined.

Lemma free_then_malloc_reuses_witness :
  let h := heap_one in
  let pre := @nil block in
  let s := 32 in
  let size := 4088 in
  let ptr := first_block h + total pre in
  let h1 := mm_free h ptr in
  let bp := coalesced_start ptr pre in
  mm_malloc (S 100) h1 size = Some (bp, place h1 bp (adjust_size size)) /\
  bp <= ptr /\ ptr + s <= bp + adjust_size size.
Proof.
  apply (free_then_malloc_reuses 100 heap_one [] [(4064, false)] 32 lists_one
                                 4088).
  - exact heap_one_inv.
  - vm_compute. split; [reflexivity | discriminate].
  - vm_compute. reflexivity.
Defined.

Lemma mm_check_reports_lost_block_witness :
  exists by_heap by_list,
    by_list < by_heap /\
    mm_check 100 heap_lost = Some (Exit (CountMismatch by_heap by_list)).
Proof.
  apply (mm_check_reports_lost_block 100 heap_lost [(4096, false)] lists_none
                                     4192 4096).
  - exact heap_lost_pre.
  - concrete.
  - vm_compute. discriminate.
  - left. reflexivity.
  - intros j _ [].
  - simpl. lia.
Defined.

Lemma heap_empty_inv : heap_inv heap_empty [] lists_none.
Proof. unfold classes. concrete. Qed.

Lemma mm_malloc_fails_cleanly_witness :
  heap_empty = heap_empty /\
  (24 = 0 \/
   (no_fit heap_empty [] (adjust_size 24) /\
    mem_max_addr heap_empty
    < mem_brk heap_empty + Z.max (adjust_size 24) CHUNKSIZE)).
Proof.
  apply (mm_malloc_fails_cleanly 100 heap_empty [] lists_none 24 heap_empty).
  - exact heap_empty_inv.
  - vm_compute. reflexivity.
  - vm_compute. split; discriminate.
  - intros j _. simpl. lia.
  - vm_compute. reflexivity.
Defined.

(** * The cache simulator on an example run *)

Section CsimExamples.
Import Csim.

Lemma example_cold_shaped : shaped example_cold.
Proof.
  apply allocateCache_shaped; vm_compute;
    try (split; discriminate); try reflexivity; discriminate.
Qed.

Lemma example_warm_shaped : shaped example_warm.
Proof. apply accessCache_shaped. exact example_cold_shaped. Qed.

Lemma example_warm_cached : cached example_warm 16.
Proof.
  exists 0. split; [vm_compute; split; [discriminate | reflexivity]|].
  split; [vm_compute; discriminate | vm_compute; reflexivity].
Qed.

Lemma address_split_witness :
  0 <= set_index_of example_options 272 < 2 ^ s example_options /\
  0 <= tag_of example_options 272 < 2 ^ 64 /\
  272 = (tag_of example_options 272 * 2 ^ s example_options
         + set_index_of example_options 272) * 2 ^ b example_options
        + 272 mod 2 ^ b example_options /\
  (set_index_of example_options 272 = set_index_of example_options 280 /\
   tag_of example_options 272 = tag_of example_options 280
   <-> 272 / 2 ^ b example_options = 280 / 2 ^ b example_options).
Proof.
  apply (address_split example_options 272 280); vm_compute;
    first [discriminate | reflexivity | split; first [discriminate | reflexivity]].
Defined.

Lemma summary_accounts_witness :
  4 + 5 = accesses example_trace /\
  0 <= 4 /\ 0 <= 3 <= 5 /\ 5 <= accesses example_trace /\
  4 < 2 ^ 31 /\ 5 < 2 ^ 31 /\ 3 < 2 ^ 31.
Proof.
  apply (summary_accounts example_options
                          (snd (main example_options (Some (Some example_trace))))
                          example_trace 4 5 3);
    vm_compute;
    first [reflexivity | split; first [reflexivity | discriminate]].
Defined.

Lemma hit_iff_cached_witness :
  hit_count (accessCache example_warm 24) = hit_count example_warm + 1 /\
  miss_count (accessCache example_warm 24) = miss_count example_warm /\
  eviction_count (accessCache example_warm 24) = eviction_count example_warm.
Proof.
  apply (hit_iff_cached example_warm 24 example_warm_shaped).
  exists 0. split; [vm_compute; split; [discriminate | reflexivity]|].
  split; [vm_compute; discriminate | vm_compute; reflexivity].
Defined.

Lemma access_caches_block_witness :
  let st1 := accessCache example_cold 16 in
  let st2 := accessCache st1 24 in
  cached st1 24 /\
  hit_count st2 = hit_count st1 + 1 /\ miss_count st2 = miss_count st1 /\
  eviction_count st2 = eviction_count st1 /\
  forall size,
    hit_count example_cold + 1
    <= hit_count (main_step example_cold (op_M, 16, size)).
Proof.
  apply (access_caches_block example_cold 16 24 example_cold_shaped).
  vm_compute. reflexivity.
Defined.

Lemma eviction_only_loss_witness :
  cached (accessCache example_warm 272) 16 \/
  (set_index_of example_warm 16 = set_index_of example_warm 272 /\
   eviction_count (accessCache example_warm 272)
   = eviction_count example_warm + 1).
Proof.
  apply (eviction_only_loss example_warm 272 16 example_warm_shaped).
  exact example_warm_cached.
Defined.



End CsimExamples.
